(* ===== verification/_CoqProject ===== *)
-Q . S2P
Prelude.v
Bitops.v
IdSlots.v
JobId.v
SsdCache.v
ThreadPool.v
CString.v
CliCodec.v
CliSerdes.v
CFormat.v
Policy.v
FilesDb.v
BdsList.v
SlabLayout.v
Slab.v
JobQueue.v
SfsdPool.v
Dispatcher.v
RbTree.v
OssTree.v
KeyTree.v
RbRemove.v
LockTree.v
JobTrees.v
StorageTree.v
Completion.v
ReadRace.v
InodeStore.v
InodeFields.v
Xattr.v
Memcache.v
Cache.v
FileOps.v
FileSpec.v
FileProps.v
IoPath.v
Removal.v
Chunks.v
Daemon.v
DaemonProps.v
