(* ===== verification/Prelude.v ===== *)
(** * SeamlessStack: a verification of its core

    SeamlessStack is a distributed file system. The process [sfs] serves FUSE
    requests: it cuts them into jobs, queues the jobs, sends them to the
    storage daemons [sfsd] and wakes the FUSE thread up when the answers are
    in. The metadata of a file is an inode record in a database. The program
    [sfscli] configures the system over a socket. This library models the C
    code that carries that logic and proves what it does; where the code
    does not do what it means to, the theorem states what it does instead.

    ** The parts and the files that model them

    - [Prelude] (this file): machine integers as [Z] with their wrap-around
      ([uwrap], [swrap]), the result of C code ([outcome]: a value, or a fault
      such as an access out of bounds or a wait that nothing ends), its
      notation and tactics, and lemmas on lists shared by all files.
    - [Bitops]: the bit macros of common/include/sstack_bitops.h on byte
      arrays. [IdSlots]: the search for a free slot that the next two share.
    - [JobId]: [get_next_job_id], [free_job_id], [sfs_job_init] of
      sfs/src/sfs_job.c with their mutex, and the way the file operations of
      sfs/src/sfs_entry.c draw ids.
    - [SsdCache]: lib/ssdcache/src/sstack_ssdcache.c, devices, cache lines,
      metadata and store.
    - [ThreadPool]: common/src/sstack_thread_pool.c, as a transition system:
      a step is one critical section of [pool_mutex] of some worker or client,
      or a wake-up that nobody asked for.
    - [CString], [CliCodec], [CliSerdes]: the wire format between [sfscli] and
      [sfs], the macros of cli/include/sfscli.h and the functions of
      cli/src/sfscli_serdes.c.
    - [BdsList]: the intrusive lists of common/include/bds_slab/bds_list.h on
      a heap of list heads. [JobQueue]: the queues of sfs/src/sfs_job.c on
      them. [Dispatcher]: a round of [sfs_dispatcher] of sfs/src/sfs.c.
    - [RbTree]: search and insertion of oss/rb.h. [StorageTree]: the storage
      devices of sfs/include/sfs_storage_tree.h on it. [OssTree]: the tree of
      oss/rbtree/red_black_tree.c, which the caches use.
    - [KeyTree]: the interface of the trees that rb.h generates, with an
      instance by finite maps. [RbRemove]: removal and iteration of rb.h, and
      the trees of rb.h as an instance of the interface. [LockTree]: the inode locks of
      sfs/include/sfs_lock_tree.h. [JobTrees]: sfs/include/sfs_jobid_tree.h,
      sfs/include/sfs_jobmap_tree.h and the job maps of sfs/src/sfs_job.c.
    - [Completion]: the handling of the answers of a storage daemon,
      [sfs_process_payload] and the functions it calls in sfs/src/sfs.c.
      [ReadRace]: the answers to reads handled by several threads at a time.
    - [InodeStore]: the inode records of common/src/sstack_helper.c, byte by
      byte. [Xattr]: the extended attributes of sfs/src/sfs_entry.c, the
      handlers on top of [LockTree] and [InodeStore].
    - [IoPath]: [sfs_read] and [sfs_write] of sfs/src/sfs_entry.c with all
      that they call; it composes the components above.
    - [InodeFields]: the fields of an inode in its record. [FileOps]: the
      operations on names and attributes of sfs/src/sfs_entry.c, from
      [sfs_getattr] to [sfs_utimens], which find the names through [Memcache].
      [FileSpec]: the two tables that they
      implement, and the refinement of each operation. [FileProps]: the theorems.
      [Removal]: [sfs_unlink] and [sfs_rmdir], on top of [IoPath].
    - [CFormat]: printing and parsing of numbers and strings by the C library.
      [Policy]: the policy engine of policy/src/policy.c, the table of plugins,
      the search table, submission, deletion, listing and lookup of policies.
    - [SfsdPool]: the pools of storage daemons by weight of
      sfs/src/sfs_helper.c, on the lists of [BdsList].
    - [Memcache]: the client of memcached of lib/memcache/src/sstack_cache_api.c.
      [Cache]: the two-tier cache of lib/cache/src/sstack_cache.c and
      sstack_lrucache.c, on two trees of [OssTree] and on [Memcache].
    - [FilesDb]: the database of compressed files of db/filesdb/src/files_db.c.
    - [Chunks]: the chunks of a storage daemon, sfsd/src/sfsd_chunk.c. [Daemon]:
      the commands of a storage daemon, [handle_command] of
      sfsd/src/sfsd_threads.c and the functions of sfsd/src/sfsd_ops.c.
      [DaemonProps]: the theorems on them.
    - [SlabLayout], [Slab]: the slab allocator of common/src/bds_slab/bds_slab.c,
      the layout of a cache, and its slabs on the lists of [BdsList].

    A FUSE thread takes the lock of an inode ([LockTree]), reads its record
    ([InodeStore]), draws job ids ([JobId]), enters the jobs in the trees
    ([JobTrees]) and submits them ([JobQueue], or through [ThreadPool]); the
    dispatcher sends them ([Dispatcher]); the threads that serve a connection
    process the answers ([Completion]), which frees or signals what the FUSE
    thread waits for. [IoPath] runs this for one request; what the other
    threads do at its three points of waiting is an argument.

    ** What the theorems show

    - Refinement: the lock tree implements a map from inode numbers to lock
      modes ([locks_refine]); the job queues implement lists of jobs, one per
      priority ([queues_refine]); the two job trees implement finite maps
      ([job_trees_refine]); the operations on names and attributes implement a
      table of names and a table of attributes ([file_ops_refine]); the two-tier
      cache implements a table from digests to data ([cache_refines]), the file
      database a map from keys to records ([files_db_refines]), the chunks of a
      daemon a list that refuses every update and most removals
      ([chunks_refine]), the pools of daemons eight lists
      ([pools_refine]); the two red-black trees implement finite maps
      ([rb_tree_laws], which meets the interface [KeyTree], and
      [oss_tree_refines]).
    - Invariants and progress: the counters of the pool agree with its threads
      in every reachable state ([pool_counters]); a queued job has a worker
      that will take it ([queued_job_has_worker]), a waiting client has work
      that it waits for ([waiting_client_has_work]), jobs start in the order
      in which they were queued ([jobs_start_in_order]).
    - Function: insertion in a red-black tree keeps order, colours and black
      height and adds one key ([rb_insert_correct]), and its path fits in the
      array of the C code ([rb_path_fits]); a round of the dispatcher
      ([dispatch_round_spec]); when several threads handle the answers to the reads
      of a client, the client is signalled, and only after every answer was
      counted ([reads_interleaved]), once when the answers are handled one
      after another ([reads_signal_once]); the job ids that are
      handed out ([first_job_ids], [get_next_job_id_sound]).
    - Whole requests: a read and a first write return what the storage daemon
      answered and clean up after themselves ([sfs_read_delivers],
      [first_write_delivers]); a read returns its lock ([sfs_read_locks]); on a
      daemon, what the first write of a file stored is read back
      ([write_then_read]), and new extents go round the chunks
      ([schedule_fair]).
    - Round trips: the commands on the wire ([storage_roundtrip],
      [policy_roundtrip], [sfsd_roundtrip]), inode records ([inode_roundtrip]),
      cache lines ([ssd_entry_roundtrip]).
    - Errors and locks: every exit of the attribute handlers releases the lock
      of the inode ([xattr_ops_release_lock]), and so does [sfs_unlink]
      ([removal_locks]); refused messages and parameters ([bad_magic_refused],
      [bad_params_refused]).
    - Policies: the lookup is the choice of the most specific rule that applies
      ([get_policy_most_specific]); the table of plugins stays well formed
      ([plugin_table_ok]); keys are read back ([policy_key_roundtrip]).
    - Memory: the objects of a cache lie in their slab ([objects_in_slab]); the
      allocator implements the set of objects in use ([slab_refines]); the
      collector and the destruction of a cache take no more than they may
      ([collect_keeps_live], [destroy_gives_back]).
    - What the code does against its intent: each such theorem states the
      exact behaviour, with the input that shows it ([job_ids_exhausted],
      [second_extent_lost], [write_never_completes], [inner_read_fails],
      [early_answer_lost], [removal_never_completes], [rename_loses_file],
      [symlink_unreadable], [second_write_hangs], [same_second_clash],
      [signalled_early_and_twice], [unwritten_removal_faults],
      [huge_pool_has_no_worker], [full_store_never_returns],
      [purge_takes_other_entry], [servers_pushed_repeatedly] and others).

    ** Interfaces and parameters

    [KeyTree] states what a tree promises and [InodeDb] (in [InodeStore]) what
    a database plugin promises, [JudySL] and [PolicyDb] (in [Policy]) what the
    Judy arrays and the database promise to the policy engine, [Posix] (in
    [FileOps]) the calls of the file system below, [Memcached] and [Servers] (in
    [Memcache]) those of libmemcached, [Disk] and [PathCalls] (in [Daemon])
    those of the file system of a daemon, [Gz] (in [FilesDb]) those of zlib;
    [MemcachedUp], [ServersUp], [DbUp], [DiskUp] and [GzUp] say that the services
    work ([DiskUp] for the offsets and lengths that [O_DIRECT] admits),
    [PosixRemoves] (in [Removal]) that a removal below that succeeds removes the
    path, [Memcmp] (in [Cache]) what the C standard says of memcmp, and
    [Ordering] (in [OssTree]) what a tree asks of its comparison. The theorems of their clients hold for every instance, and the
    witnesses use a concrete one. What the environment
    answers is an argument: the outcome of an allocation, of a system call, of
    the reverse lookup in memcached, the bytes [malloc] leaves in a fresh
    block ([CliSerdes]) and the value of an [int] shift that overflows
    ([shl_over] in [CliCodec]).

    ** Bounds and fuel

    Sizes and layouts are those of an LP64 machine. The searches of [Bitops]
    and the loops over lists recurse on the data. Walks of the circular lists
    get the number of list heads as fuel, which no walk of a well-formed list
    exceeds. A round of the dispatcher gets 66, one more than the 65 jobs it
    can detach. The loops of a worker and of a client in [ThreadPool] run one
    critical section each, and [worker_blocks_end] shows that the
    fuel of a section is enough. [xattr_loops_end] shows that the loops over
    an attribute array end within its length. The loops of [sfs_read] and
    [sfs_write] need not end, which [inner_read_fails] is about; they take
    their fuel as an argument, and the theorems on whole requests show which
    fuel is enough. The walk of [leftmost_node] in [Cache] ends with no fuel. An allocation calls itself at most once, and the walk back
    to the descriptor of a slab passes at most the pages of one, as
    [slab_refines] shows. Fuel that runs out is never a result: it is [None],
    or the fault [Deadlock] for a walk that does not
    come back to its head.

    ** What is not modelled

    Sockets, mounts and configuration (start-up, transport, the socket server
    of the command line, [sfs_traceroute]); the clients of other databases
    (mongo, rocksdb, couchbase); generated code (protobuf and the packing of
    messages around it); calls of dlopen, OpenSSL, LZ4 and clish (plugins,
    validation of binaries, compression, command line); erasure coding by
    jerasure; the placement of data by sfs/src/sfs_idp.c, which is called from
    code that is compiled out only; vendored libraries apart from rb.h and
    rbtree. In the slab allocator, the chain of caches and the general caches; in
    [Cache], what [lru_demote_entries] does behind the call of [leftmost_node],
    which never returns; in [IoPath], the call of [get_policy] by [sfs_write],
    whose result is not used and which counts a user in the table of [Policy]
    only; in [Policy], the failures of [get_file_type], whose answer points into
    a dead stack frame and is an arbitrary string of the model.

    Freed memory stays readable in the model except where the theorems are
    about its use: a block that [realloc] moves ([InodeStore]), policies,
    chunks and cache entries. Memory is sequentially consistent and a critical
    section is atomic; the handlers of [ReadRace] are interleaved between
    their single accesses to shared memory. *)
From Stdlib Require Import ZArith Lia.
From stdpp Require Import base gmap list numbers.

#[global] Open Scope Z_scope.

(** * Machine integers

    A [w]-bit C integer is a [Z]; [uwrap] and [swrap] are the conversions to
    the unsigned and the two's-complement type of that width. *)

Definition uwrap (w n : Z) : Z := n mod 2 ^ w.

Definition swrap (w n : Z) : Z := (n + 2 ^ (w - 1)) mod 2 ^ w - 2 ^ (w - 1).

Lemma uwrap_range w n : 0 <= w -> 0 <= uwrap w n < 2 ^ w.
Proof. intros. apply Z.mod_pos_bound. lia. Qed.

Lemma uwrap_small w n : 0 <= n < 2 ^ w -> uwrap w n = n.
Proof. apply Z.mod_small. Qed.

Lemma swrap_range w n : 0 < w -> - 2 ^ (w - 1) <= swrap w n < 2 ^ (w - 1).
Proof.
  intros Hw. unfold swrap.
  assert (H2 : 2 ^ w = 2 * 2 ^ (w - 1)).
  { replace w with (1 + (w - 1)) at 1 by lia. rewrite Z.pow_add_r by lia. lia. }
  pose proof (Z.mod_pos_bound (n + 2 ^ (w - 1)) (2 ^ w)). lia.
Qed.

Lemma swrap_small w n : 0 < w -> - 2 ^ (w - 1) <= n < 2 ^ (w - 1) -> swrap w n = n.
Proof.
  intros Hw Hn. unfold swrap. rewrite Z.mod_small; [lia|].
  replace w with (1 + (w - 1)) at 3 by lia. rewrite Z.pow_add_r by lia. lia.
Qed.

(** A two's-complement reading agrees with the number modulo [2 ^ w]. *)
Lemma uwrap_swrap w n : 0 < w -> uwrap w (swrap w n) = uwrap w n.
Proof.
  intros Hw. unfold uwrap, swrap.
  rewrite Zminus_mod_idemp_l. f_equal. lia.
Qed.

(** Masking a number keeps it within its width. *)
Lemma land_bound w a b : 0 <= w -> 0 <= a < 2 ^ w -> 0 <= Z.land a b < 2 ^ w.
Proof.
  intros Hw Ha. rewrite <- (Z.mod_small a (2 ^ w)) by lia.
  rewrite <- Z.land_ones, <- Z.land_assoc, (Z.land_comm (Z.ones w)), Z.land_assoc, Z.land_ones by lia.
  apply Z.mod_pos_bound. lia.
Qed.

(** * Error numbers (the values of <errno.h> on Linux) *)

Definition ENOENT : Z := 2.
Definition EIO : Z := 5.
Definition EAGAIN : Z := 11.
Definition ENOMEM : Z := 12.
Definition EFAULT : Z := 14.
Definition EINVAL : Z := 22.

(** * Faults and state

    A C function runs on a state and either returns a value with the next
    state or goes wrong: it waits for a lock that its own thread never
    releases, dereferences NULL, leaves the bounds of an object, fails an
    assertion, uses an object that was never initialised, or one whose memory
    was given back, or divides by zero. *)

Inductive fault : Set :=
  | Deadlock
  | NullDeref
  | OutOfBounds
  | AssertFail
  | Uninit
  | UseAfterFree
  | DivByZero.

#[global] Instance fault_eq_dec : EqDecision fault.
Proof. solve_decision. Defined.

Inductive outcome (A : Type) : Type :=
  | Ret (a : A)
  | Fault (f : fault).
Arguments Ret {A} a.
Arguments Fault {A} f.

(** Sequencing of computations without a state. *)
Definition obind {A B} (o : outcome A) (k : A -> outcome B) : outcome B :=
  match o with Ret a => k a | Fault f => Fault f end.

Lemma obind_ret {A B} (o : outcome A) (k : A -> outcome B) b : obind o k = Ret b -> exists a, o = Ret a /\ k a = Ret b.
Proof. destruct o; [eauto|discriminate]. Qed.
Lemma Ret_inj {A} (a b : A) : Ret a = Ret b -> a = b.
Proof. by intros [= ->]. Qed.

Definition cprog (S A : Type) : Type := S -> outcome (A * S).

Definition cret {S A} (a : A) : cprog S A := fun s => Ret (a, s).

Definition cbind {S A B} (c : cprog S A) (k : A -> cprog S B) : cprog S B :=
  fun s => match c s with
           | Ret (a, s') => k a s'
           | Fault f => Fault f
           end.

Definition cfault {S A} (f : fault) : cprog S A := fun _ => Fault f.

Definition cget {S} : cprog S S := fun s => Ret (s, s).

Definition cput {S} (s : S) : cprog S unit := fun _ => Ret (tt, s).

Definition cmod {S} (f : S -> S) : cprog S unit := fun s => Ret (tt, f s).

(** Reading a cell that may be absent. *)
Definition cexpect {S A} (f : fault) (o : option A) : cprog S A :=
  match o with
  | Some a => cret a
  | None => cfault f
  end.

Declare Scope cprog_scope.
Delimit Scope cprog_scope with cprog.

Notation "'let!' x := c 'in' k" := (cbind c (fun x => k))
  (at level 10, x name, c at level 100, k at level 200) : cprog_scope.
Notation "'let!' ' p := c 'in' k" := (cbind c (fun p => k))
  (at level 10, p strict pattern, c at level 100, k at level 200) : cprog_scope.
Notation "c ;;; k" := (cbind c (fun _ => k))
  (at level 100, k at level 200, right associativity) : cprog_scope.

Lemma cbind_ret_l {S A B} (a : A) (k : A -> cprog S B) s :
  cbind (cret a) k s = k a s.
Proof. reflexivity. Qed.

Lemma cbind_assoc {S A B C} (c : cprog S A) (k : A -> cprog S B) (h : B -> cprog S C) s :
  cbind (cbind c k) h s = cbind c (fun a => cbind (k a) h) s.
Proof. unfold cbind. destruct (c s) as [[a s']|]; reflexivity. Qed.

(** Inverting a run that returned. *)
Lemma cbind_Ret {S A B} (c : cprog S A) (k : A -> cprog S B) s b s'' :
  cbind c k s = Ret (b, s'') ->
  exists a s', c s = Ret (a, s') /\ k a s' = Ret (b, s'').
Proof. unfold cbind. destruct (c s) as [[a s']|]; [eauto|discriminate]. Qed.

(** The first step of a run that returned. *)
Ltac inv_bind H :=
  let a := fresh "a" in let t := fresh "t" in let E := fresh "E" in
  apply cbind_Ret in H as (a & t & E & H).

(** A program that cannot wait for ever: whatever else goes wrong. *)
Definition quiet {S A} (c : cprog S A) : Prop := forall s, c s <> Fault Deadlock.

Lemma quiet_ret {S A} (a : A) : quiet (cret a : cprog S A).
Proof. by intros s. Qed.

Lemma quiet_bind {S A B} (c : cprog S A) (k : A -> cprog S B) : quiet c -> (forall a, quiet (k a)) -> quiet (cbind c k).
Proof. intros Hc Hk s. unfold cbind. specialize (Hc s). destruct (c s) as [[a s']|]; [apply Hk|]. by intros [= ->]. Qed.

Lemma quiet_fault {S A} f : f <> Deadlock -> quiet (cfault f : cprog S A).
Proof. intros Hf s [= H]. done. Qed.

Lemma quiet_get {S} : quiet (cget : cprog S S).
Proof. by intros s. Qed.

Lemma quiet_put {S} (x : S) : quiet (cput x).
Proof. by intros s. Qed.

Lemma quiet_expect {S A} f (o : option A) : f <> Deadlock -> quiet (cexpect f o : cprog S A).
Proof. intros Hf. destruct o; [apply quiet_ret|by apply quiet_fault]. Qed.

(** * Tactics *)

Create HintDb sstack.
Create HintDb quiet.
#[export] Hint Resolve quiet_ret quiet_bind quiet_get quiet_put : quiet.
#[export] Hint Extern 1 (quiet (cfault _)) => (apply quiet_fault; discriminate) : quiet.
#[export] Hint Extern 1 (quiet (cexpect _ _)) => (apply quiet_expect; discriminate) : quiet.
(** Case on what a program that is to be quiet branches on. *)
#[export] Hint Extern 2 (quiet (match ?x with _ => _ end)) => (destruct x) : quiet.
#[export] Hint Extern 2 (quiet (if ?x then _ else _)) => (destruct x) : quiet.
Create Rewrite HintDb sstack_rw.

(** Turn boolean comparisons into facts [lia] reads. *)
Ltac bool_to_Z :=
  repeat match goal with
  | H : _ && _ = true |- _ => apply andb_true_iff in H as [? ?]
  | H : _ && _ = false |- _ => apply andb_false_iff in H
  | H : _ || _ = false |- _ => apply orb_false_iff in H as [? ?]
  | H : _ || _ = true |- _ => apply orb_true_iff in H
  | H : negb _ = true |- _ => apply negb_true_iff in H
  | H : negb _ = false |- _ => apply negb_false_iff in H
  | H : (_ <? _) = true |- _ => apply Z.ltb_lt in H
  | H : (_ <? _) = false |- _ => apply Z.ltb_ge in H
  | H : (_ <=? _) = true |- _ => apply Z.leb_le in H
  | H : (_ <=? _) = false |- _ => apply Z.leb_gt in H
  | H : (_ =? _) = true |- _ => apply Z.eqb_eq in H
  | H : (_ =? _) = false |- _ => apply Z.eqb_neq in H
  end.

(** Case on the test of the first [if] of the goal, keeping its equation. *)
Ltac case_if :=
  match goal with
  | |- context [if ?b then _ else _] => destruct b eqn:?; bool_to_Z
  end.

(** Case on the test of an [if] in a hypothesis. *)
Ltac case_if_in H :=
  match type of H with
  | context [if ?b then _ else _] => destruct b eqn:?; bool_to_Z
  end.

(** * Lists used as C arrays *)

(** The least index from [i] on, below [i + fuel], at which [p] holds; the
    bound itself when there is none: the shape of
    [for (i = from; i < max; i++) if (p(i)) break;]. *)
Fixpoint scan_from (p : Z -> bool) (i : Z) (fuel : nat) : Z :=
  match fuel with
  | O => i
  | S fuel' => if p i then i else scan_from p (i + 1) fuel'
  end.

Lemma scan_from_range p i n : i <= scan_from p i n <= i + Z.of_nat n.
Proof.
  revert i. induction n as [|n IH]; intros i; simpl; [lia|].
  case_if; [lia|]. specialize (IH (i + 1)). lia.
Qed.

Lemma scan_from_hit p i n :
  scan_from p i n < i + Z.of_nat n -> p (scan_from p i n) = true.
Proof.
  revert i. induction n as [|n IH]; intros i; simpl; [lia|].
  case_if; [done|]. intros. apply IH. lia.
Qed.

Lemma scan_from_least p i n j : i <= j < scan_from p i n -> p j = false.
Proof.
  revert i. induction n as [|n IH]; intros i; simpl; [lia|].
  case_if; [lia|]. intros Hj. destruct (Z.eq_dec i j) as [->|]; [done|].
  apply (IH (i + 1)). lia.
Qed.

Lemma scan_from_miss p i n :
  scan_from p i n = i + Z.of_nat n <-> forall j, i <= j < i + Z.of_nat n -> p j = false.
Proof.
  split.
  - intros He j Hj. apply (scan_from_least p i n). lia.
  - intros Hall. destruct (scan_from_range p i n) as [_ [Hlt|]%Z.lt_eq_cases]; [|done].
    pose proof (scan_from_hit p i n Hlt) as Hp.
    rewrite Hall in Hp; [done|]. pose proof (scan_from_range p i n). lia.
Qed.

Lemma scan_from_ext p q i n :
  (forall j, i <= j < i + Z.of_nat n -> p j = q j) -> scan_from p i n = scan_from q i n.
Proof.
  revert i. induction n as [|n IH]; intros i Hpq; simpl; [done|].
  rewrite Hpq by lia. case_if; [done|]. apply IH. intros. apply Hpq. lia.
Qed.
