(* ===== verification/Bitops.v ===== *)
(** Byte bitmaps: [common/include/sstack_bitops.h].

    A [sstack_bitmap_t *] is the list of its bytes; the macros are functions
    that go out of bounds when the byte they touch is not in the list. *)
From stdpp Require Import base list numbers.
From S2P Require Import Prelude.

Definition CHAR_BIT : Z := 8.

(** [#define BITMASK(b) (1 << ((b) % CHAR_BIT))] *)
Definition BITMASK (b : Z) : Z := Z.shiftl 1 (b mod CHAR_BIT).

(** [#define BITSLOT(b) ((b) / CHAR_BIT)] *)
Definition BITSLOT (b : Z) : Z := b / CHAR_BIT.

(** [#define BITNSLOTS(nb) ((nb + CHAR_BIT - 1) / CHAR_BIT)] *)
Definition BITNSLOTS (nb : Z) : Z := (nb + CHAR_BIT - 1) / CHAR_BIT.

(** [sstack_bitmap_t] is [uint8_t]. *)
Abbreviation bitmap := (list Z).

Definition slot (a : bitmap) (b : Z) : option Z := a !! Z.to_nat (BITSLOT b).

(** [BITTEST(a, b)]: the masked byte, non-zero exactly when the bit is set. *)
Definition BITTEST (a : bitmap) (b : Z) : option Z :=
  (fun byte => Z.land byte (BITMASK b)) <$> slot a b.

(** [BITSET(a, b)]: [(a)[BITSLOT(b)] |= BITMASK(b)], stored in a [uint8_t]. *)
Definition BITSET (a : bitmap) (b : Z) : option bitmap :=
  (fun byte => <[Z.to_nat (BITSLOT b) := uwrap 8 (Z.lor byte (BITMASK b))]> a) <$> slot a b.

(** [BITCLEAR(a, b)]: [(a)[BITSLOT(b)] &= ~BITMASK(b)]. *)
Definition BITCLEAR (a : bitmap) (b : Z) : option bitmap :=
  (fun byte => <[Z.to_nat (BITSLOT b) := uwrap 8 (Z.land byte (Z.lnot (BITMASK b)))]> a)
    <$> slot a b.

(** [sfs_init_bitmap]: [malloc] of [BITNSLOTS(num_bits)] bytes, zeroed; NULL
    when the allocation fails. *)
Definition sfs_init_bitmap (num_bits : Z) (malloc_ok : bool) : option bitmap :=
  if malloc_ok then Some (replicate (Z.to_nat (BITNSLOTS num_bits)) 0) else None.

(** * What the bitmap represents *)

(** The bytes of a bitmap are [uint8_t] values. *)
Definition bitmap_wf (a : bitmap) : Prop := Forall (fun x => 0 <= x < 256) a.

(** Bit [b] is set (an absent byte reads as clear). *)
Definition bit (a : bitmap) (b : Z) : bool :=
  match slot a b with
  | Some byte => Z.testbit byte (b mod CHAR_BIT)
  | None => false
  end.

Definition in_bitmap (a : bitmap) (b : Z) : Prop := 0 <= b < CHAR_BIT * Z.of_nat (length a).

Lemma BITSLOT_range a b :
  in_bitmap a b -> (Z.to_nat (BITSLOT b) < length a)%nat.
Proof.
  unfold in_bitmap, BITSLOT, CHAR_BIT. intros.
  assert (b / 8 < Z.of_nat (length a)) by (apply Z.div_lt_upper_bound; lia).
  pose proof (Z.div_pos b 8). lia.
Qed.

Lemma slot_in a b : in_bitmap a b -> exists byte, slot a b = Some byte.
Proof. intros H%BITSLOT_range. apply lookup_lt_is_Some_2 in H. exact H. Qed.

Lemma bitidx_range b : 0 <= b mod CHAR_BIT < 8.
Proof. unfold CHAR_BIT. apply Z.mod_pos_bound. lia. Qed.

Lemma BITMASK_testbit b j : 0 <= j -> Z.testbit (BITMASK b) j = (b mod CHAR_BIT =? j).
Proof.
  intros Hj. unfold BITMASK. pose proof (bitidx_range b).
  rewrite Z.shiftl_1_l, Z.pow2_bits_eqb by lia. done.
Qed.

Lemma BITTEST_bit a b v :
  BITTEST a b = Some v -> (v =? 0) = negb (bit a b).
Proof.
  unfold BITTEST, bit. intros (byte & -> & ->)%fmap_Some.
  pose proof (bitidx_range b) as Hb.
  destruct (Z.testbit byte (b mod CHAR_BIT)) eqn:Ht; simpl.
  - apply Z.eqb_neq. intros H0.
    assert (Z.testbit (Z.land byte (BITMASK b)) (b mod CHAR_BIT) = true) as Hc.
    { rewrite Z.land_spec, BITMASK_testbit, Ht, Z.eqb_refl by lia. done. }
    rewrite H0, Z.bits_0 in Hc. done.
  - apply Z.eqb_eq. apply Z.bits_inj'. intros j Hj.
    rewrite Z.land_spec, BITMASK_testbit, Z.bits_0 by lia.
    destruct (Z.eqb_spec (b mod CHAR_BIT) j) as [<-|]; [by rewrite Ht|apply andb_false_r].
Qed.

(** Two bits with the same byte and the same position are the same bit. *)
Lemma bit_index_inj b c :
  0 <= b -> 0 <= c ->
  Z.to_nat (BITSLOT b) = Z.to_nat (BITSLOT c) -> b mod CHAR_BIT = c mod CHAR_BIT -> b = c.
Proof.
  unfold BITSLOT, CHAR_BIT. intros Hb Hc Hs Hm.
  pose proof (Z.div_pos b 8). pose proof (Z.div_pos c 8).
  rewrite (Z.div_mod b 8), (Z.div_mod c 8) by lia. lia.
Qed.

Lemma uwrap8_testbit n j : 0 <= j < 8 -> Z.testbit (uwrap 8 n) j = Z.testbit n j.
Proof. intros. unfold uwrap. apply Z.mod_pow2_bits_low. lia. Qed.

(** Storing [f byte] into the byte of [b], where [f] changes only the bit of
    [b] to [v], changes only bit [b] of the bitmap. *)
Lemma bit_store a b c byte f v :
  0 <= b -> 0 <= c -> slot a b = Some byte ->
  (forall j, 0 <= j < 8 ->
     Z.testbit (f byte) j = if b mod CHAR_BIT =? j then v else Z.testbit byte j) ->
  bit (<[Z.to_nat (BITSLOT b) := uwrap 8 (f byte)]> a) c = if b =? c then v else bit a c.
Proof.
  intros Hb Hc Hs Hf. unfold bit, slot in *.
  pose proof (bitidx_range c).
  destruct (decide (Z.to_nat (BITSLOT b) = Z.to_nat (BITSLOT c))) as [He|He].
  - rewrite <- He, list_lookup_insert_eq by eauto using lookup_lt_Some.
    rewrite Hs, uwrap8_testbit, Hf by lia.
    destruct (Z.eqb_spec (b mod CHAR_BIT) (c mod CHAR_BIT)) as [Hm|Hm],
             (Z.eqb_spec b c) as [->|]; try done.
    exfalso. eauto using bit_index_inj.
  - rewrite list_lookup_insert_ne by done.
    destruct (Z.eqb_spec b c) as [->|]; done.
Qed.

Lemma BITSET_bit a b a' c :
  0 <= b -> 0 <= c -> BITSET a b = Some a' -> bit a' c = if b =? c then true else bit a c.
Proof.
  intros Hb Hc (byte & Hs & ->)%fmap_Some.
  apply (bit_store a b c byte (fun x => Z.lor x (BITMASK b))); try done.
  intros j Hj. rewrite Z.lor_spec, BITMASK_testbit by lia. case_if; [apply orb_true_r|apply orb_false_r].
Qed.

Lemma BITCLEAR_bit a b a' c :
  0 <= b -> 0 <= c -> BITCLEAR a b = Some a' -> bit a' c = if b =? c then false else bit a c.
Proof.
  intros Hb Hc (byte & Hs & ->)%fmap_Some.
  apply (bit_store a b c byte (fun x => Z.land x (Z.lnot (BITMASK b)))); try done.
  intros j Hj. rewrite Z.land_spec, Z.lnot_spec, BITMASK_testbit by lia.
  case_if; [apply andb_false_r|apply andb_true_r].
Qed.

Lemma BITSET_length a b a' : BITSET a b = Some a' -> length a' = length a.
Proof. intros (byte & _ & ->)%fmap_Some. apply length_insert. Qed.

Lemma BITCLEAR_length a b a' : BITCLEAR a b = Some a' -> length a' = length a.
Proof. intros (byte & _ & ->)%fmap_Some. apply length_insert. Qed.

Lemma BITSET_in a b : in_bitmap a b -> exists a', BITSET a b = Some a'.
Proof. intros [byte Hb]%slot_in. unfold BITSET. rewrite Hb. eauto. Qed.

Lemma BITCLEAR_in a b : in_bitmap a b -> exists a', BITCLEAR a b = Some a'.
Proof. intros [byte Hb]%slot_in. unfold BITCLEAR. rewrite Hb. eauto. Qed.

Lemma BITTEST_in a b : in_bitmap a b -> exists v, BITTEST a b = Some v.
Proof. intros [byte Hb]%slot_in. unfold BITTEST. rewrite Hb. eauto. Qed.

(** Reading outside the bitmap is out of bounds. *)
Lemma slot_out a b : CHAR_BIT * Z.of_nat (length a) <= b -> slot a b = None.
Proof.
  unfold slot, BITSLOT, CHAR_BIT. intros. apply lookup_ge_None_2.
  assert (Z.of_nat (length a) <= b / 8) by (apply Z.div_le_lower_bound; lia). lia.
Qed.

Lemma BITCLEAR_out a b : CHAR_BIT * Z.of_nat (length a) <= b -> BITCLEAR a b = None.
Proof. intros. unfold BITCLEAR. rewrite slot_out; done. Qed.

Lemma sfs_init_bitmap_length n a :
  0 <= n -> sfs_init_bitmap n true = Some a ->
  n <= CHAR_BIT * Z.of_nat (length a) < n + CHAR_BIT.
Proof.
  intros Hn [= <-]. rewrite length_replicate. unfold BITNSLOTS, CHAR_BIT.
  pose proof (Z.div_mod (n + 8 - 1) 8). pose proof (Z.mod_pos_bound (n + 8 - 1) 8).
  pose proof (Z.div_pos (n + 8 - 1) 8). lia.
Qed.

Lemma sfs_init_bitmap_bit n a b : sfs_init_bitmap n true = Some a -> bit a b = false.
Proof.
  intros [= <-]. unfold bit, slot.
  destruct (replicate _ _ !! _) as [byte|] eqn:Hl; [|done].
  apply lookup_replicate in Hl as [-> _]. apply Z.bits_0.
Qed.

(** A bitmap of [n] bytes [0xff] has all its bits set. *)
Lemma bit_replicate_ones n k :
  0 <= k < CHAR_BIT * Z.of_nat n -> bit (replicate n 255) k = true.
Proof.
  intros Hk. unfold bit, slot.
  destruct (slot_in (replicate n 255) k) as [byte Hb].
  { unfold in_bitmap. rewrite length_replicate. done. }
  unfold slot in Hb. rewrite Hb. apply lookup_replicate in Hb as [-> _].
  pose proof (bitidx_range k). change 255 with (Z.ones 8). apply Z.ones_spec_low. lia.
Qed.

#[export] Hint Resolve BITSET_in BITCLEAR_in BITTEST_in : sstack.

(** * The scan for a clear bit

    [for (i = from; i < max; i++) if (BITTEST(bm, i) == 0) break;] with
    [fuel] = [max - from]; the index it stops at, [max] when no bit is clear. *)

Fixpoint scan_clear (a : bitmap) (i : Z) (fuel : nat) : option Z :=
  match fuel with
  | O => Some i
  | S fuel' =>
      match BITTEST a i with
      | Some v => if v =? 0 then Some i else scan_clear a (i + 1) fuel'
      | None => None
      end
  end.

Lemma scan_clear_spec a i n :
  0 <= i -> i + Z.of_nat n <= CHAR_BIT * Z.of_nat (length a) ->
  scan_clear a i n = Some (scan_from (fun j => negb (bit a j)) i n).
Proof.
  revert i. induction n as [|n IH]; intros i Hi Hn; simpl; [done|].
  destruct (BITTEST_in a i) as [v Hv]; [unfold in_bitmap; lia|].
  rewrite Hv, (BITTEST_bit _ _ _ Hv). case_if; [done|]. apply IH; lia.
Qed.
