(* ===== verification/IdSlots.v ===== *)
(** The slot search that [get_next_job_id] (sfs/src/sfs_job.c) and
    [get_ssdcache_entry] (lib/ssdcache/src/sstack_ssdcache.c) share: a cursor
    that hands out fresh slots until it reaches the end and then falls back to
    the least clear bit of the bitmap. *)
From stdpp Require Import base list numbers.
From S2P Require Import Prelude Bitops.

(** The result of one search: the slot, the next cursor and bitmap; [None]
    when every slot is busy. *)
Definition next_slot (max cur : Z) (bm : bitmap) : outcome (option (Z * Z * bitmap)) :=
  if max <=? cur then
    (* Wrap around happened *)
    match scan_clear bm 0 (Z.to_nat max) with
    | None => Fault OutOfBounds
    | Some i =>
        if i =? max then Ret None
        else
          match BITSET bm i with
          | None => Fault OutOfBounds
          | Some bm' =>
              (* Reinitialise the cursor *)
              match scan_clear bm' i (Z.to_nat (max - i)) with
              | None => Fault OutOfBounds
              | Some j => Ret (Some (i, if j <? max then j else max, bm'))
              end
          end
    end
  else
    (* No wrap around *)
    match BITSET bm cur with
    | None => Fault OutOfBounds
    | Some bm' => Ret (Some (cur, cur + 1, bm'))
    end.

(** The cursor and bitmap of a pool of [max] slots. *)
Record pool_ok (max cur : Z) (bm : bitmap) : Prop := {
  pool_max : 0 <= max;
  pool_cur : 0 <= cur <= max;
  pool_bits : max <= CHAR_BIT * Z.of_nat (length bm)
}.

#[export] Hint Constructors pool_ok : sstack.

Lemma pool_in_bitmap max cur bm i : pool_ok max cur bm -> 0 <= i < max -> in_bitmap bm i.
Proof. intros [] ?. unfold in_bitmap. lia. Qed.

Lemma scan_pool max cur bm from :
  pool_ok max cur bm -> 0 <= from <= max ->
  scan_clear bm from (Z.to_nat (max - from))
  = Some (scan_from (fun j => negb (bit bm j)) from (Z.to_nat (max - from))).
Proof. intros [] ?. apply scan_clear_spec; lia. Qed.

Lemma BITSET_pool max cur bm i bm' c :
  pool_ok max cur bm -> BITSET bm i = Some bm' -> 0 <= c <= max -> pool_ok max c bm'.
Proof. intros [] H%BITSET_length ?. constructor; [lia|lia|]. rewrite H. lia. Qed.

(** The answer when the pool has wrapped: the least clear slot. *)
Definition wrap_answer (max : Z) (bm : bitmap) (i j : Z) (bm' : bitmap) : Prop :=
  0 <= i < max /\ bit bm i = false /\ (forall k, 0 <= k < i -> bit bm k = true) /\
  BITSET bm i = Some bm' /\ i < j <= max /\
  (forall k, i <= k < j -> bit bm' k = true) /\ (j < max -> bit bm' j = false).

Lemma next_slot_wrap max cur bm :
  pool_ok max cur bm -> max <= cur ->
  (next_slot max cur bm = Ret None /\ forall k, 0 <= k < max -> bit bm k = true) \/
  (exists i j bm', next_slot max cur bm = Ret (Some (i, j, bm')) /\ wrap_answer max bm i j bm').
Proof.
  intros Hok Hcur. pose proof Hok as [Hm _ _]. unfold next_slot.
  rewrite (proj2 (Z.leb_le _ _) Hcur).
  pose proof (scan_pool max cur bm 0 Hok ltac:(lia)) as Hs. rewrite Z.sub_0_r in Hs.
  rewrite Hs. set (i := scan_from _ 0 _).
  pose proof (scan_from_range (fun j => negb (bit bm j)) 0 (Z.to_nat max)) as Hi. fold i in Hi.
  case_if.
  - left. split; [done|]. intros k Hk.
    apply negb_false_iff. apply (scan_from_least (fun j => negb (bit bm j)) 0 (Z.to_nat max)).
    fold i. lia.
  - right. assert (0 <= i < max) as Hi' by lia.
    destruct (BITSET_in bm i) as [bm' Hbm']; [by eapply pool_in_bitmap|].
    rewrite Hbm'. pose proof (BITSET_pool _ _ _ _ _ i Hok Hbm' ltac:(lia)) as Hok'.
    rewrite (scan_pool max i bm' i Hok' ltac:(lia)). set (j := scan_from _ i _).
    pose proof (scan_from_range (fun j => negb (bit bm' j)) i (Z.to_nat (max - i))) as Hj.
    fold j in Hj. exists i, j, bm'. split.
    { f_equal. f_equal. f_equal. f_equal. case_if; lia. }
    assert (Hbit : bit bm' i = true) by (rewrite (BITSET_bit bm i bm' i), Z.eqb_refl; auto; lia).
    assert (Hleast : forall k, i <= k < j -> bit bm' k = true).
    { intros k Hk. apply negb_false_iff.
      apply (scan_from_least (fun j => negb (bit bm' j)) i (Z.to_nat (max - i))). done. }
    assert (Hhit : j < max -> bit bm' j = false).
    { intros. apply negb_true_iff. apply (scan_from_hit (fun j => negb (bit bm' j)) i).
      fold j. lia. }
    repeat split; try done; try lia.
    + apply negb_true_iff. apply (scan_from_hit (fun j => negb (bit bm j)) 0). fold i. lia.
    + intros k Hk. apply negb_false_iff.
      apply (scan_from_least (fun j => negb (bit bm j)) 0 (Z.to_nat max)). fold i. lia.
    + destruct (Z.eq_dec i j) as [He|]; [|lia]. rewrite <- He in Hhit.
      rewrite Hhit in Hbit by lia. done.
Qed.

Lemma next_slot_nowrap max cur bm :
  pool_ok max cur bm -> cur < max ->
  exists bm', next_slot max cur bm = Ret (Some (cur, cur + 1, bm')) /\ BITSET bm cur = Some bm'.
Proof.
  intros Hok Hc. unfold next_slot. rewrite (proj2 (Z.leb_gt _ _) Hc).
  destruct (BITSET_in bm cur) as [bm' Hb].
  { eapply pool_in_bitmap; [done|]. destruct Hok. lia. }
  rewrite Hb. eauto.
Qed.

(** Every answer is a slot of the pool, marks exactly that slot busy, and
    leaves a pool. *)
Lemma next_slot_sound max cur bm i j bm' :
  pool_ok max cur bm -> next_slot max cur bm = Ret (Some (i, j, bm')) ->
  0 <= i < max /\ pool_ok max j bm' /\
  (forall k, 0 <= k -> bit bm' k = if i =? k then true else bit bm k).
Proof.
  intros Hok Hn. pose proof Hok as [Hm Hc _].
  destruct (Z.le_gt_cases max cur) as [Hle|Hlt].
  - destruct (next_slot_wrap _ _ _ Hok Hle) as [[He _]|(i' & j' & b & He & Hw)];
      rewrite He in Hn; simplify_eq.
    destruct Hw as (Hi & _ & _ & Hset & Hj & _).
    split_and!; [lia|lia|eauto using BITSET_pool with lia|].
    intros k Hk. apply BITSET_bit; auto; lia.
  - destruct (next_slot_nowrap _ _ _ Hok Hlt) as (b & He & Hset). rewrite He in Hn. simplify_eq.
    split_and!; [lia|lia|eauto using BITSET_pool with lia|].
    intros k Hk. apply BITSET_bit; auto; lia.
Qed.

(** The search never leaves the bitmap. *)
Lemma next_slot_total max cur bm :
  pool_ok max cur bm -> exists r, next_slot max cur bm = Ret r.
Proof.
  intros Hok. destruct (Z.le_gt_cases max cur) as [Hle|Hlt].
  - destruct (next_slot_wrap _ _ _ Hok Hle) as [[He _]|(? & ? & ? & He & _)]; eauto.
  - destruct (next_slot_nowrap _ _ _ Hok Hlt) as (? & He & _). eauto.
Qed.

(** No slot from the cursor on has been handed out yet: the state of a pool
    that has not wrapped. *)
Definition unwrapped (cur : Z) (bm : bitmap) : Prop :=
  forall k, cur <= k -> bit bm k = false.

Lemma unwrapped_set cur bm bm' :
  0 <= cur -> unwrapped cur bm -> BITSET bm cur = Some bm' -> unwrapped (cur + 1) bm'.
Proof.
  intros Hc Hu Hs k Hk. rewrite (BITSET_bit bm cur bm' k) by (done || lia).
  case_if; [lia|]. apply Hu. lia.
Qed.

Lemma unwrapped_clear cur bm b bm' :
  0 <= cur -> 0 <= b -> unwrapped cur bm -> BITCLEAR bm b = Some bm' -> unwrapped cur bm'.
Proof.
  intros Hc Hb Hu Hs k Hk. rewrite (BITCLEAR_bit bm b bm' k) by (done || lia).
  case_if; [done|]. auto.
Qed.
