(* ===== verification/JobId.v ===== *)
(** Job identifiers: [get_next_job_id], [free_job_id] and [sfs_job_init] of
    sfs/src/sfs_job.c, on the bitmap, the cursor and the mutex they share. *)
From stdpp Require Import base list numbers.
From S2P Require Import Prelude Bitops IdSlots.

Module JobId.

Definition MAX_OUTSTANDING_JOBS : Z := 8192.

(** [sstack_job_id_t] is [uint64_t]: the [-1] of a refused request. *)
Definition NO_JOB_ID : Z := uwrap 64 (-1).

(** The globals of sfs_entry.c and the mutex of sfs_job.h. *)
Record state : Type := mkState {
  current_job_id : Z;
  sstack_job_id_bitmap : bitmap;
  sfs_job_id_mutex : bool   (* held *)
}.

Definition init : state :=
  mkState 0 (replicate (Z.to_nat (BITNSLOTS MAX_OUTSTANDING_JOBS)) 0) false.

Definition mutex_lock : cprog state unit := fun s =>
  if sfs_job_id_mutex s then Fault Deadlock
  else Ret (tt, mkState (current_job_id s) (sstack_job_id_bitmap s) true).

Definition mutex_unlock : cprog state unit := fun s =>
  Ret (tt, mkState (current_job_id s) (sstack_job_id_bitmap s) false).

(** The [return -1] for a full bitmap leaves the mutex held, as the code does. *)
Definition get_next_job_id : cprog state Z :=
  (let! _ := mutex_lock in
   let! s := cget in
   match next_slot MAX_OUTSTANDING_JOBS (current_job_id s) (sstack_job_id_bitmap s) with
   | Fault f => cfault f
   | Ret None => cret NO_JOB_ID
   | Ret (Some (job_id, cur, bm)) =>
       cput (mkState (uwrap 64 cur) bm (sfs_job_id_mutex s)) ;;;
       mutex_unlock ;;;
       cret job_id
   end)%cprog.

(** [free_job_id] does not take the mutex. *)
Definition free_job_id (job_id : Z) : cprog state Z := fun s =>
  if (job_id <? 0) || (MAX_OUTSTANDING_JOBS <=? job_id) then Ret (-1, s)
  else
    match BITCLEAR (sstack_job_id_bitmap s) job_id with
    | None => Fault OutOfBounds
    | Some bm => Ret (0, mkState (current_job_id s) bm (sfs_job_id_mutex s))
    end.

Definition SFS_JOB_VERSION : Z := 1.
Definition INVALID_PRIORITY : Z := -1.

(** [sfs_job_t] less its list head [wait_list]; a pointer is an address, NULL
    is 0, and [calloc] zeroes all fields. *)
Record sfs_job : Type := mkJob {
  version : Z;
  job_type : Z;
  id : Z;
  num_clients : Z;
  sfsds : list Z;        (* one per client, MAX_SFSD_CLIENTS *)
  job_status : list Z;   (* one per client, MAX_SFSD_CLIENTS *)
  payload_len : Z;
  priority : Z;
  payload : Z
}.

Definition MAX_SFSD_CLIENTS : nat := 8.

Definition sfs_job_init (calloc_ok : bool) : cprog state (option sfs_job) :=
  (if calloc_ok then
     let! job_id := get_next_job_id in
     cret (Some (mkJob SFS_JOB_VERSION 0 job_id 0 (replicate MAX_SFSD_CLIENTS 0)
                       (replicate MAX_SFSD_CLIENTS 0) 0 INVALID_PRIORITY 0))
   else cret None)%cprog.

(** * The pool of identifiers *)

Definition wf (s : state) : Prop :=
  pool_ok MAX_OUTSTANDING_JOBS (current_job_id s) (sstack_job_id_bitmap s).

(** Identifier [i] is handed out and not freed. *)
Definition live (s : state) (i : Z) : Prop :=
  bit (sstack_job_id_bitmap s) i = true.

(** The cursor is not at a busy slot. *)
Definition cursor_free (s : state) : Prop :=
  current_job_id s < MAX_OUTSTANDING_JOBS -> ~ live s (current_job_id s).

Lemma NO_JOB_ID_out : MAX_OUTSTANDING_JOBS < NO_JOB_ID.
Proof. reflexivity. Qed.

Lemma init_wf : wf init.
Proof. split; vm_compute; intuition discriminate. Qed.

Lemma cur_uwrap c : 0 <= c <= MAX_OUTSTANDING_JOBS -> uwrap 64 c = c.
Proof. intros. apply uwrap_small. unfold MAX_OUTSTANDING_JOBS in *. lia. Qed.

(** One run of [get_next_job_id] with the mutex free. *)
Lemma get_next_job_id_run s :
  wf s -> sfs_job_id_mutex s = false ->
  match next_slot MAX_OUTSTANDING_JOBS (current_job_id s) (sstack_job_id_bitmap s) with
  | Ret (Some (i, j, bm)) => get_next_job_id s = Ret (i, mkState j bm false)
  | Ret None => get_next_job_id s
      = Ret (NO_JOB_ID, mkState (current_job_id s) (sstack_job_id_bitmap s) true)
  | Fault _ => False
  end.
Proof.
  intros Hwf Hm. destruct s as [c b m]; simpl in *; subst m.
  destruct (next_slot_total _ _ _ Hwf) as [r Hr]. simpl in Hr.
  unfold get_next_job_id, cbind, mutex_lock, cget; simpl. rewrite Hr.
  destruct r as [[[i j] bm]|]; [|done].
  destruct (next_slot_sound _ _ _ _ _ _ Hwf Hr) as (_ & [_ Hj _] & _).
  unfold cput, mutex_unlock, cret. simpl. by rewrite cur_uwrap.
Qed.

Lemma free_job_id_run s i :
  wf s -> 0 <= i < MAX_OUTSTANDING_JOBS ->
  exists bm, BITCLEAR (sstack_job_id_bitmap s) i = Some bm /\
    free_job_id i s = Ret (0, mkState (current_job_id s) bm (sfs_job_id_mutex s)).
Proof.
  intros Hwf Hi. destruct (BITCLEAR_in (sstack_job_id_bitmap s) i) as [bm Hb].
  { eapply pool_in_bitmap; eauto. }
  exists bm. split; [done|]. unfold free_job_id.
  rewrite (proj2 (Z.ltb_ge i 0)), (proj2 (Z.leb_gt _ i)) by lia. simpl. by rewrite Hb.
Qed.

(** * Sequences of requests *)

Inductive request : Set :=
  | Get
  | Free (job_id : Z).

(** The answers of a sequence of requests and the state it leaves. *)
Fixpoint serve (rs : list request) : cprog state (list Z) :=
  match rs with
  | [] => cret []
  | Get :: rs' =>
      (let! i := get_next_job_id in let! ids := serve rs' in cret (i :: ids))%cprog
  | Free i :: rs' =>
      (let! _ := free_job_id i in serve rs')%cprog
  end.

Fixpoint gets (rs : list request) : nat :=
  match rs with
  | [] => O
  | Get :: rs' => S (gets rs')
  | Free _ :: rs' => gets rs'
  end.

(** The state of an allocator that has not wrapped around. *)
Record fresh (s : state) : Prop := {
  fresh_wf : wf s;
  fresh_unwrapped : unwrapped (current_job_id s) (sstack_job_id_bitmap s);
  fresh_mutex : sfs_job_id_mutex s = false
}.

Lemma init_fresh : fresh init.
Proof.
  split; [apply init_wf| |done].
  intros k Hk. apply (sfs_init_bitmap_bit MAX_OUTSTANDING_JOBS). done.
Qed.

Lemma get_fresh s :
  fresh s -> current_job_id s < MAX_OUTSTANDING_JOBS ->
  exists s', get_next_job_id s = Ret (current_job_id s, s') /\ fresh s' /\
    current_job_id s' = current_job_id s + 1.
Proof.
  intros [Hwf Hu Hm] Hc. pose proof (get_next_job_id_run s Hwf Hm) as Hrun.
  destruct (next_slot_nowrap _ _ _ Hwf Hc) as (bm & He & Hset). rewrite He in Hrun.
  eexists. split; [exact Hrun|]. pose proof (pool_cur _ _ _ Hwf). split; [|done].
  split; [|by eapply unwrapped_set; eauto; lia|done].
  unfold wf. simpl. eapply BITSET_pool; eauto. lia.
Qed.

Lemma free_fresh s i :
  fresh s -> exists r s', free_job_id i s = Ret (r, s') /\ fresh s' /\
    current_job_id s' = current_job_id s.
Proof.
  intros Hf. pose proof Hf as [Hwf Hu Hm].
  destruct (decide (0 <= i < MAX_OUTSTANDING_JOBS)) as [Hi|Hi].
  - destruct (free_job_id_run s i Hwf Hi) as (bm & Hb & ->). do 2 eexists. split; [done|].
    pose proof (pool_cur _ _ _ Hwf). split; [|done]. split; simpl; [|eapply unwrapped_clear; eauto; lia|done].
    destruct Hwf as [? ? Hl]. split; simpl; [lia|lia|]. by rewrite (BITCLEAR_length _ _ _ Hb).
  - exists (-1), s. split; [|done]. unfold free_job_id. case_if; [done|lia].
Qed.

Lemma serve_fresh rs : forall s,
  fresh s -> current_job_id s + Z.of_nat (gets rs) <= MAX_OUTSTANDING_JOBS ->
  exists s', serve rs s = Ret (seqZ (current_job_id s) (Z.of_nat (gets rs)), s') /\ fresh s' /\
    current_job_id s' = current_job_id s + Z.of_nat (gets rs).
Proof.
  induction rs as [|[|i] rs IH]; intros s Hf Hn; cbn [serve gets] in *.
  - exists s. split; [done|]. split; [done|]. lia.
  - destruct (get_fresh s Hf) as (s1 & Hg & Hf1 & Hc1); [lia|].
    destruct (IH s1 Hf1) as (s2 & Hs & Hf2 & Hc2); [lia|].
    exists s2. unfold cbind. rewrite Hg, Hs. split; [|split; [done|lia]].
    unfold cret. rewrite (seqZ_cons (current_job_id s)) by lia. rewrite Hc1. repeat f_equal; lia.
  - destruct (free_fresh s i Hf) as (r & s1 & Hr & Hf1 & Hc1).
    destruct (IH s1 Hf1) as (s2 & Hs & Hf2 & Hc2); [lia|].
    exists s2. unfold cbind. rewrite Hr, Hs. rewrite Hc1 in *. done.
Qed.

(** From the initial state, whatever is freed in between, the first 8192
    requests are answered with 0, 1, 2, ... in order, so no identifier is
    handed out twice. *)
Theorem first_job_ids (rs : list request) :
  Z.of_nat (gets rs) <= MAX_OUTSTANDING_JOBS ->
  exists s', serve rs init = Ret (seqZ 0 (Z.of_nat (gets rs)), s') /\ fresh s'.
Proof.
  intros Hn. destruct (serve_fresh rs init init_fresh) as (s' & Hs & Hf & _); [simpl; lia|].
  eauto.
Qed.

Lemma first_job_ids_witness :
  exists s', serve [Get; Get; Free 0; Get] init = Ret ([0; 1; 2], s') /\ fresh s'.
Proof. apply (first_job_ids [Get; Get; Free 0; Get]). vm_compute. discriminate. Defined.

(** An identifier that [get_next_job_id] returns lies in the pool, becomes
    live while no other identifier changes, the mutex is released; and when
    the cursor is not at a busy slot the identifier was not live. *)
Theorem get_next_job_id_sound s i s' :
  wf s -> sfs_job_id_mutex s = false -> get_next_job_id s = Ret (i, s') -> i <> NO_JOB_ID ->
  0 <= i < MAX_OUTSTANDING_JOBS /\ wf s' /\ sfs_job_id_mutex s' = false /\
  (forall k, 0 <= k -> live s' k <-> k = i \/ live s k) /\
  (cursor_free s -> ~ live s i).
Proof.
  intros Hwf Hm Hg Hi. pose proof (get_next_job_id_run s Hwf Hm) as Hrun.
  destruct (next_slot _ _ _) as [[[[i' j] bm]|]|] eqn:Hn; [| |done];
    rewrite Hg in Hrun; simplify_eq.
  destruct (next_slot_sound _ _ _ _ _ _ Hwf Hn) as (Hr & Hok & Hbit).
  split_and!; [lia|lia|done|done| |].
  - intros k Hk. unfold live. simpl. rewrite Hbit by done. case_if; [subst; tauto|].
    intuition congruence.
  - intros Hcf Hl. destruct (Z.le_gt_cases MAX_OUTSTANDING_JOBS (current_job_id s)) as [Hle|Hlt].
    + destruct (next_slot_wrap _ _ _ Hwf Hle) as [[He _]|(? & ? & ? & He & Hw)];
        rewrite He in Hn; simplify_eq.
      destruct Hw as (_ & Hb & _). unfold live in Hl. congruence.
    + destruct (next_slot_nowrap _ _ _ Hwf Hlt) as (? & He & _). rewrite He in Hn. simplify_eq.
      by apply Hcf.
Qed.

Lemma get_next_job_id_sound_witness :
  exists s', get_next_job_id init = Ret (0, s') /\ live s' 0 /\ ~ live init 0.
Proof.
  destruct (get_next_job_id init) as [[i s']|] eqn:E; [|vm_compute in E; discriminate].
  assert (i = 0) as -> by (vm_compute in E; congruence).
  exists s'. split; [done|].
  destruct (get_next_job_id_sound init 0 s' init_wf eq_refl E) as (_ & _ & _ & Hl & Hc);
    [vm_compute; discriminate|].
  split; [apply Hl; [lia|by left]|]. apply Hc. intros _. vm_compute. discriminate.
Defined.

(** With the cursor at the end of the pool, [get_next_job_id] returns the
    least identifier that is not live, and [-1] exactly when all are live. *)
Theorem get_next_job_id_wrapped s :
  wf s -> sfs_job_id_mutex s = false -> current_job_id s = MAX_OUTSTANDING_JOBS ->
  exists i s', get_next_job_id s = Ret (i, s') /\
    (i = NO_JOB_ID <-> forall k, 0 <= k < MAX_OUTSTANDING_JOBS -> live s k) /\
    (i <> NO_JOB_ID ->
       ~ live s i /\ (forall k, 0 <= k < i -> live s k) /\ cursor_free s').
Proof.
  intros Hwf Hm Hc. pose proof (get_next_job_id_run s Hwf Hm) as Hrun.
  destruct (next_slot_wrap _ _ _ Hwf ltac:(lia)) as [[He Hall]|(i & j & bm & He & Hw)];
    rewrite He in Hrun; do 2 eexists; (split; [exact Hrun|]).
  - split; [|done]. split; [intros _; exact Hall|done].
  - destruct Hw as (Hi & Hb & Hl & _ & Hj & Hb2 & Hb3). unfold live. split.
    + split; [|intros Hall; rewrite Hall in Hb; [done|lia]].
      intros ->. pose proof NO_JOB_ID_out. lia.
    + intros _. split; [congruence|]. split; [done|].
      intros Hlt. unfold live. simpl in *. rewrite Hb3 by lia. done.
Qed.

Lemma get_next_job_id_wrapped_witness :
  exists i s', get_next_job_id (mkState 8192 (replicate (Z.to_nat 1024) 0) false) = Ret (i, s') /\
    (i = NO_JOB_ID <-> forall k, 0 <= k < MAX_OUTSTANDING_JOBS ->
       live (mkState 8192 (replicate (Z.to_nat 1024) 0) false) k).
Proof.
  destruct (get_next_job_id_wrapped (mkState 8192 (replicate (Z.to_nat 1024) 0) false))
    as (i & s' & H1 & H2 & _); [split; vm_compute; intuition discriminate|reflexivity|reflexivity|].
  exists i, s'. split; assumption.
Defined.

(** When every identifier is live and the cursor is at the end, the request
    is answered with [-1] but the mutex stays held: every later request of any
    thread waits for ever. *)
Theorem job_ids_exhausted s :
  wf s -> sfs_job_id_mutex s = false -> current_job_id s = MAX_OUTSTANDING_JOBS ->
  (forall k, 0 <= k < MAX_OUTSTANDING_JOBS -> live s k) ->
  exists s', get_next_job_id s = Ret (NO_JOB_ID, s') /\ get_next_job_id s' = Fault Deadlock /\
    forall i r s'', free_job_id i s' = Ret (r, s'') -> get_next_job_id s'' = Fault Deadlock.
Proof.
  intros Hwf Hm Hc Hall. pose proof (get_next_job_id_run s Hwf Hm) as Hrun.
  destruct (next_slot_wrap _ _ _ Hwf ltac:(lia)) as [[He _]|(i & j & bm & He & Hw)];
    rewrite He in Hrun.
  - eexists. split; [exact Hrun|]. split; [done|].
    intros i r s''. unfold free_job_id. case_if; [intros [= <- <-]; done|].
    destruct (BITCLEAR _ _); [intros [= <- <-]; done|done].
  - destruct Hw as (Hi & Hb & _). unfold live in Hall. rewrite Hall in Hb by done. done.
Qed.

Lemma job_ids_exhausted_witness :
  exists s', get_next_job_id (mkState 8192 (replicate (Z.to_nat 1024) 255) false)
               = Ret (NO_JOB_ID, s') /\
    get_next_job_id s' = Fault Deadlock.
Proof.
  destruct (job_ids_exhausted (mkState 8192 (replicate (Z.to_nat 1024) 255) false))
    as (s' & H1 & H2 & _).
  - split; vm_compute; intuition discriminate.
  - reflexivity.
  - reflexivity.
  - intros k Hk. apply bit_replicate_ones. unfold MAX_OUTSTANDING_JOBS, CHAR_BIT in *. lia.
  - exists s'. split; assumption.
Defined.

(** [free_job_id] refuses an identifier outside the pool and otherwise frees
    that identifier and no other. *)
Theorem free_job_id_spec s i :
  wf s ->
  exists r s', free_job_id i s = Ret (r, s') /\ wf s' /\
    current_job_id s' = current_job_id s /\
    (r = 0 <-> 0 <= i < MAX_OUTSTANDING_JOBS) /\
    (r <> 0 -> s' = s) /\
    (r = 0 -> forall k, 0 <= k -> live s' k <-> k <> i /\ live s k).
Proof.
  intros Hwf. destruct (decide (0 <= i < MAX_OUTSTANDING_JOBS)) as [Hi|Hi].
  - destruct (free_job_id_run s i Hwf Hi) as (bm & Hb & Hr).
    do 2 eexists. split; [exact Hr|]. split_and!; try done.
    + destruct Hwf as [? ? Hl]. split; simpl; [lia|lia|]. by rewrite (BITCLEAR_length _ _ _ Hb).
    + intros _ k Hk. unfold live. simpl. rewrite (BITCLEAR_bit _ i bm k) by (done || lia).
      case_if; [subst; intuition congruence|]. intuition congruence.
  - exists (-1), s. split; [unfold free_job_id; case_if; [done|lia]|].
    split_and!; try done; lia.
Qed.

Lemma free_job_id_spec_witness :
  exists r s', free_job_id 3 init = Ret (r, s') /\ (r = 0 <-> 0 <= 3 < MAX_OUTSTANDING_JOBS).
Proof.
  destruct (free_job_id_spec init 3 init_wf) as (r & s' & H1 & _ & _ & H2 & _).
  exists r, s'. split; assumption.
Defined.

(** The outcome of [get_next_job_id] after a sequence of requests, with
    whether the identifier it returns was live. *)
Definition next_after (rs : list request) : option (Z * bool) :=
  match serve rs init with
  | Ret (_, s) =>
      match get_next_job_id s with
      | Ret (i, _) => Some (i, bit (sstack_job_id_bitmap s) i)
      | Fault _ => None
      end
  | Fault _ => None
  end.

Lemma next_after_live rs i :
  next_after rs = Some (i, true) ->
  exists s ids s', serve rs init = Ret (ids, s) /\ live s i /\ get_next_job_id s = Ret (i, s').
Proof.
  unfold next_after. destruct (serve rs init) as [[ids s]|]; [|done].
  destruct (get_next_job_id s) as [[k s']|] eqn:E; [|done].
  intros [= -> Hl]. exists s, ids, s'. done.
Qed.

(** After a wrap-around an identifier can be handed out although its job is
    still live: the cursor moves on by one without looking at the bitmap. All
    8192 identifiers are taken, 0 and 2 are freed, and the third request after
    that is answered with 3, which was never freed. *)
Theorem live_job_id_reissued :
  exists s ids s',
    serve (repeat Get (Z.to_nat MAX_OUTSTANDING_JOBS) ++ [Free 0; Free 2; Get; Get]) init
      = Ret (ids, s) /\
    live s 3 /\ get_next_job_id s = Ret (3, s').
Proof. apply next_after_live. vm_compute. reflexivity. Qed.

(** The callers in sfs_entry.c take the job from [sfs_job_init], which has
    already drawn an identifier, and draw a second one. *)
Definition sfs_new_job (calloc_ok : bool) : cprog state (option sfs_job) :=
  (let! job := sfs_job_init calloc_ok in
   match job with
   | None => cret None
   | Some j =>
       let! i := get_next_job_id in
       cret (Some (mkJob (version j) (job_type j) i (num_clients j) (sfsds j) (job_status j)
                         (payload_len j) (priority j) (payload j)))
   end)%cprog.

Fixpoint new_jobs (n : nat) : cprog state unit :=
  match n with
  | O => cret tt
  | S n' => (sfs_new_job true ;;; new_jobs n')%cprog
  end.

(** What the next [sfs_job_init] and the next whole job creation do after
    [n] jobs: the identifier drawn, and the fault. *)
Definition after_jobs (n : nat) : option (Z * fault) :=
  match new_jobs n init with
  | Ret (_, s) =>
      match sfs_job_init true s, sfs_new_job true s with
      | Ret (Some j, _), Fault f => Some (id j, f)
      | _, _ => None
      end
  | Fault _ => None
  end.

Lemma after_jobs_fault n i f :
  after_jobs n = Some (i, f) ->
  exists s, new_jobs n init = Ret (tt, s) /\
    (exists j s', sfs_job_init true s = Ret (Some j, s') /\ id j = i) /\
    sfs_new_job true s = Fault f.
Proof.
  unfold after_jobs. destruct (new_jobs n init) as [[[] s]|]; [|done].
  destruct (sfs_job_init true s) as [[[j|] s']|] eqn:E1; try done.
  destruct (sfs_new_job true s) as [|g] eqn:E2; [done|]. intros [= <- <-].
  exists s. split; [done|]. split; [|done]. by exists j, s'.
Qed.

(** Each job consumes two identifiers and none is given back, so after 4096
    jobs the next one draws the identifier [-1] and then waits for ever for
    the mutex that the refusal left held. *)
Theorem new_jobs_exhaust_ids :
  exists s, new_jobs (Z.to_nat 4096) init = Ret (tt, s) /\
    (exists j s', sfs_job_init true s = Ret (Some j, s') /\ id j = NO_JOB_ID) /\
    sfs_new_job true s = Fault Deadlock.
Proof. apply after_jobs_fault. vm_compute. reflexivity. Qed.

End JobId.
