(* ===== verification/SsdCache.v ===== *)
(** The SSD cache: lib/ssdcache/src/sstack_ssdcache.c and
    lib/ssdcache/include/sstack_ssdcache.h, on the slot search of [IdSlots].

    What the operating system answers (mkfs, mount, mkstemp, write, malloc) is
    an argument of the operations. *)
From stdpp Require Import base gmap list numbers.
From S2P Require Import Prelude Bitops IdSlots.

Module SsdCache.

Definition MAX_SSD_CACHEDEV : Z := 8.

(** [(ssd_cache_handle_t) -1], a [uint32_t]. *)
Definition NO_HANDLE : Z := uwrap 32 (-1).

(** [ssd_cache_struct_t]: its two trees as the keys inserted, its locks as
    held or not. *)
Record ssd_cache_struct : Type := mkCache {
  handle : Z;
  num_cachelines : Z;   (* stats *)
  inuse : Z;
  stats_lock : bool;
  md_tree : list Z;
  md_lock : bool;
  lru_tree : list Z;
  lru_lock : bool;
  ce_bitmap : bitmap;
  current_ssd_ce : Z;
  ssd_ce_mutex : bool
}.

Record state : Type := mkState {
  ssd_caches : list ssd_cache_struct;   (* MAX_SSD_CACHEDEV *)
  cur_ssd_cache_handle : Z;
  cache_list_lock : bool;
  files : gset Z;                       (* the cache files on the device *)
  errno : Z
}.

Definition set_caches (l : list ssd_cache_struct) (s : state) : state :=
  mkState l (cur_ssd_cache_handle s) (cache_list_lock s) (files s) (errno s).
Definition set_files (f : gset Z) (s : state) : state :=
  mkState (ssd_caches s) (cur_ssd_cache_handle s) (cache_list_lock s) f (errno s).
Definition put_errno (e : Z) : cprog state unit :=
  cmod (fun s => mkState (ssd_caches s) (cur_ssd_cache_handle s) (cache_list_lock s) (files s) e).

Definition list_lock : cprog state unit := fun s =>
  if cache_list_lock s then Fault Deadlock
  else Ret (tt, mkState (ssd_caches s) (cur_ssd_cache_handle s) true (files s) (errno s)).
Definition list_unlock : cprog state unit :=
  cmod (fun s => mkState (ssd_caches s) (cur_ssd_cache_handle s) false (files s) (errno s)).

(** [&ssd_caches[h]]; a pointer to a cache is its index. *)
Definition get_cache (h : Z) : cprog state ssd_cache_struct := fun s =>
  match ssd_caches s !! Z.to_nat h with Some c => Ret (c, s) | None => Fault OutOfBounds end.
Definition put_cache (h : Z) (c : ssd_cache_struct) : cprog state unit :=
  cmod (fun s => set_caches (<[Z.to_nat h := c]> (ssd_caches s)) s).

Definition with_locks (c : ssd_cache_struct) (st md lr ce : bool) : ssd_cache_struct :=
  mkCache (handle c) (num_cachelines c) (inuse c) st (md_tree c) md (lru_tree c) lr (ce_bitmap c)
    (current_ssd_ce c) ce.

Definition lock_stats (h : Z) : cprog state unit :=
  (let! c := get_cache h in
   if stats_lock c then cfault Deadlock
   else put_cache h (with_locks c true (md_lock c) (lru_lock c) (ssd_ce_mutex c)))%cprog.
Definition unlock_stats (h : Z) : cprog state unit :=
  (let! c := get_cache h in put_cache h (with_locks c false (md_lock c) (lru_lock c) (ssd_ce_mutex c)))%cprog.
Definition lock_md (h : Z) : cprog state unit :=
  (let! c := get_cache h in
   if md_lock c then cfault Deadlock
   else put_cache h (with_locks c (stats_lock c) true (lru_lock c) (ssd_ce_mutex c)))%cprog.
Definition unlock_md (h : Z) : cprog state unit :=
  (let! c := get_cache h in put_cache h (with_locks c (stats_lock c) false (lru_lock c) (ssd_ce_mutex c)))%cprog.
Definition lock_lru (h : Z) : cprog state unit :=
  (let! c := get_cache h in
   if lru_lock c then cfault Deadlock
   else put_cache h (with_locks c (stats_lock c) (md_lock c) true (ssd_ce_mutex c)))%cprog.
Definition unlock_lru (h : Z) : cprog state unit :=
  (let! c := get_cache h in put_cache h (with_locks c (stats_lock c) (md_lock c) false (ssd_ce_mutex c)))%cprog.
Definition lock_ce (h : Z) : cprog state unit :=
  (let! c := get_cache h in
   if ssd_ce_mutex c then cfault Deadlock
   else put_cache h (with_locks c (stats_lock c) (md_lock c) (lru_lock c) true))%cprog.
Definition unlock_ce (h : Z) : cprog state unit :=
  (let! c := get_cache h in put_cache h (with_locks c (stats_lock c) (md_lock c) (lru_lock c) false))%cprog.

(** The early return leaves [cache_list_lock] held. *)
Definition get_next_ssd_cache_handle : cprog state Z :=
  (list_lock ;;;
   let! s := cget in
   if cur_ssd_cache_handle s <? MAX_SSD_CACHEDEV then
     cmod (fun s => mkState (ssd_caches s) (uwrap 32 (cur_ssd_cache_handle s + 1)) (cache_list_lock s)
                            (files s) (errno s)) ;;;
     list_unlock ;;;
     let! s := cget in cret (cur_ssd_cache_handle s)
   else cret NO_HANDLE)%cprog.

(** What making the file system on a device answers. *)
Record dev_env : Type := mkDev {
  mkfs_ret : Z;        (* system(mkfs) *)
  mkdtemp_ok : bool;
  mount_ret : Z;       (* system(mount) *)
  calloc_ok : bool;
  f_files : Z;         (* statvfs *)
  md_create_ok : bool;
  lru_create_ok : bool
}.

(** The number of cache lines of the new device. *)
Definition ssd_create_cachedev (path_ok : bool) (size : Z) (e : dev_env) : option Z :=
  if negb path_ok || (size <? 0) then None
  else if mkfs_ret e =? -1 then None
  else if negb (mkdtemp_ok e) then None
  else if mount_ret e =? -1 then None
  else if negb (calloc_ok e) then None
  else Some (uwrap 64 (f_files e)).

(** [ret] is set to -1 at its declaration and nowhere else. *)
Definition sstack_ssd_cache_init (path_ok : bool) (size : Z) (e : dev_env) (junk : ssd_cache_struct)
  : cprog state Z :=
  let ret := -1 in
  if negb path_ok || (size <? 0) then (put_errno EINVAL ;;; cret NO_HANDLE)%cprog
  else
    match ssd_create_cachedev path_ok size e with
    | None => cret NO_HANDLE
    | Some lines =>
        (let! h := get_next_ssd_cache_handle in
         if h =? NO_HANDLE then put_errno ENOENT ;;; cret NO_HANDLE
         else if negb (md_create_ok e) then cret NO_HANDLE
         else if negb (lru_create_ok e) then cret NO_HANDLE
         else
           let bm := default [] (sfs_init_bitmap lines true) in
           if ret =? -1 then cret NO_HANDLE
           else
             list_lock ;;;
             put_cache h (mkCache (handle junk) lines 0 false [] false [] false bm (current_ssd_ce junk)
                            (ssd_ce_mutex junk)) ;;;
             list_unlock ;;;
             cret 0)%cprog
    end.

Definition get_ssdcache_entry (h : Z) : cprog state Z :=
  (lock_stats h ;;;
   let! c := get_cache h in
   let max_entries := swrap 32 (num_cachelines c) in
   unlock_stats h ;;;
   lock_ce h ;;;
   let! c := get_cache h in
   match next_slot max_entries (current_ssd_ce c) (ce_bitmap c) with
   | Fault f => cfault f
   | Ret None => cret (-1)
   | Ret (Some (ce, cur, bm)) =>
       put_cache h (mkCache (handle c) (num_cachelines c) (inuse c) (stats_lock c) (md_tree c) (md_lock c)
                      (lru_tree c) (lru_lock c) bm cur (ssd_ce_mutex c)) ;;;
       unlock_ce h ;;;
       lock_stats h ;;;
       let! c := get_cache h in
       put_cache h (mkCache (handle c) (num_cachelines c) (uwrap 64 (inuse c + 1)) (stats_lock c) (md_tree c)
                      (md_lock c) (lru_tree c) (lru_lock c) (ce_bitmap c) (current_ssd_ce c) (ssd_ce_mutex c)) ;;;
       unlock_stats h ;;;
       cret ce
   end)%cprog.

(** [entry], an [int32_t], is compared as a [uint64_t]. *)
Definition free_ssdcache_entry (h entry : Z) : cprog state Z :=
  (lock_stats h ;;;
   let! c := get_cache h in
   if num_cachelines c <? uwrap 64 entry then
     unlock_stats h ;;; put_errno EINVAL ;;; cret (-1)
   else
     unlock_stats h ;;;
     lock_ce h ;;;
     let! c := get_cache h in
     let! bm := cexpect OutOfBounds (BITCLEAR (ce_bitmap c) entry) in
     put_cache h (mkCache (handle c) (num_cachelines c) (inuse c) (stats_lock c) (md_tree c) (md_lock c)
                    (lru_tree c) (lru_lock c) bm (current_ssd_ce c) (ssd_ce_mutex c)) ;;;
     unlock_ce h ;;;
     cret 0)%cprog.

(** After a successful insertion [md_lock] is locked again where it should be
    unlocked. *)
Definition ssdmd_add (h ce now : Z) (md_ok lru_alloc_ok lru_ok : bool) : cprog state Z :=
  (lock_md h ;;;
   if negb md_ok then unlock_md h ;;; cret (-1)
   else
     let! c := get_cache h in
     put_cache h (mkCache (handle c) (num_cachelines c) (inuse c) (stats_lock c) (ce :: md_tree c) (md_lock c)
                    (lru_tree c) (lru_lock c) (ce_bitmap c) (current_ssd_ce c) (ssd_ce_mutex c)) ;;;
     lock_md h ;;;
     let undo_md := (let! c := get_cache h in
       put_cache h (mkCache (handle c) (num_cachelines c) (inuse c) (stats_lock c) (tail (md_tree c)) (md_lock c)
                      (lru_tree c) (lru_lock c) (ce_bitmap c) (current_ssd_ce c) (ssd_ce_mutex c))) in
     if negb lru_alloc_ok then undo_md ;;; cret (-1)
     else
       lock_lru h ;;;
       if negb lru_ok then unlock_lru h ;;; cfault NullDeref (* RBDelete(md_tree, NULL) *)
       else
         let! c := get_cache h in
         put_cache h (mkCache (handle c) (num_cachelines c) (inuse c) (stats_lock c) (md_tree c) (md_lock c)
                        (now :: lru_tree c) (lru_lock c) (ce_bitmap c) (current_ssd_ce c) (ssd_ce_mutex c)) ;;;
         unlock_lru h ;;;
         cret 0)%cprog.

(** What the system answers to a store: the file made, the return value of
    [write] (an [int] that is compared with a [size_t]), the allocation, the
    insertions, the time. *)
Record store_env : Type := mkStoreEnv {
  mkstemp : option Z;
  written : Z;
  malloc_ok : bool;
  md_ok : bool;
  lru_alloc_ok : bool;
  lru_ok : bool;
  now : Z
}.

Definition sstack_ssd_cache_store (h : Z) (data_ok : bool) (size : Z) (e : store_env) : cprog state Z :=
  if (h <? 0) || negb data_ok || (size <=? 0) then (put_errno EINVAL ;;; cret (-1))%cprog
  else
    (list_lock ;;;
     let! s := cget in
     if cur_ssd_cache_handle s <? h then list_unlock ;;; put_errno EINVAL ;;; cret (-1)
     else
       list_unlock ;;;
       let! ce := get_ssdcache_entry h in
       if ce <? 0 then put_errno EIO ;;; cret (-1)
       else
         match mkstemp e with
         | None => free_ssdcache_entry h ce ;;; cret (-1)
         | Some f =>
             cmod (fun s => set_files ({[f]} ∪ files s) s) ;;;
             let unlink := cmod (fun s => set_files (files s ∖ {[f]}) s) in
             if uwrap 64 (written e) <? size then unlink ;;; free_ssdcache_entry h ce ;;; cret (-1)
             else if negb (malloc_ok e) then unlink ;;; free_ssdcache_entry h ce ;;; cret (-1)
             else
               let! ret := ssdmd_add h ce (now e) (md_ok e) (lru_alloc_ok e) (lru_ok e) in
               if ret =? -1 then unlink ;;; free_ssdcache_entry h ce ;;; cret (-1)
               else cret ce
         end)%cprog.

(** * Lemmas *)

(** A cache that is set up and in nobody's critical section. *)
Record ready (c : ssd_cache_struct) : Prop := {
  ready_lines : 0 <= num_cachelines c < 2 ^ 31;
  ready_pool : pool_ok (num_cachelines c) (current_ssd_ce c) (ce_bitmap c);
  ready_stats : stats_lock c = false;
  ready_md : md_lock c = false;
  ready_lru : lru_lock c = false;
  ready_ce : ssd_ce_mutex c = false
}.

Lemma get_cache_run h c s : ssd_caches s !! Z.to_nat h = Some c -> get_cache h s = Ret (c, s).
Proof. unfold get_cache. by intros ->. Qed.

(** The state with another cache [h]. *)
Definition at_cache (s : state) (h : Z) (c : ssd_cache_struct) : state :=
  set_caches (<[Z.to_nat h := c]> (ssd_caches s)) s.

Lemma at_cache_lookup s h c c0 :
  ssd_caches s !! Z.to_nat h = Some c0 -> ssd_caches (at_cache s h c) !! Z.to_nat h = Some c.
Proof. intros Hc. simpl. rewrite list_lookup_insert_eq; [done|]. by eapply lookup_lt_Some. Qed.

Lemma at_cache_twice s h c c' : at_cache (at_cache s h c) h c' = at_cache s h c'.
Proof. unfold at_cache, set_caches. simpl. by rewrite list_insert_insert_eq. Qed.

Lemma at_cache_id s h c : ssd_caches s !! Z.to_nat h = Some c -> at_cache s h c = s.
Proof. intros Hc. unfold at_cache, set_caches. rewrite list_insert_id by done. by destruct s. Qed.

Lemma put_cache_run h c s : put_cache h c s = Ret (tt, at_cache s h c).
Proof. done. Qed.

(** Running the critical sections of one cache. *)
Ltac run_cache Hc :=
  repeat first
    [ rewrite at_cache_twice
    | rewrite (get_cache_run _ _ _ Hc)
    | rewrite put_cache_run
    | erewrite get_cache_run by (eapply at_cache_lookup; exact Hc)
    | progress cbn [with_locks stats_lock md_lock lru_lock ssd_ce_mutex num_cachelines inuse ce_bitmap
        current_ssd_ce handle md_tree lru_tree] ].

Definition taken (c : ssd_cache_struct) (bm : bitmap) (cur : Z) : ssd_cache_struct :=
  mkCache (handle c) (num_cachelines c) (uwrap 64 (inuse c + 1)) false (md_tree c) (md_lock c)
    (lru_tree c) (lru_lock c) bm cur false.

Lemma get_entry_run h c s :
  ssd_caches s !! Z.to_nat h = Some c -> ready c ->
  match next_slot (num_cachelines c) (current_ssd_ce c) (ce_bitmap c) with
  | Ret (Some (ce, cur, bm)) => get_ssdcache_entry h s = Ret (ce, at_cache s h (taken c bm cur))
  | Ret None => get_ssdcache_entry h s
      = Ret (-1, at_cache s h (with_locks c false (md_lock c) (lru_lock c) true))
  | Fault _ => False
  end.
Proof.
  intros Hc [H1 H2 H3 H4 H5 H6]. destruct (next_slot_total _ _ _ H2) as [r Hr].
  assert (Hw : swrap 32 (num_cachelines c) = num_cachelines c) by (apply swrap_small; lia).
  rewrite Hr. unfold get_ssdcache_entry, lock_stats, unlock_stats, lock_ce, unlock_ce, cbind, cret, cfault.
  run_cache Hc. rewrite H3. run_cache Hc. rewrite H6. run_cache Hc.
  rewrite Hw, Hr. destruct r as [[[ce cur] bm]|]; run_cache Hc; done.
Qed.

Definition freed (c : ssd_cache_struct) (bm : bitmap) : ssd_cache_struct :=
  mkCache (handle c) (num_cachelines c) (inuse c) false (md_tree c) (md_lock c) (lru_tree c) (lru_lock c) bm
    (current_ssd_ce c) false.

Lemma free_entry_run h c s entry :
  ssd_caches s !! Z.to_nat h = Some c -> ready c -> 0 <= entry < 2 ^ 31 ->
  free_ssdcache_entry h entry s
  = if num_cachelines c <? entry then
      Ret (-1, mkState (ssd_caches s) (cur_ssd_cache_handle s) (cache_list_lock s) (files s) EINVAL)
    else match BITCLEAR (ce_bitmap c) entry with
         | Some bm => Ret (0, at_cache s h (freed c bm))
         | None => Fault OutOfBounds
         end.
Proof.
  intros Hc [H1 H2 H3 H4 H5 H6] He.
  assert (Hw : uwrap 64 entry = entry) by (apply uwrap_small; lia).
  unfold free_ssdcache_entry, lock_stats, unlock_stats, lock_ce, unlock_ce, cbind, cret, cfault, put_errno, cmod.
  run_cache Hc. rewrite H3. run_cache Hc. rewrite Hw.
  destruct (num_cachelines c <? entry); run_cache Hc.
  - assert (with_locks (with_locks c true (md_lock c) (lru_lock c) (ssd_ce_mutex c)) false (md_lock c) (lru_lock c)
        (ssd_ce_mutex c) = c) as -> by (destruct c; simpl in *; by subst).
    by rewrite (at_cache_id _ _ _ Hc).
  - rewrite H6. run_cache Hc. unfold cexpect. destruct (BITCLEAR (ce_bitmap c) entry); [|done].
    unfold cret. run_cache Hc. done.
Qed.

(** A full cache, or one that is not set up, is left with its mutex held. *)
Lemma get_entry_full h c s :
  ssd_caches s !! Z.to_nat h = Some c -> ready c -> current_ssd_ce c = num_cachelines c ->
  (forall i, 0 <= i < num_cachelines c -> bit (ce_bitmap c) i = true) ->
  exists s', get_ssdcache_entry h s = Ret (-1, s') /\ get_ssdcache_entry h s' = Fault Deadlock.
Proof.
  intros Hc Hr Hcur Hall. pose proof (get_entry_run h c s Hc Hr) as Hg.
  destruct (next_slot_wrap _ _ _ (ready_pool _ Hr)) as [[He _]|(i & j & bm & _ & Hw)]; [lia| |].
  - rewrite He in Hg. eexists. split; [exact Hg|].
    unfold get_ssdcache_entry, lock_stats, unlock_stats, lock_ce, cbind, cfault. run_cache Hc. done.
  - destruct Hw as (Hi & Hb & _). rewrite Hall in Hb by done. done.
Qed.

(** The insertion of the metadata of a stored object. *)
Lemma ssdmd_add_run h c s ce now la lo :
  ssd_caches s !! Z.to_nat h = Some c -> md_lock c = false ->
  ssdmd_add h ce now true la lo s = Fault Deadlock.
Proof.
  intros Hc Hm. unfold ssdmd_add, lock_md, cbind, cfault. run_cache Hc. rewrite Hm.
  run_cache Hc. cbn [negb]. run_cache Hc. done.
Qed.

(** * Properties *)

(** [sstack_ssd_cache_init] never succeeds: the variable it tests after
    making the bitmap was set to -1 at its declaration. Whatever the system
    answers, the call returns -1 (as an unsigned handle) and no cache is
    registered, although a handle may be used up. *)
Theorem ssd_init_always_fails path_ok size e junk s :
  cache_list_lock s = false ->
  exists s', sstack_ssd_cache_init path_ok size e junk s = Ret (NO_HANDLE, s') /\
    ssd_caches s' = ssd_caches s /\
    cur_ssd_cache_handle s' =
      (if path_ok && (0 <=? size) && (if ssd_create_cachedev path_ok size e then true else false)
          && (cur_ssd_cache_handle s <? MAX_SSD_CACHEDEV)
       then uwrap 32 (cur_ssd_cache_handle s + 1) else cur_ssd_cache_handle s).
Proof.
  intros Hl. unfold sstack_ssd_cache_init. destruct path_ok; simpl; [|by eexists].
  destruct (Z.ltb_spec size 0) as [Hs|Hs].
  { rewrite (proj2 (Z.leb_gt _ _)) by lia. by eexists. }
  rewrite (proj2 (Z.leb_le _ _)) by lia. simpl.
  destruct (ssd_create_cachedev true size e) as [lines|]; [|by eexists]. simpl.
  unfold get_next_ssd_cache_handle, list_lock, list_unlock, cbind, cget, cmod, cret. rewrite Hl. simpl.
  destruct (cur_ssd_cache_handle s <? MAX_SSD_CACHEDEV); simpl.
  - destruct (_ =? NO_HANDLE); simpl; [by eexists|].
    destruct (md_create_ok e); simpl; [|by eexists]. destruct (lru_create_ok e); simpl; by eexists.
  - by eexists.
Qed.

(** A store into a cache with a free line never returns: once the file is
    written and the metadata inserted, [md_lock] is locked a second time. A
    failed [write] is no exception, since its -1 is compared as an unsigned
    number. *)
Theorem ssd_store_deadlocks h c s size e f :
  ssd_caches s !! Z.to_nat h = Some c -> ready c -> cache_list_lock s = false ->
  0 <= h <= cur_ssd_cache_handle s -> 0 < size -> current_ssd_ce c < num_cachelines c ->
  mkstemp e = Some f -> size <= uwrap 64 (written e) -> malloc_ok e = true -> md_ok e = true ->
  sstack_ssd_cache_store h true size e s = Fault Deadlock.
Proof.
  intros Hc Hr Hl Hh Hs Hcur Hf Hw Hm Hmd. pose proof (ready_pool _ Hr) as Hp.
  destruct (next_slot_nowrap _ _ _ Hp Hcur) as (bm & Hn & _).
  destruct (next_slot_sound _ _ _ _ _ _ Hp Hn) as (Hce & _).
  unfold sstack_ssd_cache_store. rewrite (proj2 (Z.ltb_ge h 0)), (proj2 (Z.leb_gt size 0)) by lia. simpl.
  unfold cbind at 1, list_lock. rewrite Hl. unfold cbind at 1, cget. cbn [cur_ssd_cache_handle].
  rewrite (proj2 (Z.ltb_ge _ h)) by lia. unfold cbind at 1, list_unlock, cmod.
  assert (Hs1 : mkState (ssd_caches s) (cur_ssd_cache_handle s) false (files s) (errno s) = s)
    by (destruct s; simpl in *; by subst).
  cbn [ssd_caches cur_ssd_cache_handle files errno]. rewrite Hs1.
  pose proof (get_entry_run h c s Hc Hr) as Hg. rewrite Hn in Hg. unfold cbind at 1. rewrite Hg.
  rewrite (proj2 (Z.ltb_ge _ 0)) by lia. rewrite Hf. unfold cbind at 1. cbv zeta.
  rewrite (proj2 (Z.ltb_ge _ size)) by lia. rewrite Hm, Hmd. simpl. unfold cbind at 1.
  rewrite (ssdmd_add_run h (taken c bm (current_ssd_ce c + 1))); [done| |apply (ready_md _ Hr)].
  by eapply at_cache_lookup.
Qed.

(** [get_ssdcache_entry] hands out a line of the cache that the cursor points
    at or that is free, marks exactly this line busy, and freeing the line
    makes it free again. *)
Theorem ssd_entry_roundtrip h c s ce cur bm :
  ssd_caches s !! Z.to_nat h = Some c -> ready c ->
  next_slot (num_cachelines c) (current_ssd_ce c) (ce_bitmap c) = Ret (Some (ce, cur, bm)) ->
  exists s' bm', get_ssdcache_entry h s = Ret (ce, s') /\ 0 <= ce < num_cachelines c /\
    ssd_caches s' !! Z.to_nat h = Some (taken c bm cur) /\
    (forall k, 0 <= k -> bit bm k = if ce =? k then true else bit (ce_bitmap c) k) /\
    free_ssdcache_entry h ce s' = Ret (0, at_cache s' h (freed (taken c bm cur) bm')) /\
    (forall k, 0 <= k -> bit bm' k = if ce =? k then false else bit (ce_bitmap c) k).
Proof.
  intros Hc Hr Hn. pose proof (get_entry_run h c s Hc Hr) as Hg. rewrite Hn in Hg.
  destruct (next_slot_sound _ _ _ _ _ _ (ready_pool _ Hr) Hn) as (Hce & Hp & Hbits).
  destruct (BITCLEAR_in bm ce) as [bm' Hb]; [by eapply pool_in_bitmap|].
  assert (Hr' : ready (taken c bm cur)) by (destruct Hr; by split).
  pose proof (at_cache_lookup s h (taken c bm cur) c Hc) as Hc'.
  exists (at_cache s h (taken c bm cur)), bm'. split_and!; try done; try lia.
  - pose proof (ready_lines _ Hr). rewrite (free_entry_run h (taken c bm cur)) by (done || lia). simpl.
    rewrite (proj2 (Z.ltb_ge _ ce)) by lia. by rewrite Hb.
  - intros k Hk. rewrite (BITCLEAR_bit bm ce bm' k) by (done || lia). rewrite Hbits by done.
    by destruct (ce =? k).
Qed.

(** The bound of [free_ssdcache_entry] is off by one: with a number of lines
    that is a multiple of 8, the entry with that number, which is never handed
    out, is accepted and the byte after the bitmap is changed. *)
Theorem ssd_free_out_of_bounds h c s :
  ssd_caches s !! Z.to_nat h = Some c -> ready c ->
  num_cachelines c = CHAR_BIT * Z.of_nat (length (ce_bitmap c)) ->
  free_ssdcache_entry h (num_cachelines c) s = Fault OutOfBounds.
Proof.
  intros Hc Hr Hl. pose proof (ready_lines _ Hr). rewrite (free_entry_run h c) by (done || lia).
  rewrite Z.ltb_irrefl. unfold BITCLEAR, slot.
  assert (ce_bitmap c !! Z.to_nat (BITSLOT (num_cachelines c)) = None) as ->; [|done].
  apply lookup_ge_None. unfold BITSLOT. rewrite Hl, Z.mul_comm, Z.div_mul by done. lia.
Qed.

(** * Examples *)

Definition empty_cache : ssd_cache_struct :=
  mkCache 0 8 0 false [] false [] false [0] 0 false.
Definition demo : state := mkState (replicate 8 empty_cache) 1 false ∅ 0.

Lemma empty_ready : ready empty_cache.
Proof. split; try done; split; simpl; unfold CHAR_BIT; lia. Qed.

Lemma ssd_init_always_fails_witness :
  exists s', sstack_ssd_cache_init true 100 (mkDev 0 true 0 true 64 true true) empty_cache demo = Ret (NO_HANDLE, s') /\
    ssd_caches s' = ssd_caches demo /\ cur_ssd_cache_handle s' = 2.
Proof. exact (ssd_init_always_fails true 100 (mkDev 0 true 0 true 64 true true) empty_cache demo eq_refl). Defined.

Lemma ssd_store_deadlocks_witness :
  sstack_ssd_cache_store 1 true 10 (mkStoreEnv (Some 5) 10 true true true true 0) demo = Fault Deadlock.
Proof.
  apply (ssd_store_deadlocks 1 empty_cache demo 10 (mkStoreEnv (Some 5) 10 true true true true 0) 5);
    try reflexivity; try apply empty_ready; simpl; lia.
Defined.

Lemma ssd_entry_roundtrip_witness :
  exists s' bm', get_ssdcache_entry 1 demo = Ret (0, s') /\
    free_ssdcache_entry 1 0 s' = Ret (0, at_cache s' 1 (freed (taken empty_cache [1] 1) bm')).
Proof.
  destruct (ssd_entry_roundtrip 1 empty_cache demo 0 1 [1]) as (s' & bm' & H1 & _ & _ & _ & H2 & _);
    [reflexivity|apply empty_ready|reflexivity|]. exists s', bm'. split; assumption.
Defined.

Lemma ssd_free_out_of_bounds_witness : free_ssdcache_entry 1 8 demo = Fault OutOfBounds.
Proof. apply (ssd_free_out_of_bounds 1 empty_cache demo); [reflexivity|apply empty_ready|reflexivity]. Defined.

End SsdCache.
