(* ===== verification/ThreadPool.v ===== *)
(** The thread pool: common/src/sstack_thread_pool.c.

    All pool data is protected by [pool_mutex], so a thread's run is a
    sequence of atomic blocks: from taking the mutex (or waking up with it) to
    releasing it (or waiting on a condition variable). Every block is a
    function on the pool; [step] lets any thread run its next block. *)
From stdpp Require Import base gmap list numbers.
From S2P Require Import Prelude.

Module ThreadPool.

(** A queued job, [job_t]: its function and argument, by a number. *)
Abbreviation job := nat (only parsing).
Abbreviation tid := nat (only parsing).

(** Where a worker is between blocks: created and before its first lock;
    waiting on [pool_workcv], with or without a timeout, signalled or not; or
    running a job outside the mutex. *)
Inductive wpc : Set :=
  | WStart
  | WWait (timed woken : bool)
  | WRun (j : job).

(** Where a client is: in [sstack_thread_pool_wait], or in one of the two
    waits of [sstack_thread_pool_destroy]; signalled or not. *)
Inductive cpc : Set :=
  | CWait (woken : bool)         (* pool_waitcv *)
  | CDestroyActive (woken : bool)  (* pool_waitcv *)
  | CDestroyBusy (woken : bool).   (* pool_busycv *)

(** [struct sstack_thread_pool], its workers and its waiting clients. The
    flags POOL_WAIT and POOL_DESTROY are [pool_wait] and [pool_destroy]; the
    linked list from [pool_head] to [pool_tail] is [pool_queue]. [started]
    records the jobs that were taken off the queue. *)
Record pool : Type := mkPool {
  pool_active : list tid;
  pool_queue : list job;
  pool_wait : bool;
  pool_destroy : bool;
  pool_linger : Z;
  pool_minimum : Z;
  pool_maximum : Z;
  pool_nthreads : Z;
  pool_idle : Z;
  workers : gmap tid wpc;
  clients : gmap nat cpc;
  started : list job
}.

Definition set_active (l : list tid) (p : pool) : pool :=
  mkPool l (pool_queue p) (pool_wait p) (pool_destroy p) (pool_linger p) (pool_minimum p) (pool_maximum p)
    (pool_nthreads p) (pool_idle p) (workers p) (clients p) (started p).
Definition set_queue (q : list job) (p : pool) : pool :=
  mkPool (pool_active p) q (pool_wait p) (pool_destroy p) (pool_linger p) (pool_minimum p) (pool_maximum p)
    (pool_nthreads p) (pool_idle p) (workers p) (clients p) (started p).
Definition set_wait (b : bool) (p : pool) : pool :=
  mkPool (pool_active p) (pool_queue p) b (pool_destroy p) (pool_linger p) (pool_minimum p) (pool_maximum p)
    (pool_nthreads p) (pool_idle p) (workers p) (clients p) (started p).
Definition set_destroy (p : pool) : pool :=
  mkPool (pool_active p) (pool_queue p) (pool_wait p) true (pool_linger p) (pool_minimum p) (pool_maximum p)
    (pool_nthreads p) (pool_idle p) (workers p) (clients p) (started p).
Definition set_nthreads (n : Z) (p : pool) : pool :=
  mkPool (pool_active p) (pool_queue p) (pool_wait p) (pool_destroy p) (pool_linger p) (pool_minimum p)
    (pool_maximum p) n (pool_idle p) (workers p) (clients p) (started p).
Definition set_idle (n : Z) (p : pool) : pool :=
  mkPool (pool_active p) (pool_queue p) (pool_wait p) (pool_destroy p) (pool_linger p) (pool_minimum p)
    (pool_maximum p) (pool_nthreads p) n (workers p) (clients p) (started p).
Definition set_workers (w : gmap tid wpc) (p : pool) : pool :=
  mkPool (pool_active p) (pool_queue p) (pool_wait p) (pool_destroy p) (pool_linger p) (pool_minimum p)
    (pool_maximum p) (pool_nthreads p) (pool_idle p) w (clients p) (started p).
Definition set_clients (c : gmap nat cpc) (p : pool) : pool :=
  mkPool (pool_active p) (pool_queue p) (pool_wait p) (pool_destroy p) (pool_linger p) (pool_minimum p)
    (pool_maximum p) (pool_nthreads p) (pool_idle p) (workers p) c (started p).
Definition set_started (l : list job) (p : pool) : pool :=
  mkPool (pool_active p) (pool_queue p) (pool_wait p) (pool_destroy p) (pool_linger p) (pool_minimum p)
    (pool_maximum p) (pool_nthreads p) (pool_idle p) (workers p) (clients p) l.

Definition set_pc (t : tid) (c : wpc) (p : pool) : pool := set_workers (<[t := c]> (workers p)) p.

Definition no_job (p : pool) : bool := match pool_queue p with [] => true | _ => false end.
Definition no_active (p : pool) : bool := match pool_active p with [] => true | _ => false end.

(** [sstack_thread_pool_create]: NULL with EINVAL or ENOMEM, or an empty
    pool. The arguments are of type uint32_t, the fields they are stored in of
    type int. *)
Definition sstack_thread_pool_create (min_threads max_threads linger : Z) (malloc_ok : bool) : Z + pool :=
  if (max_threads <? min_threads) || (max_threads <? 1) then inl EINVAL
  else if negb malloc_ok then inl ENOMEM
  else inr (mkPool [] [] false false (swrap 32 linger) (swrap 32 min_threads) (swrap 32 max_threads) 0 0 ∅ ∅ []).

(** [pthread_cond_broadcast] on the three condition variables, and
    [pthread_cond_signal(&pool->pool_workcv)] that wakes the waiter [t]. *)
Definition wake_worker (c : wpc) : wpc := match c with WWait b _ => WWait b true | _ => c end.
Definition wake_waitcv (c : cpc) : cpc :=
  match c with CWait _ => CWait true | CDestroyActive _ => CDestroyActive true | _ => c end.
Definition wake_busycv (c : cpc) : cpc := match c with CDestroyBusy _ => CDestroyBusy true | _ => c end.

Definition broadcast_workcv (p : pool) : pool := set_workers (wake_worker <$> workers p) p.
Definition broadcast_waitcv (p : pool) : pool := set_clients (wake_waitcv <$> clients p) p.
Definition broadcast_busycv (p : pool) : pool := set_clients (wake_busycv <$> clients p) p.
Definition signal_workcv (t : option tid) (p : pool) : pool :=
  match t with Some t => set_workers (alter wake_worker t (workers p)) p | None => p end.

Definition notify_waiters (p : pool) : pool :=
  if no_job p && no_active p then broadcast_waitcv (set_wait false p) else p.

(** [create_worker(pool) == 0] followed by [pool_nthreads++]; [new] is the
    thread it makes, [None] when [pthread_create] fails. *)
Definition create_worker (new : option tid) (p : pool) : pool :=
  match new with
  | Some t => set_nthreads (pool_nthreads p + 1) (set_pc t WStart p)
  | None => p
  end.

Definition worker_cleanup (t : tid) (new : option tid) (p : pool) : pool :=
  let p := set_nthreads (pool_nthreads p - 1) (set_workers (delete t (workers p)) p) in
  if pool_destroy p then
    if pool_nthreads p =? 0 then broadcast_busycv p else p
  else if negb (no_job p) && (pool_nthreads p <? pool_maximum p) then create_worker new p
  else p.

(** The list of active workers without the first entry of [t]. *)
Fixpoint unlink_active (t : tid) (l : list tid) : list tid :=
  match l with
  | [] => []
  | a :: l' => if decide (a = t) then l' else a :: unlink_active t l'
  end.

Definition job_cleanup (t : tid) (p : pool) : pool :=
  let p := set_active (unlink_active t (pool_active p)) p in
  if pool_wait p then notify_waiters p else p.

(** The main loop of [worker_thread], entered with the mutex held at the head
    of the [for], at the condition of the [while], or after the [while]. It
    runs until the worker waits, runs a job, or ends; [fuel] bounds the
    number of passes through the three points. *)
Inductive entry : Set := LoopHead | WaitCheck | AfterWait (timedout : bool).

Fixpoint worker_loop (fuel : nat) (e : entry) (t : tid) (new : option tid) (p : pool) : option pool :=
  match fuel with
  | O => None
  | S fuel' =>
      match e with
      | LoopHead =>
          let p := set_idle (pool_idle p + 1) p in
          let p := if pool_wait p then notify_waiters p else p in
          worker_loop fuel' WaitCheck t new p
      | WaitCheck =>
          if no_job p && negb (pool_destroy p) then
            if pool_nthreads p <=? pool_minimum p then Some (set_pc t (WWait false false) p)
            else if pool_linger p =? 0 then worker_loop fuel' (AfterWait true) t new p
            else Some (set_pc t (WWait true false) p)
          else worker_loop fuel' (AfterWait false) t new p
      | AfterWait timedout =>
          let p := set_idle (pool_idle p - 1) p in
          if pool_destroy p then Some (worker_cleanup t new p)
          else match pool_queue p with
               | j :: q =>
                   Some (set_pc t (WRun j)
                          (set_started (started p ++ [j])
                             (set_active (t :: pool_active p) (set_queue q p))))
               | [] =>
                   if timedout && (pool_minimum p <? pool_nthreads p)
                   then Some (worker_cleanup t new p)
                   else worker_loop fuel' LoopHead t new p
               end
      end
  end.

(** [sstack_thread_pool_queue]; [sig] is the waiter that the signal wakes, if
    there is one, and [new] the worker made otherwise. *)
Definition sstack_thread_pool_queue (j : job) (sig new : option tid) (p : pool) : pool :=
  let p := set_queue (pool_queue p ++ [j]) p in
  if 0 <? pool_idle p then signal_workcv sig p
  else if pool_nthreads p <? pool_maximum p then create_worker new p
  else p.

(** [sstack_thread_pool_wait], entered or woken up: it waits, or returns. *)
Definition sstack_thread_pool_wait (c : nat) (p : pool) : pool :=
  if negb (no_job p) || negb (no_active p)
  then set_clients (<[c := CWait false]> (clients p)) (set_wait true p)
  else set_clients (delete c (clients p)) p.

(** [sstack_thread_pool_destroy]: the wait for the last worker, the wait for
    the active ones, and the whole from its start. The cancelled workers leave
    through [job_cleanup] and [worker_cleanup]. *)
Definition destroy_busy (c : nat) (p : pool) : pool :=
  if negb (pool_nthreads p =? 0)
  then set_clients (<[c := CDestroyBusy false]> (clients p)) p
  else set_clients (delete c (clients p)) (set_queue [] p).

Definition destroy_active (c : nat) (p : pool) : pool :=
  if negb (no_active p)
  then set_clients (<[c := CDestroyActive false]> (clients p)) (set_wait true p)
  else destroy_busy c p.

Definition sstack_thread_pool_destroy (c : nat) (p : pool) : pool :=
  destroy_active c (broadcast_workcv (set_destroy p)).

Definition loop_fuel : nat := 6.

(** * The steps

    [new] is always a thread that is not there yet; [can_fail] says whether
    [pthread_create] may fail. *)
Definition fresh (p : pool) (can_fail : bool) (new : option tid) : Prop :=
  match new with Some n => workers p !! n = None | None => can_fail = true end.

(** A signal wakes a waiting worker, if there is one. *)
Definition signals (p : pool) (sig : option tid) : Prop :=
  match sig with
  | Some t => exists b, workers p !! t = Some (WWait b false)
  | None => forall t b, workers p !! t <> Some (WWait b false)
  end.

Inductive step (can_fail : bool) : pool -> list job -> pool -> Prop :=
  | step_start p t new p' :
      workers p !! t = Some WStart -> fresh p can_fail new ->
      worker_loop loop_fuel LoopHead t new p = Some p' -> step can_fail p [] p'
  | step_woken p t b new p' :
      workers p !! t = Some (WWait b true) -> fresh p can_fail new ->
      worker_loop loop_fuel WaitCheck t new p = Some p' -> step can_fail p [] p'
  | step_timeout p t new p' :
      workers p !! t = Some (WWait true false) -> fresh p can_fail new ->
      worker_loop loop_fuel (AfterWait true) t new p = Some p' -> step can_fail p [] p'
  | step_return p t j new p' :
      workers p !! t = Some (WRun j) -> fresh p can_fail new ->
      worker_loop loop_fuel LoopHead t new (job_cleanup t p) = Some p' -> step can_fail p [] p'
  | step_exit p t j new :
      workers p !! t = Some (WRun j) -> fresh p can_fail new ->
      step can_fail p [] (worker_cleanup t new (job_cleanup t p))
  | step_queue p j sig new :
      pool_destroy p = false -> signals p sig -> fresh p can_fail new ->
      step can_fail p [j] (sstack_thread_pool_queue j sig new p)
  | step_wait p c :
      pool_destroy p = false -> clients p !! c = None ->
      step can_fail p [] (sstack_thread_pool_wait c p)
  | step_wait_woken p c :
      clients p !! c = Some (CWait true) -> step can_fail p [] (sstack_thread_pool_wait c p)
  | step_destroy p c :
      pool_destroy p = false -> clients p !! c = None ->
      step can_fail p [] (sstack_thread_pool_destroy c p)
  | step_destroy_active p c :
      clients p !! c = Some (CDestroyActive true) -> step can_fail p [] (destroy_active c p)
  | step_destroy_busy p c :
      clients p !! c = Some (CDestroyBusy true) -> step can_fail p [] (destroy_busy c p).

(** A wait on a condition variable may return although nobody signalled it:
    the waiter then goes on as one that was woken. *)
Inductive wake : pool -> pool -> Prop :=
  | wake_spurious_worker p t : wake p (set_workers (alter wake_worker t (workers p)) p)
  | wake_spurious_waitcv p c : wake p (set_clients (alter wake_waitcv c (clients p)) p)
  | wake_spurious_busycv p c : wake p (set_clients (alter wake_busycv c (clients p)) p).

(** The pools that can come about, with the jobs submitted so far. The
    maximum is one that an int holds. *)
Inductive reachable (can_fail : bool) : list job -> pool -> Prop :=
  | reach_create mn mx linger p :
      0 <= mn -> mx < 2 ^ 31 -> sstack_thread_pool_create mn mx linger true = inr p -> reachable can_fail [] p
  | reach_step js p l p' : reachable can_fail js p -> step can_fail p l p' -> reachable can_fail (js ++ l) p'
  | reach_wake js p p' : reachable can_fail js p -> wake p p' -> reachable can_fail js p'.

(** * Counting workers *)

Definition count (P : wpc -> bool) (m : gmap tid wpc) : Z := map_fold (fun _ c n => Z.b2z (P c) + n) 0 m.
Definition is_wait (c : wpc) : bool := match c with WWait _ _ => true | _ => false end.
Definition every (c : wpc) : bool := true.

Lemma count_empty P : count P ∅ = 0.
Proof. apply map_fold_empty. Qed.

Lemma count_insert P m t c : m !! t = None -> count P (<[t := c]> m) = Z.b2z (P c) + count P m.
Proof. intros Ht. unfold count. rewrite map_fold_insert_L; [done|intros; lia|done]. Qed.

Lemma count_delete P m t c : m !! t = Some c -> count P m = Z.b2z (P c) + count P (delete t m).
Proof.
  intros Ht. rewrite <- (insert_delete_id m t c Ht) at 1. apply count_insert. apply lookup_delete_eq.
Qed.

Lemma count_update P m t c c' :
  m !! t = Some c -> count P (<[t := c']> m) = Z.b2z (P c') + count P (delete t m).
Proof. intros Ht. rewrite <- insert_delete_eq. apply count_insert. apply lookup_delete_eq. Qed.

Lemma count_nonneg P m : 0 <= count P m.
Proof.
  induction m as [|t c m Hn IH] using map_ind; [by rewrite count_empty|].
  rewrite count_insert by done. destruct (P c); simpl; lia.
Qed.

Lemma count_pos P m : 0 < count P m -> exists t c, m !! t = Some c /\ P c = true.
Proof.
  induction m as [|t c m Hn IH] using map_ind.
  - rewrite count_empty. lia.
  - rewrite count_insert by done. destruct (P c) eqn:Hc; simpl; intros Hp.
    + exists t, c. by rewrite lookup_insert_eq.
    + destruct (IH Hp) as (t' & c' & Ht' & ?). exists t', c'. rewrite lookup_insert_ne; [done|]. congruence.
Qed.

Lemma count_zero P m : count P m = 0 -> forall t c, m !! t = Some c -> P c = false.
Proof.
  intros Hz t c Ht. rewrite (count_delete _ _ _ _ Ht) in Hz. pose proof (count_nonneg P (delete t m)).
  destruct (P c); simpl in *; [lia|done].
Qed.

Lemma count_size m : count every m = Z.of_nat (size m).
Proof.
  induction m as [|t c m Hn IH] using map_ind; [by rewrite count_empty|].
  rewrite count_insert, map_size_insert_None, IH by done. simpl. lia.
Qed.

Lemma count_filter P m : count P m = Z.of_nat (size (filter (fun '(_, c) => P c = true) m)).
Proof.
  induction m as [|t c m Hn IH] using map_ind; [by rewrite map_filter_empty, count_empty|].
  rewrite count_insert by done. destruct (P c) eqn:Hc.
  - rewrite map_filter_insert_True by done. rewrite map_size_insert_None; [simpl; lia|].
    apply map_lookup_filter_None. by left.
  - rewrite map_filter_insert_not' by (rewrite ?Hc; try done; intros ? E; congruence). simpl. lia.
Qed.

(** Waking workers changes no count. *)
Lemma count_fmap P f (m : gmap tid wpc) : (forall c, P (f c) = P c) -> count P (f <$> m) = count P m.
Proof.
  intros Hf. induction m as [|t c m Hn IH] using map_ind; [by rewrite fmap_empty|].
  rewrite fmap_insert, !count_insert, Hf, IH; [done|done|]. by rewrite lookup_fmap, Hn.
Qed.

Lemma count_alter P f t (m : gmap tid wpc) :
  (forall c, P (f c) = P c) -> count P (alter f t m) = count P m.
Proof.
  intros Hf. destruct (m !! t) as [c|] eqn:Ht.
  - assert (alter f t m = <[t := f c]> m) as ->.
    { apply map_eq. intros i. rewrite lookup_alter. case_decide; simplify_map_eq; done. }
    by rewrite (count_update _ _ _ _ _ Ht), Hf, (count_delete _ _ _ _ Ht).
  - rewrite alter_id; [done|]. congruence.
Qed.

(** * The invariant *)

(** [pool_active] lists the workers that run a job, less the one whose block
    is running. *)
Definition actives (p : pool) (out : option tid) : Prop :=
  NoDup (pool_active p) /\
  forall u, u ∈ pool_active p <-> Some u <> out /\ exists j, workers p !! u = Some (WRun j).

Definition busy (p : pool) : Prop := pool_queue p <> [] \/ pool_active p <> [].

(** A client in [sstack_thread_pool_wait] that was not woken has something to
    wait for and the flag is up; only a pool that is being destroyed has a
    client in [sstack_thread_pool_destroy]. *)
Definition waiters (p : pool) : Prop :=
  pool_destroy p = false ->
  forall c k, clients p !! c = Some k ->
    exists b, k = CWait b /\ (b = false -> pool_wait p = true /\ busy p).

Definition limits (p : pool) : Prop := 1 <= pool_maximum p /\ pool_nthreads p <= pool_maximum p.

Record inv (p : pool) : Prop := {
  inv_threads : pool_nthreads p = count every (workers p);
  inv_idle : pool_idle p = count is_wait (workers p);
  inv_active : actives p None;
  inv_waiters : waiters p;
  inv_limits : limits p
}.

(** Inside a block of the worker [t], which counts as idle or not. *)
Record mid (t : tid) (idle : Z) (p : pool) : Prop := {
  mid_here : is_Some (workers p !! t);
  mid_threads : pool_nthreads p = count every (workers p);
  mid_idle : pool_idle p = idle + count is_wait (delete t (workers p));
  mid_active : actives p (Some t);
  mid_waiters : waiters p;
  mid_limits : limits p
}.

Lemma notify_waiters_ok p : waiters p -> waiters (notify_waiters p).
Proof.
  intros Hw. unfold notify_waiters. destruct (no_job p && no_active p) eqn:Hb; [|done].
  intros Hd c k. simpl. rewrite lookup_fmap. intros (k' & Hk & Hc)%fmap_Some. subst.
  destruct (Hw Hd c k' Hk) as (b & -> & _). by exists true.
Qed.

(** Dropping the last reason to wait is announced. *)
Lemma drop_notify p p' :
  waiters p -> pool_destroy p' = pool_destroy p -> clients p' = clients p -> pool_wait p' = pool_wait p ->
  waiters (if pool_wait p' then notify_waiters p' else p').
Proof.
  intros Hw Hd Hc Hf. destruct (pool_wait p') eqn:Hp.
  - unfold notify_waiters. destruct (no_job p' && no_active p') eqn:Hb.
    + intros Hd' c k. simpl in *. rewrite lookup_fmap, Hc. intros (k' & Hk & Hck)%fmap_Some. subst.
      destruct (Hw ltac:(congruence) c k' Hk) as (b & -> & _). by exists true.
    + intros Hd' c k Hk. rewrite Hc in Hk. destruct (Hw ltac:(congruence) c k Hk) as (b & -> & Hbf).
      exists b. split; [done|]. intros ->. split; [done|]. unfold busy, no_job, no_active in *.
      destruct (pool_queue p'); [right|by left]. by destruct (pool_active p').
  - intros Hd' c k Hk. rewrite Hc in Hk. destruct (Hw ltac:(congruence) c k Hk) as (b & -> & Hbf).
    exists b. split; [done|]. intros ->. destruct (Hbf eq_refl). congruence.
Qed.

Ltac frame_pool := split; simpl; try done; try (unfold waiters, limits, actives, busy in *; simpl in *; done).

Lemma worker_cleanup_ok t new p cf :
  mid t 0 p -> fresh p cf new -> inv (worker_cleanup t new p).
Proof.
  intros [[c Hc] H1 H2 [H3 H3'] H4 [H5 H5']] Hf. unfold worker_cleanup.
  set (p1 := set_nthreads _ _).
  assert (Hn1 : pool_nthreads p1 = count every (delete t (workers p))).
  { simpl. rewrite H1, (count_delete _ _ _ _ Hc). simpl. lia. }
  assert (Hinv : inv p1).
  { split; [exact Hn1|simpl; lia| |exact H4|split; simpl; lia].
    split; [done|]. intros u. simpl. rewrite H3'. split.
    - intros [Hu (j & Hj)]. split; [done|]. exists j. rewrite lookup_delete_ne by congruence. done.
    - intros [_ (j & Hj)]. apply lookup_delete_Some in Hj as [? ?]. split; [congruence|eauto]. }
  destruct (pool_destroy p1) eqn:Hd; [destruct (pool_nthreads p1 =? 0)|].
  - destruct Hinv as [G1 G2 G3 G4 G5]. split; try done. intros Hd'. simpl in *. congruence.
  - done.
  - destruct (negb (no_job p1) && (pool_nthreads p1 <? pool_maximum p1)) eqn:Hb; [|done].
    destruct new as [n|]; [|done]. simpl in Hf. bool_to_Z.
    assert (Hnt : delete t (workers p) !! n = None).
    { simpl. rewrite lookup_delete_None. by right. }
    destruct Hinv as [G1 G2 [G3 G3'] G4 [G5 G5']]. split; try done.
    + simpl. rewrite count_insert by done. simpl in *. lia.
    + simpl. rewrite count_insert by done. simpl in *. lia.
    + split; [done|]. intros u. specialize (G3' u). simpl in G3' |- *. rewrite G3'. split.
      * intros (? & j & Hj). split; [done|]. exists j. rewrite lookup_insert_ne; [done|]. intros ->. congruence.
      * intros (? & j & Hj). split; [done|]. destruct (decide (n = u)) as [->|].
        -- rewrite lookup_insert_eq in Hj. done.
        -- rewrite lookup_insert_ne in Hj by done. eauto.
    + split; simpl in *; lia.
Qed.

Lemma notify_same p :
  workers (notify_waiters p) = workers p /\ pool_active (notify_waiters p) = pool_active p /\
  pool_queue (notify_waiters p) = pool_queue p /\ pool_destroy (notify_waiters p) = pool_destroy p /\
  pool_nthreads (notify_waiters p) = pool_nthreads p /\ pool_idle (notify_waiters p) = pool_idle p /\
  pool_maximum (notify_waiters p) = pool_maximum p /\ pool_minimum (notify_waiters p) = pool_minimum p /\
  pool_linger (notify_waiters p) = pool_linger p /\ started (notify_waiters p) = started p.
Proof. unfold notify_waiters. by destruct (no_job p && no_active p). Qed.

(** The head of the loop. *)
Lemma loop_head_mid t p :
  mid t 0 p ->
  let p1 := set_idle (pool_idle p + 1) p in
  mid t 1 (if pool_wait p1 then notify_waiters p1 else p1).
Proof.
  intros [H1 H2 H3 H4 H5 H6] p1.
  pose proof (drop_notify p p1 H5 eq_refl eq_refl eq_refl) as Hw.
  destruct (pool_wait p1); [|split; simpl; try done; lia].
  destruct (notify_same p1) as (E1 & E2 & E3 & E4 & E5 & E6 & E7 & E8 & E9 & E10).
  split; unfold actives, limits; rewrite ?E1, ?E2, ?E5, ?E6, ?E7; simpl; try done; lia.
Qed.

(** A worker that parks. *)
Lemma park_ok t p b : mid t 1 p -> inv (set_pc t (WWait b false) p).
Proof.
  intros [[c Hc] H2 H3 [H4 H4'] H5 H6]. split; simpl; try done.
  - rewrite (count_update _ _ _ _ _ Hc). rewrite H2, (count_delete _ _ _ _ Hc). done.
  - rewrite (count_update _ _ _ _ _ Hc), H3. simpl. lia.
  - split; [done|]. intros u. simpl. rewrite H4'. split.
    + intros (? & j & Hj). split; [done|]. exists j. by rewrite lookup_insert_ne by congruence.
    + intros (_ & j & Hj). destruct (decide (t = u)) as [->|]; [by rewrite lookup_insert_eq in Hj|].
      rewrite lookup_insert_ne in Hj by done. split; [congruence|eauto].
Qed.

(** A worker that takes a job. *)
Lemma take_ok t p j q :
  mid t 0 p -> pool_queue p = j :: q ->
  inv (set_pc t (WRun j) (set_started (started p ++ [j]) (set_active (t :: pool_active p) (set_queue q p)))).
Proof.
  intros [[c Hc] H2 H3 [H4 H4'] H5 H6] Hq. split; simpl; try done.
  - rewrite (count_update _ _ _ _ _ Hc). rewrite H2, (count_delete _ _ _ _ Hc). done.
  - rewrite (count_update _ _ _ _ _ Hc), H3. simpl. lia.
  - split; simpl.
    + constructor; [|done]. rewrite H4'. tauto.
    + intros u. rewrite elem_of_cons, H4'. split.
      * intros [->|(? & j' & Hj)]; (split; [done|]); [exists j; by rewrite lookup_insert_eq|].
        exists j'. by rewrite lookup_insert_ne by congruence.
      * intros (_ & j' & Hj). destruct (decide (t = u)) as [->|]; [by left|right].
        rewrite lookup_insert_ne in Hj by done. split; [congruence|eauto].
  - intros Hd k' k Hk. destruct (H5 Hd k' k Hk) as (b & -> & Hb). exists b. split; [done|].
    intros Hbf. split; [by apply Hb|]. right. simpl. done.
Qed.

(** Leaving the idle state. *)
Lemma leave_idle t p : mid t 1 p -> mid t 0 (set_idle (pool_idle p - 1) p).
Proof. intros [H1 H2 H3 H4 H5 H6]. split; simpl; try done. lia. Qed.

(** A block of a worker ends in a good state, whatever its entry. *)
Definition entry_idle (e : entry) : Z := match e with LoopHead => 0 | _ => 1 end.

Lemma worker_loop_ok fuel e t new p p' cf :
  mid t (entry_idle e) p -> fresh p cf new -> worker_loop fuel e t new p = Some p' -> inv p'.
Proof.
  revert e p. induction fuel as [|fuel IH]; intros e p Hm Hf; [done|]. destruct e as [| |timedout]; cbn [worker_loop].
  - apply IH; [by apply loop_head_mid|].
    destruct (pool_wait _); [|done]. destruct (notify_same (set_idle (pool_idle p + 1) p)) as (E1 & _).
    unfold fresh in *. destruct new; [|done]. by rewrite E1.
  - destruct (no_job p && negb (pool_destroy p)).
    + destruct (pool_nthreads p <=? pool_minimum p); [intros [= <-]; by apply park_ok|].
      destruct (pool_linger p =? 0); [by apply IH|]. intros [= <-]; by apply park_ok.
    + by apply IH.
  - apply leave_idle in Hm. cbv zeta. destruct (pool_destroy _).
    + intros [= <-]. by eapply worker_cleanup_ok.
    + destruct (pool_queue (set_idle (pool_idle p - 1) p)) as [|j q] eqn:Hq.
      * destruct (timedout && _); [intros [= <-]; by eapply worker_cleanup_ok|]. by apply IH.
      * intros [= <-]. exact (take_ok _ _ _ _ Hm Hq).
Qed.

(** The loop always comes to a point where the worker lets go of the mutex:
    the fuel is enough. *)
Lemma wait_check_total f t new p :
  pool_queue p = [] -> pool_destroy p = false ->
  exists p', worker_loop (S (S f)) WaitCheck t new p = Some p'.
Proof.
  intros Hq Hd. cbn [worker_loop]. unfold no_job. rewrite Hq, Hd. simpl.
  destruct (Z.leb_spec (pool_nthreads p) (pool_minimum p)) as [Hn|Hn]; [eauto|].
  destruct (pool_linger p =? 0); [|eauto]. rewrite Hd, Hq.
  rewrite (proj2 (Z.ltb_lt _ _) Hn). eauto.
Qed.

Lemma after_wait_total f b t new p :
  exists p', worker_loop (S (S (S (S f)))) (AfterWait b) t new p = Some p'.
Proof.
  cbn [worker_loop]. cbv zeta. set (p1 := set_idle (pool_idle p - 1) p).
  destruct (pool_destroy p1) eqn:Hd; [eauto|]. destruct (pool_queue p1) eqn:Hq; [|eauto].
  destruct (b && _); [eauto|]. apply wait_check_total.
  - destruct (pool_wait _); [|done]. by destruct (notify_same (set_idle (pool_idle p1 + 1) p1)) as (_ & _ & -> & _).
  - destruct (pool_wait _); [|done]. by destruct (notify_same (set_idle (pool_idle p1 + 1) p1)) as (_ & _ & _ & -> & _).
Qed.

Lemma worker_loop_total e t new p : exists p', worker_loop loop_fuel e t new p = Some p'.
Proof.
  assert (Hwc : forall f p, exists p', worker_loop (S (S (S (S (S f))))) WaitCheck t new p = Some p').
  { intros f q. change (exists p', (if no_job q && negb (pool_destroy q) then
      if pool_nthreads q <=? pool_minimum q then Some (set_pc t (WWait false false) q)
      else if pool_linger q =? 0 then worker_loop (S (S (S (S f)))) (AfterWait true) t new q
      else Some (set_pc t (WWait true false) q)
    else worker_loop (S (S (S (S f)))) (AfterWait false) t new q) = Some p').
    destruct (no_job q && _); [|apply after_wait_total].
    destruct (_ <=? _); [eauto|]. destruct (_ =? 0); [apply after_wait_total|eauto]. }
  destruct e as [| |b]; [|apply Hwc|apply after_wait_total]. apply (Hwc 0%nat).
Qed.

(** * Steps keep the invariant *)

Lemma out_of_wait p t b w :
  inv p -> workers p !! t = Some (WWait b w) -> mid t 1 p.
Proof.
  intros [H1 H2 [H3 H3'] H4 H5] Ht. split; try done.
  - rewrite H2, (count_delete _ _ _ _ Ht). done.
  - split; [done|]. intros u. rewrite H3'. split.
    + intros (_ & j & Hj). split; [congruence|eauto].
    + intros (_ & Hj). done.
Qed.

Lemma out_of_start p t : inv p -> workers p !! t = Some WStart -> mid t 0 p.
Proof.
  intros [H1 H2 [H3 H3'] H4 H5] Ht. split; try done.
  - rewrite H2, (count_delete _ _ _ _ Ht). done.
  - split; [done|]. intros u. rewrite H3'. split.
    + intros (_ & j & Hj). split; [congruence|eauto].
    + intros (_ & Hj). done.
Qed.

Lemma unlink_active_spec t l :
  NoDup l -> NoDup (unlink_active t l) /\ forall u, u ∈ unlink_active t l <-> u ∈ l /\ u <> t.
Proof.
  induction l as [|a l IH]; intros Hnd; simpl.
  - split; [constructor|]. intros u. split; [intros Hu; by apply elem_of_nil in Hu|tauto].
  - apply list.NoDup_cons in Hnd as [Ha Hnd]. destruct (IH Hnd) as [IH1 IH2]. case_decide as Hd.
    + subst. split; [done|]. intros u. rewrite elem_of_cons. split; [|tauto].
      intros Hu. split; [by right|]. intros ->. done.
    + split.
      * constructor; [|done]. rewrite IH2. tauto.
      * intros u. rewrite !elem_of_cons, IH2. split; [|tauto]. intros [->|]; tauto.
Qed.

Lemma job_cleanup_mid p t j :
  inv p -> workers p !! t = Some (WRun j) -> mid t 0 (job_cleanup t p).
Proof.
  intros [H1 H2 [H3 H3'] H4 H5] Ht. unfold job_cleanup.
  destruct (unlink_active_spec t _ H3) as [Hu1 Hu2].
  set (p1 := set_active (unlink_active t (pool_active p)) p).
  pose proof (drop_notify p p1 H4 eq_refl eq_refl eq_refl) as Hw.
  assert (Hact : actives p1 (Some t)).
  { split; [exact Hu1|]. intros u. simpl. rewrite Hu2, H3'. split; [|].
    - intros [(_ & j' & Hj) Hne]. split; [congruence|eauto].
    - intros [Hne Hj]. split; [done|congruence]. }
  assert (Hidle : pool_idle p1 = 0 + count is_wait (delete t (workers p))).
  { simpl. rewrite H2, (count_delete _ _ _ _ Ht). done. }
  destruct (pool_wait p1).
  - destruct (notify_same p1) as (E1 & E2 & E3 & E4 & E5 & E6 & E7 & E8 & E9 & E10).
    split; unfold actives, limits; rewrite ?E1, ?E2, ?E5, ?E6, ?E7; try done.
  - split; done.
Qed.

Lemma job_cleanup_fresh p t cf new : fresh p cf new -> fresh (job_cleanup t p) cf new.
Proof.
  unfold fresh, job_cleanup. destruct new; [|done]. set (p1 := set_active _ p).
  destruct (pool_wait p1); [|done]. by destruct (notify_same p1) as (-> & _).
Qed.

Lemma actives_same p p' :
  pool_active p' = pool_active p ->
  (forall u j, workers p' !! u = Some (WRun j) <-> workers p !! u = Some (WRun j)) ->
  actives p None -> actives p' None.
Proof.
  intros Ha Hw [H1 H2]. unfold actives. rewrite Ha. split; [done|]. intros u. rewrite H2. by setoid_rewrite Hw.
Qed.

Lemma queue_ok p cf j sig new :
  inv p -> fresh p cf new -> signals p sig -> inv (sstack_thread_pool_queue j sig new p).
Proof.
  intros [H1 H2 H3 H4 [H5 H5']] Hf Hs. unfold sstack_thread_pool_queue.
  set (p1 := set_queue _ p).
  assert (Hw1 : waiters p1).
  { intros Hd c k Hk. destruct (H4 Hd c k Hk) as (b & -> & Hb). exists b. split; [done|]. intros Hbf.
    split; [by apply Hb|]. left. simpl. by destruct (pool_queue p). }
  destruct (0 <? pool_idle p1).
  - destruct sig as [t|]; [|split; done]. destruct Hs as [b Hb]. split; try done; simpl.
    + rewrite H1. symmetry. by apply count_alter.
    + rewrite H2. symmetry. apply count_alter. by intros [].
    + eapply actives_same; [|intros u j'|exact H3]; [done|]. simpl. rewrite lookup_alter.
      case_decide; [subst; rewrite Hb; simpl|done]. split; congruence.
  - destruct (Z.ltb_spec (pool_nthreads p1) (pool_maximum p1)) as [Hlt|Hge]; [|split; done].
    destruct new as [n|]; [|split; done]. simpl in Hf. split; try done; simpl.
    + rewrite count_insert by done. rewrite H1. simpl. lia.
    + rewrite count_insert by done. rewrite H2. done.
    + eapply actives_same; [|intros u j'|exact H3]; [done|]. simpl. rewrite lookup_insert.
      case_decide; [subst; rewrite Hf|done]. done.
    + split; simpl in *; lia.
Qed.

Lemma clients_ok p c k :
  inv p -> (pool_destroy p = false -> k = CWait false /\ busy p) ->
  inv (set_clients (<[c := k]> (clients p)) (set_wait true p)).
Proof.
  intros [H1 H2 H3 H4 H5] Hk. split; try done. intros Hd c' k'. simpl.
  destruct (decide (c = c')) as [<-|Hne].
  - rewrite lookup_insert_eq. intros [= <-]. destruct (Hk Hd) as [-> ?]. exists false. done.
  - rewrite lookup_insert_ne by done. intros Hk'. destruct (H4 Hd c' k' Hk') as (b & -> & Hb).
    exists b. split; [done|]. intros Hbf. destruct (Hb Hbf). done.
Qed.

Lemma drop_client_ok p c : inv p -> inv (set_clients (delete c (clients p)) p).
Proof.
  intros [H1 H2 H3 H4 H5]. split; try done. intros Hd c' k'. simpl.
  intros [_ Hk]%lookup_delete_Some. by apply H4 with c'.
Qed.

Lemma wait_ok p c : inv p -> inv (sstack_thread_pool_wait c p).
Proof.
  intros Hi. unfold sstack_thread_pool_wait. destruct (negb (no_job p) || negb (no_active p)) eqn:Hb.
  - apply clients_ok; [done|]. intros _. split; [done|]. unfold busy, no_job, no_active in *.
    destruct (pool_queue p); [right|by left]. by destruct (pool_active p).
  - by apply drop_client_ok.
Qed.

Lemma destroying_ok p p' :
  inv p -> pool_destroy p' = true -> workers p' = workers p -> pool_active p' = pool_active p ->
  pool_nthreads p' = pool_nthreads p -> pool_idle p' = pool_idle p -> pool_maximum p' = pool_maximum p -> inv p'.
Proof.
  intros [H1 H2 [H3 H3'] H4 H5] Hd E1 E2 E3 E4 E5. split; unfold actives, waiters, limits; rewrite ?E1, ?E2, ?E3, ?E4, ?E5; try done.
  intros ?. congruence.
Qed.

Lemma destroy_active_ok p c : inv p -> pool_destroy p = true -> inv (destroy_active c p).
Proof.
  intros Hi Hd. unfold destroy_active, destroy_busy.
  destruct (negb (no_active p)); [by eapply destroying_ok|].
  destruct (negb (pool_nthreads p =? 0)); by eapply destroying_ok.
Qed.

Lemma destroy_ok p c : inv p -> inv (sstack_thread_pool_destroy c p).
Proof.
  intros [H1 H2 H3 H4 H5]. apply destroy_active_ok; [|done]. split; simpl; try done.
  - rewrite H1. symmetry. by apply count_fmap.
  - rewrite H2. symmetry. apply count_fmap. by intros [].
  - eapply actives_same; [|intros u j|exact H3]; [done|]. simpl. rewrite lookup_fmap.
    destruct (workers p !! u) as [[]|]; simpl; split; congruence.
Qed.

Lemma client_destroying p c k :
  inv p -> clients p !! c = Some k -> (forall b, k <> CWait b) -> pool_destroy p = true.
Proof.
  intros Hi Hk Hne. destruct (pool_destroy p) eqn:Hd; [done|].
  destruct (inv_waiters _ Hi Hd c k Hk) as (b & -> & _). by destruct (Hne b).
Qed.

Lemma step_inv cf p l p' : inv p -> step cf p l p' -> inv p'.
Proof.
  intros Hi Hs. destruct Hs as [p t new p' Ht Hf Hr|p t b new p' Ht Hf Hr|p t new p' Ht Hf Hr|p t j new p' Ht Hf Hr
    |p t j new Ht Hf|p j sig new Hd Hs Hf|p c Hd Hc|p c Hc|p c Hd Hc|p c Hc|p c Hc].
  - eapply worker_loop_ok; [|exact Hf|exact Hr]. by apply out_of_start.
  - eapply worker_loop_ok; [|exact Hf|exact Hr]. by eapply out_of_wait.
  - eapply worker_loop_ok; [|exact Hf|exact Hr]. by eapply out_of_wait.
  - eapply worker_loop_ok; [|by apply job_cleanup_fresh|exact Hr]. by eapply job_cleanup_mid.
  - eapply worker_cleanup_ok; [by eapply job_cleanup_mid|by apply job_cleanup_fresh].
  - by eapply queue_ok.
  - by apply wait_ok.
  - by apply wait_ok.
  - by apply destroy_ok.
  - apply destroy_active_ok; [done|]. by eapply client_destroying.
  - assert (Hd : pool_destroy p = true) by (by eapply client_destroying).
    unfold destroy_busy. destruct (negb _); by eapply destroying_ok.
Qed.

Lemma wake_inv p p' : inv p -> wake p p' -> inv p'.
Proof.
  intros Hi Hw. destruct Hw as [q t|q c|q c]; destruct Hi as [H1 H2 H3 H4 H5].
  - split; simpl; try done.
    + rewrite H1. symmetry. by apply count_alter.
    + rewrite H2. symmetry. apply count_alter. by intros [].
    + eapply actives_same; [|intros u j|exact H3]; [done|]. simpl. rewrite lookup_alter.
      case_decide; [subst|done]. destruct (workers q !! u) as [[]|]; simpl; split; congruence.
  - split; try done. intros Hd c' k. simpl. rewrite lookup_alter. case_decide as Hc; [|by apply H4].
    intros (k' & Hk & ->)%fmap_Some. destruct (H4 Hd _ _ Hk) as (b & -> & _). by exists true.
  - split; try done. intros Hd c' k. simpl. rewrite lookup_alter. case_decide as Hc; [|by apply H4].
    intros (k' & Hk & ->)%fmap_Some. destruct (H4 Hd _ _ Hk) as (b & -> & Hb). by exists b.
Qed.

(** A pool as it is created. *)
Lemma create_empty mn mx linger p :
  sstack_thread_pool_create mn mx linger true = inr p -> mx < 2 ^ 31 ->
  workers p = ∅ /\ clients p = ∅ /\ pool_queue p = [] /\ pool_active p = [] /\ started p = [] /\
  pool_nthreads p = 0 /\ pool_idle p = 0 /\ 1 <= pool_maximum p.
Proof.
  unfold sstack_thread_pool_create. intros Hc Hmx. destruct ((mx <? mn) || (mx <? 1)) eqn:Hb; [done|].
  simpl in Hc. injection Hc as <-. bool_to_Z. split_and!; try done.
  cbn [pool_maximum]. rewrite swrap_small; lia.
Qed.

Lemma reachable_inv cf js p : reachable cf js p -> inv p.
Proof.
  induction 1 as [mn mx linger p Hmn Hmx Hc|js p l p' _ IH Hs|js p p' _ IH Hw];
    [|by eapply step_inv|by eapply wake_inv].
  destruct (create_empty _ _ _ _ Hc Hmx) as (E1 & E2 & E3 & E4 & E5 & E6 & E7 & E8).
  split; unfold actives, waiters, limits; rewrite ?E1, ?E2, ?E4, ?E6, ?E7; try done; [|lia].
  split; [constructor|]. intros u. rewrite elem_of_nil, lookup_empty. split; [done|]. by intros (_ & j & ?).
Qed.

(** * No queued job is forgotten *)

(** A worker that will come to the head of the queue on its own: it is about
    to start, was woken, or runs a job and looks at the queue after it. *)
Definition ready (c : wpc) : Prop :=
  match c with WStart => True | WWait _ woken => woken = true | WRun _ => True end.

Definition live (p : pool) : Prop :=
  pool_destroy p = false -> pool_queue p <> [] -> exists t c, workers p !! t = Some c /\ ready c.

Lemma worker_cleanup_same t new p :
  pool_queue (worker_cleanup t new p) = pool_queue p /\
  pool_destroy (worker_cleanup t new p) = pool_destroy p /\
  started (worker_cleanup t new p) = started p.
Proof. unfold worker_cleanup. repeat case_if; try done. by destruct new. Qed.

Lemma job_cleanup_same t p :
  pool_queue (job_cleanup t p) = pool_queue p /\ pool_destroy (job_cleanup t p) = pool_destroy p /\
  started (job_cleanup t p) = started p /\ workers (job_cleanup t p) = workers p /\
  pool_nthreads (job_cleanup t p) = pool_nthreads p /\ pool_maximum (job_cleanup t p) = pool_maximum p.
Proof.
  unfold job_cleanup. set (p1 := set_active _ p). destruct (pool_wait p1); [|done].
  destruct (notify_same p1) as (-> & _ & -> & -> & -> & _ & -> & _ & _ & ->). done.
Qed.

Lemma worker_loop_live fuel e t new p p' : worker_loop fuel e t new p = Some p' -> live p'.
Proof.
  revert e p. induction fuel as [|fuel IH]; intros e p; [done|]. destruct e as [| |timedout]; cbn [worker_loop].
  - apply IH.
  - destruct (no_job p && negb (pool_destroy p)) eqn:Hb; [|apply IH]. unfold no_job in Hb.
    destruct (pool_queue p) eqn:Hq; [|done].
    destruct (_ <=? _); [intros [= <-] _; simpl; by rewrite Hq|]. destruct (_ =? 0); [apply IH|].
    intros [= <-] _. simpl. by rewrite Hq.
  - cbv zeta. set (p1 := set_idle _ p). destruct (pool_destroy p1) eqn:Hd.
    + intros [= <-] Hd'. destruct (worker_cleanup_same t new p1) as (_ & E & _). congruence.
    + destruct (pool_queue p1) as [|j q] eqn:Hq.
      * destruct (timedout && _); [|apply IH]. intros [= <-] _ Hn.
        destruct (worker_cleanup_same t new p1) as (E & _). congruence.
      * intros [= <-] _ _. exists t, (WRun j). simpl. by rewrite lookup_insert_eq.
Qed.

Lemma queue_live p j sig new :
  inv p -> signals p sig -> fresh p false new -> live (sstack_thread_pool_queue j sig new p).
Proof.
  intros [H1 H2 _ _ [H5 H5']] Hs Hf _ _. unfold sstack_thread_pool_queue. set (p1 := set_queue _ p).
  destruct (Z.ltb_spec 0 (pool_idle p1)) as [Hi|Hi]; simpl in Hi.
  - rewrite H2 in Hi. apply count_pos in Hi as (t & c & Ht & Hc). destruct sig as [t'|]; simpl.
    + destruct Hs as [b Hb]. exists t', (WWait b true). by rewrite lookup_alter_eq, Hb.
    + exists t, c. split; [done|]. destruct c as [|b []|]; try done. by destruct (Hs t b).
  - pose proof (count_nonneg is_wait (workers p)) as Hnn.
    destruct (Z.ltb_spec (pool_nthreads p1) (pool_maximum p1)) as [Hlt|Hge].
    + destruct new as [n|]; [|done]. exists n, WStart. simpl. by rewrite lookup_insert_eq.
    + simpl in Hge. assert (Hpos : 0 < count every (workers p)) by lia.
      apply count_pos in Hpos as (t & c & Ht & _). exists t, c. split; [done|].
      assert (Hz : is_wait c = false) by (eapply count_zero; [|exact Ht]; lia). by destruct c.
Qed.

Lemma exit_live p t j new :
  inv p -> workers p !! t = Some (WRun j) -> fresh p false new ->
  live (worker_cleanup t new (job_cleanup t p)).
Proof.
  intros Hi Ht Hf Hd Hq. destruct (worker_cleanup_same t new (job_cleanup t p)) as (E1 & E2 & _).
  destruct (job_cleanup_same t p) as (F1 & F2 & _ & F4 & F5 & F6).
  rewrite E1, F1 in Hq. rewrite E2, F2 in Hd. destruct Hi as [_ _ _ _ [_ Hmax]].
  unfold worker_cleanup. simpl. rewrite F2, Hd. unfold no_job. simpl. rewrite F1.
  destruct (pool_queue p) as [|j0 q0]; [done|]. simpl. rewrite F5, F6.
  rewrite (proj2 (Z.ltb_lt _ _)) by lia. destruct new as [n|]; [|done].
  exists n, WStart. simpl. by rewrite lookup_insert_eq.
Qed.

Lemma step_live p l p' : inv p -> live p -> step false p l p' -> live p'.
Proof.
  intros Hi Hl Hs. destruct Hs as [p t new p' Ht Hf Hr|p t b new p' Ht Hf Hr|p t new p' Ht Hf Hr|p t j new p' Ht Hf Hr
    |p t j new Ht Hf|p j sig new Hd Hs Hf|p c Hd Hc|p c Hc|p c Hd Hc|p c Hc|p c Hc];
    try (by eapply worker_loop_live).
  - by eapply exit_live.
  - by apply queue_live.
  - unfold sstack_thread_pool_wait. by destruct (_ || _).
  - unfold sstack_thread_pool_wait. by destruct (_ || _).
  - unfold sstack_thread_pool_destroy, destroy_active, destroy_busy. intros Hd'.
    exfalso. revert Hd'. by repeat case_if.
  - assert (Hd : pool_destroy p = true) by (by eapply client_destroying).
    intros Hd'. exfalso. revert Hd'. unfold destroy_active, destroy_busy. repeat case_if; simpl; by rewrite Hd.
  - assert (Hd : pool_destroy p = true) by (by eapply client_destroying).
    intros Hd'. exfalso. revert Hd'. unfold destroy_busy. case_if; simpl; by rewrite Hd.
Qed.

Lemma wake_live p p' : live p -> wake p p' -> live p'.
Proof.
  intros Hl Hw. destruct Hw as [q t|q c|q c]; try done. intros Hd Hq. destruct (Hl Hd Hq) as (t' & c & Ht & Hc).
  exists t', (if decide (t = t') then wake_worker c else c). simpl. rewrite lookup_alter.
  case_decide; [subst; rewrite Ht; simpl|done]. split; [done|]. by destruct c.
Qed.

Lemma reachable_live js p : reachable false js p -> live p.
Proof.
  induction 1 as [mn mx linger p Hmn Hmx Hc|js p l p' Hr IH Hs|js p p' _ IH Hw].
  - destruct (create_empty _ _ _ _ Hc Hmx) as (_ & _ & E3 & _). by intros _ Hne.
  - eapply step_live; [by eapply reachable_inv|done|done].
  - by eapply wake_live.
Qed.

(** The next block of the worker [t], which is at [c]: it starts, wakes up, or
    its job returns. *)
Definition worker_block (cf : bool) (t : tid) (c : wpc) (p p' : pool) : Prop :=
  exists new, fresh p cf new /\
    match c with
    | WStart => worker_loop loop_fuel LoopHead t new p = Some p'
    | WWait _ woken => woken = true /\ worker_loop loop_fuel WaitCheck t new p = Some p'
    | WRun _ => worker_loop loop_fuel LoopHead t new (job_cleanup t p) = Some p'
    end.

Lemma worker_block_step cf t c p p' : workers p !! t = Some c -> worker_block cf t c p p' -> step cf p [] p'.
Proof.
  intros Ht (new & Hf & Hr). destruct c; [|destruct Hr; subst|];
    [by eapply step_start|by eapply step_woken|by eapply step_return].
Qed.

(** A worker that comes to a queue takes the job at its head. *)
Lemma wait_check_takes f t new p j q :
  pool_queue p = j :: q -> pool_destroy p = false ->
  exists p', worker_loop (S (S f)) WaitCheck t new p = Some p' /\
    workers p' !! t = Some (WRun j) /\ pool_queue p' = q /\ started p' = started p ++ [j].
Proof.
  intros Hq Hd. cbn [worker_loop]. unfold no_job. rewrite Hq. cbn [andb].
  change (pool_destroy (set_idle (pool_idle p - 1) p)) with (pool_destroy p).
  change (pool_queue (set_idle (pool_idle p - 1) p)) with (pool_queue p). rewrite Hd, Hq.
  eexists. split; [reflexivity|]. split; [apply lookup_insert_eq|done].
Qed.

Lemma loop_head_takes f t new p j q :
  pool_queue p = j :: q -> pool_destroy p = false ->
  exists p', worker_loop (S (S (S f))) LoopHead t new p = Some p' /\
    workers p' !! t = Some (WRun j) /\ pool_queue p' = q /\ started p' = started p ++ [j].
Proof.
  intros Hq Hd. set (p1 := set_idle (pool_idle p + 1) p).
  change (worker_loop (S (S (S f))) LoopHead t new p)
    with (worker_loop (S (S f)) WaitCheck t new (if pool_wait p1 then notify_waiters p1 else p1)).
  destruct (notify_same p1) as (_ & _ & E3 & E4 & _ & _ & _ & _ & _ & E10).
  destruct (pool_wait p1); [|by apply (wait_check_takes f t new p1)].
  destruct (wait_check_takes f t new (notify_waiters p1) j q) as (p' & H1 & H2 & H3 & H4); [by rewrite E3|by rewrite E4|].
  exists p'. rewrite E10 in H4. done.
Qed.

Lemma ready_takes t c p j q :
  workers p !! t = Some c -> ready c -> pool_queue p = j :: q -> pool_destroy p = false ->
  exists p', worker_block false t c p p' /\
    workers p' !! t = Some (WRun j) /\ pool_queue p' = q /\ started p' = started p ++ [j].
Proof.
  intros Ht Hc Hq Hd. destruct (exist_fresh (dom (workers p))) as [n Hn%not_elem_of_dom].
  assert (Hf : fresh p false (Some n)) by done. destruct c as [|b w|k].
  - destruct (loop_head_takes 3 t (Some n) p j q Hq Hd) as (p' & H1 & H2). exists p'. split; [by exists (Some n)|done].
  - destruct (wait_check_takes 4 t (Some n) p j q Hq Hd) as (p' & H1 & H2). exists p'. split; [by exists (Some n)|done].
  - destruct (job_cleanup_same t p) as (F1 & F2 & F3 & _).
    destruct (loop_head_takes 3 t (Some n) (job_cleanup t p) j q) as (p' & H1 & H2); [by rewrite F1|by rewrite F2|].
    exists p'. rewrite F3 in H2. split; [by exists (Some n)|done].
Qed.

(** * Order of the jobs *)

Definition fifo (js : list job) (p : pool) : Prop :=
  exists rest, js = started p ++ pool_queue p ++ rest /\ (pool_destroy p = false -> rest = []).

Lemma fifo_same js p p' :
  started p' ++ pool_queue p' = started p ++ pool_queue p ->
  pool_destroy p' = pool_destroy p -> fifo js p -> fifo js p'.
Proof.
  intros E Hd (rest & -> & Hr). exists rest. rewrite !app_assoc, E. split; [done|]. by rewrite Hd.
Qed.

Lemma worker_loop_fifo fuel e t new p p' :
  worker_loop fuel e t new p = Some p' ->
  started p' ++ pool_queue p' = started p ++ pool_queue p /\ pool_destroy p' = pool_destroy p.
Proof.
  revert e p. induction fuel as [|fuel IH]; intros e p; [done|]. destruct e as [| |timedout]; cbn [worker_loop].
  - intros Hr%IH. revert Hr. destruct (pool_wait _); [|done].
    destruct (notify_same (set_idle (pool_idle p + 1) p)) as (_ & _ & -> & -> & _ & _ & _ & _ & _ & ->). done.
  - destruct (no_job p && negb (pool_destroy p)); [|apply IH].
    destruct (_ <=? _); [by intros [= <-]|]. destruct (_ =? 0); [apply IH|]. by intros [= <-].
  - cbv zeta. set (p1 := set_idle _ p). destruct (pool_destroy p1) eqn:Hd.
    + intros [= <-]. destruct (worker_cleanup_same t new p1) as (-> & -> & ->). done.
    + destruct (pool_queue p1) as [|j q] eqn:Hq.
      * destruct (timedout && _); [|exact (IH LoopHead p1)]. intros [= <-].
        destruct (worker_cleanup_same t new p1) as (-> & -> & ->). done.
      * intros [= <-]. simpl in *. rewrite Hq, <- app_assoc. done.
Qed.

Lemma step_fifo cf js p l p' : inv p -> fifo js p -> step cf p l p' -> fifo (js ++ l) p'.
Proof.
  intros Hi Hl Hs. destruct Hs as [p t new p' Ht Hf Hr|p t b new p' Ht Hf Hr|p t new p' Ht Hf Hr|p t j new p' Ht Hf Hr
    |p t j new Ht Hf|p j sig new Hd Hs Hf|p c Hd Hc|p c Hc|p c Hd Hc|p c Hc|p c Hc]; rewrite ?app_nil_r;
    try (destruct (worker_loop_fifo _ _ _ _ _ _ Hr) as [E1 E2]; by eapply fifo_same).
  - destruct (worker_loop_fifo _ _ _ _ _ _ Hr) as [E1 E2].
    destruct (job_cleanup_same t p) as (F1 & F2 & F3 & _). rewrite F1, F3 in E1. rewrite F2 in E2. by eapply fifo_same.
  - destruct (worker_cleanup_same t new (job_cleanup t p)) as (E1 & E2 & E3).
    destruct (job_cleanup_same t p) as (F1 & F2 & F3 & _). eapply fifo_same; [| |exact Hl]; congruence.
  - destruct Hl as (rest & -> & Hr). rewrite (Hr Hd). exists []. split; [|done].
    rewrite !app_nil_r. unfold sstack_thread_pool_queue. rewrite <- app_assoc.
    case_if; [by destruct sig|]. case_if; [by destruct new|done].
  - unfold sstack_thread_pool_wait. case_if; by eapply fifo_same.
  - unfold sstack_thread_pool_wait. case_if; by eapply fifo_same.
  - destruct Hl as (rest & -> & Hr). rewrite (Hr Hd).
    unfold sstack_thread_pool_destroy, destroy_active, destroy_busy. repeat case_if.
    + exists []. done.
    + exists []. done.
    + exists (pool_queue p ++ []). by rewrite app_nil_r.
  - assert (Hd : pool_destroy p = true) by (by eapply client_destroying).
    destruct Hl as (rest & -> & _). unfold destroy_active, destroy_busy. repeat case_if; simpl.
    + exists rest. split; [done|]. simpl. congruence.
    + exists rest. split; [done|]. simpl. congruence.
    + exists (pool_queue p ++ rest). split; [done|]. simpl. congruence.
  - assert (Hd : pool_destroy p = true) by (by eapply client_destroying).
    destruct Hl as (rest & -> & _). unfold destroy_busy. case_if; simpl.
    + exists rest. split; [done|]. simpl. congruence.
    + exists (pool_queue p ++ rest). split; [done|]. simpl. congruence.
Qed.

(** * Destroying a pool *)

(** A client in [sstack_thread_pool_destroy] that waits for the active workers
    while jobs are queued. *)
Record stuck (c : nat) (p : pool) : Prop := {
  stuck_destroy : pool_destroy p = true;
  stuck_queue : pool_queue p <> [];
  stuck_client : clients p !! c = Some (CDestroyActive false);
  stuck_only c' b : clients p !! c' <> Some (CDestroyBusy b) /\
                    (c' <> c -> clients p !! c' <> Some (CDestroyActive b))
}.

Lemma stuck_same c p p' :
  stuck c p -> pool_destroy p' = pool_destroy p -> pool_queue p' = pool_queue p ->
  clients p' = clients p -> stuck c p'.
Proof. intros [H1 H2 H3 H4] E1 E2 E3. split; rewrite ?E1, ?E2, ?E3; done. Qed.

Lemma stuck_notify c p : stuck c p -> notify_waiters p = p.
Proof. intros [_ Hq _ _]. unfold notify_waiters, no_job. by destruct (pool_queue p). Qed.

Lemma stuck_job_cleanup c t p : stuck c p -> stuck c (job_cleanup t p).
Proof.
  intros Hs. unfold job_cleanup. set (p1 := set_active _ p).
  assert (Hs1 : stuck c p1) by (by eapply stuck_same). destruct (pool_wait p1); [|done].
  by rewrite (stuck_notify _ _ Hs1).
Qed.

Lemma stuck_cleanup c t new p : stuck c p -> stuck c (worker_cleanup t new p).
Proof.
  intros Hs. unfold worker_cleanup. set (p1 := set_nthreads _ _).
  assert (Hs1 : stuck c p1) by (by eapply stuck_same). rewrite (stuck_destroy _ _ Hs1).
  destruct (pool_nthreads p1 =? 0); [|done]. destruct Hs1 as [H1 H2 H3 H4]. split; try done; simpl in *.
  - rewrite lookup_fmap, H3. done.
  - intros c' b. rewrite lookup_fmap. destruct (clients p !! c') as [k|] eqn:Hk; [|done].
    destruct (H4 c' b) as [_ G2]. simpl.
    destruct k as [w|w|w]; simpl; (split; [|intros Hne; try done; specialize (G2 Hne); congruence]); try done.
    destruct (H4 c' w) as [G _]. congruence.
Qed.

Lemma stuck_loop fuel e c t new p p' :
  stuck c p -> worker_loop fuel e t new p = Some p' -> stuck c p'.
Proof.
  revert e p. induction fuel as [|fuel IH]; intros e p Hs; [done|]. destruct e as [| |b]; cbn [worker_loop].
  - apply IH. set (p1 := set_idle _ p). assert (Hs1 : stuck c p1) by (by eapply stuck_same).
    destruct (pool_wait p1); [|done]. by rewrite (stuck_notify _ _ Hs1).
  - rewrite (stuck_destroy _ _ Hs), andb_false_r. by apply IH.
  - set (p1 := set_idle _ p). assert (Hs1 : stuck c p1) by (by eapply stuck_same). cbv zeta.
    rewrite (stuck_destroy _ _ Hs1). intros [= <-]. by apply stuck_cleanup.
Qed.

Lemma stuck_step cf c p l p' : stuck c p -> step cf p l p' -> stuck c p'.
Proof.
  intros Hst Hs. pose proof (stuck_destroy _ _ Hst) as Hdt.
  destruct Hs as [p t new p' Ht Hf Hr|p t b new p' Ht Hf Hr|p t new p' Ht Hf Hr|p t j new p' Ht Hf Hr
    |p t j new Ht Hf|p j sig new Hd Hs Hf|p c' Hd Hc|p c' Hc|p c' Hd Hc|p c' Hc|p c' Hc]; try congruence;
    try (by eapply stuck_loop).
  - eapply stuck_loop; [|exact Hr]. by apply stuck_job_cleanup.
  - by apply stuck_cleanup, stuck_job_cleanup.
  - assert (Hne : c' <> c) by (intros ->; rewrite (stuck_client _ _ Hst) in Hc; done).
    unfold sstack_thread_pool_wait. destruct Hst as [H1 H2 H3 H4].
    destruct (_ || _) eqn:Hb; [|exfalso; unfold no_job in Hb; by destruct (pool_queue p)].
    split; try done; simpl.
    + by rewrite lookup_insert_ne.
    + intros c2 b. rewrite lookup_insert. case_decide; [done|apply H4].
  - destruct (decide (c' = c)) as [->|Hne]; [rewrite (stuck_client _ _ Hst) in Hc; done|].
    by destruct (proj2 (stuck_only _ _ Hst c' true) Hne).
  - by destruct (stuck_only _ _ Hst c' true) as [H _].
Qed.

Inductive steps (cf : bool) : pool -> pool -> Prop :=
  | steps_refl p : steps cf p p
  | steps_cons p l p1 p2 : step cf p l p1 -> steps cf p1 p2 -> steps cf p p2.

Lemma stuck_steps cf c p p' : stuck c p -> steps cf p p' -> stuck c p'.
Proof. induction 2; eauto using stuck_step. Qed.

Lemma destroy_stuck cf js p c :
  reachable cf js p -> pool_destroy p = false -> pool_active p <> [] -> pool_queue p <> [] ->
  clients p !! c = None -> stuck c (sstack_thread_pool_destroy c p).
Proof.
  intros Hr%reachable_inv Hd Ha Hq Hc. unfold sstack_thread_pool_destroy, destroy_active, no_active. simpl.
  destruct (pool_active p); [done|]. simpl. split; try done; simpl.
  - by rewrite lookup_insert_eq.
  - intros c' b. rewrite lookup_insert. case_decide; [by subst|].
    destruct (clients p !! c') as [k|] eqn:Hk; [|done].
    destruct (inv_waiters _ Hr Hd c' k Hk) as (w & -> & _). done.
Qed.

(** * The properties *)

(** C7. The counters are right in every reachable pool: [pool_nthreads] is the
    number of workers and stays within the maximum, [pool_idle] the number of
    those that wait for work, and [pool_active] lists, without duplicates,
    exactly those that run a job. *)
Theorem pool_counters cf js p :
  reachable cf js p ->
  pool_nthreads p = Z.of_nat (size (workers p)) /\ 0 <= pool_nthreads p <= pool_maximum p /\
  pool_idle p = Z.of_nat (size (filter (fun '(_, c) => is_wait c = true) (workers p))) /\
  NoDup (pool_active p) /\
  (forall t, t ∈ pool_active p <-> exists j, workers p !! t = Some (WRun j)).
Proof.
  intros [H1 H2 [H3 H3'] _ [_ H5]]%reachable_inv. pose proof (count_nonneg every (workers p)).
  split_and!; [rewrite H1; apply count_size|lia|lia|rewrite H2; apply count_filter|done|].
  intros t. rewrite H3'. split; [tauto|]. intros. split; [done|tauto].
Qed.

(** C9. While [pthread_create] succeeds, no queued job is forgotten: if there are
    jobs in the queue of a pool that is not being destroyed, some worker is
    starting, was woken or is running a job, and the next block of that very
    worker (when its job returns, if it runs one) takes the job at the head of
    the queue. *)
Theorem queued_job_has_worker js p j q :
  reachable false js p -> pool_destroy p = false -> pool_queue p = j :: q ->
  exists t c p', workers p !! t = Some c /\ ready c /\ worker_block false t c p p' /\ step false p [] p' /\
    workers p' !! t = Some (WRun j) /\ pool_queue p' = q /\ started p' = started p ++ [j].
Proof.
  intros Hr%reachable_live Hd Hq. destruct (Hr Hd) as (t & c & Ht & Hc); [by rewrite Hq|].
  destruct (ready_takes t c p j q Ht Hc Hq Hd) as (p' & Hb & Hp).
  exists t, c, p'. split_and!; try apply Hp; try done. by eapply worker_block_step.
Qed.

(** C25. No wakeup of [sstack_thread_pool_wait] is lost: a client that is asleep in
    it and was not woken has work to wait for, a job that is queued or one
    that runs. *)
Theorem waiting_client_has_work cf js p c :
  reachable cf js p -> pool_destroy p = false -> clients p !! c = Some (CWait false) ->
  pool_wait p = true /\ (pool_queue p <> [] \/ pool_active p <> []).
Proof.
  intros Hr%reachable_inv Hd Hc. destruct (inv_waiters _ Hr Hd c _ Hc) as (b & [= <-] & Hb). by apply Hb.
Qed.

(** C26. Jobs are started in the order in which they were submitted, each at most
    once, and in a pool that is not being destroyed those not started are the
    queue. *)
Theorem jobs_start_in_order cf js p :
  reachable cf js p ->
  started p `prefix_of` js /\ (pool_destroy p = false -> js = started p ++ pool_queue p).
Proof.
  intros Hr. assert (Hf : fifo js p).
  { induction Hr as [mn mx linger p Hmn Hmx Hc|js p l p' Hr IH Hs|js p p' _ IH Hw].
    - destruct (create_empty _ _ _ _ Hc Hmx) as (_ & _ & E3 & _ & E5 & _). exists []. by rewrite E3, E5.
    - eapply step_fifo; [by eapply reachable_inv|done|done].
    - destruct Hw; by eapply fifo_same. }
  destruct Hf as (rest & -> & Hrest). split; [by eexists|]. intros Hd. by rewrite (Hrest Hd), app_nil_r.
Qed.

(** Every block of a worker comes to an end: from each of its entry points
    the loop of [worker_thread] reaches a point where it releases the mutex
    within [loop_fuel] passes. *)
Theorem worker_blocks_end e t new p : exists p', worker_loop loop_fuel e t new p = Some p'.
Proof. apply worker_loop_total. Qed.

(** [sstack_thread_pool_destroy] called while a job runs and another one is
    queued never returns: the workers leave the queue as it is once the pool
    is being destroyed, and [notify_waiters] wakes nobody while the queue is
    not empty; only a spurious wake-up could end the wait. *)
Theorem destroy_hangs cf js p c p' :
  reachable cf js p -> pool_destroy p = false -> pool_active p <> [] -> pool_queue p <> [] ->
  clients p !! c = None -> steps cf (sstack_thread_pool_destroy c p) p' ->
  clients p' !! c = Some (CDestroyActive false).
Proof.
  intros Hr Hd Ha Hq Hc Hs. apply (stuck_client c p').
  eapply stuck_steps; [|exact Hs]. by eapply destroy_stuck.
Qed.

(** A maximum of 2^31 or more is negative once it is stored: the pool never
    makes a worker, and every job stays in the queue. *)
Theorem huge_pool_has_no_worker mn mx linger p j new :
  2 ^ 31 <= mx < 2 ^ 32 -> sstack_thread_pool_create mn mx linger true = inr p ->
  workers (sstack_thread_pool_queue j None new p) = ∅.
Proof.
  intros Hmx. unfold sstack_thread_pool_create. destruct (_ || _); [done|]. simpl. intros [= <-].
  unfold sstack_thread_pool_queue. cbn -[swrap]. rewrite (proj2 (Z.ltb_ge _ _)); [done|].
  pose proof (swrap_range 32 mx ltac:(lia)). unfold swrap in *.
  replace ((mx + 2 ^ (32 - 1)) mod 2 ^ 32) with (mx - 2 ^ 31); [lia|].
  apply (Z.mod_unique _ _ 1); lia.
Qed.

(** * Examples *)

(** A pool of one worker that runs job 5 while job 6 is queued. *)
Definition one_busy : pool :=
  mkPool [1%nat] [6%nat] false false 0 0 1 1 0 {[1%nat := WRun 5]} ∅ [5%nat].

Lemma one_busy_reachable cf : reachable cf [5; 6]%nat one_busy.
Proof.
  pose (p0 := mkPool [] [] false false 0 0 1 0 0 ∅ ∅ []).
  assert (H0 : reachable cf [] p0) by (by apply (reach_create cf 0 1 0)).
  assert (H1 : reachable cf [5%nat] (sstack_thread_pool_queue 5 None (Some 1%nat) p0)).
  { apply (reach_step cf [] p0 [5%nat]); [done|]. apply step_queue; [done| |done]. intros t b. done. }
  set (p1 := sstack_thread_pool_queue 5 None (Some 1%nat) p0) in *.
  pose (p2 := mkPool [1%nat] [] false false 0 0 1 1 0 {[1%nat := WRun 5]} ∅ [5%nat]).
  assert (H2 : reachable cf [5%nat] p2).
  { apply (reach_step cf [5%nat] p1 []); [done|]. by apply (step_start cf p1 1 (Some 2%nat)). }
  change one_busy with (sstack_thread_pool_queue 6 None (Some 2%nat) p2).
  apply (reach_step cf [5%nat] p2 [6%nat] _ H2), step_queue; [done| |done].
  intros t b Ht. simpl in Ht. apply lookup_singleton_Some in Ht as [_ ?]. done.
Qed.

Lemma pool_counters_witness :
  pool_nthreads one_busy = 1 /\ (1%nat ∈ pool_active one_busy <-> exists j, workers one_busy !! 1%nat = Some (WRun j)).
Proof.
  destruct (pool_counters false [5; 6]%nat one_busy (one_busy_reachable false)) as (H1 & _ & _ & _ & H2).
  split; [reflexivity|apply H2].
Defined.

Lemma queued_job_has_worker_witness :
  exists t c p', workers one_busy !! t = Some c /\ ready c /\ worker_block false t c one_busy p' /\
    step false one_busy [] p' /\ workers p' !! t = Some (WRun 6) /\ pool_queue p' = [] /\
    started p' = started one_busy ++ [6%nat].
Proof.
  apply (queued_job_has_worker [5; 6]%nat one_busy 6 [] (one_busy_reachable false)); reflexivity.
Defined.

(** The same pool with a client in [sstack_thread_pool_wait]. *)
Lemma waiting_client_has_work_witness :
  exists p, clients p !! 9%nat = Some (CWait false) /\ pool_wait p = true.
Proof.
  exists (sstack_thread_pool_wait 9 one_busy). split; [reflexivity|].
  apply (waiting_client_has_work false [5; 6]%nat (sstack_thread_pool_wait 9 one_busy) 9); [|reflexivity|reflexivity].
  apply (reach_step false [5; 6]%nat one_busy []); [apply one_busy_reachable|].
  apply step_wait; reflexivity.
Defined.

Lemma jobs_start_in_order_witness :
  [5]%nat `prefix_of` [5; 6]%nat /\ [5; 6]%nat = started one_busy ++ pool_queue one_busy.
Proof.
  destruct (jobs_start_in_order false [5; 6]%nat one_busy (one_busy_reachable false)) as [H1 H2].
  split; [exact H1|apply H2; reflexivity].
Defined.

(** The running job ends, its worker leaves, and the client still waits. *)
Lemma destroy_hangs_witness :
  clients (worker_cleanup 1 (Some 2%nat) (job_cleanup 1 (sstack_thread_pool_destroy 9 one_busy))) !! 9%nat
  = Some (CDestroyActive false).
Proof.
  apply (destroy_hangs false [5; 6]%nat one_busy 9 _ (one_busy_reachable false));
    [reflexivity|discriminate|discriminate|reflexivity|].
  eapply steps_cons; [|apply steps_refl].
  apply (step_exit false (sstack_thread_pool_destroy 9 one_busy) 1 5); reflexivity.
Defined.

End ThreadPool.
