(* ===== verification/CString.v ===== *)
(** The strings held by character arrays: what [strlen], [strcpy] and [strcmp]
    see of them. *)
From stdpp Require Import base list numbers.
From S2P Require Import Prelude.

(** [strlen]: the bytes before the first NUL; [None] when the array holds no
    NUL, where the C function would read on past the array. *)
Fixpoint strlen (a : list Z) : option nat :=
  match a with
  | [] => None
  | c :: a' => if c =? 0 then Some O else S <$> strlen a'
  end.

(** The string held by a character array. *)
Fixpoint cstr (a : list Z) : list Z :=
  match a with
  | [] => []
  | c :: a' => if c =? 0 then [] else c :: cstr a'
  end.

(** Two arrays that hold the same string. *)
Definition same_str (a b : list Z) : Prop := cstr a = cstr b.

#[global] Instance same_str_equiv : Equivalence same_str.
Proof. split; unfold same_str; repeat intro; congruence. Qed.

Lemma strlen_cstr a n : strlen a = Some n -> length (cstr a) = n /\ take n a = cstr a.
Proof.
  revert n. induction a as [|c a IH]; intros n; simpl; [done|].
  case_if; [intros [= <-]; done|].
  intros (m & Hm & ->)%fmap_Some. destruct (IH m Hm) as [Hl Ht]. simpl. rewrite Ht. auto.
Qed.

Lemma strlen_lt a n : strlen a = Some n -> (n < length a)%nat.
Proof.
  revert n. induction a as [|c a IH]; intros n; simpl; [done|].
  case_if; [intros [= <-]; lia|]. intros (m & Hm & ->)%fmap_Some. apply IH in Hm. lia.
Qed.

Lemma cstr_nonzero a : Forall (fun c => c <> 0) (cstr a).
Proof. induction a as [|c a IH]; simpl; [done|]. case_if; [done|]. by constructor. Qed.

(** A string copied over a zeroed tail is the string again. *)
Lemma cstr_app_zeros s k : Forall (fun c => c <> 0) s -> cstr (s ++ replicate k 0) = s.
Proof.
  induction 1 as [|c s Hc _ IH]; simpl; [by destruct k|].
  rewrite (proj2 (Z.eqb_neq c 0) Hc), IH. done.
Qed.
