(* ===== verification/CliCodec.v ===== *)
(** The field codec of the command line protocol: the serialization and
    deserialization macros of cli/include/sfscli.h.

    A buffer is the list of its bytes. Encoding produces the bytes written;
    decoding runs on the bytes that are left and goes out of bounds when it
    reads past the end. *)
From stdpp Require Import base list numbers.
From S2P Require Import Prelude CString.

(** * The macros

    [shl_over v n] stands for the value of the [int] expression [v << n] when
    [n] is 32 or more, which C leaves undefined: it is what the compiler and
    the processor make of it. *)
Section Codec.
Context (shl_over : Z -> Z -> Z).

(** [v << n] on [int]. *)
Definition int_shl (v n : Z) : Z :=
  if n <? 32 then swrap 32 (Z.shiftl v n) else shl_over v n.

(** The width a [w]-bit unsigned operand has in an expression with an [int]. *)
Definition promoted (w : Z) : Z := Z.max 32 w.

(** [buffer[i] = ((val & (0xFF << shifter)) >> shifter)] *)
Definition ser_byte (w val i : Z) : Z :=
  let shifter := Z.shiftl i 3 in
  uwrap 8 (Z.shiftr (Z.land val (uwrap (promoted w) (int_shl 0xFF shifter))) shifter).

Definition sfscli_ser_uint (w val : Z) (num_bytes : nat) : list Z :=
  ser_byte w val <$> seqZ 0 (Z.of_nat num_bytes).

(** A number of [w] bits: its size in two bytes, then its bytes. *)
Definition sfscli_ser_nfield (w field : Z) : list Z :=
  let size := Z.to_nat (w / 8) in
  sfscli_ser_uint 16 (Z.of_nat size) 2 ++ sfscli_ser_uint w field size.

(** A string: its length in two bytes, then its bytes without the NUL. *)
Definition sfscli_ser_sfield (field : list Z) : outcome (list Z) :=
  match strlen field with
  | None => Fault OutOfBounds
  | Some n =>
      let size := uwrap 16 (Z.of_nat n) in
      Ret (sfscli_ser_uint 16 size 2 ++ take (Z.to_nat size) field)
  end.

(** [val |= (buffer[i] << shifter)] for the bytes [bs] from index [i] on. *)
Fixpoint deser_bytes (w val : Z) (bs : list Z) (i : Z) : Z :=
  match bs with
  | [] => val
  | b :: bs' => deser_bytes w (uwrap w (Z.lor val (int_shl b (Z.shiftl i 3)))) bs' (i + 1)
  end.

(** Reading [n] bytes at the read pointer, and moving it. *)
Definition peek (n : nat) : cprog (list Z) (list Z) := fun buf =>
  if (n <=? length buf)%nat then Ret (take n buf, buf) else Fault OutOfBounds.

Definition advance (n : nat) : cprog (list Z) unit := fun buf => Ret (tt, drop n buf).

Definition sfscli_deser_uint (w val : Z) (num_bytes : nat) : cprog (list Z) Z :=
  (let! bs := peek num_bytes in cret (deser_bytes w val bs 0))%cprog.

(** [field] is what the field held before. *)
Definition sfscli_deser_nfield (w field : Z) : cprog (list Z) Z :=
  (let! size := sfscli_deser_uint 16 0 2 in
   advance 2 ;;;
   let! val := sfscli_deser_uint w field (Z.to_nat size) in
   advance (Z.to_nat size) ;;;
   cret val)%cprog.

(** [memcpy(field, buffer, size)] into an array of [length field] bytes. *)
Definition sfscli_deser_sfield (field : list Z) : cprog (list Z) (list Z) :=
  (let! size := sfscli_deser_uint 16 0 2 in
   advance 2 ;;;
   let! bs := peek (Z.to_nat size) in
   (if (Z.to_nat size <=? length field)%nat then
      advance (Z.to_nat size) ;;;
      cret (bs ++ drop (Z.to_nat size) field)
    else cfault OutOfBounds))%cprog.

(** * Round trips *)

(** What the compiler and the processor do with a zero that is shifted too
    far: nothing. *)
Hypothesis shl_over_zero : forall n, shl_over 0 n = 0.

Lemma shifter_eq i : 0 <= i -> Z.shiftl i 3 = 8 * i.
Proof. intros. rewrite Z.shiftl_mul_pow2 by lia. lia. Qed.

Lemma int_shl_low b i j :
  0 <= i < 4 -> 0 <= j < 32 -> Z.testbit (int_shl b (8 * i)) j = Z.testbit b (j - 8 * i).
Proof.
  intros Hi Hj. unfold int_shl.
  rewrite (proj2 (Z.ltb_lt (8 * i) 32)) by lia.
  rewrite <- (Z.mod_pow2_bits_low (swrap _ _) 32) by lia.
  change (swrap 32 (b ≪ (8 * i)) mod 2 ^ 32) with (uwrap 32 (swrap 32 (b ≪ (8 * i)))).
  rewrite uwrap_swrap by lia. unfold uwrap. rewrite Z.mod_pow2_bits_low by lia.
  by rewrite Z.shiftl_spec by lia.
Qed.

Lemma byte_high b k : 0 <= b < 256 -> 8 <= k -> Z.testbit b k = false.
Proof.
  intros Hb Hk. rewrite <- (Z.mod_small b (2 ^ 8)) by lia.
  apply Z.mod_pow2_bits_high. lia.
Qed.

(** The bits of the byte that [ser_byte] writes. *)
Lemma ser_byte_bits w val i j :
  0 < w -> 0 <= val < 2 ^ w -> 0 <= i < 4 -> 0 <= j < 8 ->
  Z.testbit (ser_byte w val i) j = Z.testbit val (j + 8 * i).
Proof.
  intros Hw Hv Hi Hj. unfold ser_byte, uwrap at 1. rewrite (shifter_eq i) by lia.
  rewrite Z.mod_pow2_bits_low, Z.shiftr_spec, Z.land_spec by lia.
  unfold uwrap. rewrite Z.mod_pow2_bits_low by (unfold promoted; lia).
  rewrite int_shl_low by lia.
  change 255 with (Z.ones 8). rewrite Z.ones_spec_low by lia. by rewrite andb_true_r.
Qed.

Lemma ser_byte_range w val i : 0 <= ser_byte w val i < 256.
Proof. unfold ser_byte. apply (uwrap_range 8). lia. Qed.

(** A number below [2 ^ 31] has zero bytes from the fifth on, whatever the
    mask is. *)
Lemma ser_byte_over w val i : 0 <= val < 2 ^ 31 -> 4 <= i -> ser_byte w val i = 0.
Proof.
  intros Hv Hi. unfold ser_byte. rewrite (shifter_eq i) by lia.
  replace (Z.shiftr _ _) with 0; [done|]. symmetry. apply Z.bits_inj'. intros j Hj.
  rewrite Z.shiftr_spec, Z.land_spec, Z.bits_0 by lia.
  rewrite <- (Z.mod_small val (2 ^ 31)) by lia.
  rewrite Z.mod_pow2_bits_high by lia. done.
Qed.

(** Shifting the byte back gives that byte of the number in place; no sign
    bit is created when the number is below [2 ^ 31]. *)
Lemma int_shl_ser_byte w val i :
  31 < w -> 0 <= val < 2 ^ 31 -> 0 <= i < 4 ->
  int_shl (ser_byte w val i) (8 * i) = Z.land val (Z.shiftl (Z.ones 8) (8 * i)).
Proof.
  intros Hw Hv Hi. pose proof (Z.pow_lt_mono_r 2 31 w).
  assert (Hb : Z.shiftl (ser_byte w val i) (8 * i) = Z.land val (Z.shiftl (Z.ones 8) (8 * i))).
  { apply Z.bits_inj'. intros k Hk. rewrite Z.land_spec, !Z.shiftl_spec by lia.
    destruct (decide (k < 8 * i)); [rewrite !(Z.testbit_neg_r _ (k - 8 * i)) by lia; by rewrite andb_false_r|].
    destruct (decide (k < 8 * i + 8)).
    - rewrite ser_byte_bits, Z.ones_spec_low, andb_true_r by lia. f_equal. lia.
    - rewrite (byte_high _ (k - 8 * i)) by (apply ser_byte_range || lia).
      rewrite Z.ones_spec_high by lia. by rewrite andb_false_r. }
  unfold int_shl. rewrite (proj2 (Z.ltb_lt (8 * i) 32)), Hb by lia.
  apply swrap_small; [lia|].
  pose proof (land_bound 31 val (Z.shiftl (Z.ones 8) (8 * i))). lia.
Qed.

Definition codec_ok (w val : Z) : Prop :=
  (8 <= w <= 32 /\ 0 <= val < 2 ^ w) \/ (32 < w /\ 0 <= val < 2 ^ 31).

Lemma codec_ok_range w val : codec_ok w val -> 0 < w /\ 0 <= val < 2 ^ w.
Proof.
  intros [[]|[Hw Hv]]; [lia|]. split; [lia|].
  pose proof (Z.pow_lt_mono_r 2 31 w). lia.
Qed.

(** One decoding step on an encoded byte puts that byte of the number in. *)
Lemma deser_step_bits w val acc i j :
  codec_ok w val -> 0 <= i < 4 -> 0 <= j < w ->
  Z.testbit (uwrap w (Z.lor acc (int_shl (ser_byte w val i) (Z.shiftl i 3)))) j
  = Z.testbit acc j || (bool_decide (8 * i <= j < 8 * i + 8) && Z.testbit val j).
Proof.
  intros Hok Hi Hj. pose proof (codec_ok_range _ _ Hok) as [Hw Hv].
  rewrite (shifter_eq i) by lia.
  unfold uwrap at 1. rewrite Z.mod_pow2_bits_low, Z.lor_spec by lia. f_equal.
  destruct (decide (j < 32)) as [Hj32|Hj32].
  - rewrite int_shl_low by lia. case_bool_decide; simpl.
    + rewrite ser_byte_bits by lia. f_equal. lia.
    + destruct (decide (j < 8 * i)); [by rewrite Z.testbit_neg_r by lia|].
      apply byte_high; [apply ser_byte_range|lia].
  - rewrite bool_decide_eq_false_2 by lia. simpl.
    destruct Hok as [[]|[_ Hv31]]; [lia|].
    rewrite int_shl_ser_byte by lia.
    rewrite <- (Z.mod_small (Z.land _ _) (2 ^ 31)); [apply Z.mod_pow2_bits_high; lia|].
    apply (land_bound 31); lia.
Qed.

Lemma deser_bytes_app w val bs1 bs2 i :
  deser_bytes w val (bs1 ++ bs2) i
  = deser_bytes w (deser_bytes w val bs1 i) bs2 (i + Z.of_nat (length bs1)).
Proof.
  revert val i. induction bs1 as [|b bs1 IH]; intros val i; simpl; [f_equal; lia|].
  rewrite IH. f_equal. lia.
Qed.

Lemma deser_bytes_range w val bs i :
  0 <= w -> 0 <= val < 2 ^ w -> 0 <= deser_bytes w val bs i < 2 ^ w.
Proof.
  intros Hw. revert val i. induction bs as [|b bs IH]; intros val i Hv; simpl; [done|].
  apply IH. by apply uwrap_range.
Qed.

(** The bytes below the fifth put their part of the number in. *)
Lemma deser_bytes_low w val acc n i j :
  codec_ok w val -> 0 <= i -> i + Z.of_nat n <= 4 -> 0 <= j < w ->
  Z.testbit (deser_bytes w acc (ser_byte w val <$> seqZ i (Z.of_nat n)) i) j
  = Z.testbit acc j || (bool_decide (8 * i <= j < 8 * (i + Z.of_nat n)) && Z.testbit val j).
Proof.
  intros Hok. revert acc i. induction n as [|n IH]; intros acc i Hi Hn Hj.
  - rewrite bool_decide_eq_false_2 by lia. simpl. by rewrite orb_false_r.
  - rewrite seqZ_cons by lia. simpl. replace (Z.pred (Z.of_nat (S n))) with (Z.of_nat n) by lia.
    replace (Z.succ i) with (i + 1) by lia. rewrite IH by lia.
    rewrite deser_step_bits by (done || lia).
    do 3 case_bool_decide; simpl; try lia; destruct (Z.testbit acc j), (Z.testbit val j); done.
Qed.

(** Zero bytes from the fifth on change nothing. *)
Lemma deser_bytes_zeros w acc k i :
  0 <= w -> 4 <= i -> 0 <= acc < 2 ^ w -> deser_bytes w acc (replicate k 0) i = acc.
Proof.
  intros Hw. revert acc i. induction k as [|k IH]; intros acc i Hi Ha; simpl; [done|].
  unfold int_shl. rewrite (shifter_eq i) by lia.
  rewrite (proj2 (Z.ltb_ge (8 * i) 32)), shl_over_zero, Z.lor_0_r, uwrap_small by lia.
  apply IH; lia.
Qed.

Lemma ser_bytes_over w val i k :
  0 <= val < 2 ^ 31 -> 4 <= i -> ser_byte w val <$> seqZ i (Z.of_nat k) = replicate k 0.
Proof.
  intros Hv. revert i. induction k as [|k IH]; intros i Hi; [done|].
  rewrite seqZ_cons by lia. simpl. rewrite ser_byte_over by done. f_equal.
  replace (Z.pred (Z.of_nat (S k))) with (Z.of_nat k) by lia. apply IH. lia.
Qed.

Lemma lor_bits_eq w r a b :
  0 <= w -> 0 <= r < 2 ^ w -> 0 <= a < 2 ^ w -> 0 <= b < 2 ^ w ->
  (forall j, 0 <= j < w -> Z.testbit r j = Z.testbit a j || Z.testbit b j) -> r = Z.lor a b.
Proof.
  intros Hw Hr Ha Hb Hbits. apply Z.bits_inj'. intros j Hj. rewrite Z.lor_spec.
  destruct (decide (j < w)); [apply Hbits; lia|].
  rewrite <- (Z.mod_small r (2 ^ w)), <- (Z.mod_small a (2 ^ w)), <- (Z.mod_small b (2 ^ w)) by lia.
  by rewrite !Z.mod_pow2_bits_high by lia.
Qed.

(** Up to four bytes no shift is out of range. *)
Lemma deser_ser_uint_low w val acc n :
  codec_ok w val -> w = 8 * Z.of_nat n -> (n <= 4)%nat -> 0 <= acc < 2 ^ w ->
  deser_bytes w acc (sfscli_ser_uint w val n) 0 = Z.lor acc val.
Proof.
  intros Hok Hw Hn Ha. pose proof (codec_ok_range _ _ Hok) as [Hw0 Hv].
  unfold sfscli_ser_uint. apply (lor_bits_eq w); try lia; [apply deser_bytes_range; lia|].
  intros j Hj. rewrite deser_bytes_low by (done || lia).
  rewrite bool_decide_eq_true_2 by lia. done.
Qed.

(** Decoding an encoded number ORs it into what the variable held. *)
Lemma deser_ser_uint w val acc n :
  codec_ok w val -> w = 8 * Z.of_nat n -> 0 <= acc < 2 ^ w ->
  deser_bytes w acc (sfscli_ser_uint w val n) 0 = Z.lor acc val.
Proof.
  intros Hok Hw Ha. pose proof (codec_ok_range _ _ Hok) as [Hw0 Hv].
  destruct (decide (n <= 4)%nat) as [Hn|Hn]; [by apply deser_ser_uint_low|].
  unfold sfscli_ser_uint.
  - assert (0 <= val < 2 ^ 31) as Hv31 by (destruct Hok as [[]|[]]; lia).
    replace (Z.of_nat n) with (Z.of_nat 4 + Z.of_nat (n - 4)) by lia.
    rewrite seqZ_app, fmap_app, deser_bytes_app by lia.
    rewrite length_fmap, length_seqZ. rewrite (ser_bytes_over w val _ (n - 4)) by lia.
    rewrite deser_bytes_zeros; [|lia|lia|apply deser_bytes_range; lia].
    apply (lor_bits_eq w); try lia; [apply deser_bytes_range; lia|].
    intros j Hj. rewrite deser_bytes_low by (done || lia).
    case_bool_decide; [done|]. simpl. f_equal. symmetry.
    rewrite <- (Z.mod_small val (2 ^ 31)) by lia. apply Z.mod_pow2_bits_high. lia.
Qed.

Lemma length_ser_uint w val n : length (sfscli_ser_uint w val n) = n.
Proof. unfold sfscli_ser_uint. rewrite length_fmap, length_seqZ. lia. Qed.

Lemma deser_uint_ser w val acc n rest :
  codec_ok w val -> w = 8 * Z.of_nat n -> 0 <= acc < 2 ^ w ->
  sfscli_deser_uint w acc n (sfscli_ser_uint w val n ++ rest)
  = Ret (Z.lor acc val, sfscli_ser_uint w val n ++ rest).
Proof.
  intros Hok Hw Ha. unfold sfscli_deser_uint, cbind, peek, cret.
  rewrite length_app, length_ser_uint.
  replace (n <=? n + length rest)%nat with true by (symmetry; apply Nat.leb_le; lia).
  rewrite take_app_length' by (symmetry; apply length_ser_uint). by rewrite deser_ser_uint.
Qed.

Lemma advance_app a rest n : length a = n -> advance n (a ++ rest) = Ret (tt, rest).
Proof. intros <-. unfold advance. by rewrite drop_app_length. Qed.

(** The two size bytes. *)
Lemma deser_size n rest :
  0 <= n < 2 ^ 16 ->
  sfscli_deser_uint 16 0 2 (sfscli_ser_uint 16 n 2 ++ rest)
  = Ret (n, sfscli_ser_uint 16 n 2 ++ rest).
Proof.
  intros. unfold sfscli_deser_uint, cbind, peek, cret.
  rewrite length_app, length_ser_uint.
  replace (2 <=? 2 + length rest)%nat with true by (symmetry; apply Nat.leb_le; lia).
  rewrite take_app_length' by (symmetry; apply length_ser_uint).
  rewrite deser_ser_uint_low; [done|left; lia|lia|lia|lia].
Qed.

(** A numeric field: reading it back ORs the number into the field. *)
Lemma nfield_roundtrip w val acc rest :
  codec_ok w val -> w mod 8 = 0 -> w <= 64 -> 0 <= acc < 2 ^ w ->
  sfscli_deser_nfield w acc (sfscli_ser_nfield w val ++ rest) = Ret (Z.lor acc val, rest).
Proof.
  intros Hok Hw8 Hw64 Ha. pose proof (codec_ok_range _ _ Hok) as [Hw0 _].
  assert (Hw : w = 8 * Z.of_nat (Z.to_nat (w / 8))).
  { pose proof (Z.div_mod w 8). pose proof (Z.div_pos w 8). lia. }
  set (n := Z.to_nat (w / 8)) in *. unfold sfscli_deser_nfield, sfscli_ser_nfield. fold n.
  rewrite <- app_assoc. unfold cbind at 1. rewrite deser_size by lia.
  unfold cbind at 1. rewrite advance_app by apply length_ser_uint.
  rewrite Nat2Z.id. unfold cbind at 1. rewrite deser_uint_ser by done.
  unfold cbind. rewrite advance_app by apply length_ser_uint. done.
Qed.

Lemma ser_sfield_eq s n :
  strlen s = Some n -> Z.of_nat n < 2 ^ 16 ->
  sfscli_ser_sfield s = Ret (sfscli_ser_uint 16 (Z.of_nat n) 2 ++ cstr s).
Proof.
  intros Hs Hn. unfold sfscli_ser_sfield. rewrite Hs, uwrap_small by lia.
  destruct (strlen_cstr _ _ Hs) as [_ Ht]. by rewrite Nat2Z.id, Ht.
Qed.

(** A string field: reading it back overwrites the start of the array. *)
Lemma sfield_roundtrip s n field rest :
  strlen s = Some n -> Z.of_nat n < 2 ^ 16 -> (n <= length field)%nat ->
  sfscli_deser_sfield field ((sfscli_ser_uint 16 (Z.of_nat n) 2 ++ cstr s) ++ rest)
  = Ret (cstr s ++ drop n field, rest).
Proof.
  intros Hs Hn Hf. destruct (strlen_cstr _ _ Hs) as [Hl Ht].
  rewrite <- app_assoc. unfold sfscli_deser_sfield.
  unfold cbind at 1. rewrite deser_size by lia.
  unfold cbind at 1. rewrite advance_app by apply length_ser_uint. rewrite Nat2Z.id.
  unfold cbind at 1, peek. rewrite length_app, Hl.
  replace (n <=? n + length rest)%nat with true by (symmetry; apply Nat.leb_le; lia).
  rewrite (proj2 (Nat.leb_le _ _) Hf). rewrite take_app_length' by done.
  unfold cbind. rewrite advance_app by done. done.
Qed.

Lemma length_ser_nfield w val :
  length (sfscli_ser_nfield w val) = (2 + Z.to_nat (w / 8))%nat.
Proof. unfold sfscli_ser_nfield. rewrite length_app, !length_ser_uint. done. Qed.

End Codec.
