(* ===== verification/CliSerdes.v ===== *)
(** The messages of the command line protocol: cli/src/sfscli_serdes.c.

    A message is one [struct sfscli_cli_cmd] with the member of its union that
    the message uses. Serialization runs on the bytes written so far into the
    allocated buffer; deserialization on the bytes left to read and on the
    contents that [malloc] left in the fresh structure. *)
From stdpp Require Import base list numbers.
From S2P Require Import Prelude CString CliCodec.

Definition SFSCLI_MAGIC : Z := 0xdeadbeef.
Definition PATH_MAX : nat := Z.to_nat 4096.
Definition IPV6_ADDR_MAX : nat := 40.
Definition POLICY_TAG_LEN : nat := 16.
Definition TYPE_LEN : nat := 8.
Definition IPV4 : Z := 1.

(** [sstack_address_t]: the two address arrays are members of one union of
    [IPV6_ADDR_MAX] bytes. *)
Record sstack_address : Type := mkAddress {
  protocol : Z;
  address_union : list Z
}.

Definition ipv4_address (a : sstack_address) : list Z := address_union a.
Definition ipv6_address (a : sstack_address) : list Z := address_union a.

(** [struct attribute] *)
Record attribute : Type := mkAttr {
  ver : Z;
  a_quota : Z;
  a_qoslevel : Z;
  a_ishidden : Z;
  a_numreplicas : Z;
  a_enable_dr : Z
}.

(** [struct policy_input] *)
Record policy_input : Type := mkPolicyInput {
  pi_uid : Z;
  pi_gid : Z;
  pi_policy_tag : list (list Z);
  pi_ftype : list Z;
  pi_fname : list Z;
  pi_num_policy : Z;
  pi_attr : attribute;
  pi_index : Z
}.

(** [struct storage_input] *)
Record storage_input : Type := mkStorageInput {
  si_address : sstack_address;
  rpath : list Z;
  access_protocol : Z;
  st_type : Z;
  st_size : Z
}.

(** [struct sfsd_input] *)
Record sfsd_input : Type := mkSfsdInput {
  sdi_address : sstack_address;
  port : Z
}.

(** [struct license_input] *)
Record license_input : Type := mkLicenseInput {
  license_path : list Z
}.

(** [struct sfscli_cli_cmd] with the [struct sfscli_xxx_input] inlined:
    [xxx_cmd] is the union of the four command enumerations, [input] the
    member in use of the other union. *)
Record sfscli_cli_cmd (I : Type) : Type := mkCmd {
  cmd : Z;
  xxx_cmd : Z;
  input : I
}.
Arguments mkCmd {I} cmd xxx_cmd input.
Arguments cmd {I} _.
Arguments xxx_cmd {I} _.
Arguments input {I} _.

(** [sizeof(struct sfscli_cli_cmd)] under the LP64 layout: the policy member
    (5160 bytes) is the largest of the union. *)
Definition SIZEOF_CLI_CMD : nat := Z.to_nat 5176.

Definition alloc_len (nfields : nat) : nat := SIZEOF_CLI_CMD + 4 + 2 * nfields.

Section Messages.
Context (shl_over : Z -> Z -> Z).

(** * Writing *)

Definition emit (bs : list Z) : cprog (list Z) unit := cmod (fun out => out ++ bs).

Definition put_magic : cprog (list Z) unit :=
  emit (sfscli_ser_uint shl_over 32 SFSCLI_MAGIC 4).

Definition put_n (w field : Z) : cprog (list Z) unit :=
  emit (sfscli_ser_nfield shl_over w field).

Definition put_s (field : list Z) : cprog (list Z) unit := fun out =>
  match sfscli_ser_sfield shl_over field with
  | Ret bs => emit bs out
  | Fault f => Fault f
  end.

(** Run the writer [body] on a buffer of [cap] bytes. *)
Definition with_buffer (malloc_ok : bool) (cap : nat) (body : cprog (list Z) unit)
    : outcome (Z * option (list Z)) :=
  if malloc_ok then
    match body [] with
    | Ret (_, out) =>
        if (length out <=? cap)%nat then Ret (swrap 32 (Z.of_nat (length out)), Some out)
        else Fault OutOfBounds
    | Fault f => Fault f
    end
  else Ret (- ENOMEM, None).

Definition put_policy (c : sfscli_cli_cmd policy_input) : cprog (list Z) unit :=
  let pi := input c in
  let attr := pi_attr pi in
  (put_magic ;;;
   put_n 32 (cmd c) ;;;
   put_n 32 (pi_uid pi) ;;;
   put_n 32 (pi_gid pi) ;;;
   let! tag0 := cexpect OutOfBounds (head (pi_policy_tag pi)) in
   put_s tag0 ;;;
   put_s (pi_fname pi) ;;;
   put_s (pi_ftype pi) ;;;
   put_n 64 (pi_num_policy pi) ;;;
   put_n 32 (ver attr) ;;;
   put_n 32 (a_quota attr) ;;;
   put_n 8 (a_qoslevel attr) ;;;
   put_n 8 (a_ishidden attr) ;;;
   put_n 8 (a_numreplicas attr) ;;;
   put_n 8 (a_enable_dr attr))%cprog.

(** NUM_PI_FIELDS + NUM_ATTR_FIELDS + NUM_XXX_INPUT_FIELDS + NUM_CLI_CMD_FIELDS *)
Definition sfscli_serialize_policy (malloc_ok : bool) (c : sfscli_cli_cmd policy_input)
    : outcome (Z * option (list Z)) :=
  with_buffer malloc_ok (alloc_len (8 + 6 + 2 + 2)) (put_policy c).

Definition put_storage (c : sfscli_cli_cmd storage_input) : cprog (list Z) unit :=
  let si := input c in
  (put_magic ;;;
   put_n 32 (cmd c) ;;;
   put_n 32 (xxx_cmd c) ;;;
   put_n 32 (protocol (si_address si)) ;;;
   (if protocol (si_address si) =? IPV4
    then put_s (ipv4_address (si_address si))
    else put_s (ipv6_address (si_address si))) ;;;
   put_s (rpath si) ;;;
   put_n 32 (access_protocol si) ;;;
   put_n 32 (st_type si) ;;;
   put_n 64 (st_size si))%cprog.

(** NUM_SI_FIELDS + NUM_SSTACK_ADDRESS_FIELDS + NUM_XXX_INPUT_FIELDS +
    NUM_CLI_CMD_FIELDS *)
Definition sfscli_serialize_storage (malloc_ok : bool) (c : sfscli_cli_cmd storage_input)
    : outcome (Z * option (list Z)) :=
  with_buffer malloc_ok (alloc_len (5 + 2 + 2 + 2)) (put_storage c).

Definition put_sfsd (c : sfscli_cli_cmd sfsd_input) : cprog (list Z) unit :=
  let si := input c in
  (put_magic ;;;
   put_n 32 (cmd c) ;;;
   put_n 32 (xxx_cmd c) ;;;
   put_n 32 (protocol (sdi_address si)) ;;;
   (if protocol (sdi_address si) =? IPV4
    then put_s (ipv4_address (sdi_address si))
    else put_s (ipv6_address (sdi_address si))) ;;;
   put_n 16 (port si))%cprog.

(** NUM_SDI_FIELDS + NUM_SSTACK_ADDRESS_FIELDS + NUM_XXX_INPUT_FIELDS +
    NUM_CLI_CMD_FIELDS *)
Definition sfscli_serialize_sfsd (malloc_ok : bool) (c : sfscli_cli_cmd sfsd_input)
    : outcome (Z * option (list Z)) :=
  with_buffer malloc_ok (alloc_len (2 + 2 + 2 + 2)) (put_sfsd c).

Definition put_license (c : sfscli_cli_cmd license_input) : cprog (list Z) unit :=
  (put_magic ;;;
   put_n 32 (cmd c) ;;;
   put_s (license_path (input c)))%cprog.

(** The license serializer returns the length but never assigns [*buffer]. *)
Definition sfscli_serialize_license (malloc_ok : bool) (c : sfscli_cli_cmd license_input)
    : outcome (Z * option (list Z)) :=
  match with_buffer malloc_ok (alloc_len (1 + 2 + 2 + 2)) (put_license c) with
  | Ret (ret, _) => Ret (ret, None)
  | Fault f => Fault f
  end.

(** * Reading *)

Abbreviation get_n := (sfscli_deser_nfield shl_over).
Abbreviation get_s := (sfscli_deser_sfield shl_over).

(** The magic check, the allocation and then the fields; [mem] is the fresh
    structure with the contents [malloc] left in it, or NULL. *)
Definition with_magic {C} (buffer : list Z) (mem : option C) (body : C -> cprog (list Z) C)
    : outcome (Z * option C) :=
  match sfscli_deser_uint shl_over 32 0 4 buffer with
  | Fault f => Fault f
  | Ret (magic, _) =>
      if magic =? SFSCLI_MAGIC then
        match mem with
        | None => Ret (- ENOMEM, None)
        | Some c =>
            match (advance 4 ;;; body c)%cprog buffer with
            | Ret (c', _) => Ret (0, Some c')
            | Fault f => Fault f
            end
        end
      else Ret (- EINVAL, None)
  end.

Definition get_policy_fields (m : sfscli_cli_cmd policy_input)
    : cprog (list Z) (sfscli_cli_cmd policy_input) :=
  let pi := input m in
  let attr := pi_attr pi in
  (let! cmd' := get_n 32 (cmd m) in
   let! uid := get_n 32 0 in                (* pi->pi_uid = 0 *)
   let! gid := get_n 32 (pi_gid pi) in
   let! tag0 := cexpect OutOfBounds (head (pi_policy_tag pi)) in
   let! tag := get_s tag0 in
   let! fname := get_s (pi_fname pi) in
   let! ftype := get_s (pi_ftype pi) in
   let! num := get_n 64 (pi_num_policy pi) in
   let! ver' := get_n 32 (ver attr) in
   let! quota := get_n 32 (a_quota attr) in
   let! qos := get_n 8 (a_qoslevel attr) in
   let! hidden := get_n 8 (a_ishidden attr) in
   let! reps := get_n 8 (a_numreplicas attr) in
   let! dr := get_n 8 (a_enable_dr attr) in
   cret (mkCmd cmd' (xxx_cmd m)
           (mkPolicyInput uid gid (<[O := tag]> (pi_policy_tag pi)) ftype fname num
              (mkAttr ver' quota qos hidden reps dr) (pi_index pi))))%cprog.

Definition sfscli_deserialize_policy (buffer : list Z)
    (mem : option (sfscli_cli_cmd policy_input)) : outcome (Z * option (sfscli_cli_cmd policy_input)) :=
  with_magic buffer mem get_policy_fields.

Definition get_address (a : sstack_address) : cprog (list Z) sstack_address :=
  (let! proto := get_n 32 (protocol a) in
   let! addr := (if proto =? IPV4 then get_s (ipv4_address a) else get_s (ipv6_address a)) in
   cret (mkAddress proto addr))%cprog.

Definition get_storage_fields (m : sfscli_cli_cmd storage_input)
    : cprog (list Z) (sfscli_cli_cmd storage_input) :=
  let si := input m in
  (let! cmd' := get_n 32 (cmd m) in
   let! sub := get_n 32 (xxx_cmd m) in
   let! addr := get_address (si_address si) in
   let! path := get_s (rpath si) in
   let! proto := get_n 32 (access_protocol si) in
   let! ty := get_n 32 (st_type si) in
   let! sz := get_n 64 (st_size si) in
   cret (mkCmd cmd' sub (mkStorageInput addr path proto ty sz)))%cprog.

Definition sfscli_deserialize_storage (buffer : list Z)
    (mem : option (sfscli_cli_cmd storage_input)) : outcome (Z * option (sfscli_cli_cmd storage_input)) :=
  with_magic buffer mem get_storage_fields.

Definition get_sfsd_fields (m : sfscli_cli_cmd sfsd_input)
    : cprog (list Z) (sfscli_cli_cmd sfsd_input) :=
  let si := input m in
  (let! cmd' := get_n 32 (cmd m) in
   let! sub := get_n 32 (xxx_cmd m) in
   let! addr := get_address (sdi_address si) in
   let! prt := get_n 16 (port si) in
   cret (mkCmd cmd' sub (mkSfsdInput addr prt)))%cprog.

Definition sfscli_deserialize_sfsd (buffer : list Z)
    (mem : option (sfscli_cli_cmd sfsd_input)) : outcome (Z * option (sfscli_cli_cmd sfsd_input)) :=
  with_magic buffer mem get_sfsd_fields.

Definition get_license_fields (m : sfscli_cli_cmd license_input)
    : cprog (list Z) (sfscli_cli_cmd license_input) :=
  (let! cmd' := get_n 32 (cmd m) in
   let! path := get_s (license_path (input m)) in
   cret (mkCmd cmd' (xxx_cmd m) (mkLicenseInput path)))%cprog.

Definition sfscli_deserialize_license (buffer : list Z)
    (mem : option (sfscli_cli_cmd license_input)) : outcome (Z * option (sfscli_cli_cmd license_input)) :=
  with_magic buffer mem get_license_fields.

(** * Writers and readers of the same bytes *)

(** [p] writes exactly [bs]; [g] reads exactly [bs] and returns [a]. *)
Definition writes (p : cprog (list Z) unit) (bs : list Z) : Prop :=
  forall out, p out = Ret (tt, out ++ bs).

Definition reads {A} (g : cprog (list Z) A) (bs : list Z) (a : A) : Prop :=
  forall rest, g (bs ++ rest) = Ret (a, rest).

Lemma writes_seq p q b1 b2 : writes p b1 -> writes q b2 -> writes (p ;;; q)%cprog (b1 ++ b2).
Proof. intros Hp Hq out. unfold cbind. rewrite Hp, Hq. by rewrite app_assoc. Qed.

Lemma writes_magic : writes put_magic (sfscli_ser_uint shl_over 32 SFSCLI_MAGIC 4).
Proof. intros out. done. Qed.

Lemma writes_n w v : writes (put_n w v) (sfscli_ser_nfield shl_over w v).
Proof. intros out. done. Qed.

(** A character array of [cap] bytes that holds a string. *)
Definition str_ok (cap : nat) (a : list Z) : Prop := length a = cap /\ is_Some (strlen a).

(** The bytes of a string field. *)
Definition s_bytes (a : list Z) : list Z :=
  sfscli_ser_uint shl_over 16 (Z.of_nat (length (cstr a))) 2 ++ cstr a.

Lemma str_ok_len cap a : str_ok cap a -> strlen a = Some (length (cstr a)) /\ (length (cstr a) < cap)%nat.
Proof.
  intros [Hl [n Hn]]. destruct (strlen_cstr _ _ Hn) as [Hc _]. pose proof (strlen_lt _ _ Hn).
  rewrite Hc, Hl in *. auto.
Qed.

Lemma writes_s cap a : str_ok cap a -> Z.of_nat cap <= 2 ^ 16 -> writes (put_s a) (s_bytes a).
Proof.
  intros Hs Hc out. destruct (str_ok_len _ _ Hs) as [Hn Hl]. unfold put_s.
  rewrite (ser_sfield_eq shl_over a _ Hn) by lia. done.
Qed.

Lemma writes_expect {A} (o : option A) (a : A) (k : A -> cprog (list Z) unit) bs :
  o = Some a -> writes (k a) bs -> writes (cbind (cexpect OutOfBounds o) k) bs.
Proof. intros -> Hk out. apply Hk. Qed.

Lemma reads_ret {A} (a : A) : reads (cret a) [] a.
Proof. intros rest. done. Qed.

Lemma reads_bind {A B} (g : cprog (list Z) A) (k : A -> cprog (list Z) B) b1 b2 a c :
  reads g b1 a -> reads (k a) b2 c -> reads (cbind g k) (b1 ++ b2) c.
Proof. intros Hg Hk rest. unfold cbind. rewrite <- app_assoc, Hg, Hk. done. Qed.

(** The last field of a message. *)
Lemma reads_last {A B} (g : cprog (list Z) A) (f : A -> B) b a :
  reads g b a -> reads (cbind g (fun x => cret (f x))) b (f a).
Proof. intros Hg rest. unfold cbind. rewrite Hg. done. Qed.

Lemma reads_expect {A B} (o : option A) (a : A) (k : A -> cprog (list Z) B) bs c :
  o = Some a -> reads (k a) bs c -> reads (cbind (cexpect OutOfBounds o) k) bs c.
Proof. intros -> Hk rest. apply Hk. Qed.

(** What [memcpy] of the string [s] makes of the array [old]. *)
Definition overlay (old s : list Z) : list Z := cstr s ++ drop (length (cstr s)) old.

Lemma overlay_zeros cap s : str_ok cap s -> same_str (overlay (replicate cap 0) s) s.
Proof.
  intros Hs. destruct (str_ok_len _ _ Hs) as [_ Hl]. unfold same_str, overlay.
  rewrite drop_replicate. apply cstr_app_zeros, cstr_nonzero.
Qed.

Section Reads.
Hypothesis shl_over_zero : forall n, shl_over 0 n = 0.

Lemma reads_n w v acc :
  codec_ok w v -> w mod 8 = 0 -> w <= 64 -> 0 <= acc < 2 ^ w ->
  reads (get_n w acc) (sfscli_ser_nfield shl_over w v) (Z.lor acc v).
Proof. intros ? ? ? ? rest. by apply nfield_roundtrip. Qed.

Lemma reads_s cap a old :
  str_ok cap a -> Z.of_nat cap <= 2 ^ 16 -> length old = cap ->
  reads (get_s old) (s_bytes a) (overlay old a).
Proof.
  intros Hs Hc Ho rest. destruct (str_ok_len _ _ Hs) as [Hn Hl].
  unfold s_bytes. rewrite (sfield_roundtrip shl_over a _ old rest Hn); [done|lia|lia].
Qed.

(** A message written with [p] is read back with [body]. *)
Lemma message_roundtrip {C} (p : cprog (list Z) unit) body (m c : C) bs cap :
  writes p (sfscli_ser_uint shl_over 32 SFSCLI_MAGIC 4 ++ bs) -> reads (body m) bs c ->
  (4 + length bs <= cap)%nat -> Z.of_nat cap < 2 ^ 31 ->
  exists out, with_buffer true cap p = Ret (Z.of_nat (length out), Some out) /\
    (length out <= cap)%nat /\ with_magic out (Some m) body = Ret (0, Some c).
Proof.
  intros Hw Hr Hlen Hcap. exists (sfscli_ser_uint shl_over 32 SFSCLI_MAGIC 4 ++ bs).
  assert (Hl : length (sfscli_ser_uint shl_over 32 SFSCLI_MAGIC 4 ++ bs) = (4 + length bs)%nat)
    by (rewrite length_app, length_ser_uint; done).
  unfold with_buffer. rewrite Hw. rewrite app_nil_l, Hl.
  rewrite (proj2 (Nat.leb_le _ _) Hlen), swrap_small by lia. split_and!; [done|done|].
  unfold with_magic. rewrite deser_uint_ser; [|done|left; vm_compute; intuition discriminate|done|lia].
  rewrite Z.lor_0_l, Z.eqb_refl. unfold cbind. rewrite advance_app by apply length_ser_uint.
  specialize (Hr []). rewrite app_nil_r in Hr. by rewrite Hr.
Qed.

(** * Well-formed messages and what [malloc] may leave in the structure *)

Definition u_ok (w v : Z) : Prop := 0 <= v < 2 ^ w.

Record address_ok (a : sstack_address) : Prop := {
  addr_proto_ok : codec_ok 32 (protocol a);
  addr_str_ok : str_ok IPV6_ADDR_MAX (address_union a)
}.

Record address_mem (a : sstack_address) : Prop := {
  addr_proto_mem : u_ok 32 (protocol a);
  addr_len_mem : length (address_union a) = IPV6_ADDR_MAX
}.

Definition merge_address (m a : sstack_address) : sstack_address :=
  mkAddress (Z.lor (protocol m) (protocol a)) (overlay (address_union m) (address_union a)).

Lemma writes_address a :
  address_ok a ->
  writes (if protocol a =? IPV4 then put_s (ipv4_address a) else put_s (ipv6_address a))
         (s_bytes (address_union a)).
Proof.
  intros [_ Hs]. unfold ipv4_address, ipv6_address.
  assert (Hw : writes (put_s (address_union a)) (s_bytes (address_union a)))
    by (eapply writes_s; [done|vm_compute; discriminate]).
  case_if; done.
Qed.

Lemma reads_address m a :
  address_mem m -> address_ok a ->
  reads (get_address m) (sfscli_ser_nfield shl_over 32 (protocol a) ++ s_bytes (address_union a))
        (merge_address m a).
Proof.
  intros [Hp Hl] [Ha Hs]. unfold get_address. eapply reads_bind; [by apply reads_n|].
  unfold ipv4_address, ipv6_address.
  assert (Hr : reads (get_s (address_union m)) (s_bytes (address_union a))
                 (overlay (address_union m) (address_union a)))
    by (eapply reads_s; [done|vm_compute; discriminate|done]).
  unfold merge_address.
  case_if; by apply (reads_last _ (mkAddress _)).
Qed.

Record storage_ok (c : sfscli_cli_cmd storage_input) : Prop := {
  st_cmd_ok : codec_ok 32 (cmd c);
  st_sub_ok : codec_ok 32 (xxx_cmd c);
  st_addr_ok : address_ok (si_address (input c));
  st_path_ok : str_ok PATH_MAX (rpath (input c));
  st_proto_ok : codec_ok 32 (access_protocol (input c));
  st_type_ok : codec_ok 32 (st_type (input c));
  st_size_ok : codec_ok 64 (st_size (input c))
}.

Record storage_mem (c : sfscli_cli_cmd storage_input) : Prop := {
  st_cmd_mem : u_ok 32 (cmd c);
  st_sub_mem : u_ok 32 (xxx_cmd c);
  st_addr_mem : address_mem (si_address (input c));
  st_path_mem : length (rpath (input c)) = PATH_MAX;
  st_proto_mem : u_ok 32 (access_protocol (input c));
  st_type_mem : u_ok 32 (st_type (input c));
  st_size_mem : u_ok 64 (st_size (input c))
}.

(** The structure after decoding [c] into memory that held [m]. *)
Definition merge_storage (m c : sfscli_cli_cmd storage_input) : sfscli_cli_cmd storage_input :=
  mkCmd (Z.lor (cmd m) (cmd c)) (Z.lor (xxx_cmd m) (xxx_cmd c))
    (mkStorageInput
       (merge_address (si_address (input m)) (si_address (input c)))
       (overlay (rpath (input m)) (rpath (input c)))
       (Z.lor (access_protocol (input m)) (access_protocol (input c)))
       (Z.lor (st_type (input m)) (st_type (input c)))
       (Z.lor (st_size (input m)) (st_size (input c)))).

(** Decide a field of a message writer or reader. *)
Ltac wire_side := first [assumption | reflexivity | lia | (vm_compute; intuition discriminate)].
Ltac write_field :=
  first [apply writes_magic | apply writes_n | (by apply writes_address)
        | (eapply writes_s; [eassumption|vm_compute; discriminate])].
Ltac read_field :=
  first [(apply reads_n; wire_side) | (by apply reads_address)
        | (eapply reads_s; [eassumption|vm_compute; discriminate|assumption])].

Lemma length_s_bytes cap a : str_ok cap a -> (length (s_bytes a) < 2 + cap)%nat.
Proof.
  intros Hs. destruct (str_ok_len _ _ Hs) as [_ Hl]. unfold s_bytes.
  rewrite length_app, length_ser_uint. lia.
Qed.

(** Bound the length of a message. *)
Ltac wire_length :=
  rewrite ?length_app, ?length_ser_nfield;
  change (Z.to_nat (8 / 8)) with 1%nat in *; change (Z.to_nat (16 / 8)) with 2%nat in *;
  change (Z.to_nat (32 / 8)) with 4%nat in *; change (Z.to_nat (64 / 8)) with 8%nat in *;
  repeat match goal with
  | H : str_ok ?cap ?a |- context [length (s_bytes ?a)] =>
      pose proof (length_s_bytes cap a H); generalize dependent (length (s_bytes a)); intros
  end;
  unfold alloc_len, SIZEOF_CLI_CMD, PATH_MAX, IPV6_ADDR_MAX, POLICY_TAG_LEN, TYPE_LEN in *; lia.

Lemma storage_wire m c :
  storage_ok c -> storage_mem m ->
  exists out, sfscli_serialize_storage true c = Ret (Z.of_nat (length out), Some out) /\
    (length out <= alloc_len 11)%nat /\
    sfscli_deserialize_storage out (Some m) = Ret (0, Some (merge_storage m c)).
Proof.
  intros [] []. eapply message_roundtrip.
  - unfold put_storage. repeat (eapply writes_seq; [write_field|]). write_field.
  - unfold get_storage_fields. eapply reads_bind; [read_field|].
    eapply reads_bind; [read_field|]. rewrite app_assoc.
    eapply reads_bind; [read_field|]. do 3 (eapply reads_bind; [read_field|]).
    apply (reads_last _ (fun sz => mkCmd _ _ (mkStorageInput _ _ _ _ sz))). read_field.
  - pose proof (addr_str_ok _ st_addr_ok0). wire_length.
  - vm_compute. done.
Qed.

Record sfsd_ok (c : sfscli_cli_cmd sfsd_input) : Prop := {
  sd_cmd_ok : codec_ok 32 (cmd c);
  sd_sub_ok : codec_ok 32 (xxx_cmd c);
  sd_addr_ok : address_ok (sdi_address (input c));
  sd_port_ok : codec_ok 16 (port (input c))
}.

Record sfsd_mem (c : sfscli_cli_cmd sfsd_input) : Prop := {
  sd_cmd_mem : u_ok 32 (cmd c);
  sd_sub_mem : u_ok 32 (xxx_cmd c);
  sd_addr_mem : address_mem (sdi_address (input c));
  sd_port_mem : u_ok 16 (port (input c))
}.

Definition merge_sfsd (m c : sfscli_cli_cmd sfsd_input) : sfscli_cli_cmd sfsd_input :=
  mkCmd (Z.lor (cmd m) (cmd c)) (Z.lor (xxx_cmd m) (xxx_cmd c))
    (mkSfsdInput (merge_address (sdi_address (input m)) (sdi_address (input c)))
                 (Z.lor (port (input m)) (port (input c)))).

Lemma sfsd_wire m c :
  sfsd_ok c -> sfsd_mem m ->
  exists out, sfscli_serialize_sfsd true c = Ret (Z.of_nat (length out), Some out) /\
    (length out <= alloc_len 8)%nat /\
    sfscli_deserialize_sfsd out (Some m) = Ret (0, Some (merge_sfsd m c)).
Proof.
  intros [] []. eapply message_roundtrip.
  - unfold put_sfsd. repeat (eapply writes_seq; [write_field|]). write_field.
  - unfold get_sfsd_fields. do 2 (eapply reads_bind; [read_field|]). rewrite app_assoc.
    eapply reads_bind; [read_field|].
    apply (reads_last _ (fun p => mkCmd _ _ (mkSfsdInput _ p))). read_field.
  - pose proof (addr_str_ok _ sd_addr_ok0). wire_length.
  - vm_compute. done.
Qed.

Record policy_ok (c : sfscli_cli_cmd policy_input) : Prop := {
  po_cmd_ok : codec_ok 32 (cmd c);
  po_uid_ok : codec_ok 32 (pi_uid (input c));
  po_gid_ok : codec_ok 32 (pi_gid (input c));
  po_tag_ok : exists t, head (pi_policy_tag (input c)) = Some t /\ str_ok POLICY_TAG_LEN t;
  po_fname_ok : str_ok PATH_MAX (pi_fname (input c));
  po_ftype_ok : str_ok TYPE_LEN (pi_ftype (input c));
  po_num_ok : codec_ok 64 (pi_num_policy (input c));
  po_ver_ok : codec_ok 32 (ver (pi_attr (input c)));
  po_quota_ok : codec_ok 32 (a_quota (pi_attr (input c)));
  po_qos_ok : codec_ok 8 (a_qoslevel (pi_attr (input c)));
  po_hidden_ok : codec_ok 8 (a_ishidden (pi_attr (input c)));
  po_reps_ok : codec_ok 8 (a_numreplicas (pi_attr (input c)));
  po_dr_ok : codec_ok 8 (a_enable_dr (pi_attr (input c)))
}.

(** A structure that [calloc] zeroed. *)
Definition zero_policy : sfscli_cli_cmd policy_input :=
  mkCmd 0 0 (mkPolicyInput 0 0 (replicate (Z.to_nat 64) (replicate POLICY_TAG_LEN 0))
               (replicate TYPE_LEN 0) (replicate PATH_MAX 0) 0 (mkAttr 0 0 0 0 0 0) 0).

(** The structure after decoding [c], whose first tag is [t], into zeroed
    memory. *)
Definition policy_received (c : sfscli_cli_cmd policy_input) (t : list Z)
    : sfscli_cli_cmd policy_input :=
  let pi := input c in
  mkCmd (cmd c) 0
    (mkPolicyInput (pi_uid pi) (pi_gid pi)
       (<[O := overlay (replicate POLICY_TAG_LEN 0) t]>
          (replicate (Z.to_nat 64) (replicate POLICY_TAG_LEN 0)))
       (overlay (replicate TYPE_LEN 0) (pi_ftype pi))
       (overlay (replicate PATH_MAX 0) (pi_fname pi))
       (pi_num_policy pi)
       (mkAttr (ver (pi_attr pi)) (a_quota (pi_attr pi)) (a_qoslevel (pi_attr pi))
               (a_ishidden (pi_attr pi)) (a_numreplicas (pi_attr pi)) (a_enable_dr (pi_attr pi)))
       0).

Lemma policy_wire c t :
  policy_ok c -> head (pi_policy_tag (input c)) = Some t -> str_ok POLICY_TAG_LEN t ->
  exists out, sfscli_serialize_policy true c = Ret (Z.of_nat (length out), Some out) /\
    (length out <= alloc_len 18)%nat /\
    sfscli_deserialize_policy out (Some zero_policy) = Ret (0, Some (policy_received c t)).
Proof.
  intros [] Ht Hs. eapply message_roundtrip.
  - unfold put_policy. repeat (eapply writes_seq; [write_field|]).
    eapply writes_expect; [exact Ht|].
    repeat (eapply writes_seq; [write_field|]). write_field.
  - unfold get_policy_fields. cbn [zero_policy input cmd xxx_cmd pi_gid pi_policy_tag pi_fname
      pi_ftype pi_num_policy pi_attr pi_index ver a_quota a_qoslevel a_ishidden a_numreplicas
      a_enable_dr].
    do 3 (eapply reads_bind; [read_field|]).
    eapply reads_expect; [reflexivity|].
    do 3 (eapply reads_bind; [eapply reads_s; [eassumption|vm_compute; discriminate|apply length_replicate]|]).
    do 6 (eapply reads_bind; [read_field|]).
    apply (reads_last _ (fun dr => mkCmd _ _ (mkPolicyInput _ _ _ _ _ _ (mkAttr _ _ _ _ _ dr) _))).
    read_field.
  - wire_length.
  - vm_compute. done.
Qed.

(** * Round trips *)

Definition zero_address : sstack_address := mkAddress 0 (replicate IPV6_ADDR_MAX 0).

Definition zero_storage : sfscli_cli_cmd storage_input :=
  mkCmd 0 0 (mkStorageInput zero_address (replicate PATH_MAX 0) 0 0 0).

Definition zero_sfsd : sfscli_cli_cmd sfsd_input := mkCmd 0 0 (mkSfsdInput zero_address 0).

(** The same message: equal numbers and equal strings. *)
Definition same_address (a b : sstack_address) : Prop :=
  protocol a = protocol b /\ same_str (address_union a) (address_union b).

Definition same_storage (c d : sfscli_cli_cmd storage_input) : Prop :=
  cmd c = cmd d /\ xxx_cmd c = xxx_cmd d /\
  same_address (si_address (input c)) (si_address (input d)) /\
  same_str (rpath (input c)) (rpath (input d)) /\
  access_protocol (input c) = access_protocol (input d) /\
  st_type (input c) = st_type (input d) /\ st_size (input c) = st_size (input d).

Definition same_sfsd (c d : sfscli_cli_cmd sfsd_input) : Prop :=
  cmd c = cmd d /\ xxx_cmd c = xxx_cmd d /\
  same_address (sdi_address (input c)) (sdi_address (input d)) /\ port (input c) = port (input d).

Lemma zero_address_mem : address_mem zero_address.
Proof. split; [unfold u_ok; simpl; lia|apply length_replicate]. Qed.

Lemma merge_zero_address a : address_ok a -> same_address (merge_address zero_address a) a.
Proof. intros [_ Hs]. split; [done|]. by apply overlay_zeros. Qed.

(** C29. A storage command whose strings are terminated and whose size is below
    2 GiB is serialized into the allocated buffer without overrunning it, and
    deserializing the buffer into zeroed memory gives the same command back. *)
Theorem storage_roundtrip c :
  storage_ok c ->
  exists out c', sfscli_serialize_storage true c = Ret (Z.of_nat (length out), Some out) /\
    (length out <= alloc_len 11)%nat /\
    sfscli_deserialize_storage out (Some zero_storage) = Ret (0, Some c') /\ same_storage c' c.
Proof.
  intros Hc. destruct (storage_wire zero_storage c Hc) as (out & Hs & Hl & Hd).
  { split; try (unfold u_ok; simpl; lia); [apply zero_address_mem|apply length_replicate]. }
  exists out, (merge_storage zero_storage c). split_and!; try done.
  destruct Hc as [_ _ Ha Hp _ _ _]. repeat split; [apply (overlay_zeros _ _ (addr_str_ok _ Ha))|].
  by apply overlay_zeros.
Qed.

(** The same for an sfsd command. *)
Theorem sfsd_roundtrip c :
  sfsd_ok c ->
  exists out c', sfscli_serialize_sfsd true c = Ret (Z.of_nat (length out), Some out) /\
    (length out <= alloc_len 8)%nat /\
    sfscli_deserialize_sfsd out (Some zero_sfsd) = Ret (0, Some c') /\ same_sfsd c' c.
Proof.
  intros Hc. destruct (sfsd_wire zero_sfsd c Hc) as (out & Hs & Hl & Hd).
  { split; try (unfold u_ok; simpl; lia). apply zero_address_mem. }
  exists out, (merge_sfsd zero_sfsd c). split_and!; try done.
  destruct Hc as [_ _ Ha _]. repeat split. apply (overlay_zeros _ _ (addr_str_ok _ Ha)).
Qed.

(** C30. A policy command of terminated strings and fewer than 2^31 plugins arrives with its ids, names, first tag, plugin count and
    attributes, and with the other 63 tags, the index and the kind of command
    cleared. *)
Theorem policy_roundtrip c :
  policy_ok c ->
  exists out c' t t', sfscli_serialize_policy true c = Ret (Z.of_nat (length out), Some out) /\
    (length out <= alloc_len 18)%nat /\
    sfscli_deserialize_policy out (Some zero_policy) = Ret (0, Some c') /\
    cmd c' = cmd c /\ pi_uid (input c') = pi_uid (input c) /\ pi_gid (input c') = pi_gid (input c) /\
    head (pi_policy_tag (input c)) = Some t /\ head (pi_policy_tag (input c')) = Some t' /\
    same_str t' t /\ same_str (pi_fname (input c')) (pi_fname (input c)) /\
    same_str (pi_ftype (input c')) (pi_ftype (input c)) /\
    pi_num_policy (input c') = pi_num_policy (input c) /\ pi_attr (input c') = pi_attr (input c) /\
    xxx_cmd c' = 0 /\ pi_index (input c') = 0 /\
    tail (pi_policy_tag (input c')) = tail (pi_policy_tag (input zero_policy)).
Proof.
  intros Hc. destruct (po_tag_ok _ Hc) as (t & Ht & Hts).
  destruct (policy_wire c t Hc Ht Hts) as (out & Hs & Hl & Hd).
  exists out, (policy_received c t), t, (overlay (replicate POLICY_TAG_LEN 0) t).
  destruct Hc. split_and!; try done; try (by apply overlay_zeros).
  simpl. by destruct (pi_attr (input c)).
Qed.

(** Deserialization does not clear the structure it allocates: every number
    is ORed into what [malloc] left there and every string is laid over it
    without a terminator. *)
Theorem storage_decode_merges m c :
  storage_ok c -> storage_mem m ->
  exists out, sfscli_serialize_storage true c = Ret (Z.of_nat (length out), Some out) /\
    sfscli_deserialize_storage out (Some m) = Ret (0, Some (merge_storage m c)).
Proof.
  intros Hc Hm. destruct (storage_wire m c Hc Hm) as (out & Hs & _ & Hd). eauto.
Qed.

End Reads.

(** The wire format of a policy command does not depend on the kind of
    command (add, delete, show) nor on the index or the tags after the first:
    commands that differ only there are the same bytes. *)
Theorem policy_command_not_sent malloc_ok c k i tags :
  head tags = head (pi_policy_tag (input c)) ->
  sfscli_serialize_policy malloc_ok
    (mkCmd (cmd c) k
       (mkPolicyInput (pi_uid (input c)) (pi_gid (input c)) tags (pi_ftype (input c))
          (pi_fname (input c)) (pi_num_policy (input c)) (pi_attr (input c)) i))
  = sfscli_serialize_policy malloc_ok c.
Proof. intros Ht. unfold sfscli_serialize_policy, put_policy. simpl. by rewrite Ht. Qed.

(** The license serializer reports a length but hands out no buffer. *)
Theorem license_buffer_unset c :
  str_ok PATH_MAX (license_path (input c)) ->
  exists n, 0 < n /\ sfscli_serialize_license true c = Ret (n, None).
Proof.
  intros Hs. unfold sfscli_serialize_license, with_buffer.
  assert (Hw : writes (put_license c)
    (sfscli_ser_uint shl_over 32 SFSCLI_MAGIC 4 ++
       sfscli_ser_nfield shl_over 32 (cmd c) ++ s_bytes (license_path (input c)))).
  { apply writes_seq; [apply writes_magic|]. apply writes_seq; [apply writes_n|].
    eapply writes_s; [done|vm_compute; discriminate]. }
  rewrite Hw. pose proof (length_s_bytes _ _ Hs) as Hl. rewrite app_nil_l.
  assert (Hlen : length (sfscli_ser_uint shl_over 32 SFSCLI_MAGIC 4 ++
       sfscli_ser_nfield shl_over 32 (cmd c) ++ s_bytes (license_path (input c)))
     = (10 + length (s_bytes (license_path (input c))))%nat).
  { rewrite !length_app, length_ser_uint, length_ser_nfield. done. }
  rewrite Hlen. unfold PATH_MAX in *.
  rewrite (proj2 (Nat.leb_le _ _)) by (unfold alloc_len, SIZEOF_CLI_CMD; lia).
  eexists. split; [|reflexivity]. rewrite swrap_small; lia.
Qed.

(** A buffer whose first four bytes are not the magic is refused with
    [-EINVAL] before anything is allocated or read further. *)
Theorem bad_magic_refused {C} (buffer : list Z) (mem : option C) body :
  (4 <= length buffer)%nat -> deser_bytes shl_over 32 0 (take 4 buffer) 0 <> SFSCLI_MAGIC ->
  with_magic buffer mem body = Ret (- EINVAL, None).
Proof.
  intros Hl Hm. unfold with_magic, sfscli_deser_uint, cbind, peek.
  rewrite (proj2 (Nat.leb_le _ _) Hl). simpl.
  rewrite (proj2 (Z.eqb_neq _ _) Hm). done.
Qed.

(** The length of a string field is taken from the wire and not compared with
    the array it is copied to: a longer string overruns the array. *)
Theorem string_field_overruns old n payload rest :
  Z.of_nat n < 2 ^ 16 -> length payload = n -> (length old < n)%nat ->
  get_s old (sfscli_ser_uint shl_over 16 (Z.of_nat n) 2 ++ payload ++ rest) = Fault OutOfBounds.
Proof.
  intros Hn Hp Ho. unfold sfscli_deser_sfield.
  assert (Hd : forall r, sfscli_deser_uint shl_over 16 0 2
      (sfscli_ser_uint shl_over 16 (Z.of_nat n) 2 ++ r)
    = Ret (Z.of_nat n, sfscli_ser_uint shl_over 16 (Z.of_nat n) 2 ++ r)).
  { intros r. apply deser_size. lia. }
  unfold cbind at 1. rewrite Hd. unfold cbind at 1. rewrite advance_app by apply length_ser_uint.
  rewrite Nat2Z.id. unfold cbind, peek. rewrite length_app, Hp.
  replace (n <=? n + length rest)%nat with true by (symmetry; apply Nat.leb_le; lia).
  replace (n <=? length old)%nat with false by (symmetry; apply Nat.leb_gt; lia). done.
Qed.

End Messages.

(** * Instances *)

(** On x86 the count of a shift is taken modulo 32. *)
Definition x86_shl (v n : Z) : Z := swrap 32 (Z.shiftl v (n mod 32)).

Lemma x86_shl_zero n : x86_shl 0 n = 0.
Proof. unfold x86_shl. by rewrite Z.shiftl_0_l. Qed.

(** On that processor a size of 4 GiB is decoded as 0 and one of 2 GiB as a
    number with all the high bits set. *)
Theorem large_sizes_corrupted :
  sfscli_deser_nfield x86_shl 64 0 (sfscli_ser_nfield x86_shl 64 (2 ^ 32)) = Ret (0, []) /\
  sfscli_deser_nfield x86_shl 64 0 (sfscli_ser_nfield x86_shl 64 (2 ^ 31))
    = Ret (2 ^ 64 - 2 ^ 31, []).
Proof. split; vm_compute; reflexivity. Qed.

(** The array of [cap] bytes that holds the string [s]. *)
Definition char_array (cap : nat) (s : list Z) : list Z := s ++ replicate (cap - length s) 0.

Definition sample_address : sstack_address :=
  mkAddress IPV4 (char_array IPV6_ADDR_MAX [49; 48; 46; 48; 46; 48; 46; 49]).

Definition sample_storage : sfscli_cli_cmd storage_input :=
  mkCmd 2 1 (mkStorageInput sample_address (char_array PATH_MAX [47; 109; 110; 116]) 1 2 1048576).

Definition sample_sfsd : sfscli_cli_cmd sfsd_input := mkCmd 4 1 (mkSfsdInput sample_address 24496).

Definition sample_policy : sfscli_cli_cmd policy_input :=
  mkCmd 1 1 (mkPolicyInput 1000 4294967295
    (char_array POLICY_TAG_LEN [122; 105; 112] :: replicate 63 (replicate POLICY_TAG_LEN 0))
    (char_array TYPE_LEN [42]) (char_array PATH_MAX [47; 97]) 1 (mkAttr 0 10 2 0 3 1) 7).

(** Discharge the conditions on a concrete message by evaluation. *)
Ltac sample_ok :=
  repeat match goal with
  | |- codec_ok 64 _ => right; vm_compute; intuition discriminate
  | |- codec_ok _ _ => left; vm_compute; intuition discriminate
  | |- str_ok _ _ => split; [vm_compute; reflexivity|vm_compute; eexists; reflexivity]
  | |- address_ok _ => split
  | |- u_ok _ _ => vm_compute; intuition discriminate
  end.

Lemma storage_roundtrip_witness :
  exists out c', sfscli_serialize_storage x86_shl true sample_storage
                   = Ret (Z.of_nat (length out), Some out) /\
    (length out <= alloc_len 11)%nat /\
    sfscli_deserialize_storage x86_shl out (Some zero_storage) = Ret (0, Some c') /\
    same_storage c' sample_storage.
Proof.
  apply (storage_roundtrip x86_shl x86_shl_zero sample_storage). split; sample_ok.
Defined.

Lemma sfsd_roundtrip_witness :
  exists out c', sfscli_serialize_sfsd x86_shl true sample_sfsd
                   = Ret (Z.of_nat (length out), Some out) /\
    (length out <= alloc_len 8)%nat /\
    sfscli_deserialize_sfsd x86_shl out (Some zero_sfsd) = Ret (0, Some c') /\
    same_sfsd c' sample_sfsd.
Proof. apply (sfsd_roundtrip x86_shl x86_shl_zero sample_sfsd). split; sample_ok. Defined.

Lemma policy_roundtrip_witness :
  exists out c', sfscli_serialize_policy x86_shl true sample_policy
                   = Ret (Z.of_nat (length out), Some out) /\
    sfscli_deserialize_policy x86_shl out (Some zero_policy) = Ret (0, Some c') /\
    pi_uid (input c') = 1000.
Proof.
  destruct (policy_roundtrip x86_shl x86_shl_zero sample_policy)
    as (out & c' & t & t' & H1 & _ & H2 & _ & H3 & _).
  { split; sample_ok. eexists. split; [reflexivity|]. sample_ok. }
  exists out, c'. split; [exact H1|]. split; [exact H2|exact H3].
Defined.

(** Decoding [sample_storage] into memory that held the command 5. *)
Lemma storage_decode_merges_witness :
  exists out, sfscli_serialize_storage x86_shl true sample_storage
                = Ret (Z.of_nat (length out), Some out) /\
    sfscli_deserialize_storage x86_shl out
      (Some (mkCmd 5 0 (mkStorageInput zero_address (replicate PATH_MAX 0) 0 0 0)))
    = Ret (0, Some (merge_storage (mkCmd 5 0 (mkStorageInput zero_address (replicate PATH_MAX 0) 0 0 0))
                      sample_storage)).
Proof.
  apply (storage_decode_merges x86_shl x86_shl_zero).
  - split; sample_ok.
  - split; sample_ok; [apply zero_address_mem|apply length_replicate].
Defined.

Lemma policy_command_not_sent_witness :
  sfscli_serialize_policy x86_shl true
    (mkCmd (cmd sample_policy) 2
       (mkPolicyInput (pi_uid (input sample_policy)) (pi_gid (input sample_policy))
          [char_array POLICY_TAG_LEN [122; 105; 112]] (pi_ftype (input sample_policy))
          (pi_fname (input sample_policy)) (pi_num_policy (input sample_policy))
          (pi_attr (input sample_policy)) 0))
  = sfscli_serialize_policy x86_shl true sample_policy.
Proof. apply (policy_command_not_sent x86_shl true sample_policy 2 0). reflexivity. Defined.

Lemma license_buffer_unset_witness :
  exists n, 0 < n /\
    sfscli_serialize_license x86_shl true (mkCmd 3 0 (mkLicenseInput (char_array PATH_MAX [47; 108])))
    = Ret (n, None).
Proof. apply license_buffer_unset. sample_ok. Defined.

Lemma bad_magic_refused_witness :
  with_magic x86_shl [1; 2; 3; 4; 5] (Some zero_storage) (get_storage_fields x86_shl)
  = Ret (- EINVAL, None).
Proof. apply bad_magic_refused; vm_compute; [lia|discriminate]. Defined.

Lemma string_field_overruns_witness :
  sfscli_deser_sfield x86_shl (replicate IPV6_ADDR_MAX 0)
    (sfscli_ser_uint x86_shl 16 (Z.of_nat 100) 2 ++ replicate 100 65 ++ [])
  = Fault OutOfBounds.
Proof. apply string_field_overruns; [lia|reflexivity|vm_compute; lia]. Defined.
