(* ===== verification/CFormat.v ===== *)
(** Printing and parsing of numbers and strings by the C library: the
    conversions [%d], [%u] and [%x] of [sprintf], [atoi], and [strtok] with one
    delimiter. A string is the list of its bytes, without the final NUL. *)
From Stdlib Require Import ZArith Lia String Ascii.
From stdpp Require Import base list numbers.
From S2P Require Import Prelude.

(** The bytes of a string literal. *)
Definition bytes (s : string) : list Z :=
  (fun c => Z.of_N (N_of_ascii c)) <$> list_ascii_of_string s.

(** The digit of a number below 16. *)
Definition digit (n : Z) : Z := if n <? 10 then 48 + n else 87 + n.

(** The digits of [n] in base [b], most significant first, at most [fuel]. *)
Fixpoint digits (b : Z) (fuel : nat) (n : Z) : list Z :=
  match fuel with
  | O => []
  | S fuel' => if n <? b then [digit n] else digits b fuel' (n / b) ++ [digit (n mod b)]
  end.

(** A signed number of at most [k] digits. *)
Definition fmt_signed (k : nat) (v : Z) : list Z :=
  if v <? 0 then 45 :: digits 10 k (- v) else digits 10 k v.

(** [%d] and [%x] of 32-bit arguments, [%lld] and [%u] of 64-bit ones: 10
    decimal digits and 8 hexadecimal ones are enough for 32 bits, 20 decimal
    ones for 64. *)
Definition fmt_d (n : Z) : list Z := fmt_signed 10 (swrap 32 n).
Definition fmt_lld (n : Z) : list Z := fmt_signed 19 (swrap 64 n).
Definition fmt_x (n : Z) : list Z := digits 16 8 (uwrap 32 n).
Definition fmt_u (n : Z) : list Z := digits 10 20 (uwrap 64 n).

Definition is_digit (c : Z) : bool := (48 <=? c) && (c <=? 57).
Definition is_space (c : Z) : bool := (c =? 32) || ((9 <=? c) && (c <=? 13)).
Definition is_hex (c : Z) : bool := is_digit c || ((97 <=? c) && (c <=? 102)).

(** The number that the digits at the start of a string denote. *)
Fixpoint digits_val (acc : Z) (s : list Z) : Z :=
  match s with
  | [] => acc
  | c :: s' => if is_digit c then digits_val (10 * acc + (c - 48)) s' else acc
  end.

Fixpoint skip_spaces (s : list Z) : list Z :=
  match s with
  | [] => []
  | c :: s' => if is_space c then skip_spaces s' else s
  end.

(** The number at the start of a string, as [strtol] reads it. *)
Definition strtol (s : list Z) : Z :=
  match skip_spaces s with
  | [] => 0
  | c :: s' => if c =? 45 then - digits_val 0 s'
               else if c =? 43 then digits_val 0 s'
               else digits_val 0 (c :: s')
  end.

(** [atoi], the conversion of [strtol] to [int]; [atoll], which stays within
    64 bits. *)
Definition atoi (s : list Z) : Z := swrap 32 (strtol s).
Definition atoll (s : list Z) : Z := Z.max (- 2 ^ 63) (Z.min (2 ^ 63 - 1) (strtol s)).

(** [strtok] with the delimiter [d]: the next token and what follows its
    delimiter, [None] when only delimiters are left. *)
Fixpoint skip_delims (d : Z) (s : list Z) : list Z :=
  match s with
  | [] => []
  | c :: s' => if c =? d then skip_delims d s' else s
  end.

Fixpoint split_at (d : Z) (s : list Z) : list Z * list Z :=
  match s with
  | [] => ([], [])
  | c :: s' => if c =? d then ([], s') else let r := split_at d s' in (c :: r.1, r.2)
  end.

Definition strtok (d : Z) (s : list Z) : option (list Z * list Z) :=
  match skip_delims d s with
  | [] => None
  | s' => Some (split_at d s')
  end.

(** * Digits *)

Lemma digits_hex b k n : 2 <= b <= 16 -> 0 <= n -> Forall (fun c => is_hex c = true) (digits b k n).
Proof.
  intros Hb. assert (Hd : forall m, 0 <= m < 16 -> is_hex (digit m) = true).
  { intros m Hm. unfold is_hex, is_digit, digit. case_if; lia. }
  revert n. induction k as [|k IH]; intros n Hn; simpl; [done|]. case_if.
  - apply Forall_singleton, Hd. lia.
  - apply Forall_app. split; [apply IH, Z.div_pos; lia|].
    apply Forall_singleton, Hd. pose proof (Z.mod_pos_bound n b). lia.
Qed.

Lemma digits_decimal k n : 0 <= n -> Forall (fun c => is_digit c = true) (digits 10 k n).
Proof.
  assert (Hd : forall m, 0 <= m < 10 -> is_digit (digit m) = true).
  { intros m Hm. unfold is_digit, digit. case_if; lia. }
  revert n. induction k as [|k IH]; intros n Hn; simpl; [done|]. case_if.
  - apply Forall_singleton, Hd. lia.
  - apply Forall_app. split; [apply IH, Z.div_pos; lia|].
    apply Forall_singleton, Hd. pose proof (Z.mod_pos_bound n 10). lia.
Qed.

Lemma digits_nonempty b k n : digits b (S k) n <> [].
Proof. simpl. case_if; [done|]. by destruct (digits b k (n / b)). Qed.

Lemma digits_length b k n : (length (digits b k n) <= k)%nat.
Proof. revert n. induction k as [|k IH]; intros n; simpl; [lia|]. case_if; simpl; [lia|]. rewrite length_app. specialize (IH (n / b)). simpl. lia. Qed.

Lemma digits_val_app acc s c : Forall (fun x => is_digit x = true) s -> is_digit c = true ->
  digits_val acc (s ++ [c]) = 10 * digits_val acc s + (c - 48).
Proof.
  intros Hs Hc. revert acc. induction Hs as [|x s Hx _ IH]; intros acc; simpl; [by rewrite Hc|].
  rewrite Hx. apply IH.
Qed.

Lemma digits_val_digits k n : 0 <= n < 10 ^ Z.of_nat k -> digits_val 0 (digits 10 k n) = n.
Proof.
  revert n. induction k as [|k IH]; intros n Hn; simpl digits; [change (10 ^ Z.of_nat 0) with 1 in Hn; simpl; lia|].
  rewrite Nat2Z.inj_succ, Z.pow_succ_r in Hn by lia.
  assert (Hd : forall m, 0 <= m < 10 -> digit m = 48 + m /\ is_digit (digit m) = true).
  { intros m Hm. unfold digit. rewrite (proj2 (Z.ltb_lt m 10)) by lia. unfold is_digit. lia. }
  case_if.
  - destruct (Hd n) as [He Ht]; [lia|]. simpl. rewrite Ht, He. lia.
  - destruct (Hd (n mod 10)) as [He Ht]; [apply Z.mod_pos_bound; lia|].
    rewrite digits_val_app by (try apply digits_decimal; auto using Z.div_pos with lia).
    rewrite IH, He. { pose proof (Z.div_mod n 10). lia. }
    split; [apply Z.div_pos; lia|]. apply Z.div_lt_upper_bound; lia.
Qed.

(** * [atoi] reads what [%d] prints *)

Lemma skip_spaces_digit c s : is_space c = false -> skip_spaces (c :: s) = c :: s.
Proof. simpl. by intros ->. Qed.

Lemma strtol_fmt k v : (0 < k)%nat -> Z.abs v < 10 ^ Z.of_nat k -> strtol (fmt_signed k v) = v.
Proof.
  intros Hk Hv. unfold strtol, fmt_signed. destruct (v <? 0) eqn:Hs; bool_to_Z.
  - rewrite skip_spaces_digit by reflexivity. change (45 =? 45) with true. cbv iota.
    rewrite digits_val_digits by lia. lia.
  - destruct k as [|k]; [lia|]. pose proof (digits_nonempty 10 k v) as Hne. pose proof (digits_decimal (S k) v Hs) as Hall.
    pose proof (digits_val_digits (S k) v) as Hval.
    destruct (digits 10 (S k) v) as [|c s]; [done|]. apply list.Forall_cons in Hall as [Hc _].
    assert (is_space c = false /\ c <> 45 /\ c <> 43) as (Hsp & H45 & H43).
    { unfold is_digit in Hc. unfold is_space. bool_to_Z. lia. }
    rewrite skip_spaces_digit by done. rewrite (proj2 (Z.eqb_neq _ _) H45), (proj2 (Z.eqb_neq _ _) H43). apply Hval. lia.
Qed.

Lemma atoi_fmt_d n : atoi (fmt_d n) = swrap 32 n.
Proof.
  unfold atoi, fmt_d. pose proof (swrap_range 32 n). rewrite strtol_fmt; [|lia|simpl; lia]. apply swrap_small; lia.
Qed.

Lemma atoll_fmt_lld n : atoll (fmt_lld n) = swrap 64 n.
Proof.
  unfold atoll, fmt_lld. pose proof (swrap_range 64 n). rewrite strtol_fmt; [lia|lia|simpl; lia].
Qed.

(** * What [%d] and [%x] print *)

(** The bytes other than [d]. *)
Definition without_byte (d : Z) (s : list Z) : Prop := Forall (fun c => c <> d) s.

Lemma hex_without d s : is_hex d = false -> Forall (fun c => is_hex c = true) s -> without_byte d s.
Proof. intros Hd Hs. eapply list.Forall_impl; [exact Hs|]. intros c Hc ->. congruence. Qed.

Lemma fmt_x_hex n : Forall (fun c => is_hex c = true) (fmt_x n).
Proof. apply digits_hex; [lia|]. apply (uwrap_range 32). lia. Qed.

Lemma fmt_signed_without d k v : is_digit d = false -> d <> 45 -> without_byte d (fmt_signed k v).
Proof.
  intros Hd H45. unfold fmt_signed. assert (Hs : forall v, 0 <= v -> without_byte d (digits 10 k v)).
  { intros w Hw. eapply list.Forall_impl; [apply (digits_decimal k w Hw)|]. intros c Hc ->. congruence. }
  destruct (v <? 0) eqn:E; bool_to_Z; [constructor; [congruence|]|]; apply Hs; lia.
Qed.
Lemma fmt_d_without d n : is_digit d = false -> d <> 45 -> without_byte d (fmt_d n).
Proof. apply fmt_signed_without. Qed.

Lemma fmt_d_nonempty n : fmt_d n <> [].
Proof. unfold fmt_d, fmt_signed. case_if; [done|]. apply digits_nonempty. Qed.

Lemma fmt_signed_length k v : (length (fmt_signed k v) <= S k)%nat.
Proof. unfold fmt_signed. pose proof (digits_length 10 k). case_if; cbn [length]; auto with arith. Qed.
Lemma fmt_d_length n : (length (fmt_d n) <= 11)%nat.
Proof. apply fmt_signed_length. Qed.

(** * Tokens *)

Lemma split_at_tok d s t : without_byte d s -> split_at d (s ++ d :: t) = (s, t).
Proof.
  induction 1 as [|c s Hc _ IH]; simpl; [by rewrite Z.eqb_refl|].
  by rewrite (proj2 (Z.eqb_neq _ _) Hc), IH.
Qed.

Lemma split_at_last d s : without_byte d s -> split_at d s = (s, []).
Proof. induction 1 as [|c s Hc _ IH]; simpl; [done|]. by rewrite (proj2 (Z.eqb_neq _ _) Hc), IH. Qed.

Lemma skip_delims_tok d c s : c <> d -> skip_delims d (c :: s) = c :: s.
Proof. intros Hc. simpl. by rewrite (proj2 (Z.eqb_neq _ _) Hc). Qed.

Lemma strtok_tok d s t : without_byte d s -> s <> [] -> strtok d (s ++ d :: t) = Some (s, t).
Proof.
  intros Hs Hne. destruct s as [|c s]; [done|]. pose proof Hs as [Hc _]%list.Forall_cons.
  unfold strtok. cbn [app]. rewrite skip_delims_tok by done. change (c :: s ++ d :: t) with ((c :: s) ++ d :: t).
  by rewrite split_at_tok.
Qed.

Lemma strtok_last d s : without_byte d s -> s <> [] -> strtok d s = Some (s, []).
Proof.
  intros Hs Hne. destruct s as [|c s]; [done|]. pose proof Hs as [Hc _]%list.Forall_cons.
  unfold strtok. rewrite skip_delims_tok by done. by rewrite split_at_last.
Qed.

(** A delimiter that does not occur in the first fields separates them. *)
Lemma fields_inj d (a b s t : list Z) :
  without_byte d a -> without_byte d b -> a ++ d :: s = b ++ d :: t -> a = b /\ s = t.
Proof. intros Ha Hb He. pose proof (split_at_tok d a s Ha) as H1. rewrite He, split_at_tok in H1 by done. by injection H1. Qed.
