(* ===== verification/Policy.v ===== *)
(** The policy engine: policy/src/policy.c.

    A policy says how the files of a name, type, owner and group are handled;
    each of the four may be left open. Policies are kept in the database and
    in the policy search table, sixteen Judy arrays of entries, one for each
    choice of the criteria that are given. The plugins a policy names are
    registered in the policy table. *)
From Stdlib Require Import ZArith Lia String.
From stdpp Require Import base gmap list numbers.
From S2P Require Import Prelude CString CFormat CliSerdes.

Module Policy.
#[local] Set Default Proof Using "Type".

Definition NUM_BUCKETS : nat := 16.
Definition NUM_MAX_POLICY : nat := 64.
Definition SHA256_DIGEST_LENGTH : nat := 32.
Definition CARET : Z := 94.
Definition STAR : list Z := [42].
(** The buffers that keys are printed to: PATH_MAX, 16 for the two numbers,
    TYPE_LEN and 4 for the separators and the NUL. *)
Definition KEY_LEN : nat := PATH_MAX + 16 + TYPE_LEN + 4.
Definition MAX_POLICY_STRLEN : nat := Z.to_nat 1000.
(** [sizeof] the structure of the database, and the offset of its last field. *)
Definition SIZEOF_PDBE : Z := 3104.
Definition OFFSET_PDB_ATTR : Z := 3088.
Definition SIZEOF_ATTR : Z := 12.
Definition NULL : Z := 0.

(** * Interfaces *)

(** A Judy array indexed by strings: JSLG, JSLI with the assignment through
    the pointer it returns, and JSLD. *)
Class JudySL (J : Type) := {
  jsl_nil : J;
  jsl_get : J -> list Z -> option Z;
  jsl_ins : J -> list Z -> Z -> J;
  jsl_del : J -> list Z -> J;
  jsl_values : J -> list Z
}.

Class JudySLLaws (J : Type) `{JudySL J} : Prop := {
  jsl_get_nil k : jsl_get jsl_nil k = None;
  jsl_get_ins j k v k' : jsl_get (jsl_ins j k v) k' = if decide (k = k') then Some v else jsl_get j k';
  jsl_get_del j k k' : jsl_get (jsl_del j k) k' = if decide (k = k') then None else jsl_get j k'
}.

(** An association list with the newest value first. *)
Fixpoint assoc_get (j : list (list Z * Z)) (k : list Z) : option Z :=
  match j with
  | [] => None
  | (k', v) :: j' => if decide (k' = k) then Some v else assoc_get j' k
  end.
Fixpoint assoc_del (j : list (list Z * Z)) (k : list Z) : list (list Z * Z) :=
  match j with
  | [] => []
  | (k', v) :: j' => if decide (k' = k) then assoc_del j' k else (k', v) :: assoc_del j' k
  end.

#[export] Instance assoc_judy : JudySL (list (list Z * Z)) := {
  jsl_nil := [];
  jsl_get := assoc_get;
  jsl_ins j k v := (k, v) :: assoc_del j k;
  jsl_del := assoc_del;
  jsl_values j := j.*2
}.

Lemma assoc_get_del j k k' : assoc_get (assoc_del j k) k' = if decide (k = k') then None else assoc_get j k'.
Proof.
  induction j as [|[x v] j IH]; cbn; [by case_decide|]. destruct (decide (x = k)) as [->|Hne].
  - rewrite IH. by destruct (decide (k = k')).
  - cbn. rewrite IH. destruct (decide (x = k')) as [->|]; [|done]. by rewrite (decide_False (P := k = k')).
Qed.

#[export] Instance assoc_judy_laws : JudySLLaws (list (list Z * Z)).
Proof.
  split; cbn; [done| |apply assoc_get_del]. intros j k v k'. rewrite assoc_get_del. by destruct (decide (k = k')).
Qed.

(** * Data *)

(** A tag and a checksum for each plugin, and the attributes. *)
Record policy_db_entry : Type := mkPdbe {
  pdb_policy_tag : list (list Z);
  pdb_policy_cksum : list (list Z);
  pdb_mem_index : Z;
  pdb_num_policy : Z;
  pdb_attr : attribute
}.

(** The database as the engine uses it, for records of its type: the return
    codes of [db_get] for a NULL buffer, [db_update] and [db_insert], the
    records that [db_iterate] shows, each with its key, data and length. *)
Class PolicyDb (D : Type) := {
  pdb_get : D -> list Z -> Z;
  pdb_update : D -> list Z -> policy_db_entry -> Z * D;
  pdb_insert : D -> list Z -> policy_db_entry -> Z * D;
  pdb_remove : D -> list Z -> D;
  pdb_records : D -> list (option (list Z) * option policy_db_entry * Z)
}.

Record policy_plugin : Type := mkPlugin {
  pp_refcount : Z;
  pp_policy_name : list Z;
  pp_sha_sum : list Z;
  is_activated : bool
}.

(** [pe_policy] has as many slots as the block was allocated for; [None] is a
    slot that was not written to. *)
Record policy_entry : Type := mkEntry {
  pe_attr : attribute;
  pe_num_plugins : Z;
  pe_refcount : Z;
  pe_policy : list (option Z)
}.

(** The array of policy inputs: a pointer to memory that was given back is
    still a pointer. [None] is an element that was not written to. *)
Inductive block : Type :=
  | Null
  | Freed
  | Live (l : list (option Z)).

Section Policy.
Context {J : Type} `{JudySL J} {D : Type} `{PolicyDb D}.
(** What [malloc] leaves in a policy entry (its two counters) and in a policy
    input; the strings that lie at the addresses a pointer can have. *)
Context (junk_entry : Z -> Z * Z) (junk_input : Z -> policy_input) (strings : Z -> option (list Z)).

(** A read-write lock is 0 when it is free, the number of its readers, or -1
    when it is held for writing. [entry_points] are the plugins a storage daemon
    has loaded, [loaded] the blocks they are in; [memory] is what the calls of the allocator to come return, NULL when it is used up. *)
Record state : Type := mkState {
  policy_initialized : bool;
  pt_table_lock : Z;
  pt_table : list Z;
  policy_slots : Z;
  pst_head : list J;
  pst_lock : list Z;
  plugins : gmap Z policy_plugin;
  entries : gmap Z policy_entry;
  pol_list : block;
  num_pol : Z;
  inputs : gmap Z policy_input;
  records : D;
  entry_points : J;
  loaded : gset Z;
  memory : list Z
}.

Definition set_initialized b s := mkState b (pt_table_lock s) (pt_table s) (policy_slots s) (pst_head s) (pst_lock s)
  (plugins s) (entries s) (pol_list s) (num_pol s) (inputs s) (records s) (entry_points s) (loaded s) (memory s).
Definition set_table_lock x s := mkState (policy_initialized s) x (pt_table s) (policy_slots s) (pst_head s) (pst_lock s)
  (plugins s) (entries s) (pol_list s) (num_pol s) (inputs s) (records s) (entry_points s) (loaded s) (memory s).
Definition set_table t slots s := mkState (policy_initialized s) (pt_table_lock s) t slots (pst_head s) (pst_lock s)
  (plugins s) (entries s) (pol_list s) (num_pol s) (inputs s) (records s) (entry_points s) (loaded s) (memory s).
Definition set_head x s := mkState (policy_initialized s) (pt_table_lock s) (pt_table s) (policy_slots s) x (pst_lock s)
  (plugins s) (entries s) (pol_list s) (num_pol s) (inputs s) (records s) (entry_points s) (loaded s) (memory s).
Definition set_lock x s := mkState (policy_initialized s) (pt_table_lock s) (pt_table s) (policy_slots s) (pst_head s) x
  (plugins s) (entries s) (pol_list s) (num_pol s) (inputs s) (records s) (entry_points s) (loaded s) (memory s).
Definition set_plugins x s := mkState (policy_initialized s) (pt_table_lock s) (pt_table s) (policy_slots s) (pst_head s) (pst_lock s)
  x (entries s) (pol_list s) (num_pol s) (inputs s) (records s) (entry_points s) (loaded s) (memory s).
Definition set_entries x s := mkState (policy_initialized s) (pt_table_lock s) (pt_table s) (policy_slots s) (pst_head s) (pst_lock s)
  (plugins s) x (pol_list s) (num_pol s) (inputs s) (records s) (entry_points s) (loaded s) (memory s).
Definition set_pol_list l n s := mkState (policy_initialized s) (pt_table_lock s) (pt_table s) (policy_slots s) (pst_head s) (pst_lock s)
  (plugins s) (entries s) l n (inputs s) (records s) (entry_points s) (loaded s) (memory s).
Definition set_inputs x s := mkState (policy_initialized s) (pt_table_lock s) (pt_table s) (policy_slots s) (pst_head s) (pst_lock s)
  (plugins s) (entries s) (pol_list s) (num_pol s) x (records s) (entry_points s) (loaded s) (memory s).
Definition set_records x s := mkState (policy_initialized s) (pt_table_lock s) (pt_table s) (policy_slots s) (pst_head s) (pst_lock s)
  (plugins s) (entries s) (pol_list s) (num_pol s) (inputs s) x (entry_points s) (loaded s) (memory s).
Definition set_memory x s := mkState (policy_initialized s) (pt_table_lock s) (pt_table s) (policy_slots s) (pst_head s) (pst_lock s)
  (plugins s) (entries s) (pol_list s) (num_pol s) (inputs s) (records s) (entry_points s) (loaded s) x.
Definition set_loaded j x s := mkState (policy_initialized s) (pt_table_lock s) (pt_table s) (policy_slots s) (pst_head s) (pst_lock s)
  (plugins s) (entries s) (pol_list s) (num_pol s) (inputs s) (records s) j x (memory s).

Notation prog := (cprog state).

(** ** Locks and memory *)

Definition malloc : prog Z := fun s =>
  match memory s with
  | [] => Ret (NULL, s)
  | a :: l => Ret (a, set_memory l s)
  end.

Definition rdlock_ok (x : Z) : bool := 0 <=? x.
Definition released (x : Z) : Z := if x <? 0 then 0 else x - 1.

Definition table_rdlock : prog unit :=
  (let! s := cget in
   if rdlock_ok (pt_table_lock s) then cput (set_table_lock (pt_table_lock s + 1) s) else cfault Deadlock)%cprog.
Definition table_wrlock : prog unit :=
  (let! s := cget in
   if pt_table_lock s =? 0 then cput (set_table_lock (-1) s) else cfault Deadlock)%cprog.
Definition table_unlock : prog unit :=
  cmod (fun s => set_table_lock (released (pt_table_lock s)) s).

Definition bucket_lock (i : nat) (ok : Z -> bool) (f : Z -> Z) : prog unit :=
  (let! s := cget in
   let! x := cexpect OutOfBounds (pst_lock s !! i) in
   if ok x then cput (set_lock (<[i := f x]> (pst_lock s)) s) else cfault Deadlock)%cprog.
Definition bucket_rdlock (i : nat) : prog unit := bucket_lock i rdlock_ok (fun x => x + 1).
Definition bucket_wrlock (i : nat) : prog unit := bucket_lock i (fun x => x =? 0) (fun _ => -1).
Definition bucket_unlock (i : nat) : prog unit := bucket_lock i (fun _ => true) released.

Definition load_entry (a : Z) : prog policy_entry :=
  (let! s := cget in
   if a =? NULL then cfault NullDeref else cexpect UseAfterFree (entries s !! a))%cprog.
Definition store_entry (a : Z) (e : policy_entry) : prog unit :=
  cmod (fun s => set_entries (<[a := e]> (entries s)) s).
Definition free_entry (a : Z) : prog unit :=
  cmod (fun s => set_entries (delete a (entries s)) s).
Definition load_plugin (a : Z) : prog policy_plugin :=
  (let! s := cget in
   if a =? NULL then cfault NullDeref else cexpect UseAfterFree (plugins s !! a))%cprog.
Definition store_plugin (a : Z) (p : policy_plugin) : prog unit :=
  cmod (fun s => set_plugins (<[a := p]> (plugins s)) s).

(** * Plugins *)

(** [ffs] of the argument converted to [int]. *)
Definition ffs (v : Z) : Z :=
  let i := scan_from (Z.testbit v) 0 32 in if i =? 32 then 0 else i + 1.

(** [1 << n] as an [int], converted to [uint64_t]. *)
Definition int_bit (n : Z) : Z := uwrap 64 (swrap 32 (Z.shiftl 1 n)).

(** A plugin as [memset] leaves it: it has no name. *)
Definition new_plugin : policy_plugin :=
  mkPlugin 0 (replicate POLICY_TAG_LEN 0) (replicate SHA256_DIGEST_LENGTH 0) false.

Definition register_plugin (path_ok : bool) : prog (Z * option Z) :=
  (let! s := cget in
   if negb (policy_initialized s) || negb path_ok then cret (uwrap 32 (- EINVAL), None)
   else
     let! plugin := malloc in
     if plugin =? NULL then cret (uwrap 32 (- ENOMEM), None)
     else
       store_plugin plugin new_plugin ;;;
       table_wrlock ;;;
       let! s := cget in
       let slot := ffs (policy_slots s) in
       (if slot =? 0 then cfault OutOfBounds
        else cput (set_table (<[Z.to_nat (slot - 1) := plugin]> (pt_table s))
                     (Z.lxor (policy_slots s) (int_bit (slot - 1))) s)) ;;;
       table_unlock ;;;
       cret (0, Some (slot - 1)))%cprog.

Definition activate_plugin (plugin_id : Z) : prog Z :=
  (let! s := cget in
   if negb (policy_initialized s) then cret (uwrap 32 (- EINVAL))
   else
     table_rdlock ;;;
     let! s := cget in
     let! a := cexpect OutOfBounds (pt_table s !! Z.to_nat plugin_id) in
     let! p := load_plugin a in
     store_plugin a (mkPlugin (pp_refcount p) (pp_policy_name p) (pp_sha_sum p) true) ;;;
     table_unlock ;;;
     cret 0)%cprog.

Definition unregister_plugin (plugin_id : Z) : prog Z :=
  (table_wrlock ;;;
   let! s := cget in
   let! plugin := cexpect OutOfBounds (pt_table s !! Z.to_nat plugin_id) in
   (if negb (plugin =? NULL) then
      cput (set_table (<[Z.to_nat plugin_id := NULL]> (pt_table s))
              (Z.lxor (policy_slots s) (int_bit plugin_id)) s) ;;;
      table_unlock ;;;
      let! p := load_plugin plugin in
      if pp_refcount p =? 0 then cmod (fun s => set_plugins (delete plugin (plugins s)) s) else cret tt
    else table_unlock) ;;;
   cret 0)%cprog.

(** * Entries *)

(** The tags are arrays of 16 bytes one after the other; the parameter is a
    pointer to pointers, so that 8 bytes of the array are taken for the
    address of a tag. *)
Definition le8 (b : list Z) : Z := fold_right (fun x r => x + 256 * r) 0 (take 8 b).
Definition tag_pointer (tags : list (list Z)) (i : nat) : option Z :=
  let b := drop (8 * i) (concat tags) in if (8 <=? length b)%nat then Some (le8 b) else None.

(** The inner loop, over the plugins of the table; [k] is the next slot. *)
Fixpoint match_tag (tags : list (list Z)) (i : nat) (table : list Z) (k : nat) (pe : policy_entry)
  : prog (nat * policy_entry) :=
  match table with
  | [] => cret (k, pe)
  | a :: table' =>
      (if a =? NULL then match_tag tags i table' k pe
       else
         let! p := load_plugin a in
         let! t := cexpect OutOfBounds (tag_pointer tags i) in
         let! tag := cexpect OutOfBounds (strings t) in
         if bool_decide (cstr tag = cstr (pp_policy_name p)) then
           if (k <? length (pe_policy pe))%nat then
             store_plugin a (mkPlugin (uwrap 32 (pp_refcount p + 1)) (pp_policy_name p) (pp_sha_sum p) (is_activated p)) ;;;
             match_tag tags i table' (S k)
               (mkEntry (pe_attr pe) (uwrap 64 (pe_num_plugins pe + 1)) (pe_refcount pe) (<[k := Some a]> (pe_policy pe)))
           else cfault OutOfBounds
         else match_tag tags i table' k pe)%cprog
  end.

(** The loop over [n] tags from the [i]-th one on. *)
Fixpoint match_tags (tags : list (list Z)) (n i : nat) (k : nat) (pe : policy_entry) : prog policy_entry :=
  match n with
  | O => cret pe
  | S n' =>
      (let! s := cget in
       let! r := match_tag tags i (pt_table s) k pe in
       match_tags tags n' (S i) r.1 r.2)%cprog
  end.
Definition get_pe_from_tags (tags : list (list Z)) (num_tags : Z) (pe : policy_entry) : prog policy_entry :=
  match_tags tags (Z.to_nat num_tags) 0 0 pe.

(** Both fill the entry at [a]; the spin lock of the entry is initialised. *)
Definition get_pe_from_pi (pi : policy_input) (a : Z) : prog unit :=
  (let! pe := load_entry a in
   let pe := mkEntry (pi_attr pi) (pe_num_plugins pe) (pe_refcount pe) (pe_policy pe) in
   let! pe := get_pe_from_tags (pi_policy_tag pi) (pi_num_policy pi) pe in
   store_entry a pe)%cprog.
Definition get_pe_from_pdbe (pdb : policy_db_entry) (a : Z) : prog unit :=
  (let! pe := load_entry a in
   let pe := mkEntry (pdb_attr pdb) (pe_num_plugins pe) (pe_refcount pe) (pe_policy pe) in
   let! pe := get_pe_from_tags (pdb_policy_tag pdb) (pdb_num_policy pdb) pe in
   store_entry a pe)%cprog.

(** A fresh entry with room for [n] plugins. *)
Definition new_entry (n : nat) : prog Z :=
  (let! a := malloc in
   (if a =? NULL then cret tt
    else store_entry a (mkEntry (mkAttr 0 0 0 0 0 0) (junk_entry a).1 (junk_entry a).2 (replicate n None))) ;;;
   cret a)%cprog.

(** [strncpy] to an array of [n] bytes. *)
Definition strncpy (n : nat) (src : list Z) : list Z := take n (cstr src ++ replicate n 0).

(** The loop over the plugins of an entry, [n] left. *)
Fixpoint copy_plugins (pe : policy_entry) (n i : nat) (pdbe : policy_db_entry) : prog policy_db_entry :=
  match n with
  | O => cret pdbe
  | S n' =>
      (let! o := cexpect OutOfBounds (pe_policy pe !! i) in
       let! a := cexpect Uninit o in
       let! p := load_plugin a in
       if (i <? NUM_MAX_POLICY)%nat then
         copy_plugins pe n' (S i)
           (mkPdbe (<[i := strncpy POLICY_TAG_LEN (pp_policy_name p)]> (pdb_policy_tag pdbe))
              (<[i := pp_sha_sum p]> (pdb_policy_cksum pdbe)) (pdb_mem_index pdbe) (pdb_num_policy pdbe) (pdb_attr pdbe))
       else cfault OutOfBounds)%cprog
  end.

(** [memcpy] of [n] bytes to a field at offset [off] of an object. *)
Definition memcpy_field (off n size : Z) : prog unit :=
  if off + n <=? size then cret tt else cfault OutOfBounds.

Definition get_pdbe_from_pe (a : Z) (pdbe : policy_db_entry) : prog policy_db_entry :=
  (let! pe := load_entry a in
   let! pdbe := copy_plugins pe (Z.to_nat (pe_num_plugins pe)) 0 pdbe in
   memcpy_field OFFSET_PDB_ATTR SIZEOF_PDBE SIZEOF_PDBE ;;;
   cret (mkPdbe (pdb_policy_tag pdbe) (pdb_policy_cksum pdbe) (pdb_mem_index pdbe) (pe_num_plugins pe) (pe_attr pe)))%cprog.

(** * The search table *)

(** The bucket of a policy: a bit for each criterion that is given. *)
Definition not_star (s : list Z) : bool := match s with c :: _ => negb (c =? 42) | [] => true end.
Definition policy_index (pi : policy_input) : nat :=
  Z.to_nat (Z.lor (Z.lor (Z.lor
    (if not_star (pi_ftype pi) then 1 else 0)
    (if negb (pi_gid pi =? uwrap 32 (-1)) then 2 else 0))
    (if negb (pi_uid pi =? uwrap 32 (-1)) then 4 else 0))
    (if not_star (pi_fname pi) then 8 else 0)).

(** The key it is kept under: name, type, owner, group. *)
Definition policy_key (pi : policy_input) : list Z :=
  cstr (pi_fname pi) ++ [CARET] ++ cstr (pi_ftype pi) ++ [CARET] ++ fmt_d (pi_uid pi) ++ [CARET] ++ fmt_d (pi_gid pi).

(** [sprintf] of [text] to a buffer of [n] bytes. *)
Definition sprintf (n : nat) (text : list Z) : prog (list Z) :=
  if (S (length text) <=? n)%nat then cret text else cfault OutOfBounds.

Definition on_bucket (index : nat) (f : J -> J) : prog unit :=
  (let! s := cget in
   let! j := cexpect OutOfBounds (pst_head s !! index) in
   cput (set_head (<[index := f j]> (pst_head s)) s))%cprog.

(** JSLI: an index that is new gets the value 0. [ins_ok] says whether there is
    memory for it. The value is assigned after the lock is released. *)
Definition add_policy_to_pst (ins_ok : bool) (key : list Z) (index : nat) (pe : Z) : prog unit :=
  (bucket_wrlock index ;;;
   (if ins_ok then on_bucket index (fun j => if jsl_get j key then j else jsl_ins j key 0) else cret tt) ;;;
   bucket_unlock index ;;;
   if ins_ok then on_bucket index (fun j => jsl_ins j key pe) else cret tt)%cprog.

(** The end of both ways to store a policy. *)
Definition stored (r : Z * D) (key : list Z) (index : nat) (pe : Z) : prog Z :=
  (cmod (set_records r.2) ;;;
   if r.1 =? 0 then cret 0
   else on_bucket index (fun j => jsl_del j key) ;;; free_entry pe ;;; cret (- EINVAL))%cprog.

Definition submit_policy_entry (ins_ok : bool) (pi : option policy_input) (db_ok : bool) (db_type : Z)
    (pdb_entry : policy_db_entry) : prog Z :=
  (let! s := cget in
   if negb (policy_initialized s) || negb db_ok || (db_type =? 0) then cret (- EINVAL)
   else
     match pi with
     | None => cret (- EINVAL)
     | Some pi =>
         let! pe := new_entry (Z.to_nat (pi_num_policy pi)) in
         if pe =? NULL then cret (- ENOMEM)
         else
           let index := policy_index pi in
           let! key := sprintf KEY_LEN (policy_key pi) in
           table_rdlock ;;;
           get_pe_from_pi pi pe ;;;
           add_policy_to_pst ins_ok key index pe ;;;
           let! pdb_entry := get_pdbe_from_pe pe pdb_entry in
           let! s := cget in
           let! ret := stored (if negb (pdb_get (records s) key =? 0) then pdb_update (records s) key pdb_entry
                               else pdb_insert (records s) key pdb_entry) key index pe in
           table_unlock ;;;
           cret ret
     end)%cprog.

(** An element of the array of policies. *)
Definition load_pol (i : Z) : prog Z :=
  (let! s := cget in
   match pol_list s with
   | Null => cfault NullDeref
   | Freed => cfault UseAfterFree
   | Live l =>
       if i <? 0 then cfault OutOfBounds
       else let! o := cexpect OutOfBounds (l !! Z.to_nat i) in cexpect Uninit o
   end)%cprog.

(** The entry of [pol_list] is read before its index is tested. *)
Definition delete_policy_entry (pi : option policy_input) (db_ok : bool) (db_type : Z) : prog Z :=
  (let! s := cget in
   if negb (policy_initialized s) || negb db_ok || (db_type =? 0) then cret (- EINVAL)
   else
     match pi with
     | None => cret (- EINVAL)
     | Some pi =>
         let! a := load_pol (pi_index pi) in
         if (a =? NULL) || (num_pol s <=? pi_index pi) then cret (- EINVAL)
         else
           let! p_input := cexpect UseAfterFree (inputs s !! a) in
           let index := policy_index p_input in
           let! key := sprintf KEY_LEN (policy_key p_input) in
           table_rdlock ;;;
           cmod (fun s => set_records (pdb_remove (records s) key) s) ;;;
           on_bucket index (fun j => jsl_del j key) ;;;
           table_unlock ;;;
           cmod (fun s => set_inputs (delete a (inputs s)) s) ;;;
           cret 0
     end)%cprog.

(** The callback of the iteration at the start. *)
Definition policy_iterate (ins_ok : bool) (r : option (list Z) * option policy_db_entry * Z) : prog unit :=
  match r with
  | (Some key, Some pdbe, data_len) =>
      (if data_len =? 0 then cret tt
       else
         let! pe := new_entry 0 in
         if pe =? NULL then cret tt
         else
           get_pe_from_pdbe pdbe pe ;;;
           add_policy_to_pst ins_ok key (Z.to_nat (pdb_mem_index pdbe)) pe)%cprog
  | _ => cret tt
  end.

Fixpoint iterate (f : option (list Z) * option policy_db_entry * Z -> prog unit)
    (l : list (option (list Z) * option policy_db_entry * Z)) : prog unit :=
  match l with
  | [] => cret tt
  | r :: l' => (f r ;;; iterate f l')%cprog
  end.

(** [ctx_ok] says whether there is a log context; the plugins that are
    registered are forgotten. *)
Definition init_policy (ctx_ok ins_ok : bool) : prog unit :=
  (cmod (fun s => set_table_lock 0 (set_table (replicate NUM_MAX_POLICY NULL) 0 s)) ;;;
   if ctx_ok then
     cmod (fun s => set_lock (replicate NUM_BUCKETS 0) (set_head (replicate NUM_BUCKETS jsl_nil)
                      (set_table (pt_table s) (uwrap 64 (-1)) s))) ;;;
     let! s := cget in
     iterate (policy_iterate ins_ok) (pdb_records (records s)) ;;;
     cmod (set_initialized true)
   else cret tt)%cprog.

(** * The list of policies for the command line *)

(** [strcpy] to an array. *)
Definition strcpy (dst src : list Z) : prog (list Z) :=
  if (length src <? length dst)%nat then cret (src ++ 0 :: drop (S (length src)) dst) else cfault OutOfBounds.

(** The tags of an input from the plugins of an entry, [n] left. *)
Fixpoint copy_tags (pe : policy_entry) (n i : nat) (tags : list (list Z)) : prog (list (list Z)) :=
  match n with
  | O => cret tags
  | S n' =>
      (let! o := cexpect OutOfBounds (pe_policy pe !! i) in
       let! a := cexpect Uninit o in
       let! p := load_plugin a in
       if (i <? length tags)%nat then
         copy_tags pe n' (S i) (<[i := strncpy POLICY_TAG_LEN (pp_policy_name p)]> tags)
       else cfault OutOfBounds)%cprog
  end.

(** The input that a key and an entry stand for, in memory that held [m]. *)
Definition input_of_key (key : list Z) (pe : policy_entry) (m : policy_input) : prog policy_input :=
  (let! '(fname, key) := cexpect NullDeref (strtok CARET key) in
   let! fname := strcpy (pi_fname m) fname in
   let! '(ftype, key) := cexpect NullDeref (strtok CARET key) in
   let! ftype := strcpy (pi_ftype m) ftype in
   let! '(uid, key) := cexpect NullDeref (strtok CARET key) in
   let! '(gid, _) := cexpect NullDeref (strtok CARET key) in
   let! tags := copy_tags pe (Z.to_nat (pe_num_plugins pe)) 0 (pi_policy_tag m) in
   cret (mkPolicyInput (uwrap 32 (atoi uid)) (uwrap 32 (atoi gid)) tags ftype fname (pe_num_plugins pe)
           (pe_attr pe) (pi_index m)))%cprog.

Definition collect_policy_entries (r : option (list Z) * option policy_db_entry * Z) : prog unit :=
  match r with
  | (Some key, Some pdbe, data_len) =>
      (if data_len =? 0 then cret tt
       else
         let! pe := new_entry 0 in
         if pe =? NULL then cret tt
         else
           get_pe_from_pdbe pdbe pe ;;;
           cmod (fun s => set_pol_list (pol_list s) (swrap 32 (num_pol s + 1)) s) ;;;
           let! s := cget in
           let! old := match pol_list s with
                       | Null => cret []
                       | Freed => cfault UseAfterFree
                       | Live l => cret l
                       end in
           let! temp := malloc in
           if temp =? NULL then cret tt
           else
             let! a := malloc in
             if a =? NULL then cfault NullDeref
             else
               let! e := load_entry pe in
               let! p_input := input_of_key key e (junk_input a) in
               let n := Z.to_nat (num_pol s - 1) in
               cmod (fun s => set_inputs (<[a := p_input]> (inputs s))
                 (set_pol_list (Live (take n (old ++ replicate n None) ++ [Some a])) (num_pol s) s)) ;;;
               free_entry pe)%cprog
  | _ => cret tt
  end.

(** Freeing what the last call collected, [n] elements from number [i] on. *)
Fixpoint free_inputs (n i : nat) : prog unit :=
  match n with
  | O => cret tt
  | S n' =>
      (let! a := load_pol (Z.of_nat i) in
       let! s := cget in
       (if a =? NULL then cret tt
        else let! _ := cexpect UseAfterFree (inputs s !! a) in cput (set_inputs (delete a (inputs s)) s)) ;;;
       free_inputs n' (S i))%cprog
  end.

Definition TAB : list Z := [9].
(** The text that describes policy number [i]. *)
Definition show_policy (i : Z) (pi : policy_input) : list Z :=
  bytes "Index: " ++ fmt_d i ++ TAB ++ bytes "uid: " ++ fmt_d (pi_uid pi) ++ bytes "  gid: " ++ fmt_d (pi_gid pi) ++
  bytes "  ftype: " ++ cstr (pi_ftype pi) ++ bytes "  fname: " ++ cstr (pi_fname pi) ++ TAB ++ TAB ++
  bytes "quota: " ++ fmt_d (a_quota (pi_attr pi)) ++ bytes "  QoS: " ++ fmt_d (a_qoslevel (pi_attr pi)) ++
  bytes "  ishidden: " ++ fmt_d (a_ishidden (pi_attr pi)) ++ bytes "  num_replica: " ++
  fmt_d (a_numreplicas (pi_attr pi)) ++ bytes "  DR: " ++ fmt_d (a_enable_dr (pi_attr pi)) ++
  [10] ++ TAB ++ TAB ++ TAB ++ TAB ++ bytes "Plugins: ".

(** The names of the plugins are appended one by one. *)
Fixpoint show_tags (tags : list (list Z)) (n i : nat) (text : list Z) : prog (list Z) :=
  match n with
  | O => cret text
  | S n' =>
      (let! t := cexpect OutOfBounds (tags !! i) in
       let! text := sprintf MAX_POLICY_STRLEN (text ++ cstr t ++ bytes "  ") in
       show_tags tags n' (S i) text)%cprog
  end.

(** The loop over the policies: [n] left from number [i] on, [resp] what was
    written to the response. The first result is the return value. *)
Fixpoint show_inputs (n i : nat) (resp : list Z) : prog (Z * list Z) :=
  match n with
  | O => cret (uwrap 32 (Z.of_nat (length resp)), resp)
  | S n' =>
      (let! s := cget in
       let! a := load_pol (Z.of_nat i) in
       let! pi := cexpect UseAfterFree (inputs s !! a) in
       let! text := sprintf MAX_POLICY_STRLEN (show_policy (Z.of_nat i) pi) in
       let! text := show_tags (pi_policy_tag pi) (Z.to_nat (pi_num_policy pi)) 0 text in
       let! temp := malloc in
       if temp =? NULL then cret (uwrap 32 (- ENOMEM), resp)
       else show_inputs n' (S i) (resp ++ text))%cprog
  end.

Definition show_policy_entries : prog (Z * list Z) :=
  (let! s := cget in
   (match pol_list s with
    | Null => cret tt
    | Freed => free_inputs (Z.to_nat (num_pol s)) 0 ;;; cfault UseAfterFree
    | Live _ => free_inputs (Z.to_nat (num_pol s)) 0 ;;; cmod (fun s => set_pol_list Freed (num_pol s) s)
    end) ;;;
   cmod (fun s => set_pol_list (pol_list s) 0 s) ;;;
   let! s := cget in
   iterate collect_policy_entries (pdb_records (records s)) ;;;
   let! s := cget in
   show_inputs (Z.to_nat (num_pol s)) 0 [])%cprog.

(** * Looking a policy up *)

Record request : Type := mkRequest {
  r_path : list Z;
  r_uid : Z;
  r_gid : Z;
  (** what [get_file_type] answers: any string. Unless [file] speaks of text it
      lies in a buffer of that function that is no longer live, so the code may
      see other bytes; a path or an answer of [file] that makes the function
      itself fail is not covered *)
  r_type : list Z
}.

(** The key of bucket [i]. *)
Definition search_key (q : request) (i : nat) : list Z :=
  let bit n := Z.testbit (Z.of_nat i) n in
  (if bit 3 then r_path q else STAR) ++ [CARET] ++
  fmt_x (if bit 2 then r_uid q else -1) ++ [CARET] ++
  fmt_x (if bit 1 then r_gid q else -1) ++ [CARET] ++
  (if bit 0 then r_type q else STAR).

(** The loop, from bucket [n - 1] down to 0. *)
Fixpoint search (q : request) (n : nat) : prog Z :=
  match n with
  | O => cret NULL
  | S i =>
      (let! index := sprintf KEY_LEN (search_key q i) in
       bucket_rdlock i ;;;
       let! s := cget in
       let! j := cexpect OutOfBounds (pst_head s !! i) in
       match jsl_get j index with
       | None => bucket_unlock i ;;; search q i
       | Some pe =>
           let! e := load_entry pe in
           store_entry pe (mkEntry (pe_attr e) (pe_num_plugins e) (uwrap 32 (pe_refcount e + 1)) (pe_policy e)) ;;;
           bucket_unlock i ;;;
           cret pe
       end)%cprog
  end.
Definition get_policy (q : request) : prog Z := search q NUM_BUCKETS.

(** * The end, and the plugins of a storage daemon *)

(** Freeing the values of a Judy array. *)
Fixpoint free_values (free : Z -> prog unit) (l : list Z) : prog unit :=
  match l with
  | [] => cret tt
  | x :: l' => ((if x =? NULL then cret tt else free x) ;;; free_values free l')%cprog
  end.

Definition free_live_entry (a : Z) : prog unit :=
  (let! s := cget in let! _ := cexpect UseAfterFree (entries s !! a) in free_entry a)%cprog.

(** The loop over the buckets, [n] left from number [i] on. *)
Fixpoint free_buckets (n i : nat) : prog unit :=
  match n with
  | O => cret tt
  | S n' =>
      (let! s := cget in
       let! j := cexpect OutOfBounds (pst_head s !! i) in
       free_values free_live_entry (jsl_values j) ;;;
       on_bucket i (fun _ => jsl_nil) ;;;
       free_buckets n' (S i))%cprog
  end.

(** The first insertion is at an index that was not initialised: [index]. *)
Definition free_policy_pst (index : nat) : prog unit :=
  (on_bucket index (fun j => if jsl_get j [] then j else jsl_ins j [] 0) ;;;
   free_buckets NUM_BUCKETS 0)%cprog.

Definition unload_free_plugins : prog unit :=
  (let! s := cget in
   free_values (fun a =>
     (let! s := cget in
      if decide (a ∈ loaded s) then cput (set_loaded (entry_points s) (loaded s ∖ {[a]}) s) else cfault UseAfterFree)%cprog)
     (jsl_values (entry_points s)) ;;;
   cmod (fun s => set_loaded jsl_nil (loaded s) s))%cprog.

Definition reset_policy (index : nat) : prog unit := (free_policy_pst index ;;; unload_free_plugins)%cprog.

(** A file of a plugin directory: whether its signature is valid, whether it
    has the four entry points, and the name of the plugin. *)
Record plugin_file : Type := mkFile { elf_ok : bool; points_ok : bool; plugin_name : list Z }.

Fixpoint load_files (ins_ok : bool) (l : list plugin_file) : prog unit :=
  match l with
  | [] => cret tt
  | f :: l' =>
      ((if elf_ok f then
          let! plugin_ent := malloc in
          (* [validate_plugin] refuses a NULL pointer *)
          if negb (plugin_ent =? NULL) && points_ok f then
            cmod (fun s => set_loaded (if ins_ok then jsl_ins (entry_points s) (plugin_name f) plugin_ent else entry_points s)
                             (loaded s ∪ {[plugin_ent]}) s)
          else cret tt
        else cret tt) ;;;
       load_files ins_ok l')%cprog
  end.

(** [dirs] has the files of each path, [None] when it cannot be opened. *)
Fixpoint load_dirs (ins_ok : bool) (dirs : list (option (list plugin_file))) : prog unit :=
  match dirs with
  | [] => cret tt
  | d :: dirs' => (load_files ins_ok (default [] d) ;;; load_dirs ins_ok dirs')%cprog
  end.
Definition read_load_plugins (ins_ok : bool) (dirs : list (option (list plugin_file))) (reload : bool) : prog unit :=
  ((if reload then unload_free_plugins else cret tt) ;;; load_dirs ins_ok dirs)%cprog.

Definition get_plugin_entry_points (name : list Z) : prog Z :=
  (let! s := cget in cret (default NULL (jsl_get (entry_points s) name)))%cprog.

(** * The table of plugins *)

#[local] Arguments scan_from : simpl never.
#[local] Arguments replicate : simpl never.
#[local] Arguments ffs : simpl never.
#[local] Arguments new_plugin : simpl never.
#[local] Arguments int_bit : simpl never.
#[local] Arguments bucket_lock : simpl never.
#[local] Arguments bucket_rdlock : simpl never.
#[local] Arguments bucket_wrlock : simpl never.
#[local] Arguments bucket_unlock : simpl never.

Lemma int_bit_spec k i : 0 <= k < 32 -> 0 <= i < 32 -> Z.testbit (int_bit k) i = (k =? i).
Proof.
  intros Hk Hi.
  assert (Hall : forallb (fun a => forallb (fun b => eqb (Z.testbit (int_bit (Z.of_nat a)) (Z.of_nat b)) (Z.of_nat a =? Z.of_nat b))
                   (seq 0 32)) (seq 0 32) = true) by (vm_compute; reflexivity).
  rewrite forallb_forall in Hall. specialize (Hall (Z.to_nat k)). rewrite forallb_forall in Hall.
  specialize (Hall ltac:(apply in_seq; lia) (Z.to_nat i) ltac:(apply in_seq; lia)).
  apply eqb_prop in Hall. by rewrite !Z2Nat.id in Hall by lia.
Qed.

(** A slot is marked free exactly when it holds no plugin; only the first 32
    of the 64 slots are ever used, and each plugin is in one of them. *)
Record table_ok (s : state) : Prop := {
  ok_lock : pt_table_lock s = 0;
  ok_len : length (pt_table s) = NUM_MAX_POLICY;
  ok_slot : forall i a, (i < 32)%nat -> pt_table s !! i = Some a -> (Z.testbit (policy_slots s) (Z.of_nat i) = true <-> a = NULL);
  ok_high : forall i a, (32 <= i)%nat -> pt_table s !! i = Some a -> a = NULL;
  ok_live : forall i a, pt_table s !! i = Some a -> a <> NULL -> is_Some (plugins s !! a);
  ok_once : forall i j a, pt_table s !! i = Some a -> pt_table s !! j = Some a -> a <> NULL -> i = j
}.

(** The first free slot, 32 when there is none. *)
Definition free_slot (s : state) : Z := scan_from (Z.testbit (policy_slots s)) 0 32.

Lemma free_slot_range s : 0 <= free_slot s <= 32.
Proof. pose proof (scan_from_range (Z.testbit (policy_slots s)) 0 32). unfold free_slot. lia. Qed.

Lemma ffs_free_slot s : ffs (policy_slots s) = if free_slot s =? 32 then 0 else free_slot s + 1.
Proof. reflexivity. Qed.

Lemma free_slot_null s : table_ok s -> free_slot s < 32 -> pt_table s !! Z.to_nat (free_slot s) = Some NULL.
Proof.
  intros Hok Hlt. pose proof (free_slot_range s).
  destruct (lookup_lt_is_Some_2 (pt_table s) (Z.to_nat (free_slot s))) as [a Ha].
  { rewrite (ok_len s Hok). unfold NUM_MAX_POLICY. lia. }
  rewrite Ha. f_equal. apply (ok_slot s Hok (Z.to_nat (free_slot s)) a ltac:(lia) Ha).
  rewrite Z2Nat.id by lia. apply (scan_from_hit _ 0 32). unfold free_slot in Hlt. lia.
Qed.

(** Changing one slot and its bit. *)
Lemma table_ok_slot (s : state) k a a' plugins' :
  table_ok s -> 0 <= k < 32 -> pt_table s !! Z.to_nat k = Some a' -> (a = NULL <-> a' <> NULL) ->
  (forall i, i <> Z.to_nat k -> pt_table s !! i <> Some a \/ a = NULL) ->
  (forall b, b <> a' -> (a <> NULL /\ b = a) \/ is_Some (plugins s !! b) -> is_Some (plugins' !! b)) ->
  table_ok (set_plugins plugins' (set_table (<[Z.to_nat k := a]> (pt_table s)) (Z.lxor (policy_slots s) (int_bit k)) s)).
Proof.
  clear junk_entry junk_input strings. intros Hok Hk Ha' Hflip Hnew Hpl.
  assert (Hlen : (Z.to_nat k < length (pt_table s))%nat) by (eapply lookup_lt_Some; eauto).
  assert (Hl : forall i b, <[Z.to_nat k := a]> (pt_table s) !! i = Some b ->
            (i = Z.to_nat k /\ b = a) \/ (i <> Z.to_nat k /\ pt_table s !! i = Some b)).
  { intros i b. destruct (decide (i = Z.to_nat k)) as [->|Hi].
    - rewrite list_lookup_insert_eq by done. intros [= <-]. auto.
    - rewrite list_lookup_insert_ne by done. auto. }
  split; simpl.
  - apply (ok_lock s Hok).
  - rewrite length_insert. apply (ok_len s Hok).
  - intros i b Hi Hb. rewrite Z.lxor_spec, int_bit_spec by lia.
    destruct (Hl i b Hb) as [[-> ->]|[Hne Hb']].
    + rewrite Z2Nat.id, Z.eqb_refl, xorb_true_r, negb_true_iff by lia.
      pose proof (ok_slot s Hok _ _ Hi Ha') as Hs. rewrite Z2Nat.id in Hs by lia.
      destruct (Z.testbit (policy_slots s) k); intuition congruence.
    + rewrite (proj2 (Z.eqb_neq k (Z.of_nat i))), xorb_false_r by lia. apply (ok_slot s Hok i b Hi Hb').
  - intros i b Hi Hb. destruct (Hl i b Hb) as [[-> ->]|[_ Hb']]; [lia|]. apply (ok_high s Hok i b Hi Hb').
  - intros i b Hb Hnz. apply Hpl.
    + intros ->. destruct (Hl i _ Hb) as [[_ ?]|[Hne Hb']]; [intuition congruence|].
      apply Hne, (ok_once s Hok i _ a' Hb' Ha' Hnz).
    + destruct (Hl i b Hb) as [[_ ->]|[_ Hb']]; [auto|]. right. apply (ok_live s Hok i b Hb' Hnz).
  - intros i j b Hi Hj Hnz. destruct (Hl i b Hi) as [[-> ->]|[Hni Hi']], (Hl j _ Hj) as [[-> Hb]|[Hnj Hj']]; subst.
    + done.
    + destruct (Hnew j Hnj); [done|congruence].
    + destruct (Hnew i Hni); [done|congruence].
    + apply (ok_once s Hok i j b Hi' Hj' Hnz).
Qed.

(** A plugin gets the first free slot. *)
Lemma register_plugin_run (s : state) a l :
  table_ok s -> policy_initialized s = true -> memory s = a :: l -> a <> NULL ->
  register_plugin true s =
  if free_slot s =? 32 then Fault OutOfBounds
  else Ret ((0, Some (free_slot s)),
            set_plugins (<[a := new_plugin]> (plugins s))
              (set_table (<[Z.to_nat (free_slot s) := a]> (pt_table s)) (Z.lxor (policy_slots s) (int_bit (free_slot s)))
                 (set_memory l s))).
Proof.
  intros Hok Hi Hm Ha. unfold register_plugin, cbind, cget. rewrite Hi. cbn [negb orb].
  unfold malloc. rewrite Hm. rewrite (proj2 (Z.eqb_neq a NULL) Ha).
  unfold store_plugin, cmod, table_wrlock, cbind, cget. cbn.
  rewrite (ok_lock s Hok). cbn. rewrite ffs_free_slot.
  pose proof (free_slot_range s). destruct (free_slot s =? 32) eqn:E; [done|]. bool_to_Z.
  rewrite (proj2 (Z.eqb_neq (free_slot s + 1) 0)) by lia.
  replace (free_slot s + 1 - 1) with (free_slot s) by lia. cbn.
  unfold set_plugins, set_table, set_memory. cbn. rewrite (ok_lock s Hok). done.
Qed.

(** Memory that is not in use. *)
Definition fresh (s : state) : Prop :=
  NoDup (memory s) /\ Forall (fun a => plugins s !! a = None) (memory s).

Lemma register_plugin_ok (s : state) path_ok r s' :
  table_ok s -> fresh s -> register_plugin path_ok s = Ret (r, s') -> table_ok s' /\ fresh s'.
Proof.
  intros Hok Hf. destruct (policy_initialized s) eqn:Hi, path_ok;
    try (unfold register_plugin, cbind, cget; rewrite Hi; cbn; by intros [= <- <-]).
  destruct (memory s) as [|a l] eqn:Hm.
  { unfold register_plugin, cbind, cget. rewrite Hi. cbn. unfold malloc. rewrite Hm. cbn. by intros [= <- <-]. }
  destruct Hf as [Hnd Hfr]. rewrite Hm in Hnd, Hfr. apply list.NoDup_cons in Hnd as [Hni Hnd].
  apply list.Forall_cons in Hfr as [Hfa Hfr].
  destruct (decide (a = NULL)) as [->|Ha].
  { unfold register_plugin, cbind, cget. rewrite Hi. cbn. unfold malloc. rewrite Hm. cbn. intros [= <- <-]. split.
    - destruct Hok. by split.
    - by split. }
  rewrite (register_plugin_run s a l Hok Hi Hm Ha).
  destruct (free_slot s =? 32) eqn:E; [done|]. bool_to_Z. pose proof (free_slot_range s). intros [= <- <-]. split.
  - apply (table_ok_slot (set_memory l s) _ _ NULL); [destruct Hok; by split|lia| | | |].
    + apply (free_slot_null s Hok). lia.
    + split; congruence.
    + intros i _. left. cbn. intros Hs. destruct (ok_live s Hok i a Hs Ha) as [p Hp]. congruence.
    + cbn. intros b _ [[_ ->]|Hb]; [rewrite lookup_insert_eq; eauto|].
      destruct (decide (a = b)) as [->|]; [rewrite lookup_insert_eq|rewrite lookup_insert_ne by done]; eauto.
  - split; [done|]. cbn. apply list.Forall_forall. intros b Hb. rewrite list.Forall_forall in Hfr.
    rewrite lookup_insert_ne by (intros ->; done). auto.
Qed.

Lemma table_set_lock (s : state) x : pt_table_lock s = x -> set_table_lock x s = s.
Proof. intros <-. by destruct s. Qed.

(** Writing to a plugin that is there. *)
Lemma table_ok_write (s : state) a p : table_ok s -> is_Some (plugins s !! a) ->
  table_ok (set_plugins (<[a := p]> (plugins s)) s).
Proof.
  intros Hok Ha. destruct Hok as [H1 H2 H3 H4 H5 H6]. split; cbn; [done..| |done].
  intros i b Hb Hnz. destruct (decide (a = b)) as [->|]; [rewrite lookup_insert_eq; eauto|].
  rewrite lookup_insert_ne by done. eauto.
Qed.

Lemma activate_plugin_ok (s : state) id r s' :
  table_ok s -> fresh s -> activate_plugin id s = Ret (r, s') -> table_ok s' /\ fresh s'.
Proof.
  intros Hok [Hnd Hf]. unfold activate_plugin, table_rdlock, load_plugin, store_plugin, cbind, cget.
  destruct (policy_initialized s); cbn; [|by intros [= <- <-]].
  rewrite (ok_lock s Hok). cbn. destruct (pt_table s !! Z.to_nat id) as [a|] eqn:Ha; [|done]. cbn.
  destruct (a =? NULL); [done|]. destruct (plugins s !! a) as [p|] eqn:Hp; [|done]. cbn.
  intros [= <- <-]. split.
  - pose proof (table_ok_write s a (mkPlugin (pp_refcount p) (pp_policy_name p) (pp_sha_sum p) true) Hok ltac:(eauto)) as Hw.
    destruct Hw as [H1 H2 H3 H4 H5 H6]. by split.
  - split; [done|]. cbn. eapply list.Forall_impl; [exact Hf|]. intros b Hb. cbn in *.
    rewrite lookup_insert_ne; [done|congruence].
Qed.

(** A plugin that is taken out frees its slot; it stays in memory while policies
    use it. *)
Lemma unregister_plugin_run (s : state) id a p :
  table_ok s -> 0 <= id -> pt_table s !! Z.to_nat id = Some a -> a <> NULL -> plugins s !! a = Some p ->
  unregister_plugin id s =
  Ret (0, set_plugins (if pp_refcount p =? 0 then delete a (plugins s) else plugins s)
            (set_table (<[Z.to_nat id := NULL]> (pt_table s)) (Z.lxor (policy_slots s) (int_bit id)) s)).
Proof.
  intros Hok Hid Ha Hnz Hp. unfold unregister_plugin, table_wrlock, load_plugin, cbind, cget.
  rewrite (ok_lock s Hok). cbn. rewrite Ha. cbn. rewrite (proj2 (Z.eqb_neq a NULL) Hnz). cbn. rewrite Hp. cbn.
  destruct (pp_refcount p =? 0); unfold set_plugins, set_table; cbn; by rewrite (ok_lock s Hok).
Qed.

Lemma unregister_plugin_ok (s : state) id r s' :
  table_ok s -> fresh s -> 0 <= id -> unregister_plugin id s = Ret (r, s') -> table_ok s' /\ fresh s'.
Proof.
  intros Hok [Hnd Hf] Hid Hr.
  destruct (pt_table s !! Z.to_nat id) as [a|] eqn:Ha.
  2: { revert Hr. unfold unregister_plugin, table_wrlock, cbind, cget. rewrite (ok_lock s Hok). cbn. by rewrite Ha. }
  destruct (decide (a = NULL)) as [->|Hnz].
  { revert Hr. unfold unregister_plugin, table_wrlock, cbind, cget. rewrite (ok_lock s Hok). cbn. rewrite Ha. cbn.
    intros [= <- <-]. change (set_table_lock _ (set_table_lock _ s)) with (set_table_lock 0 s). rewrite table_set_lock by (apply (ok_lock s Hok)). unfold fresh. auto. }
  destruct (ok_live s Hok _ a Ha Hnz) as [p Hp].
  rewrite (unregister_plugin_run s id a p) in Hr by done. injection Hr as <- <-. split.
  - apply (table_ok_slot s id NULL a); [done| |done|by split|by right|].
    + destruct (decide (id < 32)) as [|Hge]; [lia|]. destruct Hnz. apply (ok_high s Hok (Z.to_nat id)); [lia|done].
    + intros b Hb [[? _]|Hs]; [done|]. destruct (pp_refcount p =? 0); [|done]. by rewrite lookup_delete_ne.
  - split; [done|]. cbn. eapply list.Forall_impl; [exact Hf|]. intros b Hb. cbn in *.
    destruct (pp_refcount p =? 0); [|done]. by rewrite lookup_delete_None; right.
Qed.

(** The calls on the table of plugins. *)
Inductive plugin_op : Type :=
  | Register (path_ok : bool)
  | Activate (id : Z)
  | Unregister (id : Z).

(** The arguments are of type [uint32_t]. *)
Definition op_ok (o : plugin_op) : Prop :=
  match o with Register _ => True | Activate id | Unregister id => 0 <= id < 2 ^ 32 end.

Definition run_op (o : plugin_op) : prog Z :=
  match o with
  | Register path_ok => (let! r := register_plugin path_ok in cret r.1)%cprog
  | Activate id => activate_plugin id
  | Unregister id => unregister_plugin id
  end.

Fixpoint run_ops (l : list plugin_op) : prog unit :=
  match l with
  | [] => cret tt
  | o :: l' => (let! _ := run_op o in run_ops l')%cprog
  end.

(** C28. Every sequence of calls that returns leaves the table of plugins well
    formed: the free slots are the marked ones, the lock is free, no plugin is
    in two slots, and none of those in the table was freed. *)
Theorem plugin_table_ok (l : list plugin_op) (s s' : state) :
  table_ok s -> fresh s -> Forall op_ok l -> run_ops l s = Ret (tt, s') -> table_ok s'.
Proof.
  revert s. induction l as [|o l IH]; intros s Hok Hf Hl; cbn [run_ops]; [by intros [= <-]|].
  apply list.Forall_cons in Hl as [Ho Hl]. intros (r & t & Hr & Hrest)%cbind_Ret.
  assert (table_ok t /\ fresh t) as [Hok' Hf'].
  { destruct o as [b|id|id]; cbn in Hr.
    - apply cbind_Ret in Hr as (x & t' & Hr & [= _ <-]). exact (register_plugin_ok _ _ _ _ Hok Hf Hr).
    - exact (activate_plugin_ok _ _ _ _ Hok Hf Hr).
    - apply (unregister_plugin_ok s id r t Hok Hf); [cbn in Ho; lia|done]. }
  eauto.
Qed.

Lemma free_slot_first (s : state) k :
  table_ok s -> (k < 32)%nat -> pt_table s !! k = Some NULL ->
  (forall i, (i < k)%nat -> pt_table s !! i <> Some NULL) -> free_slot s = Z.of_nat k.
Proof.
  intros Hok Hk Hn Hfst. pose proof (free_slot_range s).
  assert (Hle : free_slot s <= Z.of_nat k).
  { destruct (Z.le_gt_cases (free_slot s) (Z.of_nat k)) as [|Hgt]; [done|].
    pose proof (scan_from_least (Z.testbit (policy_slots s)) 0 32 (Z.of_nat k)) as Hl. fold (free_slot s) in Hl.
    rewrite (proj2 (ok_slot s Hok k NULL Hk Hn) eq_refl) in Hl. discriminate Hl. lia. }
  destruct (decide (free_slot s = Z.of_nat k)) as [|Hne]; [done|].
  destruct (Hfst (Z.to_nat (free_slot s)) ltac:(lia)). apply free_slot_null; [done|lia].
Qed.

(** A plugin gets the first empty one of the slots 0 to 31. When they are all
    taken, the registration writes in front of the table, although the slots
    from 32 on are empty. *)
Theorem register_plugin_slots (s : state) a l :
  table_ok s -> policy_initialized s = true -> memory s = a :: l -> a <> NULL ->
  (forall k, (k < 32)%nat -> pt_table s !! k = Some NULL -> (forall i, (i < k)%nat -> pt_table s !! i <> Some NULL) ->
     exists s', register_plugin true s = Ret ((0, Some (Z.of_nat k)), s') /\
       pt_table s' = <[k := a]> (pt_table s) /\ plugins s' = <[a := new_plugin]> (plugins s)) /\
  ((forall i, (i < 32)%nat -> pt_table s !! i <> Some NULL) ->
     register_plugin true s = Fault OutOfBounds /\ pt_table s !! 32%nat = Some NULL).
Proof.
  intros Hok Hi Hm Ha. rewrite (register_plugin_run s a l Hok Hi Hm Ha). split.
  - intros k Hk Hn Hfst. rewrite (free_slot_first s k Hok Hk Hn Hfst).
    rewrite (proj2 (Z.eqb_neq (Z.of_nat k) 32)), Nat2Z.id by lia. eauto.
  - intros Hfull. pose proof (free_slot_range s).
    assert (free_slot s = 32) as ->.
    { destruct (decide (free_slot s = 32)) as [|Hne]; [done|].
      destruct (Hfull (Z.to_nat (free_slot s)) ltac:(lia)). apply free_slot_null; [done|lia]. }
    split; [done|].
    destruct (lookup_lt_is_Some_2 (pt_table s) 32) as [x Hx]; [rewrite (ok_len s Hok); unfold NUM_MAX_POLICY; lia|].
    by rewrite Hx, (ok_high s Hok 32 x (le_n _) Hx).
Qed.

(** * Looking a policy up *)

(** What a policy is for: a name, owner, group and type, each given or left
    open. *)
Definition rule : Type := (option (list Z) * option Z * option Z * option (list Z)).

Definition given {A} (b : bool) (x : A) : option A := if b then Some x else None.
(** The rule for a request that gives the criteria of bucket [i]. *)
Definition rule_of (q : request) (i : nat) : rule :=
  let bit n := Z.testbit (Z.of_nat i) n in
  (given (bit 3) (r_path q), given (bit 2) (r_uid q), given (bit 1) (r_gid q), given (bit 0) (r_type q)).

Definition admits {A} (o : option A) (x : A) : Prop := match o with Some y => y = x | None => True end.
Definition applies (r : rule) (q : request) : Prop :=
  let '(n, u, g, t) := r in admits n (r_path q) /\ admits u (r_uid q) /\ admits g (r_gid q) /\ admits t (r_type q).
(** How specific a rule is: the name counts most, then the owner, the group and
    the type. *)
Definition weight {A} (o : option A) (k : nat) : nat := if o then k else 0%nat.
Definition specificity (r : rule) : nat :=
  let '(n, u, g, t) := r in (weight n 8 + weight u 4 + weight g 2 + weight t 1)%nat.

Lemma rule_of_applies q i : applies (rule_of q i) q.
Proof. unfold applies, rule_of, given. cbn. repeat split; by case_match. Qed.

Lemma applies_rule_of r q : applies r q -> r = rule_of q (specificity r) /\ (specificity r < NUM_BUCKETS)%nat.
Proof.
  destruct r as [[[[n|] [u|]] [g|]] [t|]]; cbn; unfold NUM_BUCKETS; intros (? & ? & ? & ?); subst; split; (done || lia).
Qed.

Lemma specificity_rule_of q i : (i < NUM_BUCKETS)%nat -> specificity (rule_of q i) = i.
Proof. intros Hi. do 16 (destruct i as [|i]; [done|]). unfold NUM_BUCKETS in Hi. lia. Qed.

(** The policy that the search table has for a rule, under the key by which
    [get_policy] looks for it. *)
Definition rule_key (r : rule) : list Z :=
  let '(n, u, g, t) := r in
  default STAR n ++ [CARET] ++ fmt_x (default (-1) u) ++ [CARET] ++ fmt_x (default (-1) g) ++ [CARET] ++ default STAR t.
Definition rules_of (s : state) (r : rule) : option Z :=
  match pst_head s !! specificity r with
  | Some j => jsl_get j (rule_key r)
  | None => None
  end.

Lemma search_key_rule q i : search_key q i = rule_key (rule_of q i).
Proof. unfold search_key, rule_key, rule_of, given. cbn zeta. do 4 (case_match; cbn [default]); reflexivity. Qed.

(** The table has its buckets, every policy in it is in memory, and all locks
    can be taken. *)
Record filed (s : state) : Prop := {
  filed_len : length (pst_head s) = NUM_BUCKETS;
  filed_entry : forall r a, rules_of s r = Some a -> a <> NULL /\ is_Some (entries s !! a);
  filed_lock : forall i, (i < NUM_BUCKETS)%nat -> exists x, pst_lock s !! i = Some x /\ 0 <= x
}.

Lemma filed_get (s : state) q i : filed s -> (i < NUM_BUCKETS)%nat ->
  exists j, pst_head s !! i = Some j /\ jsl_get j (search_key q i) = rules_of s (rule_of q i).
Proof.
  intros Hf Hi. destruct (lookup_lt_is_Some_2 (pst_head s) i) as [j Hj]; [by rewrite (filed_len s Hf)|].
  exists j. split; [done|]. unfold rules_of. by rewrite specificity_rule_of, Hj, search_key_rule.
Qed.

(** The keys of a request fit in their buffer. *)
Definition keys_fit (q : request) : Prop := forall i, (i < NUM_BUCKETS)%nat -> (S (length (search_key q i)) <= KEY_LEN)%nat.

(** One more user of the entry at [a]. *)
Definition used (a : Z) (s : state) : state :=
  match entries s !! a with
  | Some e => set_entries (<[a := mkEntry (pe_attr e) (pe_num_plugins e) (uwrap 32 (pe_refcount e + 1)) (pe_policy e)]> (entries s)) s
  | None => s
  end.

(** Taking the lock of a bucket and releasing it. *)
Lemma bucket_rdlock_run (s : state) i x : pst_lock s !! i = Some x -> 0 <= x ->
  bucket_rdlock i s = Ret (tt, set_lock (<[i := x + 1]> (pst_lock s)) s).
Proof.
  intros Hx Hp. unfold bucket_rdlock, bucket_lock, cbind, cget. rewrite Hx. cbn.
  unfold rdlock_ok. by rewrite (proj2 (Z.leb_le 0 x) Hp).
Qed.

Lemma bucket_unlock_run (s : state) i x ls : pst_lock s = <[i := x + 1]> ls -> ls !! i = Some x -> 0 <= x ->
  bucket_unlock i s = Ret (tt, set_lock ls s).
Proof.
  intros Hs Hx Hp. unfold bucket_unlock, bucket_lock, cbind, cget. rewrite Hs, list_lookup_insert_eq by (eapply lookup_lt_Some; eauto).
  cbn. unfold released. rewrite (proj2 (Z.ltb_ge (x + 1) 0)) by lia. replace (x + 1 - 1) with x by lia.
  rewrite list_insert_insert_eq. by rewrite list_insert_id.
Qed.

Lemma set_lock_id (s : state) : set_lock (pst_lock s) s = s.
Proof. by destruct s. Qed.

(** A pass of the loop. *)
Lemma search_step (s : state) q i :
  filed s -> keys_fit q -> (i < NUM_BUCKETS)%nat ->
  search q (S i) s = match rules_of s (rule_of q i) with
                     | Some a => Ret (a, used a s)
                     | None => search q i s
                     end.
Proof.
  intros Hf Hfit Hi. destruct (filed_get _ q i Hf Hi) as (j & Hj & Hg), (filed_lock _ Hf i Hi) as (x & Hx & Hp).
  cbn [search]. unfold cbind at 1, sprintf. rewrite (proj2 (Nat.leb_le _ _) (Hfit i Hi)). cbn [cret].
  unfold cbind at 1. rewrite (bucket_rdlock_run s i x Hx Hp). unfold cbind at 1, cget. unfold cbind at 1. cbn [pst_head set_lock].
  rewrite Hj. cbn [cexpect cret]. rewrite Hg. destruct (rules_of s (rule_of q i)) as [a|] eqn:Hr.
  - destruct (filed_entry _ Hf _ _ Hr) as [Hnz [e He]].
    unfold load_entry, cbind, cget. rewrite (proj2 (Z.eqb_neq a NULL) Hnz). cbn. rewrite He. cbn.
    erewrite (bucket_unlock_run _ i x (pst_lock s)) by done. unfold used. rewrite He. cbn. by destruct s.
  - unfold cbind at 1. erewrite (bucket_unlock_run _ i x (pst_lock s)) by done.
    change (set_lock (pst_lock s) (set_lock _ s)) with (set_lock (pst_lock s) s). by rewrite set_lock_id.
Qed.

Lemma search_run (s : state) q n :
  filed s -> keys_fit q -> (n <= NUM_BUCKETS)%nat ->
  (exists i a, (i < n)%nat /\ rules_of s (rule_of q i) = Some a /\ (forall k, (i < k < n)%nat -> rules_of s (rule_of q k) = None) /\
     search q n s = Ret (a, used a s)) \/
  ((forall k, (k < n)%nat -> rules_of s (rule_of q k) = None) /\ search q n s = Ret (NULL, s)).
Proof.
  intros Hf Hfit. induction n as [|n IH]; intros Hn; [right; split; [lia|done]|].
  rewrite (search_step s q n Hf Hfit) by lia. destruct (rules_of s (rule_of q n)) as [a|] eqn:Hr.
  { left. exists n, a. repeat split; [lia|done|lia]. }
  assert (Hk : forall k, (k < S n)%nat -> (k < n)%nat \/ k = n) by lia.
  destruct IH as [(i & a & Hi & Ha & Hab & He)|[Hno He]]; [lia| |].
  - left. exists i, a. repeat split; [lia|done| |done]. intros k Hki. destruct (Hk k) as [ | -> ]; [lia| |done]. apply Hab. lia.
  - right. split; [|done]. intros k Hkn. destruct (Hk k Hkn) as [ | -> ]; auto.
Qed.

(** C27. [get_policy] gives the most specific policy that applies to the request,
    counts its new user and leaves everything else as it was; NULL when no
    policy applies. *)
Theorem get_policy_most_specific (s : state) q :
  filed s -> keys_fit q ->
  (exists r a, applies r q /\ rules_of s r = Some a /\
     (forall r', applies r' q -> is_Some (rules_of s r') -> (specificity r' <= specificity r)%nat) /\
     get_policy q s = Ret (a, used a s)) \/
  ((forall r, applies r q -> rules_of s r = None) /\ get_policy q s = Ret (NULL, s)).
Proof.
  intros Hf Hfit. destruct (search_run s q NUM_BUCKETS Hf Hfit (le_n _)) as [(i & a & Hi & Ha & Hab & He)|[Hno He]].
  - left. exists (rule_of q i), a. split; [apply rule_of_applies|split; [done|split; [|done]]].
    intros r' [Hr Hlt]%applies_rule_of [b Hb]. rewrite specificity_rule_of by done.
    destruct (le_lt_dec (specificity r') i) as [|Hgt]; [done|]. rewrite Hr, Hab in Hb by lia. done.
  - right. split; [|done]. intros r [Hr Hlt]%applies_rule_of. rewrite Hr. auto.
Qed.

(** ** The policies that are submitted *)

Lemma search_congr (s s' : state) q n :
  filed s -> filed s' -> keys_fit q -> (n <= NUM_BUCKETS)%nat ->
  (forall i, (i < n)%nat -> rules_of s' (rule_of q i) = rules_of s (rule_of q i)) ->
  exists a t t', search q n s = Ret (a, t) /\ search q n s' = Ret (a, t') /\
    (a = NULL \/ exists i, rules_of s (rule_of q i) = Some a).
Proof.
  intros Hf Hf' Hfit. induction n as [|n IH]; intros Hn Heq; [cbn; unfold cret; eauto 8|].
  rewrite (search_step s q n), (search_step s' q n), (Heq n) by (done || lia).
  destruct (rules_of s (rule_of q n)) as [a|] eqn:Hr; [eauto 10|]. apply IH; [lia|]. auto with lia.
Qed.

(** The key of a submission and the key of a search differ in the field after
    the name: one has the type there, the other the owner. *)
Lemma keys_differ pi r :
  without_byte CARET (cstr (pi_fname pi)) -> without_byte CARET (cstr (pi_ftype pi)) ->
  Exists (fun c => is_hex c = false) (cstr (pi_ftype pi)) ->
  without_byte CARET (default STAR (r.1.1.1 : option (list Z))) -> policy_key pi <> rule_key r.
Proof.
  destruct r as [[[n u] g] t]. cbn [fst snd]. intros Hn Ht Hx Hr He. unfold policy_key, rule_key in He. cbn [app] in He.
  apply fields_inj in He as [_ He]; [|done..].
  apply fields_inj in He as [He _]; [|done|apply hex_without; [done|apply fmt_x_hex]].
  rewrite He in Hx. apply list.Exists_exists in Hx as (c & Hc & Hno).
  pose proof (fmt_x_hex (default (-1) u)) as Hall. rewrite list.Forall_forall in Hall. rewrite (Hall c Hc) in Hno. done.
Qed.

Lemma add_policy_run (s : state) key index pe j :
  pst_lock s !! index = Some 0 -> pst_head s !! index = Some j ->
  add_policy_to_pst true key index pe s =
  Ret (tt, set_head (<[index := jsl_ins (if jsl_get j key then j else jsl_ins j key 0) key pe]> (pst_head s)) s).
Proof.
  intros Hl Hj. unfold add_policy_to_pst, bucket_wrlock, bucket_unlock, bucket_lock, on_bucket, cbind, cget.
  rewrite Hl. cbn. rewrite Hj. cbn.
  assert (Hll : (index < length (pst_lock s))%nat) by (eapply lookup_lt_Some; eauto).
  assert (Hlh : (index < length (pst_head s))%nat) by (eapply lookup_lt_Some; eauto).
  rewrite !list_lookup_insert_eq by done. cbn. rewrite list_lookup_insert_eq by done. cbn.
  unfold set_head, set_lock, cput. cbn. by rewrite !list_insert_insert_eq, (list_insert_id (pst_lock s)).
Qed.

Context `{Laws : !JudySLLaws J}.

(** What the other keys of the table find is not changed. *)
Lemma add_policy_rules (s : state) key index pe j r :
  pst_head s !! index = Some j -> key <> rule_key r ->
  rules_of (set_head (<[index := jsl_ins (if jsl_get j key then j else jsl_ins j key 0) key pe]> (pst_head s)) s) r = rules_of s r.
Proof using Laws.
  intros Hj Hne. unfold rules_of. cbn. destruct (decide (index = specificity r)) as [<-|Hi].
  - rewrite list_lookup_insert_eq, Hj by (eapply lookup_lt_Some; eauto). rewrite jsl_get_ins, decide_False by done.
    destruct (jsl_get j key); [done|]. by rewrite jsl_get_ins, decide_False.
  - by rewrite list_lookup_insert_ne.
Qed.

(** The policies of the changed table. *)
Lemma add_policy_only (s : state) key index pe j r a :
  pst_head s !! index = Some j ->
  rules_of (set_head (<[index := jsl_ins (if jsl_get j key then j else jsl_ins j key 0) key pe]> (pst_head s)) s) r = Some a ->
  a = pe \/ rules_of s r = Some a.
Proof using Laws.
  intros Hj. destruct (decide (key = rule_key r)) as [->|Hne]; [|rewrite add_policy_rules by done; auto].
  unfold rules_of. cbn. destruct (decide (index = specificity r)) as [<-|Hi].
  - rewrite list_lookup_insert_eq by (eapply lookup_lt_Some; eauto). rewrite jsl_get_ins, decide_True by done. intros [= ->]. auto.
  - rewrite list_lookup_insert_ne by done. auto.
Qed.

(** A policy is filed under a key that no search uses: for every file whose
    path has no circumflex, [get_policy] gives the same policy as before, and
    so never the new one. The type of the policy is [*] or any other that is
    not a hexadecimal number. *)
Theorem submitted_policy_not_found (s s' : state) pi pe q :
  filed s -> pst_lock s = replicate NUM_BUCKETS 0 -> pe <> NULL -> is_Some (entries s !! pe) ->
  (forall r, rules_of s r <> Some pe) ->
  without_byte CARET (cstr (pi_fname pi)) -> without_byte CARET (cstr (pi_ftype pi)) ->
  Exists (fun c => is_hex c = false) (cstr (pi_ftype pi)) ->
  without_byte CARET (r_path q) -> keys_fit q ->
  add_policy_to_pst true (policy_key pi) (policy_index pi) pe s = Ret (tt, s') ->
  exists a t t', get_policy q s = Ret (a, t) /\ get_policy q s' = Ret (a, t') /\ a <> pe.
Proof using Laws.
  intros Hf Hl Hnz He Hnew Hn Ht Hx Hq Hfit.
  assert (Hi : (policy_index pi < NUM_BUCKETS)%nat).
  { unfold policy_index, NUM_BUCKETS. do 4 case_match; vm_compute; lia. }
  destruct (lookup_lt_is_Some_2 (pst_head s) (policy_index pi)) as [j Hj]; [by rewrite (filed_len s Hf)|].
  rewrite (add_policy_run s _ _ pe j) by (rewrite ?Hl, ?lookup_replicate; done). intros [= <-].
  set (s1 := set_head _ s).
  assert (Hf' : filed s1).
  { split; cbn; [rewrite length_insert; apply (filed_len s Hf)| |apply (filed_lock s Hf)].
    intros r a [->|Hr]%(add_policy_only s _ _ pe j r a Hj); [done|]. apply (filed_entry s Hf r a Hr). }
  destruct (search_congr s s1 q NUM_BUCKETS Hf Hf' Hfit (le_n _)) as (a & t & t' & H1 & H2 & Ha).
  { intros i _. apply add_policy_rules; [done|]. apply keys_differ; [done..|]. cbn [rule_of fst]. unfold given.
    destruct (Z.testbit (Z.of_nat i) 3); cbn [default]; [done|]. by repeat constructor. }
  exists a, t, t'. split; [done|]. split; [done|]. destruct Ha as [->|[i Hr]]; [congruence|]. intros ->. by apply (Hnew _ Hr).
Qed.

(** * Keys read back *)

Lemma strcpy_run (s : state) dst src : (length src < length dst)%nat ->
  strcpy dst src s = Ret (src ++ 0 :: drop (S (length src)) dst, s).
Proof. intros Hl. unfold strcpy. by rewrite (proj2 (Nat.ltb_lt _ _) Hl). Qed.

Lemma cstr_copy x t : Forall (fun c => c <> 0) x -> cstr (x ++ 0 :: t) = x.
Proof. induction 1 as [|c x Hc _ IH]; cbn; [done|]. by rewrite (proj2 (Z.eqb_neq c 0) Hc), IH. Qed.

Lemma not_star_copy a t : cstr a <> [] -> not_star (cstr a ++ t) = not_star a.
Proof. destruct a as [|c a]; cbn; [done|]. by destruct (c =? 0). Qed.

(** The list of policies shows each of them as it was submitted: the input made
    from the key of a policy has its name, type, owner and group, and so its
    key and its bucket. *)
Theorem policy_key_roundtrip (s : state) pi e m :
  without_byte CARET (cstr (pi_fname pi)) -> cstr (pi_fname pi) <> [] -> (length (cstr (pi_fname pi)) < length (pi_fname m))%nat ->
  without_byte CARET (cstr (pi_ftype pi)) -> cstr (pi_ftype pi) <> [] -> (length (cstr (pi_ftype pi)) < length (pi_ftype m))%nat ->
  0 <= pi_uid pi < 2 ^ 32 -> 0 <= pi_gid pi < 2 ^ 32 -> pe_num_plugins e = 0 ->
  exists p, input_of_key (policy_key pi) e m s = Ret (p, s) /\
    same_str (pi_fname p) (pi_fname pi) /\ same_str (pi_ftype p) (pi_ftype pi) /\
    pi_uid p = pi_uid pi /\ pi_gid p = pi_gid pi /\ pi_attr p = pe_attr e /\
    policy_key p = policy_key pi /\ policy_index p = policy_index pi.
Proof.
  intros Hn Hn1 Hn2 Ht Ht1 Ht2 Hu Hg He.
  assert (Hd : forall n, without_byte CARET (fmt_d n)) by (intros n; apply fmt_d_without; done).
  unfold input_of_key, policy_key at 1. cbn [app].
  rewrite (strtok_tok CARET _ _ Hn Hn1). cbn [cexpect]. unfold cbind at 1, cret at 1.
  unfold cbind at 1. rewrite strcpy_run by done. rewrite (strtok_tok CARET _ _ Ht Ht1). cbn [cexpect]. unfold cbind at 1, cret at 1.
  unfold cbind at 1. rewrite strcpy_run by done. rewrite (strtok_tok CARET _ _ (Hd _) (fmt_d_nonempty _)). cbn [cexpect]. unfold cbind at 1, cret at 1.
  rewrite (strtok_last CARET _ (Hd _) (fmt_d_nonempty _)). cbn [cexpect]. unfold cbind at 1, cret at 1. rewrite He. cbn [copy_tags Z.to_nat].
  rewrite !atoi_fmt_d, !uwrap_swrap, !uwrap_small by lia. eexists. split; [reflexivity|]. cbn.
  unfold same_str, policy_key, policy_index. cbn. rewrite !cstr_copy, !not_star_copy by (done || apply cstr_nonzero). done.
Qed.

(** * Submitting, deleting and listing *)

(** No submission that gets past the test of its arguments and its memory
    returns: the attributes are copied with the size of the whole record, far
    behind its end. *)
Theorem submit_always_faults (s : state) ins_ok pi db_type pdbe a l :
  policy_initialized s = true -> db_type <> 0 -> memory s = a :: l -> a <> NULL ->
  exists f, submit_policy_entry ins_ok (Some pi) true db_type pdbe s = Fault f.
Proof.
  intros Hi Hd Hm Ha. destruct (submit_policy_entry _ _ _ _ _ s) as [[r s']|f] eqn:Hr; [|eauto]. exfalso.
  unfold submit_policy_entry in Hr. apply cbind_Ret in Hr as (x & t & [= <- <-] & Hr). rewrite Hi in Hr.
  rewrite (proj2 (Z.eqb_neq db_type 0) Hd) in Hr. cbn [negb orb] in Hr.
  apply cbind_Ret in Hr as (x & t & Hx & Hr). unfold new_entry, malloc, cbind in Hx. rewrite Hm in Hx.
  rewrite (proj2 (Z.eqb_neq a NULL) Ha) in Hx. injection Hx as <- <-. rewrite (proj2 (Z.eqb_neq a NULL) Ha) in Hr. cbv zeta in Hr.
  do 5 (apply cbind_Ret in Hr as (? & ? & ? & Hr)).
  match goal with Hp : get_pdbe_from_pe _ _ _ = _ |- _ =>
    unfold get_pdbe_from_pe in Hp; do 3 (apply cbind_Ret in Hp as (? & ? & ? & Hp)) end. done.
Qed.

(** Deleting policy number [i] of the last list takes its key out of the
    database and out of its bucket and gives its input back. The list keeps
    the pointer: deleting it again uses memory that was given back. *)
Theorem deleted_policy_dangles (s : state) pi db_type l a p j :
  policy_initialized s = true -> db_type <> 0 -> 0 <= pi_index pi < num_pol s ->
  pol_list s = Live l -> l !! Z.to_nat (pi_index pi) = Some (Some a) -> a <> NULL -> inputs s !! a = Some p ->
  (S (length (policy_key p)) <= KEY_LEN)%nat -> 0 <= pt_table_lock s -> pst_head s !! policy_index p = Some j ->
  exists s', delete_policy_entry (Some pi) true db_type s = Ret (0, s') /\
    pst_head s' = <[policy_index p := jsl_del j (policy_key p)]> (pst_head s) /\
    (forall k, (pst_head s' !! policy_index p ≫= fun b => jsl_get b k)
               = if decide (policy_key p = k) then None else jsl_get j k) /\
    records s' = pdb_remove (records s) (policy_key p) /\ pt_table_lock s' = pt_table_lock s /\
    delete_policy_entry (Some pi) true db_type s' = Fault UseAfterFree.
Proof using Laws.
  intros Hi Hd Hx Hl Ha Hnz Hp Hk Hlk Hj.
  assert (Hload : forall t : state, pol_list t = Live l -> load_pol (pi_index pi) t = Ret (a, t)).
  { intros t Ht. unfold load_pol, cbind, cget. rewrite Ht, (proj2 (Z.ltb_ge _ _)) by lia. by rewrite Ha. }
  assert (Hrun : delete_policy_entry (Some pi) true db_type s =
    Ret (0, set_inputs (delete a (inputs s)) (set_table_lock (pt_table_lock s)
      (set_head (<[policy_index p := jsl_del j (policy_key p)]> (pst_head s)) (set_records (pdb_remove (records s) (policy_key p)) s))))).
  { unfold delete_policy_entry, cbind at 1, cget. rewrite Hi, (proj2 (Z.eqb_neq db_type 0) Hd). cbn [negb orb].
    unfold cbind at 1. rewrite (Hload s Hl), (proj2 (Z.eqb_neq a NULL) Hnz), (proj2 (Z.leb_gt _ _)) by lia. cbn [orb].
    rewrite Hp. cbn [cexpect]. unfold cbind at 1, cret at 1. unfold cbind at 1, sprintf. rewrite (proj2 (Nat.leb_le _ _) Hk).
    unfold table_rdlock, rdlock_ok, on_bucket, cbind, cget, cret, cmod, cput. cbn. rewrite (proj2 (Z.leb_le _ _) Hlk). cbn. rewrite Hj. cbn.
    unfold set_inputs, set_table_lock. cbn. unfold released. rewrite (proj2 (Z.ltb_ge _ 0)) by lia.
    by replace (pt_table_lock s + 1 - 1) with (pt_table_lock s) by lia. }
  rewrite Hrun. eexists. split; [reflexivity|]. cbn. split; [done|]. split.
  { intros k. rewrite list_lookup_insert_eq by (eapply lookup_lt_Some; eauto). cbn. apply jsl_get_del. }
  split; [done|]. split; [done|].
  unfold delete_policy_entry, cbind at 1, cget. cbn [policy_initialized set_inputs set_table_lock set_head set_records].
  rewrite Hi, (proj2 (Z.eqb_neq db_type 0) Hd). cbn [negb orb]. unfold cbind at 1. rewrite Hload by done. cbn [num_pol set_inputs set_table_lock set_head set_records].
  rewrite (proj2 (Z.eqb_neq a NULL) Hnz), (proj2 (Z.leb_gt _ _)) by lia. cbn. by rewrite lookup_delete_eq.
Qed.

(** Programs that leave a part of the state alone. *)
Definition keeps {X A} (f : state -> X) (c : prog A) : Prop := forall s a s', c s = Ret (a, s') -> f s' = f s.

Lemma part_ret {X A} (f : state -> X) (a : A) : keeps f (cret a).
Proof. by intros s b s' [= <- <-]. Qed.
Lemma part_bind {X A B} (f : state -> X) (c : prog A) (k : A -> prog B) :
  keeps f c -> (forall a, keeps f (k a)) -> keeps f (cbind c k).
Proof. intros Hc Hk s b s' (a & t & Ha & Hb)%cbind_Ret. by rewrite (Hk a _ _ _ Hb), (Hc _ _ _ Ha). Qed.
Lemma part_get {X} (f : state -> X) : keeps f cget.
Proof. by intros s b s' [= <- <-]. Qed.
Lemma part_mod {X} (f : state -> X) g : (forall s, f (g s) = f s) -> keeps f (cmod g).
Proof. intros Hg s b s' [= <- <-]. auto. Qed.
Lemma part_fault {X A} (f : state -> X) e : keeps f (cfault e : prog A).
Proof. done. Qed.
Lemma part_expect {X A} (f : state -> X) e (o : option A) : keeps f (cexpect e o).
Proof. destruct o; [apply part_ret|apply part_fault]. Qed.

Create HintDb keeps.
Hint Resolve part_ret part_bind part_get part_fault part_expect : keeps.
Hint Extern 1 (keeps _ (cmod _)) => (apply part_mod; done) : keeps.
Hint Extern 2 (keeps _ (if ?b then _ else _)) => (destruct b) : keeps.
Hint Extern 2 (keeps _ (match ?b with _ => _ end)) => (destruct b) : keeps.

Lemma load_plugin_keeps {X} (f : state -> X) a : keeps f (load_plugin a).
Proof. unfold load_plugin. auto with keeps. Qed.
Lemma load_entry_keeps {X} (f : state -> X) a : keeps f (load_entry a).
Proof. unfold load_entry. auto with keeps. Qed.
Lemma load_pol_keeps {X} (f : state -> X) i : keeps f (load_pol i).
Proof. unfold load_pol. auto with keeps. Qed.
Hint Resolve load_plugin_keeps load_entry_keeps load_pol_keeps : keeps.

Lemma match_tag_keeps tags i table k pe : keeps pol_list (match_tag tags i table k pe).
Proof.
  revert k pe. induction table as [|a table IH]; intros k pe; cbn [match_tag]; [apply part_ret|].
  unfold store_plugin. auto 12 with keeps.
Qed.
Lemma match_tags_keeps tags n i k pe : keeps pol_list (match_tags tags n i k pe).
Proof.
  revert i k pe. induction n as [|n IH]; intros i k pe; cbn [match_tags]; [apply part_ret|].
  auto using match_tag_keeps with keeps.
Qed.
Lemma get_pe_from_pdbe_keeps pdb a : keeps pol_list (get_pe_from_pdbe pdb a).
Proof. unfold get_pe_from_pdbe, get_pe_from_tags, store_entry. auto 8 using match_tags_keeps with keeps. Qed.

Lemma free_inputs_keeps n i : keeps (fun s => (memory s, records s)) (free_inputs n i).
Proof.
  revert i. induction n as [|n IH]; intros i; cbn [free_inputs]; [apply part_ret|].
  apply part_bind; [auto with keeps|]. intros a s b s' (x & t & [= <- <-] & Hr)%cbind_Ret.
  apply cbind_Ret in Hr as ([] & t & Ht & Hr). rewrite (IH _ _ _ _ Hr).
  case_if_in Ht; [by injection Ht as <-|]. apply cbind_Ret in Ht as (y & t' & _ & Ht). by injection Ht as <-.
Qed.

(** Collecting a record when the array was given back. *)
Lemma collect_after_free (s : state) key pdbe len a l :
  len <> 0 -> memory s = a :: l -> a <> NULL -> pol_list s = Freed ->
  exists f, collect_policy_entries (Some key, Some pdbe, len) s = Fault f.
Proof.
  intros Hlen Hm Ha Hp. destruct (collect_policy_entries _ s) as [[r s']|f] eqn:Hr; [|eauto]. exfalso.
  unfold collect_policy_entries in Hr. rewrite (proj2 (Z.eqb_neq len 0) Hlen) in Hr.
  apply cbind_Ret in Hr as (x & t & Hx & Hr). unfold new_entry, malloc, cbind in Hx. rewrite Hm in Hx.
  rewrite (proj2 (Z.eqb_neq a NULL) Ha) in Hx. injection Hx as <- <-. rewrite (proj2 (Z.eqb_neq a NULL) Ha) in Hr.
  apply cbind_Ret in Hr as ([] & t1 & H1 & Hr). apply get_pe_from_pdbe_keeps in H1. cbn in H1. rewrite Hp in H1.
  apply cbind_Ret in Hr as ([] & t2 & [= <-] & Hr). apply cbind_Ret in Hr as (? & ? & [= <- <-] & Hr).
  cbn [pol_list set_pol_list] in Hr. rewrite H1 in Hr. apply cbind_Ret in Hr as (? & ? & ? & _). done.
Qed.

(** The second list of the policies never comes: the array of the first one is
    given back and enlarged again. *)
Theorem second_listing_faults (s : state) l0 key pdbe len rest a l :
  pol_list s = Live l0 -> pdb_records (records s) = (Some key, Some pdbe, len) :: rest -> len <> 0 ->
  memory s = a :: l -> a <> NULL ->
  exists f, show_policy_entries s = Fault f.
Proof.
  intros Hp Hdb Hlen Hm Ha. destruct (show_policy_entries s) as [[r s']|f] eqn:Hr; [|eauto]. exfalso.
  unfold show_policy_entries in Hr. apply cbind_Ret in Hr as (? & ? & [= <- <-] & Hr). rewrite Hp in Hr.
  apply cbind_Ret in Hr as ([] & t & Ht & Hr). apply cbind_Ret in Ht as ([] & t0 & Hf & [= <-]).
  apply free_inputs_keeps in Hf as [= Hm' Hdb']. apply cbind_Ret in Hr as ([] & t1 & [= <-] & Hr).
  apply cbind_Ret in Hr as (? & ? & [= <- <-] & Hr). cbn [records set_pol_list] in Hr. rewrite Hdb', Hdb in Hr.
  apply cbind_Ret in Hr as ([] & t2 & Hit & _). cbn [iterate] in Hit. apply cbind_Ret in Hit as (? & ? & Hc & _).
  match type of Hc with _ ?t = _ => destruct (collect_after_free t key pdbe len a l) as [f Hf]; [done| |done|done|] end.
  { cbn. congruence. }
  congruence.
Qed.

End Policy.

(** * Examples *)

(** A database that answers as the plugins of the repository do: 1 for a record
    that is there or was written. *)
#[export] Instance assoc_policy_db : PolicyDb (list (list Z * policy_db_entry)) := {
  pdb_get d k := if bool_decide (k ∈ d.*1) then 1 else 0;
  pdb_update d k e := (1, (k, e) :: filter (fun x => x.1 <> k) d);
  pdb_insert d k e := (1, (k, e) :: filter (fun x => x.1 <> k) d);
  pdb_remove d k := filter (fun x => x.1 <> k) d;
  pdb_records d := (fun x => (Some x.1, Some x.2, SIZEOF_PDBE)) <$> d
}.

Definition demo_state (heads : list (list (list Z * Z))) (es : gmap Z policy_entry) (db : list (list Z * policy_db_entry))
  : @state (list (list Z * Z)) (list (list Z * policy_db_entry)) :=
  mkState true 0 (replicate NUM_MAX_POLICY NULL) (2 ^ 64 - 1) heads (replicate NUM_BUCKETS 0) ∅ es Null 0 ∅ db [] ∅ [100; 200; 300].
Definition no_policies : list (list (list Z * Z)) := replicate NUM_BUCKETS [].
Definition demo_attr : attribute := mkAttr 0 0 0 0 2 0.
Definition demo_entry : policy_entry := mkEntry demo_attr 0 0 [].

Lemma demo_table_ok heads es db : table_ok (demo_state heads es db).
Proof.
  assert (Hnull : forall i a, replicate NUM_MAX_POLICY NULL !! i = Some a -> a = NULL).
  { intros i a [-> _]%lookup_replicate. done. }
  split; [reflexivity|reflexivity| | | |]; cbn [pt_table plugins policy_slots demo_state].
  - intros i a Hi Ha%Hnull. split; [done|]. intros _. change (2 ^ 64 - 1) with (Z.ones 64). apply Z.ones_spec_low. lia.
  - eauto.
  - intros i a Ha%Hnull. done.
  - intros i j a Ha%Hnull. done.
Qed.

Lemma demo_fresh heads es db : fresh (demo_state heads es db).
Proof. split; cbn [memory plugins demo_state]; [repeat constructor; set_solver|]. repeat constructor. Qed.

Lemma plugin_table_ok_witness :
  exists s', run_ops [Register true; Activate 0; Register true; Unregister 0] (demo_state no_policies ∅ []) = Ret (tt, s') /\ table_ok s'.
Proof.
  eexists. split; [vm_compute; reflexivity|].
  apply (plugin_table_ok [Register true; Activate 0; Register true; Unregister 0] (demo_state no_policies ∅ [])).
  - apply demo_table_ok.
  - apply demo_fresh.
  - repeat constructor; done.
  - vm_compute. reflexivity.
Defined.

Lemma register_plugin_slots_witness :
  exists s', register_plugin true (demo_state no_policies ∅ []) = Ret ((0, Some 0), s') /\
    pt_table s' = <[0%nat := 100]> (replicate NUM_MAX_POLICY NULL) /\ plugins s' = {[100 := new_plugin]}.
Proof.
  refine (proj1 (register_plugin_slots (demo_state no_policies ∅ []) 100 [200; 300] _ _ _ _) 0%nat _ _ _).
  - apply demo_table_ok.
  - reflexivity.
  - reflexivity.
  - done.
  - lia.
  - reflexivity.
  - lia.
Defined.

(** The file "/f" of user 1 and group 2, of type "text". *)
Definition demo_request : request := mkRequest (bytes "/f") 1 2 (bytes "text").
(** A policy for the file and one for everything. *)
Definition demo_heads : list (list (list Z * Z)) :=
  <[8%nat := [(bytes "/f^ffffffff^ffffffff^*", 500)]]>
    (<[0%nat := [(bytes "*^ffffffff^ffffffff^*", 600)]]> no_policies).
Definition demo_entries : gmap Z policy_entry := {[500 := demo_entry; 600 := demo_entry; 700 := demo_entry]}.

Lemma demo_rules r a : rules_of (demo_state demo_heads demo_entries []) r = Some a -> a = 500 \/ a = 600.
Proof.
  unfold rules_of. cbn [pst_head demo_state]. destruct (demo_heads !! specificity r) as [j|] eqn:Hj; [|done].
  unfold demo_heads in Hj. apply list_lookup_insert_Some in Hj as [(_ & <- & _)|[_ Hj]].
  { cbn. case_decide; [|done]. intros [= <-]. auto. }
  apply list_lookup_insert_Some in Hj as [(_ & <- & _)|[_ Hj]].
  { cbn. case_decide; [|done]. intros [= <-]. auto. }
  unfold no_policies in Hj. apply lookup_replicate in Hj as [-> _]. done.
Qed.

Lemma demo_filed : filed (demo_state demo_heads demo_entries []).
Proof.
  split.
  - reflexivity.
  - intros r a [->| ->]%demo_rules; (split; [done|]; cbn; unfold demo_entries; eauto).
  - intros i Hi. exists 0. split; [|done]. cbn [pst_lock demo_state]. by apply lookup_replicate.
Qed.

Lemma demo_keys_fit : keys_fit demo_request.
Proof. intros i Hi. do 16 (destruct i as [|i]; [by apply Nat.leb_le; vm_compute|]). unfold NUM_BUCKETS in Hi. lia. Qed.

Lemma get_policy_most_specific_witness :
  exists r a, applies r demo_request /\ rules_of (demo_state demo_heads demo_entries []) r = Some a /\
    get_policy demo_request (demo_state demo_heads demo_entries []) = Ret (a, used a (demo_state demo_heads demo_entries [])) /\ a = 500.
Proof.
  destruct (get_policy_most_specific (demo_state demo_heads demo_entries []) demo_request demo_filed demo_keys_fit)
    as [(r & a & Hr & Ha & Hs & Hg)|[Hno _]].
  - exists r, a. split; [done|]. split; [done|]. split; [done|].
    assert (Hrun : exists t, get_policy demo_request (demo_state demo_heads demo_entries []) = Ret (500, t))
      by (eexists; vm_compute; reflexivity).
    destruct Hrun as [t Ht]. rewrite Hg in Ht. by injection Ht.
  - pose proof (Hno (rule_of demo_request 8) (rule_of_applies _ _)) as Hn. vm_compute in Hn. discriminate Hn.
Defined.

(** A policy for the same file, as it is submitted. *)
Definition pad (n : nat) (s : list Z) : list Z := s ++ replicate (n - length s) 0.
Definition demo_input : policy_input :=
  mkPolicyInput (2 ^ 32 - 1) (2 ^ 32 - 1) (replicate NUM_MAX_POLICY (replicate POLICY_TAG_LEN 0)) (pad TYPE_LEN (bytes "*"))
    (pad TYPE_LEN (bytes "/f")) 0 demo_attr 0.

Ltac concrete := vm_compute; repeat constructor; discriminate.

Lemma submitted_policy_not_found_witness :
  exists a s' t t', add_policy_to_pst true (policy_key demo_input) (policy_index demo_input) 700 (demo_state demo_heads demo_entries []) = Ret (tt, s') /\
    get_policy demo_request (demo_state demo_heads demo_entries []) = Ret (a, t) /\ get_policy demo_request s' = Ret (a, t') /\ a <> 700.
Proof.
  destruct (add_policy_to_pst true (policy_key demo_input) (policy_index demo_input) 700 (demo_state demo_heads demo_entries []))
    as [[[] s']|f] eqn:Ha; [|exfalso; vm_compute in Ha; discriminate].
  destruct (submitted_policy_not_found (demo_state demo_heads demo_entries []) s' demo_input 700 demo_request demo_filed) as (a & t & t' & H1 & H2 & H3).
  - reflexivity.
  - done.
  - cbn. eauto.
  - intros r Hr. destruct (demo_rules r 700 Hr); discriminate.
  - concrete.
  - concrete.
  - vm_compute. by constructor.
  - concrete.
  - apply demo_keys_fit.
  - exact Ha.
  - exists a, s', t, t'. split; [reflexivity|]. split; [exact H1|]. split; [exact H2|exact H3].
Defined.

Lemma policy_key_roundtrip_witness :
  exists p, input_of_key (policy_key demo_input) demo_entry demo_input (demo_state no_policies ∅ []) = Ret (p, demo_state no_policies ∅ []) /\
    policy_key p = policy_key demo_input.
Proof.
  destruct (policy_key_roundtrip (demo_state no_policies ∅ []) demo_input demo_entry demo_input) as (p & H1 & H2).
  - concrete.
  - vm_compute. discriminate.
  - apply Nat.ltb_lt. vm_compute. reflexivity.
  - concrete.
  - vm_compute. discriminate.
  - apply Nat.ltb_lt. vm_compute. reflexivity.
  - cbn. lia.
  - cbn. lia.
  - reflexivity.
  - exists p. split; [exact H1|apply H2].
Defined.

Definition demo_pdbe : policy_db_entry := mkPdbe [] [] 0 0 demo_attr.

Lemma submit_always_faults_witness :
  exists f, submit_policy_entry (fun _ => (0, 0)) (fun _ => None) true (Some demo_input) true 1 demo_pdbe (demo_state no_policies ∅ []) = Fault f.
Proof. by apply (submit_always_faults _ _ (demo_state no_policies ∅ []) true demo_input 1 demo_pdbe 100 [200; 300]). Defined.

(** One policy was listed: its input is at 900. *)
Definition demo_listed : @state (list (list Z * Z)) (list (list Z * policy_db_entry)) :=
  set_inputs {[900 := demo_input]} (set_pol_list (Live [Some 900]) 1
    (demo_state demo_heads demo_entries [(policy_key demo_input, demo_pdbe)])).

Lemma deleted_policy_dangles_witness :
  exists s', delete_policy_entry (Some demo_input) true 1 demo_listed = Ret (0, s') /\
    delete_policy_entry (Some demo_input) true 1 s' = Fault UseAfterFree.
Proof.
  edestruct (deleted_policy_dangles demo_listed demo_input 1 [Some 900] 900 demo_input) as (s' & H1 & H2).
  - reflexivity.
  - done.
  - cbn. lia.
  - reflexivity.
  - reflexivity.
  - done.
  - reflexivity.
  - apply Nat.leb_le. vm_compute. reflexivity.
  - cbn. lia.
  - vm_compute. reflexivity.
  - exists s'. split; [exact H1|apply H2].
Defined.

Lemma second_listing_faults_witness :
  exists f, show_policy_entries (fun _ => (0, 0)) (fun _ => demo_input) (fun _ => None) demo_listed = Fault f.
Proof.
  apply (second_listing_faults _ _ _ demo_listed [Some 900] (policy_key demo_input) demo_pdbe SIZEOF_PDBE [] 100 [200; 300]);
    (done || (vm_compute; reflexivity)).
Defined.

End Policy.
