(* ===== verification/FilesDb.v ===== *)
(** The database of compressed files: db/filesdb/src/files_db.c.

    A record is a gzip file; its name is made of the key, in one of 1024
    directories. A mutex makes every call atomic. *)
From Stdlib Require Import ZArith Lia String.
From stdpp Require Import base gmap list numbers.
From S2P Require Import Prelude CString CFormat.

Module FilesDb.

Definition DB_DIR : list Z := bytes "/var/tmp/.sfs_db".
Definition NUM_DIRS : Z := 1024.
Definition SEEK_END : Z := 2.
Abbreviation size b := (Z.of_nat (length b)).

(** What the code uses of zlib and of the system: the return value, and
    [errno] when the call sets it. [gz_create] is [gzopen] with "wb", [gz_open]
    with "rb"; a written file is read from the start. *)
Class Gz (G : Type) := {
  mkdir : G -> list Z -> option Z * G;
  gz_create : G -> list Z -> option Z * G;
  gz_open : G -> list Z -> option Z;
  gz_seek : G -> list Z -> Z -> Z -> Z * option Z;
  gz_write : G -> list Z -> list Z -> Z * option Z * G;
  gz_read : G -> list Z -> Z -> Z -> list Z * Z * option Z;
  unlink : G -> list Z -> option Z * G;
  system : G -> list Z -> Z * G
}.

Section FilesDb.
Context {G : Type} `{Gz G}.

(** [files_db_mutex], [errno], and the files. *)
Record state : Type := mkState { held : bool; errno : Z; files : G }.

Definition lock : cprog state unit :=
  (let! s := cget in if held s then cfault Deadlock else cput (mkState true (errno s) (files s)))%cprog.
(** Unlocking a mutex that is not locked is undefined. *)
Definition unlock : cprog state unit :=
  (let! s := cget in if held s then cput (mkState false (errno s) (files s)) else cfault AssertFail)%cprog.
Definition set_errno (e : option Z) : cprog state unit :=
  cmod (fun s => mkState (held s) (default (errno s) e) (files s)).
Definition put_files (g : G) : cprog state unit := cmod (fun s => mkState (held s) (errno s) g).
(** [pthread_mutex_unlock(&files_db_mutex); return -errno;] *)
Definition fail : cprog state Z := (unlock ;;; let! s := cget in cret (- errno s))%cprog.

Definition hashfn (key : Z) : Z := swrap 32 (key mod NUM_DIRS).
(** [sprintf(filename, "%s/%d/%"PRIu64".gz", DB_DIR, dir, key)] *)
Definition filename (key : Z) : list Z := (DB_DIR ++ bytes "/" ++ fmt_d (hashfn key) ++ bytes "/" ++ fmt_u key ++ bytes ".gz")%list.

Definition files_db_open : cprog state Z := cret 0.
Definition files_db_close : cprog state Z := cret 0.

(** [mkdir] with its effect on [errno]. *)
Definition make_dir (p : list Z) : cprog state Z :=
  (let! s := cget in
   let '(e, g) := mkdir (files s) p in
   put_files g ;;; set_errno e ;;;
   cret (if e then -1 else 0))%cprog.
(** The directories from [i] on, [k] of them. *)
Fixpoint make_dirs (k : nat) (i : Z) : cprog state Z :=
  match k with
  | O => cret 0
  | S k' =>
      (let! r := make_dir (DB_DIR ++ bytes "/" ++ fmt_d i) in
       if negb (r =? 0) then cret r else make_dirs k' (i + 1))%cprog
  end.
Definition files_db_init : cprog state Z :=
  (let! r := make_dir DB_DIR in
   if negb (r =? 0) then cret r else make_dirs (Z.to_nat NUM_DIRS) 0)%cprog.

(** [gzwrite] and what follows it in [files_db_insert] and
    [files_db_update]; its length is an [unsigned]. *)
Definition write_record (p data : list Z) : cprog state Z :=
  (let! s := cget in
   let '(r, e, g) := gz_write (files s) p (take (Z.to_nat (uwrap 32 (size data))) data) in
   put_files g ;;; set_errno e ;;;
   if (r =? 0) || negb (uwrap 64 r =? size data) then fail else unlock ;;; cret 1)%cprog.

Definition files_db_insert (key : Z) (data : list Z) : cprog state Z :=
  (lock ;;;
   let! s := cget in
   let p := filename key in
   let '(e, g) := gz_create (files s) p in
   put_files g ;;; set_errno e ;;;
   if e then fail else write_record p data)%cprog.

Definition files_db_update (key : Z) (data : list Z) : cprog state Z :=
  (lock ;;;
   let! s := cget in
   let p := filename key in
   let '(e, g) := gz_create (files s) p in
   put_files g ;;; set_errno e ;;;
   if e then fail
   else
     let! s := cget in
     let '(off, e) := gz_seek (files s) p 0 0 in
     set_errno e ;;;
     if off =? -1 then fail else write_record p data)%cprog.

(** [gzread] of [len] bytes at [off] and what follows it; the answer has the
    bytes that were read. *)
Definition read_record (p : list Z) (off len : Z) : cprog state (Z * list Z) :=
  (let! s := cget in
   let '(data, r, e) := gz_read (files s) p off (uwrap 32 len) in
   set_errno e ;;;
   if (r =? -1) || negb (uwrap 64 r =? len) then let! x := fail in cret (x, data)
   else unlock ;;; cret (swrap 32 r, data))%cprog.

Definition files_db_get (key len : Z) : cprog state (Z * list Z) :=
  (lock ;;;
   let! s := cget in
   let p := filename key in
   let e := gz_open (files s) p in
   set_errno e ;;;
   if e then let! x := fail in cret (x, []) else read_record p 0 len)%cprog.

Definition files_db_seekread (key len offset whence : Z) : cprog state (Z * list Z) :=
  (lock ;;;
   let! s := cget in
   let p := filename key in
   let e := gz_open (files s) p in
   set_errno e ;;;
   if e then let! x := fail in cret (x, [])
   else
     let '(off, e) := gz_seek (files s) p offset whence in
     set_errno e ;;;
     if off =? -1 then let! x := fail in cret (x, []) else read_record p off len)%cprog.

Definition files_db_delete (key : Z) : cprog state Z :=
  (lock ;;;
   let! s := cget in
   let '(e, g) := unlink (files s) (filename key) in
   put_files g ;;; set_errno e ;;;
   if e then fail else unlock ;;; cret 1)%cprog.

(** Both branches unlock, and the mutex is unlocked once more. *)
Definition files_db_cleanup : cprog state Z :=
  (lock ;;;
   let! s := cget in
   let '(r, g) := system (files s) (bytes "rm -rf " ++ DB_DIR) in
   put_files g ;;;
   unlock ;;; unlock ;;; cret r)%cprog.
End FilesDb.

(** * Keys and names *)

Lemma fmt_u_inj a b : fmt_u a = fmt_u b -> uwrap 64 a = uwrap 64 b.
Proof.
  unfold fmt_u. intros Hab. pose proof (uwrap_range 64 a ltac:(lia)). pose proof (uwrap_range 64 b ltac:(lia)).
  rewrite <- (digits_val_digits 20 (uwrap 64 a)), <- (digits_val_digits 20 (uwrap 64 b)), Hab by (change (10 ^ Z.of_nat 20) with 100000000000000000000; lia).
  done.
Qed.

(** Different keys have different files. *)
Lemma filename_inj a b : 0 <= a < 2 ^ 64 -> 0 <= b < 2 ^ 64 -> filename a = filename b -> a = b.
Proof.
  intros Ha Hb Hab. unfold filename in Hab. do 2 apply app_inv_head in Hab.
  apply fields_inj in Hab as [_ Hab]; [|by apply fmt_d_without..].
  apply app_inv_tail, fmt_u_inj in Hab. by rewrite !uwrap_small in Hab.
Qed.

#[local] Arguments filename : simpl never.
#[local] Arguments write_record : simpl never.
#[local] Arguments read_record : simpl never.

(** * The files are a map *)

(** zlib and the directories at work: [content] is what a file holds, [up] says
    that the directories are there. *)
Class GzUp (G : Type) `{Gz G} (content : G -> list Z -> option (list Z)) (up : G -> Prop) : Prop := {
  create_up g k : up g -> exists g', gz_create g (filename k) = (None, g') /\ up g' /\
    content g' (filename k) = Some [] /\ (forall q, q <> filename k -> content g' q = content g q);
  write_up g p d : up g -> content g p = Some [] -> size d < 2 ^ 31 -> exists g', gz_write g p d = (size d, None, g') /\ up g' /\
    content g' p = Some d /\ (forall q, q <> p -> content g' q = content g q);
  open_up g p d : content g p = Some d -> gz_open g p = None;
  open_missing g p : content g p = None -> exists e, gz_open g p = Some e /\ 0 < e;
  seek_up g p off : 0 <= off -> gz_seek g p off 0 = (off, None);
  read_up g p d off len : content g p = Some d -> 0 <= off -> 0 <= len < 2 ^ 31 ->
    let x := take (Z.to_nat len) (drop (Z.to_nat off) d) in gz_read g p off len = (x, size x, None);
  unlink_up g p d : up g -> content g p = Some d -> exists g', unlink g p = (None, g') /\ up g' /\
    content g' p = None /\ (forall q, q <> p -> content g' q = content g q);
  unlink_missing g p : content g p = None -> exists e, unlink g p = (Some e, g) /\ 0 < e
}.

Inductive op : Type :=
  | Insert (k : Z) (d : list Z)
  | Update (k : Z) (d : list Z)
  | Get (k len : Z)
  | SeekRead (k len off : Z)
  | Delete (k : Z).

Definition key_ok (k : Z) : Prop := 0 <= k < 2 ^ 64.
(** zlib counts in [int]; [gzwrite] answers 0 for no bytes, which is taken for
    a failure. *)
Definition op_ok (o : op) : Prop :=
  match o with
  | Insert k d | Update k d => key_ok k /\ 0 < size d < 2 ^ 31
  | Get k len => key_ok k /\ 0 <= len < 2 ^ 31
  | SeekRead k len off => key_ok k /\ 0 <= len < 2 ^ 31 /\ 0 <= off
  | Delete k => key_ok k
  end.

Definition read_spec (m : gmap Z (list Z)) (k len off : Z) (r : Z * list Z) : Prop :=
  match m !! k with
  | Some d =>
      let rest := drop (Z.to_nat off) d in
      if len <=? size rest then r = (len, take (Z.to_nat len) rest) else r.1 <= 0 /\ r.2 = rest
  | None => r.1 < 0 /\ r.2 = []
  end.
(** A record is inserted or replaced by either call; a read gives exactly the
    bytes asked for, or fails. *)
Definition op_spec (o : op) (m : gmap Z (list Z)) (r : Z * list Z) (m' : gmap Z (list Z)) : Prop :=
  match o with
  | Insert k d | Update k d => r = (1, []) /\ m' = <[k := d]> m
  | Get k len => read_spec m k len 0 r /\ m' = m
  | SeekRead k len off => read_spec m k len off r /\ m' = m
  | Delete k => r.2 = [] /\ match m !! k with Some _ => r.1 = 1 /\ m' = delete k m | None => r.1 < 0 /\ m' = m end
  end.

Section Refinement.
Context {G : Type} `{Gz G} (content : G -> list Z -> option (list Z)) (up : G -> Prop) `{!GzUp G content up}.
Abbreviation state := (@state G).

Definition run_op (o : op) : cprog state (Z * list Z) :=
  (match o with
   | Insert k d => let! r := files_db_insert k d in cret (r, [])
   | Update k d => let! r := files_db_update k d in cret (r, [])
   | Get k len => files_db_get k len
   | SeekRead k len off => files_db_seekread k len off 0
   | Delete k => let! r := files_db_delete k in cret (r, [])
   end)%cprog.

Record rep (s : state) (m : gmap Z (list Z)) : Prop := {
  rep_free : held s = false;
  rep_up : up (files s);
  rep_errno : 0 <= errno s;
  rep_files k : key_ok k -> content (files s) (filename k) = m !! k
}.

Set Default Proof Using "All".

(** Writing the file of a key. *)
Lemma rep_write g g' (e : Z) m k d : up g' -> 0 <= e -> key_ok k -> (forall k, key_ok k -> content g (filename k) = m !! k) ->
  content g' (filename k) = Some d -> (forall q, q <> filename k -> content g' q = content g q) -> rep (mkState false e g') (<[k := d]> m).
Proof.
  intros Hu He Hk Hg Hd Ho. split; [done|done|done|]. intros j Hj. cbn [files]. destruct (decide (j = k)) as [->|Hne].
  - by rewrite Hd, lookup_insert_eq.
  - rewrite Ho, lookup_insert_ne by (done || (intros Hf; by apply filename_inj in Hf)). by apply Hg.
Qed.

Lemma write_run g (e : Z) p d : up g -> content g p = Some [] -> 0 < size d < 2 ^ 31 ->
  exists g', write_record p d (mkState true e g) = Ret (1, mkState false e g') /\ up g' /\ content g' p = Some d /\
    (forall q, q <> p -> content g' q = content g q).
Proof.
  intros Hu Hc Hd. destruct (write_up g p d Hu Hc) as (g' & Hw & Hu' & Hd' & Ho); [lia|]. exists g'. split; [|done].
  unfold write_record, cbind, cget. cbn [files]. rewrite (uwrap_small 32), Nat2Z.id, firstn_all by lia. rewrite Hw. cbn.
  rewrite (proj2 (Z.eqb_neq _ 0)), uwrap_small, Z.eqb_refl by lia. done.
Qed.

Lemma read_run g (e : Z) p d off len : content g p = Some d -> 0 <= off -> 0 <= len < 2 ^ 31 ->
  let rest := drop (Z.to_nat off) d in
  read_record p off len (mkState true e g)
  = Ret (if len <=? size rest then (len, take (Z.to_nat len) rest) else (- e, rest), mkState false e g).
Proof.
  intros Hc Ho Hl rest. unfold read_record, cbind at 1, cget. cbn [files]. rewrite (uwrap_small 32) by lia. rewrite (read_up g p d off len Hc Ho Hl).
  fold rest. unfold set_errno, cbind at 1, cmod. cbn [held errno files default].
  rewrite length_take. rewrite (proj2 (Z.eqb_neq _ (-1))) by lia. cbn [orb]. destruct (Z.leb_spec len (size rest)) as [Hle|Hgt].
  - replace (Z.of_nat (Z.to_nat len `min` length rest)) with len by lia. rewrite uwrap_small, Z.eqb_refl by lia. cbn. by rewrite swrap_small by lia.
  - rewrite uwrap_small, (proj2 (Z.eqb_neq _ len)) by lia. cbn. rewrite take_ge by lia. done.
Qed.

Lemma insert_run (s : state) m k d : rep s m -> op_ok (Insert k d) ->
  exists s', files_db_insert k d s = Ret (1, s') /\ files_db_update k d s = Ret (1, s') /\ rep s' (<[k := d]> m).
Proof.
  intros [Hh Hu He Hf] [Hk Hd]. destruct s as [h e g]. cbn [held errno files] in *. subst h.
  destruct (create_up g k Hu) as (g1 & Hc & Hu1 & Hd1 & Ho1). destruct (write_run g1 e (filename k) d Hu1 Hd1 Hd) as (g2 & Hw & Hu2 & Hd2 & Ho2).
  exists (mkState false e g2). split_and!.
  - unfold files_db_insert, lock, cbind, cget. cbn. rewrite Hc. exact Hw.
  - unfold files_db_update, lock, cbind, cget. cbn. rewrite Hc. cbn. rewrite seek_up by lia. exact Hw.
  - eapply (rep_write g); [done|done|done|done|done|]. intros q Hq. by rewrite Ho2, Ho1.
Qed.

Lemma get_run (s : state) m k len off : rep s m -> op_ok (SeekRead k len off) ->
  exists r s', files_db_seekread k len off 0 s = Ret (r, s') /\ read_spec m k len off r /\ rep s' m /\ (off = 0 -> files_db_get k len s = Ret (r, s')).
Proof.
  intros [Hh Hu He Hf] (Hk & Hl & Ho). destruct s as [h e g]. cbn [held errno files] in *. subst h. unfold read_spec. rewrite <- (Hf k Hk).
  unfold files_db_seekread, files_db_get, lock. destruct (content g (filename k)) as [d|] eqn:Hc.
  - eexists _, (mkState false e g). split; [|split; [|split; [by split|]]].
    + unfold cbind, cget. cbn. rewrite (open_up g _ d Hc). cbn. rewrite seek_up by lia. cbn. rewrite (proj2 (Z.eqb_neq off (-1))) by lia.
      apply (read_run g e _ d); done.
    + cbn zeta. destruct (len <=? _); cbn; [done|]. split; [lia|done].
    + intros ->. unfold cbind, cget. cbn. rewrite (open_up g _ d Hc). cbn. apply (read_run g e _ d); done.
  - destruct (open_missing g _ Hc) as (e' & Hg & He'). exists (- e', []), (mkState false e' g). split; [|split; [|split]].
    + unfold cbind, cget. cbn. by rewrite Hg.
    + cbn. split; [lia|done].
    + split; [done|done|cbn; lia|done].
    + intros _. unfold cbind, cget. cbn. by rewrite Hg.
Qed.

Lemma delete_run (s : state) m k : rep s m -> key_ok k -> exists r s' m', files_db_delete k s = Ret (r, s') /\ op_spec (Delete k) m (r, []) m' /\ rep s' m'.
Proof.
  intros [Hh Hu He Hf] Hk. destruct s as [h e g]. cbn [held errno files] in *. subst h. cbn [op_spec]. rewrite <- (Hf k Hk).
  unfold files_db_delete, lock. destruct (content g (filename k)) as [d|] eqn:Hc.
  - destruct (unlink_up g _ d Hu Hc) as (g' & Hg & Hu' & Hn & Ho). exists 1, (mkState false e g'), (delete k m). split; [|split; [done|]].
    + unfold cbind, cget. cbn. by rewrite Hg.
    + split; [done|done|done|]. intros j Hj. cbn [files]. destruct (decide (j = k)) as [->|Hne]; [by rewrite Hn, lookup_delete_eq|].
      rewrite Ho, lookup_delete_ne by (done || (intros Hq; by apply filename_inj in Hq)). by apply Hf.
  - destruct (unlink_missing g _ Hc) as (e' & Hg & He'). exists (- e'), (mkState false e' g), m. split; [|split].
    + unfold cbind, cget. cbn. by rewrite Hg.
    + cbn. split; [done|]. split; [lia|done].
    + split; [done|done|cbn; lia|done].
Qed.

Lemma op_refines o s m : rep s m -> op_ok o ->
  exists r s' m', run_op o s = Ret (r, s') /\ op_spec o m r m' /\ rep s' m'.
Proof.
  intros Hr Ho. destruct o as [k d|k d|k len|k len off|k]; cbn [run_op op_spec].
  - destruct (insert_run s m k d Hr Ho) as (s' & Hi & _ & Hr'). eexists _, s', _. unfold cbind. by rewrite Hi.
  - destruct (insert_run s m k d Hr Ho) as (s' & _ & Hi & Hr'). eexists _, s', _. unfold cbind. by rewrite Hi.
  - destruct Ho as [Hk Hl]. destruct (get_run s m k len 0 Hr) as (r & s' & _ & Hs & Hr' & Hg); [done|]. exists r, s', m. rewrite Hg; done.
  - destruct (get_run s m k len off Hr Ho) as (r & s' & Hg & Hs & Hr' & _). by exists r, s', m.
  - destruct (delete_run s m k Hr Ho) as (r & s' & m' & Hd & Hs & Hr'). exists (r, []), s', m'. unfold cbind. by rewrite Hd.
Qed.

Fixpoint run_ops (l : list op) : cprog state (list (Z * list Z)) :=
  match l with
  | [] => cret []
  | o :: l' => (let! r := run_op o in let! rs := run_ops l' in cret (r :: rs))%cprog
  end.
Fixpoint ops_spec (l : list op) (m : gmap Z (list Z)) (rs : list (Z * list Z)) (m' : gmap Z (list Z)) : Prop :=
  match l, rs with
  | [], [] => m' = m
  | o :: l', r :: rs' => exists m1, op_spec o m r m1 /\ ops_spec l' m1 rs' m'
  | _, _ => False
  end.

(** C23. Any sequence of insertions, updates, reads and deletions answers as a map
    from keys to records does, while zlib and the directories work. *)
Theorem files_db_refines l s m : rep s m -> Forall op_ok l ->
  exists rs s' m', run_ops l s = Ret (rs, s') /\ ops_spec l m rs m' /\ rep s' m'.
Proof.
  intros Hr Hl. revert s m Hr. induction Hl as [|o l Ho _ IH]; intros s m Hr; [by exists [], s, m|].
  destruct (op_refines o s m Hr Ho) as (r & s1 & m1 & H1 & Hs1 & Hr1). destruct (IH s1 m1 Hr1) as (rs & s2 & m2 & H2 & Hs2 & Hr2).
  exists (r :: rs), s2, m2. cbn [run_ops ops_spec]. unfold cbind. rewrite H1, H2. split_and!; [done| |done]. by exists m1.
Qed.
End Refinement.

(** The clean-up unlocks the mutex twice. *)
Theorem cleanup_unlocks_twice {G} `{Gz G} (s : @state G) : held s = false -> files_db_cleanup s = Fault AssertFail.
Proof. intros Hh. unfold files_db_cleanup, lock, cbind, cget. rewrite Hh. cbn. by destruct (system _ _). Qed.
End FilesDb.

(** * Examples *)
Module FilesDbDemo.
Import FilesDb.

Definition store : Type := list (list Z * list Z).
Fixpoint stored (g : store) (p : list Z) : option (list Z) :=
  match g with
  | [] => None
  | (q, d) :: g' => if bool_decide (p = q) then Some d else stored g' p
  end.
Definition without (p : list Z) (g : store) : store := List.filter (fun e => negb (bool_decide (p = e.1))) g.
#[local] Instance store_gz : Gz store := {
  mkdir g p := (None, g);
  gz_create g p := (None, (p, []) :: g);
  gz_open g p := match stored g p with Some _ => None | None => Some 2 end;
  gz_seek g p off whence := (off, None);
  gz_write g p d := (size d, None, (p, d) :: g);
  gz_read g p off len := match stored g p with
                         | Some d => let x := take (Z.to_nat len) (drop (Z.to_nat off) d) in (x, size x, None)
                         | None => ([], -1, Some 2)
                         end;
  unlink g p := match stored g p with Some _ => (None, without p g) | None => (Some 2, g) end;
  system g c := (0, [])
}.

Lemma stored_without g p q : stored (without p g) q = if bool_decide (q = p) then None else stored g q.
Proof.
  induction g as [|[x d] g IH]; cbn; [by destruct (bool_decide _)|]. fold (without p g).
  destruct (bool_decide_reflect (p = x)) as [<-|Hpx]; cbn [negb stored].
  - rewrite IH. by destruct (bool_decide_reflect (q = p)).
  - rewrite IH. destruct (bool_decide_reflect (q = x)) as [->|]; [|done]. by rewrite bool_decide_false.
Qed.

#[local] Instance store_up : GzUp store stored (fun _ => True).
Proof.
  split.
  - intros g k _. eexists. split; [reflexivity|]. cbn. split; [done|]. split; [by rewrite bool_decide_true|]. intros q Hq. by rewrite bool_decide_false.
  - intros g p d _ _ _. eexists. split; [reflexivity|]. cbn. split; [done|]. split; [by rewrite bool_decide_true|]. intros q Hq. by rewrite bool_decide_false.
  - intros g p d Hc. cbn. by rewrite Hc.
  - intros g p Hc. cbn. rewrite Hc. by exists 2.
  - done.
  - intros g p d off len Hc _ _. cbn. by rewrite Hc.
  - intros g p d _ Hc. cbn. rewrite Hc. eexists. split; [reflexivity|]. split; [done|]. split; [by rewrite stored_without, bool_decide_true|].
    intros q Hq. by rewrite stored_without, bool_decide_false.
  - intros g p Hc. cbn. rewrite Hc. by exists 2.
Qed.

Definition empty_store : @state store := mkState false 0 [].
Lemma empty_rep : rep stored (fun _ => True) empty_store ∅.
Proof. split; [done|done|done|]. intros k Hk. by rewrite lookup_empty. Qed.

(** The keys 7 and 1031 share a directory. *)
Definition demo_ops : list op := [Insert 7 [1; 2]; Insert 1031 [3]; Update 7 [4; 5; 6]; Get 7 3; SeekRead 7 2 1; Delete 1031].
Lemma demo_ops_ok : Forall op_ok demo_ops.
Proof. repeat constructor; cbn; lia. Qed.
Lemma files_db_refines_witness : exists rs s' m', run_ops demo_ops empty_store = Ret (rs, s') /\ ops_spec demo_ops ∅ rs m' /\
  rep stored (fun _ => True) s' m' /\ rs = [(1, []); (1, []); (1, []); (3, [4; 5; 6]); (2, [5; 6]); (1, [])].
Proof.
  destruct (files_db_refines stored (fun _ => True) demo_ops empty_store ∅ empty_rep demo_ops_ok) as (rs & s' & m' & Hr & Hs & Hrep).
  exists rs, s', m'. split; [exact Hr|]. split; [exact Hs|]. split; [exact Hrep|].
  vm_compute in Hr. by injection Hr as <- <-.
Defined.
End FilesDbDemo.
