(* ===== verification/BdsList.v ===== *)
(** Intrusive circular doubly linked lists:
    common/include/bds_slab/bds_list.h.

    The heap maps the address of a [struct _list_head] to its two pointers;
    touching an address that holds no list head goes out of bounds. *)
From stdpp Require Import base gmap list numbers.
From S2P Require Import Prelude.

(** [struct _list_head] *)
Record list_head : Type := mkHead { next : Z; prev : Z }.

Abbreviation lheap := (gmap Z list_head).

Definition load (p : Z) : cprog lheap list_head := fun h =>
  match h !! p with
  | Some n => Ret (n, h)
  | None => Fault OutOfBounds
  end.

Definition get_next (p : Z) : cprog lheap Z := (let! n := load p in cret (next n))%cprog.
Definition get_prev (p : Z) : cprog lheap Z := (let! n := load p in cret (prev n))%cprog.

Definition set_next (p v : Z) : cprog lheap unit :=
  (let! n := load p in cmod (fun h => <[p := mkHead v (prev n)]> h))%cprog.

Definition set_prev (p v : Z) : cprog lheap unit :=
  (let! n := load p in cmod (fun h => <[p := mkHead (next n) v]> h))%cprog.

(** [head->next = head->prev = head] *)
Definition INIT_LIST_HEAD (head : Z) : cprog lheap unit :=
  (set_prev head head ;;; set_next head head)%cprog.

Definition __bds_list_add (new prv nxt : Z) : cprog lheap unit :=
  (set_next prv new ;;; set_next new nxt ;;; set_prev new prv ;;; set_prev nxt new)%cprog.

Definition bds_list_add (new head : Z) : cprog lheap unit :=
  (let! n := get_next head in __bds_list_add new head n)%cprog.

Definition bds_list_add_tail (new head : Z) : cprog lheap unit :=
  (let! p := get_prev head in __bds_list_add new p head)%cprog.

Definition __bds_list_del (prv nxt : Z) : cprog lheap unit :=
  (set_prev nxt prv ;;; set_next prv nxt)%cprog.

Definition bds_list_del (entry : Z) : cprog lheap unit :=
  (let! p := get_prev entry in let! n := get_next entry in __bds_list_del p n)%cprog.

Definition list_empty (head : Z) : cprog lheap bool :=
  (let! n := get_next head in cret (n =? head))%cprog.

(** [list_for_each(pos, head)] with an early exit: the first entry at which
    [p] holds. [fuel] bounds the walk; a walk that does not come back to the
    head within it never ends. *)
Fixpoint list_find (p : Z -> bool) (head pos : Z) (fuel : nat) : cprog lheap (option Z) :=
  match fuel with
  | O => cfault Deadlock
  | S fuel' =>
      if pos =? head then cret None
      else if p pos then cret (Some pos)
      else (let! n := get_next pos in list_find p head n fuel')%cprog
  end.

(** * The list a head represents *)

Definition nxt (h : lheap) (p : Z) : option Z := next <$> h !! p.
Definition prv (h : lheap) (p : Z) : option Z := prev <$> h !! p.

(** Consecutive addresses point at each other. *)
Fixpoint chain (h : lheap) (l : list Z) : Prop :=
  match l with
  | a :: ((b :: _) as l') => nxt h a = Some b /\ prv h b = Some a /\ chain h l'
  | _ => True
  end.

(** [head] is the head of a list whose entries are [xs], in order. *)
Definition dlist (h : lheap) (head : Z) (xs : list Z) : Prop :=
  NoDup (head :: xs) /\ chain h (head :: xs ++ [head]).

(** The effect of the setters on the pointers. *)
Definition upd_next (p v : Z) (h : lheap) : lheap :=
  alter (fun n => mkHead v (prev n)) p h.
Definition upd_prev (p v : Z) (h : lheap) : lheap :=
  alter (fun n => mkHead (next n) v) p h.

Lemma set_next_run p v h : is_Some (h !! p) -> set_next p v h = Ret (tt, upd_next p v h).
Proof.
  intros [n Hn]. unfold set_next, cbind, load, cmod. rewrite Hn. unfold upd_next.
  do 2 f_equal. apply map_eq. intros i. rewrite lookup_alter. case_decide; simplify_map_eq; done.
Qed.

Lemma set_prev_run p v h : is_Some (h !! p) -> set_prev p v h = Ret (tt, upd_prev p v h).
Proof.
  intros [n Hn]. unfold set_prev, cbind, load, cmod. rewrite Hn. unfold upd_prev.
  do 2 f_equal. apply map_eq. intros i. rewrite lookup_alter. case_decide; simplify_map_eq; done.
Qed.

Lemma nxt_upd_next p v h q :
  is_Some (h !! p) -> nxt (upd_next p v h) q = if decide (p = q) then Some v else nxt h q.
Proof.
  intros [n Hn]. unfold nxt, upd_next. rewrite lookup_alter. case_decide; [subst; by rewrite Hn|done].
Qed.

Lemma prv_upd_next p v h q : prv (upd_next p v h) q = prv h q.
Proof. unfold prv, upd_next. rewrite lookup_alter. case_decide; [subst; by destruct (h !! q)|done]. Qed.

Lemma prv_upd_prev p v h q :
  is_Some (h !! p) -> prv (upd_prev p v h) q = if decide (p = q) then Some v else prv h q.
Proof.
  intros [n Hn]. unfold prv, upd_prev. rewrite lookup_alter. case_decide; [subst; by rewrite Hn|done].
Qed.

Lemma nxt_upd_prev p v h q : nxt (upd_prev p v h) q = nxt h q.
Proof. unfold nxt, upd_prev. rewrite lookup_alter. case_decide; [subst; by destruct (h !! q)|done]. Qed.

Lemma is_Some_upd_next p v h q : is_Some (upd_next p v h !! q) <-> is_Some (h !! q).
Proof. unfold upd_next. rewrite lookup_alter. case_decide; [subst; by rewrite fmap_is_Some|done]. Qed.

Lemma is_Some_upd_prev p v h q : is_Some (upd_prev p v h !! q) <-> is_Some (h !! q).
Proof. unfold upd_prev. rewrite lookup_alter. case_decide; [subst; by rewrite fmap_is_Some|done]. Qed.

Lemma lookup_upd_next_ne p v h q : p <> q -> upd_next p v h !! q = h !! q.
Proof. intros. unfold upd_next. by rewrite lookup_alter_ne. Qed.

Lemma lookup_upd_prev_ne p v h q : p <> q -> upd_prev p v h !! q = h !! q.
Proof. intros. unfold upd_prev. by rewrite lookup_alter_ne. Qed.

Lemma nxt_is_Some h p q : nxt h p = Some q -> is_Some (h !! p).
Proof. unfold nxt. intros H%fmap_Some. destruct H as (n & -> & _). eauto. Qed.

Lemma prv_is_Some h p q : prv h p = Some q -> is_Some (h !! p).
Proof. unfold prv. intros H%fmap_Some. destruct H as (n & -> & _). eauto. Qed.

#[export] Hint Rewrite prv_upd_next nxt_upd_prev : sstack_rw.
#[export] Hint Resolve nxt_is_Some prv_is_Some : sstack.
#[export] Hint Resolve <- is_Some_upd_next is_Some_upd_prev : sstack.

Lemma get_next_run h p q : nxt h p = Some q -> get_next p h = Ret (q, h).
Proof.
  unfold nxt, get_next, cbind, load. intros (n & Hn & ->)%fmap_Some. by rewrite Hn.
Qed.

Lemma get_prev_run h p q : prv h p = Some q -> get_prev p h = Ret (q, h).
Proof.
  unfold prv, get_prev, cbind, load. intros (n & Hn & ->)%fmap_Some. by rewrite Hn.
Qed.

(** * Chains *)

Lemma chain_cons h a b l :
  chain h (a :: b :: l) <-> nxt h a = Some b /\ prv h b = Some a /\ chain h (b :: l).
Proof. done. Qed.

Lemma chain_app h l1 a l2 :
  chain h (l1 ++ a :: l2) <-> chain h (l1 ++ [a]) /\ chain h (a :: l2).
Proof.
  induction l1 as [|x l1 IH]; [simpl; tauto|].
  destruct l1 as [|y l1]; simpl in *; [tauto|]. rewrite IH. tauto.
Qed.

(** A chain survives a change of the heap that keeps the [next] of all its
    nodes but the last and the [prev] of all but the first. *)
Lemma chain_frame h h' a l :
  chain h (a :: l) ->
  (forall x, x ∈ removelast (a :: l) -> nxt h' x = nxt h x) ->
  (forall y, y ∈ l -> prv h' y = prv h y) -> chain h' (a :: l).
Proof.
  revert a. induction l as [|b l IH]; intros a Hc Hn Hp; [done|].
  destruct Hc as (H1 & H2 & H3). simpl. split_and!.
  - rewrite Hn; [done|]. simpl. destruct l; set_solver.
  - rewrite Hp; [done|]. set_solver.
  - apply IH; [done| |].
    + intros x Hx. apply Hn. simpl in *. set_solver.
    + intros y Hy. apply Hp. set_solver.
Qed.

Lemma removelast_snoc {A} (l : list A) x : removelast (l ++ [x]) = l.
Proof. apply removelast_last. Qed.

(** The first and the last link of a list. *)
Lemma dlist_first h head xs :
  dlist h head xs -> exists b, nxt h head = Some b /\ prv h b = Some head /\
    xs ++ [head] = b :: tail (xs ++ [head]).
Proof.
  intros [_ Hc]. destruct xs as [|x xs]; simpl in *; [exists head|exists x]; tauto.
Qed.

Lemma dlist_last h head xs :
  dlist h head xs -> exists a pre, head :: xs = pre ++ [a] /\
    nxt h a = Some head /\ prv h head = Some a /\ chain h (pre ++ [a]).
Proof.
  intros [_ Hc]. destruct (exists_last (l := head :: xs)) as (pre & a & He); [done|].
  exists a, pre. split; [done|].
  rewrite app_comm_cons, He, <- app_assoc in Hc. apply chain_app in Hc as [Hc1 Hc2].
  simpl in Hc2. tauto.
Qed.

(** * The operations *)

(** What [INIT_LIST_HEAD] makes of an allocated head: the empty list. *)
Lemma INIT_LIST_HEAD_run h head :
  is_Some (h !! head) ->
  exists h', INIT_LIST_HEAD head h = Ret (tt, h') /\ dlist h' head [] /\
    (forall p, p <> head -> h' !! p = h !! p) /\ (forall p, is_Some (h' !! p) <-> is_Some (h !! p)).
Proof.
  intros Hh. exists (upd_next head head (upd_prev head head h)).
  unfold INIT_LIST_HEAD, cbind. rewrite set_prev_run, set_next_run by auto with sstack.
  split_and!; [done| | |].
  - split; [apply NoDup_singleton|]. simpl. autorewrite with sstack_rw.
    rewrite nxt_upd_next by auto with sstack. rewrite prv_upd_prev by done.
    rewrite !decide_True by done. done.
  - intros p Hp. rewrite lookup_upd_next_ne, lookup_upd_prev_ne; done.
  - intros p. rewrite is_Some_upd_next. apply is_Some_upd_prev.
Qed.

(** The heap after [__bds_list_add]. *)
Definition linked_in (new a b : Z) (h : lheap) : lheap :=
  upd_prev b new (upd_prev new a (upd_next new b (upd_next a new h))).

Lemma __bds_list_add_run h new a b :
  is_Some (h !! new) -> is_Some (h !! a) -> is_Some (h !! b) ->
  __bds_list_add new a b h = Ret (tt, linked_in new a b h).
Proof.
  intros. unfold __bds_list_add, cbind.
  rewrite !set_next_run, !set_prev_run by (rewrite ?is_Some_upd_prev, ?is_Some_upd_next; done).
  done.
Qed.

Lemma nxt_linked_in new a b h q :
  is_Some (h !! new) -> is_Some (h !! a) -> new <> a ->
  nxt (linked_in new a b h) q
  = if decide (new = q) then Some b else if decide (a = q) then Some new else nxt h q.
Proof.
  intros. unfold linked_in. autorewrite with sstack_rw.
  rewrite !nxt_upd_next by (rewrite ?is_Some_upd_next; done). done.
Qed.

Lemma prv_linked_in new a b h q :
  is_Some (h !! new) -> is_Some (h !! b) ->
  prv (linked_in new a b h) q
  = if decide (b = q) then Some new else if decide (new = q) then Some a else prv h q.
Proof.
  intros. unfold linked_in.
  rewrite !prv_upd_prev by (rewrite ?is_Some_upd_prev, ?is_Some_upd_next; done).
  autorewrite with sstack_rw. done.
Qed.

Lemma linked_in_other new a b h q :
  q <> new -> q <> a -> q <> b -> linked_in new a b h !! q = h !! q.
Proof.
  intros. unfold linked_in.
  by rewrite !lookup_upd_prev_ne, !lookup_upd_next_ne by congruence.
Qed.

Lemma linked_in_dom new a b h q : is_Some (linked_in new a b h !! q) <-> is_Some (h !! q).
Proof. unfold linked_in. by rewrite !is_Some_upd_prev, !is_Some_upd_next. Qed.

(** Linking a new node between two neighbours of a chain. *)
Lemma chain_linked_in h new a b l1 l2 :
  chain h (l1 ++ [a]) -> chain h (b :: l2) ->
  is_Some (h !! new) -> is_Some (h !! a) -> is_Some (h !! b) ->
  new ∉ l1 ++ a :: b :: l2 -> a ∉ l1 -> a ∉ removelast (b :: l2) ->
  b ∉ tail (l1 ++ [a]) -> b ∉ l2 ->
  chain (linked_in new a b h) (l1 ++ a :: new :: b :: l2).
Proof.
  intros H1 H2 Hn Ha Hb Hnew Ha1 Ha2 Hb1 Hb2.
  rewrite elem_of_app, !elem_of_cons in Hnew.
  assert (new <> a /\ new <> b /\ new ∉ l1 /\ new ∉ l2) as (Hna & Hnb & Hn1 & Hn2) by tauto.
  assert (Hsub : forall x, x ∈ removelast (b :: l2) -> x = b \/ x ∈ l2).
  { intros x Hx. apply elem_of_cons.
    destruct (exists_last (l := b :: l2)) as (p & z & He); [done|].
    rewrite He in *. rewrite removelast_last in Hx. set_solver. }
  apply chain_app. split.
  - destruct l1 as [|x l1]; [done|]. simpl in H1 |- *. eapply chain_frame; [exact H1| |].
    + intros y Hy. change (x :: l1 ++ [a]) with ((x :: l1) ++ [a]) in Hy.
      rewrite removelast_last in Hy. rewrite nxt_linked_in by done.
      rewrite !decide_False by (intros <-; set_solver). done.
    + intros y Hy. rewrite prv_linked_in by done. simpl in Hb1.
      rewrite !decide_False by (intros <-; set_solver). done.
  - rewrite !chain_cons. split_and!.
    + rewrite nxt_linked_in by done. rewrite decide_False, decide_True by done. done.
    + rewrite prv_linked_in by done. rewrite decide_False, decide_True by congruence. done.
    + rewrite nxt_linked_in by done. rewrite decide_True by done. done.
    + rewrite prv_linked_in by done. rewrite decide_True by done. done.
    + eapply chain_frame; [exact H2| |].
      * intros y Hy. rewrite nxt_linked_in by done.
        rewrite !decide_False; [done|intros <-; done|intros <-].
        destruct (Hsub _ Hy); done.
      * intros y Hy. rewrite prv_linked_in by done.
        rewrite !decide_False by (intros <-; done). done.
Qed.

Lemma dlist_alloc h head xs p : dlist h head xs -> p ∈ head :: xs -> is_Some (h !! p).
Proof.
  intros [_ Hc] Hp. apply list_elem_of_split in Hp as (l1 & l2 & He).
  rewrite app_comm_cons, He, <- app_assoc in Hc. apply chain_app in Hc as [_ Hc].
  destruct l2; simpl in Hc; destruct Hc as [Hc _]; eauto with sstack.
Qed.

(** [bds_list_add] puts the new entry at the front. *)
Lemma bds_list_add_run h head xs new :
  dlist h head xs -> is_Some (h !! new) -> new ∉ head :: xs ->
  exists h', bds_list_add new head h = Ret (tt, h') /\ dlist h' head (new :: xs) /\
    (forall p, p ∉ new :: head :: xs -> h' !! p = h !! p) /\
    (forall p, is_Some (h' !! p) <-> is_Some (h !! p)).
Proof.
  intros Hd Hn Hnew. pose proof Hd as [Hnd Hc].
  destruct (dlist_first _ _ _ Hd) as (b & Hb1 & Hb2 & Hb).
  exists (linked_in new head b h). unfold bds_list_add, cbind.
  rewrite (get_next_run _ _ _ Hb1), __bds_list_add_run by eauto with sstack.
  assert (Hbin : b ∈ head :: xs).
  { assert (b ∈ xs ++ [head]) by (rewrite Hb; set_solver). set_solver. }
  assert (Hnd' : NoDup (xs ++ [head])).
  { apply list.NoDup_cons in Hnd as [? ?]. apply list.NoDup_app. split_and!; [done|set_solver|apply NoDup_singleton]. }
  split_and!; [done| | |intros; apply linked_in_dom].
  - split.
    + rewrite list.Permutation_swap. constructor; done.
    + rewrite <- app_comm_cons, Hb. apply (chain_linked_in h new head b []); try done.
      * rewrite Hb in Hc. destruct Hc as (_ & _ & Hc). exact Hc.
      * eauto with sstack.
      * eauto with sstack.
      * simpl. rewrite <- Hb. set_solver.
      * set_solver.
      * rewrite <- Hb, removelast_last. by apply list.NoDup_cons in Hnd as [? _].
      * set_solver.
      * rewrite Hb in Hnd'. by apply list.NoDup_cons in Hnd' as [? _].
  - intros p Hp. apply linked_in_other; set_solver.
Qed.

(** [bds_list_add_tail] puts the new entry at the back. *)
Lemma bds_list_add_tail_run h head xs new :
  dlist h head xs -> is_Some (h !! new) -> new ∉ head :: xs ->
  exists h', bds_list_add_tail new head h = Ret (tt, h') /\ dlist h' head (xs ++ [new]) /\
    (forall p, p ∉ new :: head :: xs -> h' !! p = h !! p) /\
    (forall p, is_Some (h' !! p) <-> is_Some (h !! p)).
Proof.
  intros Hd Hn Hnew. pose proof Hd as [Hnd Hc].
  destruct (dlist_last _ _ _ Hd) as (a & pre & He & Ha1 & Ha2 & Hpre).
  exists (linked_in new a head h). unfold bds_list_add_tail, cbind.
  rewrite (get_prev_run _ _ _ Ha2), __bds_list_add_run by eauto with sstack.
  assert (Hain : a ∈ head :: xs) by (rewrite He; set_solver).
  split_and!; [done| | |intros; apply linked_in_dom].
  - split.
    + rewrite app_comm_cons. apply list.NoDup_app. split_and!; [done|set_solver|apply NoDup_singleton].
    + rewrite <- app_assoc, app_comm_cons, He, <- app_assoc. simpl.
      apply chain_linked_in; try done.
      * eauto with sstack.
      * eauto with sstack.
      * rewrite (cons_middle a), app_assoc, <- He. set_solver.
      * rewrite He in Hnd. apply list.NoDup_app in Hnd as (_ & Hnd & _). set_solver.
      * set_solver.
      * rewrite <- He. simpl. by apply list.NoDup_cons in Hnd as [? _].
      * set_solver.
  - intros p Hp. apply linked_in_other; set_solver.
Qed.

(** The heap after [__bds_list_del]. *)
Definition linked_out (a b : Z) (h : lheap) : lheap := upd_next a b (upd_prev b a h).

Lemma nxt_linked_out a b h q :
  is_Some (h !! a) -> nxt (linked_out a b h) q = if decide (a = q) then Some b else nxt h q.
Proof.
  intros. unfold linked_out. rewrite nxt_upd_next by (rewrite is_Some_upd_prev; done).
  by autorewrite with sstack_rw.
Qed.

Lemma prv_linked_out a b h q :
  is_Some (h !! b) -> prv (linked_out a b h) q = if decide (b = q) then Some a else prv h q.
Proof. intros. unfold linked_out. autorewrite with sstack_rw. by rewrite prv_upd_prev. Qed.

(** Joining two chains. *)
Lemma chain_linked_out h a b l1 l2 :
  chain h (l1 ++ [a]) -> chain h (b :: l2) -> is_Some (h !! a) -> is_Some (h !! b) ->
  a ∉ l1 -> a ∉ removelast (b :: l2) -> b ∉ tail (l1 ++ [a]) -> b ∉ l2 ->
  chain (linked_out a b h) (l1 ++ a :: b :: l2).
Proof.
  intros H1 H2 Ha Hb Ha1 Ha2 Hb1 Hb2. apply chain_app. split.
  - destruct l1 as [|x l1]; [done|]. simpl in H1 |- *. eapply chain_frame; [exact H1| |].
    + intros y Hy. change (x :: l1 ++ [a]) with ((x :: l1) ++ [a]) in Hy.
      rewrite removelast_last in Hy. rewrite nxt_linked_out by done.
      rewrite decide_False by (intros <-; done). done.
    + intros y Hy. rewrite prv_linked_out by done. simpl in Hb1.
      rewrite decide_False by (intros <-; done). done.
  - rewrite chain_cons. split_and!.
    + rewrite nxt_linked_out by done. by rewrite decide_True.
    + rewrite prv_linked_out by done. by rewrite decide_True.
    + eapply chain_frame; [exact H2| |].
      * intros y Hy. rewrite nxt_linked_out by done. rewrite decide_False by (intros <-; done). done.
      * intros y Hy. rewrite prv_linked_out by done. rewrite decide_False by (intros <-; done). done.
Qed.

(** The neighbours of an entry. *)
Lemma dlist_neighbours h head l1 e l2 :
  dlist h head (l1 ++ e :: l2) ->
  exists a b p1 p2, head :: l1 = p1 ++ [a] /\ l2 ++ [head] = b :: p2 /\
    prv h e = Some a /\ nxt h e = Some b /\ chain h (p1 ++ [a]) /\ chain h (b :: p2).
Proof.
  intros [_ Hc]. destruct (exists_last (l := head :: l1)) as (p1 & a & He); [done|].
  assert (exists b p2, l2 ++ [head] = b :: p2) as (b & p2 & Hb) by (destruct l2; simpl; eauto).
  exists a, b, p1, p2. split; [done|]. split; [done|].
  rewrite <- app_assoc, <- app_comm_cons, Hb in Hc. rewrite (app_comm_cons l1), He, <- app_assoc in Hc.
  apply chain_app in Hc as [Hc1 Hc2].
  change ([a] ++ e :: b :: p2) with (a :: e :: b :: p2) in Hc2. rewrite !chain_cons in Hc2. tauto.
Qed.

(** [bds_list_del] takes the entry out and leaves the others in order. *)
Lemma bds_list_del_run h head l1 e l2 :
  dlist h head (l1 ++ e :: l2) ->
  exists h', bds_list_del e h = Ret (tt, h') /\ dlist h' head (l1 ++ l2) /\
    (forall p, p ∉ head :: l1 ++ l2 -> h' !! p = h !! p) /\
    (forall p, is_Some (h' !! p) <-> is_Some (h !! p)).
Proof.
  intros Hd. pose proof Hd as [Hnd _].
  destruct (dlist_neighbours _ _ _ _ _ Hd) as (a & b & p1 & p2 & Ha & Hb & Hp & Hn & Hc1 & Hc2).
  assert (Hain : a ∈ head :: l1) by (rewrite Ha; set_solver).
  assert (Hbin : b ∈ l2 ++ [head]) by (rewrite Hb; set_solver).
  assert (Hsa : is_Some (h !! a)) by (eapply dlist_alloc; [done|set_solver]).
  assert (Hsb : is_Some (h !! b)) by (eapply dlist_alloc; [done|set_solver]).
  exists (linked_out a b h). split_and!.
  - unfold bds_list_del, cbind. rewrite (get_prev_run _ _ _ Hp), (get_next_run _ _ _ Hn).
    unfold __bds_list_del, cbind. rewrite set_prev_run by done.
    rewrite set_next_run by (by rewrite is_Some_upd_prev). done.
  - assert (Hnd' : NoDup (head :: l1 ++ l2)).
    { revert Hnd. rewrite !list.NoDup_cons, !list.NoDup_app, !list.NoDup_cons. set_solver. }
    split; [done|]. rewrite <- app_assoc, Hb, app_comm_cons, Ha, <- app_assoc. simpl.
    apply chain_linked_out; try done.
    + assert (Hx : NoDup (head :: l1)) by
        (revert Hnd'; rewrite !list.NoDup_cons, list.NoDup_app; set_solver).
      rewrite Ha in Hx. apply list.NoDup_app in Hx as (_ & Hx & _). set_solver.
    + rewrite <- Hb, removelast_last.
      revert Hnd'. rewrite list.NoDup_cons, list.NoDup_app. set_solver.
    + rewrite <- Ha. simpl. revert Hnd'. rewrite list.NoDup_cons, list.NoDup_app. set_solver.
    + assert (Hx : NoDup (l2 ++ [head])).
      { revert Hnd'. rewrite list.NoDup_cons, !list.NoDup_app. intros (? & ? & ? & ?).
        split_and!; [done|set_solver|apply NoDup_singleton]. }
      rewrite Hb in Hx. by apply list.NoDup_cons in Hx as [? _].
  - intros p Hpn. unfold linked_out. rewrite lookup_upd_next_ne, lookup_upd_prev_ne; set_solver.
  - intros p. unfold linked_out. by rewrite is_Some_upd_next, is_Some_upd_prev.
Qed.

Lemma list_empty_run h head xs :
  dlist h head xs -> list_empty head h = Ret (match xs with [] => true | _ => false end, h).
Proof.
  intros [Hnd Hc]. destruct xs as [|x xs]; simpl in Hc; destruct Hc as (Hn & _);
    unfold list_empty, cbind; rewrite (get_next_run _ _ _ Hn); unfold cret; do 2 f_equal.
  - apply Z.eqb_refl.
  - apply Z.eqb_neq. intros ->. apply list.NoDup_cons in Hnd as [Hnd _]. set_solver.
Qed.

(** The walk from an entry [x] on finds the first entry at which [p] holds;
    fuel for the entries that are left is enough. *)
Lemma list_find_from h head p x xs fuel :
  head ∉ x :: xs -> chain h (x :: xs ++ [head]) -> (length (x :: xs) < fuel)%nat ->
  list_find p head x fuel h = Ret (List.find p (x :: xs), h).
Proof.
  revert x fuel. induction xs as [|y xs IH]; intros x [|fuel] Hh Hc Hf; simpl in Hf; try lia; simpl.
  - rewrite (proj2 (Z.eqb_neq x head)) by set_solver. case_if; [done|].
    destruct Hc as (Hn & _). unfold cbind. rewrite (get_next_run _ _ _ Hn).
    destruct fuel; [lia|]. simpl. by rewrite Z.eqb_refl.
  - rewrite (proj2 (Z.eqb_neq x head)) by set_solver. case_if; [done|].
    destruct Hc as (Hn & _ & Hc). unfold cbind. rewrite (get_next_run _ _ _ Hn).
    apply IH; [set_solver|exact Hc|simpl; lia].
Qed.

Lemma list_find_run h head xs p fuel n :
  dlist h head xs -> nxt h head = Some n -> (length xs < fuel)%nat ->
  list_find p head n fuel h = Ret (List.find p xs, h).
Proof.
  intros [Hnd Hc] Hn Hf. destruct xs as [|x xs]; simpl in Hc; destruct Hc as (Hn' & Hc);
    rewrite Hn' in Hn; simplify_eq.
  - destruct fuel; [simpl in Hf; lia|]. simpl. by rewrite Z.eqb_refl.
  - apply list_find_from; [by apply list.NoDup_cons in Hnd as [? _]|tauto|done].
Qed.

(** A list does not see changes elsewhere in the heap. *)
Lemma dlist_frame h h' head xs :
  dlist h head xs -> (forall p, p ∈ head :: xs -> h' !! p = h !! p) -> dlist h' head xs.
Proof.
  intros [Hnd Hc] Hf. split; [done|]. eapply chain_frame; [exact Hc| |].
  - intros x Hx. rewrite app_comm_cons, removelast_last in Hx. unfold nxt. by rewrite Hf.
  - intros y Hy. unfold prv. rewrite Hf; [done|]. set_solver.
Qed.

(** The entries of a list occupy distinct cells of the heap. *)
Lemma dlist_length h head xs : dlist h head xs -> (length xs < size h)%nat.
Proof.
  intros Hd. pose proof Hd as [Hnd _].
  assert (Hs : list_to_set (head :: xs) ⊆ dom h).
  { intros p Hp. rewrite elem_of_list_to_set in Hp. apply elem_of_dom. by eapply dlist_alloc. }
  apply subseteq_size in Hs. rewrite size_list_to_set, size_dom in Hs by done. simpl in Hs. lia.
Qed.
