(* ===== verification/SlabLayout.v ===== *)
(** How the slab allocator lays a cache out: [cache_estimate],
    [calculate_slab_order] and [__setup_cache_desc] of
    common/src/bds_slab/bds_slab.c.

    A slab is a number of pages that holds objects of one size; its descriptor
    and an array of 16-bit indices are in front of the objects, or in a block
    of their own. What is left over is used to give the slabs different
    colours, offsets of their first object. *)
From Stdlib Require Import ZArith Lia.
From stdpp Require Import base list numbers.
From S2P Require Import Prelude.

Module SlabLayout.
#[local] Set Default Proof Using "Type".

(** [sizeof(struct _slab_desc)], [sizeof(bds_bufctl_t)] and the size of a
    pointer. *)
Definition SIZEOF_SLAB_DESC : Z := 104.
Definition SIZEOF_BUFCTL : Z := 2.
Definition SIZEOF_POINTER : Z := 8.
Definition SLAB_LIMIT : Z := 2 ^ 32 - 4.
Definition BDS_ALLOC_SHIFT_HIGH : Z := 25.
Definition SLAB_MAGIC : Z := 0xdeadbeef.

(** The flag CFLGS_OFF_SLAB is bit 31 of an [int]. *)
Definition off_flag (flags : Z) : bool := Z.testbit flags 31.
Definition set_off (flags : Z) : Z := swrap 32 (Z.setbit flags 31).
Definition clear_off (flags : Z) : Z := swrap 32 (Z.clearbit (uwrap 32 flags) 31).

(** The fields of a cache that its layout and its slabs are about. *)
Record cache_desc : Type := mkCache {
  flags : Z;
  num : Z;
  colour : Z;
  colour_offset : Z;
  colour_next : Z;
  page_order : Z;
  slab_size : Z;
  mgmt_size : Z;
  buffer_size : Z;
  slab_magic : Z;
  refcount : Z;
  free_slab_count : Z;
  total_slab_count : Z;
  linger : Z
}.

Definition off_slab (c : cache_desc) : bool := off_flag (flags c).

Section Layout.
(** [getpagesize()] is [2 ^ page_shift], [line] is [__getcachelinesize()]. *)
Context (page_shift line : Z).

Definition pages (order : Z) : Z := 2 ^ page_shift * 2 ^ order.

(** The bytes left over and the number of objects of a slab. *)
Definition cache_estimate (order size : Z) (off : bool) : outcome (Z * Z) :=
  let slab := pages order in
  if off then
    if size =? 0 then Fault DivByZero
    else
      let nr := Z.min (uwrap 32 (slab / size)) SLAB_LIMIT in
      Ret (uwrap 64 (slab - nr * size), nr)
  else
    let nr := Z.min (uwrap 32 (uwrap 64 (slab - SIZEOF_SLAB_DESC) / (size + SIZEOF_BUFCTL))) SLAB_LIMIT in
    Ret (uwrap 64 (slab - (nr * size + (SIZEOF_SLAB_DESC + nr * SIZEOF_BUFCTL))), nr).

(** The fields that [calculate_slab_order] sets. *)
Definition set_order (n order : Z) (c : cache_desc) : cache_desc :=
  mkCache (flags c) n (colour c) (colour_offset c) (colour_next c) order (pages order) (mgmt_size c) (buffer_size c)
    (slab_magic c) (refcount c) (free_slab_count c) (total_slab_count c) (linger c).

(** The loop, with [k] orders from [order] on left. *)
Fixpoint try_orders (k : nat) (order size : Z) (off : bool) (left_over : Z) (c : cache_desc) : outcome (Z * cache_desc) :=
  match k with
  | O => Ret (left_over, c)
  | S k' =>
      match cache_estimate order size off with
      | Fault f => Fault f
      | Ret (remainder, n) =>
          if n =? 0 then try_orders k' (order + 1) size off left_over c
          else
            let c := set_order n order c in
            if uwrap 64 (remainder * 16) <=? pages order then Ret (remainder, c)
            else if off && (uwrap 32 (size - SIZEOF_POINTER) / SIZEOF_BUFCTL <? n) then Ret (remainder, c)
            else try_orders k' (order + 1) size off remainder c
      end
  end.
Definition max_order : Z := BDS_ALLOC_SHIFT_HIGH - page_shift.
Definition calculate_slab_order (c : cache_desc) (size : Z) (off : bool) : outcome (Z * cache_desc) :=
  try_orders (Z.to_nat (max_order + 1)) 0 size off 0 c.

(** Returns 0 or -ENOMEM. The lists of slabs are empty, the locks are free. *)
Definition __setup_cache_desc (c : cache_desc) (fl size : Z) : outcome (Z * cache_desc) :=
  let fl := if 2 ^ page_shift / 8 <=? size then set_off fl else fl in
  match calculate_slab_order c size (off_flag fl) with
  | Fault f => Fault f
  | Ret (lo, c) =>
      let lo := uwrap 32 lo in
      if num c =? 0 then Ret (- ENOMEM, c)
      else
        let mgmt := SIZEOF_BUFCTL * num c + SIZEOF_SLAB_DESC in
        let on := off_flag fl && (mgmt <=? lo) in
        let fl := if on then clear_off fl else fl in
        let lo := if on then lo - mgmt else lo in
        let coff := swrap 16 line in
        if coff =? 0 then Fault DivByZero
        else
          let col := swrap 16 (lo / uwrap 32 coff) in
          Ret (0, mkCache fl (num c) col (if col =? 0 then 0 else coff) (colour_next c) (page_order c) (slab_size c)
                    (swrap 32 mgmt) size SLAB_MAGIC 0 0 0 (linger c))
  end.

(** The colour of the next slab, an [int16_t]. *)
Definition next_colour (c : cache_desc) : Z :=
  if colour c =? 0 then colour_next c
  else swrap 16 (Z.rem (colour_next c + colour_offset c) (colour c * colour_offset c)).

(** The cache with another next colour. *)
Definition set_colour_next (x : Z) (c : cache_desc) : cache_desc :=
  mkCache (flags c) (num c) (colour c) (colour_offset c) x (page_order c) (slab_size c) (mgmt_size c) (buffer_size c)
    (slab_magic c) (refcount c) (free_slab_count c) (total_slab_count c) (linger c).

(** The offset of object [i] in the pages of a slab of the given colour. *)
Definition object_offset (c : cache_desc) (col i : Z) : Z :=
  col + (if off_slab c then 0 else mgmt_size c) + i * buffer_size c.

(** * The objects lie inside the slab *)

Context (Hshift : 10 <= page_shift <= 16) (Hline : 0 < line < 2 ^ 15).

Lemma pages_range order : 0 <= order <= max_order -> 2 ^ 10 <= pages order <= 2 ^ 25.
Proof using Hshift.
  unfold max_order, BDS_ALLOC_SHIFT_HIGH, pages. intros Ho. rewrite <- Z.pow_add_r by lia.
  split; apply Z.pow_le_mono_r; lia.
Qed.

(** The bytes that [n] objects use, with the descriptor when it is on the slab. *)
Definition used_bytes (off : bool) (n size : Z) : Z :=
  n * size + (if off then 0 else SIZEOF_SLAB_DESC + n * SIZEOF_BUFCTL).

Lemma cache_estimate_fits order size off rem n :
  0 <= order <= max_order -> 0 <= size -> cache_estimate order size off = Ret (rem, n) ->
  0 <= n < 2 ^ 26 /\ 0 <= rem < 2 ^ 26 /\ used_bytes off n size + rem = pages order.
Proof using Hshift.
  intros Ho Hs He. pose proof (pages_range order Ho) as Hp. unfold cache_estimate in He. cbv zeta in He.
  unfold used_bytes, SIZEOF_SLAB_DESC, SIZEOF_BUFCTL, SLAB_LIMIT in *. destruct off.
  - destruct (size =? 0) eqn:E; [done|]. bool_to_Z.
    assert (Hn : 0 <= pages order / size <= pages order).
    { split; [apply Z.div_pos; lia|]. apply Z.div_le_upper_bound; [lia|]. nia. }
    pose proof (Z.mul_div_le (pages order) size ltac:(lia)) as Hm.
    rewrite (uwrap_small 32), Z.min_l in He by lia. rewrite uwrap_small in He by lia. injection He as <- <-. lia.
  - rewrite (uwrap_small 64 (pages order - 104)) in He by lia.
    assert (Hn : 0 <= (pages order - 104) / (size + 2) <= pages order).
    { split; [apply Z.div_pos; lia|]. apply Z.div_le_upper_bound; [lia|]. nia. }
    pose proof (Z.mul_div_le (pages order - 104) (size + 2) ltac:(lia)) as Hm.
    rewrite (uwrap_small 32), Z.min_l in He by lia. rewrite uwrap_small in He by lia. injection He as <- <-. lia.
Qed.

(** A layout that [calculate_slab_order] may have found. *)
Definition found (size : Z) (off : bool) (lo : Z) (c : cache_desc) : Prop :=
  num c = 0 \/ 0 < num c /\ 0 <= page_order c <= max_order /\ slab_size c = pages (page_order c) /\
    cache_estimate (page_order c) size off = Ret (lo, num c).

Lemma try_orders_found k order size off lo c lo' c' :
  0 <= order -> order + Z.of_nat k <= max_order + 1 -> 0 <= size -> found size off lo c ->
  try_orders k order size off lo c = Ret (lo', c') -> found size off lo' c'.
Proof using Hshift.
  revert order lo c. induction k as [|k IH]; intros order lo c Ho Hk Hs Hf; cbn [try_orders].
  - by intros [= <- <-].
  - destruct (cache_estimate order size off) as [[rem n]|] eqn:He; [|done].
    assert (Hom : 0 <= order <= max_order) by lia.
    destruct (cache_estimate_fits _ _ _ _ _ Hom Hs He) as (Hn & Hr & _).
    destruct (n =? 0) eqn:E; bool_to_Z. { apply IH; (done || lia). }
    assert (Hf' : found size off rem (set_order n order c)) by (right; cbn; split_and!; (done || lia)).
    destruct (_ <=? _); [by intros [= <- <-]|]. destruct (_ && _); [by intros [= <- <-]|]. apply IH; (done || lia).
Qed.

Lemma try_orders_colour k order size off lo c lo' c' :
  try_orders k order size off lo c = Ret (lo', c') -> colour_next c' = colour_next c.
Proof.
  revert order lo c. induction k as [|k IH]; intros order lo c; cbn [try_orders]; [by intros [= <- <-]|].
  destruct (cache_estimate order size off) as [[rem n]|]; [|done]. destruct (n =? 0); [apply IH|].
  destruct (_ <=? _); [by intros [= <- <-]|]. destruct (_ && _); [by intros [= <- <-]|]. by intros ->%IH.
Qed.

(** What [__setup_cache_desc] makes of a fresh descriptor. *)
Record layout_ok (c : cache_desc) : Prop := {
  lo_num : 0 < num c;
  lo_order : 0 <= page_order c <= max_order;
  lo_slab : slab_size c = pages (page_order c);
  lo_mgmt : mgmt_size c = SIZEOF_BUFCTL * num c + SIZEOF_SLAB_DESC;
  lo_coff : 0 <= colour_offset c;
  lo_fits : (if off_slab c then 0 else mgmt_size c) + num c * buffer_size c + Z.abs (colour c) * colour_offset c <= slab_size c
}.

Lemma swrap16_abs n : 0 <= n -> Z.abs (swrap 16 n) <= n.
Proof.
  intros Hn. unfold swrap. change (16 - 1) with 15.
  pose proof (Z.mod_pos_bound (n + 2 ^ 15) (2 ^ 16)). destruct (Z.lt_ge_cases n (2 ^ 15)) as [Hl|]; [|lia].
  rewrite Z.mod_small by lia. lia.
Qed.

Lemma off_set fl : off_flag (set_off fl) = true.
Proof.
  unfold off_flag, set_off. rewrite <- (Z.mod_pow2_bits_low (swrap 32 _) 32 31) by lia.
  change (swrap 32 (Z.setbit fl 31) mod 2 ^ 32) with (uwrap 32 (swrap 32 (Z.setbit fl 31))).
  rewrite uwrap_swrap by lia. unfold uwrap. rewrite Z.mod_pow2_bits_low by lia. apply Z.setbit_eq. lia.
Qed.

Lemma off_clear fl : off_flag (clear_off fl) = false.
Proof.
  unfold off_flag, clear_off. rewrite <- (Z.mod_pow2_bits_low (swrap 32 _) 32 31) by lia.
  change (swrap 32 ?x mod 2 ^ 32) with (uwrap 32 (swrap 32 x)).
  rewrite uwrap_swrap by lia. unfold uwrap at 1. rewrite Z.mod_pow2_bits_low by lia. apply Z.clearbit_eq.
Qed.

Lemma setup_cache_desc_ok c fl size c' :
  num c = 0 -> 0 <= size -> __setup_cache_desc c fl size = Ret (0, c') ->
  layout_ok c' /\ buffer_size c' = size /\ colour_next c' = colour_next c /\ slab_magic c' = SLAB_MAGIC.
Proof using Hshift Hline.
  intros Hc Hs. unfold __setup_cache_desc. cbv zeta. set (fl' := if _ <=? _ then _ else fl).
  destruct (calculate_slab_order c size (off_flag fl')) as [[lo c1]|] eqn:He; [|done].
  assert (Hf : found size (off_flag fl') lo c1).
  { eapply try_orders_found; [| | | |exact He]; [lia| |done|by left]. unfold max_order, BDS_ALLOC_SHIFT_HIGH. lia. }
  destruct (num c1 =? 0) eqn:E; [done|]. bool_to_Z. destruct Hf as [|(Hn & Ho & Hsl & Hest)]; [lia|].
  destruct (cache_estimate_fits _ _ _ _ _ Ho Hs Hest) as (Hn' & Hlo & Hfit).
  rewrite (uwrap_small 32 lo), (swrap_small 16 line) by lia. rewrite (proj2 (Z.eqb_neq line 0)) by lia.
  rewrite (uwrap_small 32 line) by lia. unfold used_bytes, SIZEOF_BUFCTL, SIZEOF_SLAB_DESC in *.
  set (mg := 2 * num c1 + 104) in *. rewrite (swrap_small 32 mg) by lia.
  set (on := off_flag fl' && (mg <=? lo)). set (rest := if on then lo - mg else lo).
  assert (Hrest : 0 <= rest /\ (if (if on then true else negb (off_flag fl')) then mg else 0) + num c1 * size + rest = pages (page_order c1)).
  { unfold rest, on. destruct (off_flag fl'); cbn [andb negb]; [destruct (mg <=? lo) eqn:Em|]; bool_to_Z; unfold mg in *; lia. }
  intros [= <-]. split; [|cbn; split_and!; [done|by apply (try_orders_colour _ _ _ _ _ _ _ _ He)|done]]. destruct Hrest as [Hr0 Hr].
  assert (Hcol : Z.abs (swrap 16 (rest / line)) * line <= rest).
  { pose proof (swrap16_abs (rest / line)) as Ha. pose proof (Z.mul_div_le rest line).
    assert (0 <= rest / line) by (apply Z.div_pos; lia). nia. }
  split; cbn [num page_order slab_size mgmt_size colour_offset colour buffer_size]; [done..| |].
  - case_if; lia.
  - rewrite Hsl, <- Hr. unfold off_slab. cbn [flags].
    assert (Hoff : off_flag (if on then clear_off fl' else fl') = negb (if on then true else negb (off_flag fl'))).
    { unfold on. destruct (off_flag fl') eqn:Ef; cbn [andb negb]; [|by rewrite Ef]. destruct (mg <=? lo); [apply off_clear|by rewrite Ef]. }
    rewrite Hoff. destruct (if on then true else negb (off_flag fl')); cbn [negb]; case_if; lia.
Qed.

(** The colours that occur. *)
Definition colour_ok (c : cache_desc) : Prop :=
  colour_next c = 0 \/ 0 < colour_next c < Z.abs (colour c * colour_offset c).

Lemma next_colour_ok c : 0 <= colour_offset c -> Z.abs (colour c * colour_offset c) <= 2 ^ 15 ->
  colour_ok c -> next_colour c = 0 \/ 0 < next_colour c < Z.abs (colour c * colour_offset c).
Proof.
  intros Ho Hb Hc. unfold next_colour. destruct (colour c =? 0) eqn:E; bool_to_Z. { exact Hc. }
  destruct (Z.eq_dec (colour_offset c) 0) as [Hz|Hz].
  { rewrite Hz, !Z.mul_0_r in *. cbn in *. destruct Hc as [->|]; [|lia]. left. reflexivity. }
  assert (Hne : colour c * colour_offset c <> 0) by (apply Z.neq_mul_0; auto).
  assert (0 <= colour_next c) by (destruct Hc as [->|]; lia).
  pose proof (Z.rem_bound_pos_pos (colour_next c + colour_offset c) (Z.abs (colour c * colour_offset c))) as Hr.
  rewrite Z.rem_abs_r in Hr by done. rewrite swrap_small; lia.
Qed.

(** C34. The layout of a cache: every object of a slab of any of its colours lies in
    the pages of the slab and behind the descriptor when that is there, and
    objects do not overlap. The colours must fit in 16 bits, that is less than
    32 KiB may be left over. *)
Theorem objects_in_slab c fl size c' i :
  num c = 0 -> 0 <= size -> __setup_cache_desc c fl size = Ret (0, c') ->
  Z.abs (colour c' * colour_offset c') <= 2 ^ 15 -> colour_ok c' -> 0 <= i < num c' ->
  (if off_slab c' then 0 else mgmt_size c') <= object_offset c' (colour_next c') i /\
  object_offset c' (colour_next c') i + size <= slab_size c' /\
  (forall j, i < j < num c' -> object_offset c' (colour_next c') i + size <= object_offset c' (colour_next c') j) /\
  colour_ok (set_colour_next (next_colour c') c').
Proof using Hshift Hline.
  intros Hc Hs Hset Hb Hcol Hi. destruct (setup_cache_desc_ok _ _ _ _ Hc Hs Hset) as (Hok & Hsz & _ & _).
  destruct Hok as [Hn _ _ _ Hco Hfit].
  assert (Habs : Z.abs (colour c' * colour_offset c') = Z.abs (colour c') * colour_offset c').
  { rewrite Z.abs_mul. f_equal. apply Z.abs_eq. lia. }
  unfold object_offset. rewrite Hsz in *.
  assert (0 <= colour_next c' /\ (if off_slab c' then 0 else mgmt_size c') + num c' * size + colour_next c' <= slab_size c') as [H0 Hf].
  { destruct Hcol as [->|]; lia. }
  split; [nia|]. split; [nia|]. split; [intros j Hj; nia|].
  unfold colour_ok. cbn. apply next_colour_ok; [lia|done|done].
Qed.

(** * Which sizes there are caches for *)

Lemma try_orders_pos k order size off lo c lo' c' :
  0 <= order -> order + Z.of_nat k <= max_order + 1 -> 0 <= size -> 0 < num c ->
  try_orders k order size off lo c = Ret (lo', c') -> 0 < num c'.
Proof using Hshift.
  revert order lo c. induction k as [|k IH]; intros order lo c Ho Hk Hs Hc; cbn [try_orders]; [by intros [= <- <-]|].
  destruct (cache_estimate order size off) as [[rem n]|] eqn:He; [|done].
  assert (Hom : 0 <= order <= max_order) by lia. destruct (cache_estimate_fits _ _ _ _ _ Hom Hs He) as (Hn & _).
  destruct (n =? 0) eqn:E; bool_to_Z; [apply IH; (done || lia)|].
  destruct (_ <=? _); [intros [= <- <-]; cbn; lia|]. destruct (_ && _); [intros [= <- <-]; cbn; lia|]. apply IH; cbn; lia.
Qed.

(** The loop finds a layout exactly when some order has room for an object. *)
Lemma try_orders_zero k order size off lo c lo' c' :
  0 <= order -> order + Z.of_nat k <= max_order + 1 -> 0 <= size -> num c = 0 ->
  try_orders k order size off lo c = Ret (lo', c') ->
  num c' = 0 <-> (forall o rem n, order <= o < order + Z.of_nat k -> cache_estimate o size off = Ret (rem, n) -> n = 0).
Proof using Hshift.
  revert order lo c. induction k as [|k IH]; intros order lo c Ho Hk Hs Hc; cbn [try_orders].
  - intros [= <- <-]. split; [lia|done].
  - destruct (cache_estimate order size off) as [[rem n]|] eqn:He; [|done].
    assert (Hom : 0 <= order <= max_order) by lia. destruct (cache_estimate_fits _ _ _ _ _ Hom Hs He) as (Hn & _).
    destruct (n =? 0) eqn:E; bool_to_Z.
    + intros Hr. rewrite (IH (order + 1) lo c ltac:(lia) ltac:(lia) Hs Hc Hr). split; intros Hall o rem' n' Hoo Hest.
      * destruct (Z.eq_dec o order) as [->|]; [congruence|]. apply (Hall o rem' n'); [lia|done].
      * apply (Hall o rem' n'); [lia|done].
    + intros Hr. assert (Hpos : 0 < num c').
      { revert Hr. destruct (_ <=? _); [intros [= <- <-]; cbn; lia|]. destruct (_ && _); [intros [= <- <-]; cbn; lia|].
        apply try_orders_pos; cbn; lia. }
      split; [lia|]. intros Hall. specialize (Hall order rem n ltac:(lia) He). lia.
Qed.

Lemma try_orders_returns k order size off lo c : (off = true -> size <> 0) ->
  exists r, try_orders k order size off lo c = Ret r.
Proof.
  intros Hs. revert order lo c. induction k as [|k IH]; intros order lo c; cbn [try_orders]; [eauto|].
  assert (exists rem n, cache_estimate order size off = Ret (rem, n)) as (rem & n & ->).
  { unfold cache_estimate. destruct off; [|eauto]. rewrite (proj2 (Z.eqb_neq size 0)) by auto. eauto. }
  destruct (n =? 0); [apply IH|]. destruct (_ <=? _); [eauto|]. destruct (_ && _); [eauto|]. apply IH.
Qed.

(** The sizes of the objects that a slab of some order has room for. *)
Lemma order_for_size size off :
  0 <= size -> (off = true <-> 2 ^ page_shift / 8 <= size) ->
  (exists o rem n, 0 <= o < 0 + Z.of_nat (Z.to_nat (max_order + 1)) /\ cache_estimate o size off = Ret (rem, n) /\ n <> 0)
  <-> size <= 2 ^ 25.
Proof using Hshift.
  clear Hline. intros Hs Hoff. assert (Hm : max_order = 25 - page_shift) by reflexivity.
  assert (Hp8 : 2 ^ 10 <= 2 ^ page_shift <= 2 ^ 16) by (split; apply Z.pow_le_mono_r; lia).
  split.
  - intros (o & rem & n & Ho & He & Hn). assert (Hom : 0 <= o <= max_order) by lia.
    destruct (cache_estimate_fits _ _ _ _ _ Hom Hs He) as (Hn' & Hr & Hu). pose proof (pages_range o Hom).
    unfold used_bytes, SIZEOF_SLAB_DESC, SIZEOF_BUFCTL in Hu. destruct off; nia.
  - intros Hle. destruct off.
    + assert (H0 : 0 < size).
      { assert (2 ^ page_shift / 8 <= size) by tauto. assert (1 <= 2 ^ page_shift / 8) by (apply Z.div_le_lower_bound; lia). lia. }
      exists max_order. unfold cache_estimate. rewrite (proj2 (Z.eqb_neq size 0)) by lia. eexists _, _. split; [lia|]. split; [reflexivity|].
      assert (Hpg : pages max_order = 2 ^ 25).
      { unfold pages. rewrite <- Z.pow_add_r by lia. f_equal. lia. }
      assert (1 <= pages max_order / size <= 2 ^ 25).
      { rewrite Hpg. split; [apply Z.div_le_lower_bound; lia|]. apply Z.div_le_upper_bound; [lia|]. nia. }
      rewrite uwrap_small by lia. unfold SLAB_LIMIT. lia.
    + assert (size < 2 ^ page_shift / 8). { destruct (Z.lt_ge_cases size (2 ^ page_shift / 8)) as [|Hge]; [done|]. apply Hoff in Hge. done. }
      pose proof (Z.mul_div_le (2 ^ page_shift) 8 ltac:(lia)).
      exists 0. unfold cache_estimate. eexists _, _. split; [lia|]. split; [reflexivity|].
      assert (Hpg : pages 0 = 2 ^ page_shift) by (unfold pages; lia). unfold SIZEOF_SLAB_DESC, SIZEOF_BUFCTL, SLAB_LIMIT.
      rewrite Hpg, (uwrap_small 64) by lia.
      assert (1 <= (2 ^ page_shift - 104) / (size + 2) <= 2 ^ page_shift).
      { split; [apply Z.div_le_lower_bound; lia|]. apply Z.div_le_upper_bound; [lia|]. nia. }
      rewrite uwrap_small by lia. lia.
Qed.

(** A cache can be set up exactly for objects of up to 32 MiB; for larger ones
    the answer is -ENOMEM. *)
Theorem setup_size_limit c fl size :
  num c = 0 -> 0 <= size -> off_flag fl = false ->
  exists c', __setup_cache_desc c fl size = Ret (if size <=? 2 ^ 25 then 0 else - ENOMEM, c').
Proof using Hshift Hline.
  intros Hc Hs Hfl. unfold __setup_cache_desc. cbv zeta. set (fl' := if _ <=? _ then _ else fl).
  assert (Hoff : off_flag fl' = true <-> 2 ^ page_shift / 8 <= size).
  { unfold fl'. destruct (_ <=? size) eqn:E; bool_to_Z; [rewrite off_set; done|]. rewrite Hfl. split; [done|lia]. }
  pose proof (order_for_size size _ Hs Hoff) as Hsz.
  destruct (try_orders_returns (Z.to_nat (max_order + 1)) 0 size (off_flag fl') 0 c) as [[lo c1] Hr].
  { intros E. assert (2 ^ page_shift / 8 <= size) by tauto.
    assert (2 ^ 10 <= 2 ^ page_shift) by (apply Z.pow_le_mono_r; lia).
    assert (1 <= 2 ^ page_shift / 8) by (apply Z.div_le_lower_bound; lia). lia. }
  unfold calculate_slab_order. rewrite Hr.
  assert (Hmo : 0 + Z.of_nat (Z.to_nat (max_order + 1)) <= max_order + 1) by (unfold max_order, BDS_ALLOC_SHIFT_HIGH; lia).
  pose proof (try_orders_zero _ _ _ _ _ _ _ _ (Z.le_refl 0) Hmo Hs Hc Hr) as Hz.
  rewrite (swrap_small 16 line), (proj2 (Z.eqb_neq line 0)) by lia.
  destruct (num c1 =? 0) eqn:E; bool_to_Z.
  - rewrite (proj2 (Z.leb_gt size (2 ^ 25))); [eauto|]. destruct (Z.lt_ge_cases (2 ^ 25) size) as [|Hle]; [done|].
    apply Hsz in Hle as (o & rem & n & Ho & He & Hn). by destruct (Hn (proj1 Hz E o rem n Ho He)).
  - rewrite (proj2 (Z.leb_le size (2 ^ 25))); [eauto|]. destruct (Z.le_gt_cases size (2 ^ 25)) as [|Hgt]; [done|]. destruct E. apply Hz.
    intros o rem n Ho He. destruct (Z.eq_dec n 0) as [|Hn]; [done|]. exfalso.
    assert (size <= 2 ^ 25) by (apply Hsz; eauto 8). lia.
Qed.

End Layout.

(** * Examples *)

(** A descriptor that was never used, pages of 4096 bytes, lines of 64. *)
Definition fresh_cache : cache_desc := mkCache 0 0 0 0 0 0 0 0 0 0 0 0 0 0.

Definition cache_of (size : Z) : cache_desc :=
  match __setup_cache_desc 12 64 fresh_cache 0 size with
  | Ret (_, c) => c
  | Fault _ => fresh_cache
  end.

Lemma setup_size_limit_witness :
  exists c', __setup_cache_desc 12 64 fresh_cache 0 65536 = Ret (0, c').
Proof. refine (setup_size_limit 12 64 _ _ fresh_cache 0 65536 _ _ _); [lia|lia|reflexivity|lia|reflexivity]. Defined.

(** The last object of the slab of a cache for 200 bytes. *)
Lemma objects_in_slab_witness :
  num (cache_of 200) = 19 /\ object_offset (cache_of 200) 0 18 + 200 <= slab_size (cache_of 200).
Proof.
  split; [vm_compute; reflexivity|].
  refine (proj1 (proj2 (objects_in_slab 12 64 _ _ fresh_cache 0 200 (cache_of 200) 18 _ _ _ _ _ _))).
  - lia.
  - lia.
  - reflexivity.
  - lia.
  - vm_compute. reflexivity.
  - vm_compute. discriminate.
  - left. vm_compute. reflexivity.
  - vm_compute. split; [discriminate|reflexivity].
Defined.

(** The colour after [n] slabs. *)
Fixpoint colour_after (n : nat) (c : cache_desc) : Z :=
  match n with
  | O => colour_next c
  | S n' => colour_after n' (set_colour_next (next_colour c) c)
  end.

(** A cache for objects of 900,000 bytes has 288,608 bytes left over. The colour
    of its 513th slab does not fit in 16 bits: its first object starts more
    than 32,000 bytes in front of the pages of the slab. *)
Theorem colour_leaves_slab :
  colour_after 511 (cache_of 900000) = 32704 /\ colour_after 512 (cache_of 900000) = - 32768 /\
  object_offset (cache_of 900000) (colour_after 512 (cache_of 900000)) 0 < - 32000.
Proof. vm_compute. repeat split. Qed.

End SlabLayout.
