(* ===== verification/Slab.v ===== *)
(** The slab allocator: allocating and freeing the objects of a cache, growing
    it and collecting its free slabs; common/src/bds_slab/bds_slab.c.

    The slabs of a cache are on three circular lists ([BdsList]): those with
    some objects in use, with all in use, and with none. The free objects of a
    slab are chained by index through the array [bufctl]. *)
From Stdlib Require Import ZArith Lia.
From stdpp Require Import base gmap list numbers.
From S2P Require Import Prelude BdsList SlabLayout.

Module Slab.
Import SlabLayout.
#[local] Set Default Proof Using "All".

Definition NULL : Z := 0.
(** The offset of the list head in a slab descriptor. *)
Definition next_off : Z := 8.
Definition node (a : Z) : Z := a + next_off.

Inductive kind : Set := Partial | Full | Free.
#[global] Instance kind_eq_dec : EqDecision kind.
Proof. solve_decision. Defined.

Record slab_desc : Type := mkSlab {
  sl_colour : Z;
  s_mem : Z;
  free : Z;
  sl_refcount : Z;
  slab_lock : bool;
  bufctl : list Z
}.

Section Slab.
(** The page size is [2 ^ page_shift]; [head] are the addresses of the three
    lists in the cache; [data] is what the users of the objects have stored at
    the beginning of a page. *)
Context (page_shift : Z) (head : kind -> Z) (data : Z -> Z).

(** [mapped] has the size of each mapping; [mmaps] and [mallocs] are what the
    next calls of [mmap] and [malloc] return, NULL when they are used up. *)
Record state : Type := mkState {
  heap : lheap;
  slabs : gmap Z slab_desc;
  cache : cache_desc;
  mapped : gmap Z Z;
  mmaps : list Z;
  mallocs : list Z
}.

Definition set_heap h s := mkState h (slabs s) (cache s) (mapped s) (mmaps s) (mallocs s).
Definition set_slabs x s := mkState (heap s) x (cache s) (mapped s) (mmaps s) (mallocs s).
Definition set_cache c s := mkState (heap s) (slabs s) c (mapped s) (mmaps s) (mallocs s).
Definition set_mapped x s := mkState (heap s) (slabs s) (cache s) x (mmaps s) (mallocs s).

Notation prog := (cprog state).

Definition on_heap {A} (c : cprog lheap A) : prog A := fun s =>
  match c (heap s) with
  | Ret (a, h) => Ret (a, set_heap h s)
  | Fault f => Fault f
  end.

(** The list mutexes are taken and released around one change of a list each;
    they are left out. *)
Definition del (a : Z) : prog unit := on_heap (bds_list_del (node a)).
Definition add (a : Z) (k : kind) : prog unit := on_heap (bds_list_add (node a) (head k)).

Definition load_slab (a : Z) : prog slab_desc :=
  (let! s := cget in cexpect OutOfBounds (slabs s !! a))%cprog.
Definition store_slab (a : Z) (x : slab_desc) : prog unit :=
  cmod (fun s => set_slabs (<[a := x]> (slabs s)) s).

Definition set_lock b (x : slab_desc) : slab_desc :=
  mkSlab (sl_colour x) (s_mem x) (free x) (sl_refcount x) b (bufctl x).
Definition lock_slab (a : Z) : prog unit :=
  (let! x := load_slab a in
   if slab_lock x then cfault Deadlock else store_slab a (set_lock true x))%cprog.
Definition unlock_slab (a : Z) : prog unit :=
  (let! x := load_slab a in store_slab a (set_lock false x))%cprog.

(** The counters of the cache. *)
Definition set_counts (refs free_slabs total : Z) (c : cache_desc) : cache_desc :=
  mkCache (flags c) (num c) (colour c) (colour_offset c) (colour_next c) (page_order c) (slab_size c) (mgmt_size c)
    (buffer_size c) (slab_magic c) refs free_slabs total (linger c).
Definition count (refs free_slabs total : Z) : prog unit :=
  cmod (fun s => let c := cache s in
    set_cache (set_counts (swrap 32 (refcount c + refs)) (swrap 32 (free_slab_count c + free_slabs))
                 (swrap 32 (total_slab_count c + total)) c) s).

(** * Growing a cache *)

Definition __get_free_pages (bytes : Z) : prog Z := fun s =>
  match mmaps s with
  | [] => Ret (NULL, s)
  | p :: l => if p =? NULL then Ret (NULL, mkState (heap s) (slabs s) (cache s) (mapped s) l (mallocs s))
              else Ret (p, mkState (heap s) (slabs s) (cache s) (<[p := bytes]> (mapped s)) l (mallocs s))
  end.
Definition malloc : prog Z := fun s =>
  match mallocs s with
  | [] => Ret (NULL, s)
  | p :: l => Ret (p, mkState (heap s) (slabs s) (cache s) (mapped s) (mmaps s) l)
  end.
Definition __reclaim_free_pages (p : Z) : prog unit := cmod (fun s => set_mapped (delete p (mapped s)) s).

(** [bufctl[i] = i + 1] *)
Definition init_bufctl (n : Z) : list Z := (fun i => uwrap 16 (Z.of_nat i + 1)) <$> seq 0 (Z.to_nat n).

(** The descriptor at [mgmt] of a slab in the pages at [mem]. *)
Definition __setup_slab_desc (mgmt mem : Z) : prog unit :=
  (let! s := cget in
   let c := cache s in
   store_slab mgmt
     (mkSlab (colour_next c) (mem + colour_next c + (if off_slab c then 0 else mgmt_size c)) 0 0 false (init_bufctl (num c))) ;;;
   cmod (set_cache (set_colour_next (next_colour c) c)) ;;;
   on_heap (cmod (fun h => <[node mgmt := mkHead 0 0]> h)) ;;;
   add mgmt Partial ;;;
   count 0 0 1)%cprog.

Definition bds_cache_grow : prog Z :=
  (let! s := cget in
   let! mem := __get_free_pages (slab_size (cache s)) in
   if mem =? NULL then cret (- ENOMEM)
   else if off_slab (cache s) then
     let! mgmt := malloc in
     if mgmt =? NULL then __reclaim_free_pages mem ;;; cret (- ENOMEM)
     else __setup_slab_desc mgmt mem ;;; cret 0
   else __setup_slab_desc mem mem ;;; cret 0)%cprog.

(** * Allocating *)

(** From the locked slab [a]: its next free object, NULL when there is none. *)
Definition take_object (a : Z) : prog (option Z) :=
  (let! s := cget in
   let c := cache s in
   let! x := load_slab a in
   if uwrap 32 (sl_refcount x) <? num c then
     let obj := s_mem x + free x * buffer_size c in
     let! nxt := cexpect OutOfBounds (if free x <? 0 then None else bufctl x !! Z.to_nat (free x)) in
     let n := swrap 32 (sl_refcount x + 1) in
     store_slab a (mkSlab (sl_colour x) (s_mem x) nxt n (slab_lock x) (bufctl x)) ;;;
     count 1 0 0 ;;;
     (if uwrap 32 n =? num c then del a ;;; add a Full else cret tt) ;;;
     unlock_slab a ;;;
     cret (Some obj)
   else unlock_slab a ;;; cret None)%cprog.

(** The recursive calls are bounded by [fuel]. When the cache cannot grow, the
    code goes on with a slab that is NULL. *)
Fixpoint bds_cache_alloc (fuel : nat) : prog Z :=
  match fuel with
  | O => cfault Deadlock
  | S fuel' =>
      (let! none_partial := on_heap (list_empty (head Partial)) in
       let! none_free := on_heap (list_empty (head Free)) in
       if negb none_partial || negb none_free then
         let! a :=
           if negb none_partial then
             let! n := on_heap (get_next (head Partial)) in cret (n - next_off)
           else
             let! n := on_heap (get_next (head Free)) in
             del (n - next_off) ;;;
             add (n - next_off) Partial ;;;
             let! n := on_heap (get_next (head Partial)) in cret (n - next_off) in
         lock_slab a ;;;
         let! obj := take_object a in
         match obj with
         | Some obj => cret obj
         | None => bds_cache_alloc fuel'
         end
       else
         let! status := bds_cache_grow in
         if status <? 0 then cfault NullDeref else bds_cache_alloc fuel')%cprog
  end.

(** * Freeing *)

Definition __free_one (a obj : Z) : prog unit :=
  (let! s := cget in
   let c := cache s in
   let! x := load_slab a in
   if buffer_size c =? 0 then cfault DivByZero
   else
     let offset := uwrap 64 (obj - s_mem x) / buffer_size c in
     lock_slab a ;;;
     if Z.of_nat (length (bufctl x)) <=? offset then cfault OutOfBounds
     else
       let n := swrap 32 (sl_refcount x - 1) in
       store_slab a (mkSlab (sl_colour x) (s_mem x) (swrap 32 offset) n true
                       (<[Z.to_nat offset := uwrap 16 (free x)]> (bufctl x))) ;;;
       count (-1) 0 0 ;;;
       (if uwrap 32 n =? uwrap 32 (num c - 1) then del a ;;; add a Partial else cret tt) ;;;
       (if uwrap 32 n =? 0 then del a ;;; add a Free ;;; count 0 1 0 else cret tt) ;;;
       unlock_slab a)%cprog.

(** The first slab of a list whose objects [obj] may be one of. *)
Definition holds (s : state) (obj p : Z) : bool :=
  match slabs s !! (p - next_off) with
  | Some x => (s_mem x <=? obj) && (obj <=? s_mem x + (num (cache s) - 1) * buffer_size (cache s))
  | None => false
  end.
Definition __find_object_in_slab_list (k : kind) (obj : Z) : prog (option Z) :=
  (let! e := on_heap (list_empty (head k)) in
   if e then cret None
   else
     let! s := cget in
     let! n := on_heap (get_next (head k)) in
     let! r := on_heap (list_find (holds s obj) (head k) n (size (heap s))) in
     cret ((fun p => p - next_off) <$> r))%cprog.

(** What is at the beginning of a page: a descriptor starts with the magic
    number. *)
Definition is_mapped (s : state) (a : Z) : bool :=
  existsb (fun x => (x.1 <=? a) && (a <? x.1 + x.2)) (map_to_list (mapped s)).
Definition page_word (a : Z) : prog Z :=
  (let! s := cget in
   if slabs s !! a then cret (slab_magic (cache s))
   else if is_mapped s a then cret (data a) else cfault OutOfBounds)%cprog.
Definition page_of (a : Z) : Z := Z.land a (Z.shiftl (-1) page_shift).

(** The walk back, page by page, to a word that is the magic number. *)
Fixpoint find_magic (fuel : nat) (iter : Z) : prog Z :=
  match fuel with
  | O => cfault Deadlock
  | S fuel' =>
      (let! s := cget in
       let! w := page_word iter in
       if w =? slab_magic (cache s) then cret iter else find_magic fuel' (iter - 2 ^ page_shift))%cprog
  end.

(** The walk needs at most the pages of a slab. *)
Definition bds_cache_free (obj : Z) : prog Z :=
  (let! s := cget in
   if off_slab (cache s) then
     let! a := __find_object_in_slab_list Partial obj in
     let! a := match a with
               | Some a => cret (Some a)
               | None => __find_object_in_slab_list Full obj
               end in
     match a with
     | Some a => __free_one a obj ;;; cret 0
     | None => cret (-1)
     end
   else
     let! a := find_magic (Z.to_nat (2 ^ page_order (cache s))) (page_of obj) in
     __free_one a obj ;;; cret 0)%cprog.

(** * Giving slabs back *)

Definition slab_base (c : cache_desc) (x : slab_desc) : Z :=
  s_mem x - sl_colour x - (if off_slab c then 0 else mgmt_size c).
(** The descriptor goes with the pages, or is freed. *)
Definition release (a : Z) : prog unit :=
  (let! s := cget in
   let! x := load_slab a in
   __reclaim_free_pages (slab_base (cache s) x) ;;;
   cmod (fun s => set_heap (delete (node a) (heap s)) (set_slabs (delete a (slabs s)) s)))%cprog.

(** A free slab is taken from the list without a test that there is one. *)
Fixpoint __destroy_free_slabs (fuel : nat) (gc_threshold : Z) : prog unit :=
  match fuel with
  | O => cfault Deadlock
  | S fuel' =>
      (let! s := cget in
       let c := cache s in
       let total := uwrap 32 (total_slab_count c) in
       let free := uwrap 32 (free_slab_count c) in
       if total =? 0 then cfault DivByZero
       else if (uwrap 32 (free * 100) / total <? gc_threshold) || (free <? linger c) then cret tt
       else
         let! n := on_heap (get_next (head Free)) in
         del (n - next_off) ;;;
         release (n - next_off) ;;;
         count 0 (-1) (-1) ;;;
         __destroy_free_slabs fuel' gc_threshold)%cprog
  end.

(** What the collector does to this cache. *)
Definition collect (gc_threshold : Z) : prog unit :=
  (let! s := cget in
   let total := uwrap 32 (total_slab_count (cache s)) in
   let free := uwrap 32 (free_slab_count (cache s)) in
   if uwrap 32 (gc_threshold * total) / 100 <? free
   then __destroy_free_slabs (S (Z.to_nat free)) gc_threshold
   else cret tt)%cprog.

Fixpoint __destroy_slab_list (fuel : nat) (k : kind) : prog unit :=
  match fuel with
  | O => cfault Deadlock
  | S fuel' =>
      (let! e := on_heap (list_empty (head k)) in
       if e then cret tt
       else
         let! n := on_heap (get_next (head k)) in
         del (n - next_off) ;;;
         release (n - next_off) ;;;
         __destroy_slab_list fuel' k)%cprog
  end.

(** All slabs of a cache that is not in use, or of any when [force] is set. The
    descriptor of the cache is then freed as an object of its own cache. *)
Definition bds_cache_destroy (force : bool) : prog bool :=
  (let! s := cget in
   if (0 <? refcount (cache s)) && negb force then cret false
   else
     let fuel := S (size (slabs s)) in
     __destroy_slab_list fuel Free ;;;
     __destroy_slab_list fuel Partial ;;;
     __destroy_slab_list fuel Full ;;;
     cret true)%cprog.

(** A whole slab: the test is on the first element of the list. *)
Definition bds_alloc_chunk : prog (option (Z * Z)) :=
  (let! p := on_heap (get_next (head Partial)) in
   let! e := on_heap (list_empty p) in
   let! a :=
     if e then
       let! r := bds_cache_grow in
       if r <? 0 then cret None
       else let! n := on_heap (get_next (head Partial)) in cret (Some (n - next_off))
     else let! n := on_heap (get_next (head Free)) in cret (Some (n - next_off)) in
   match a with
   | None => cret None
   | Some a =>
       del a ;;;
       add a Full ;;;
       let! s := cget in
       let! x := load_slab a in
       cret (Some (s_mem x, num (cache s)))
   end)%cprog.

(** * The three lists *)

(** The slabs on each list. *)
Record linked (h : lheap) (L : kind -> list Z) : Prop := {
  ln_list : forall k, dlist h (head k) (node <$> L k);
  ln_once : forall k k' a, a ∈ L k -> a ∈ L k' -> k = k';
  ln_head : forall k k' a, a ∈ L k -> head k' <> node a
}.

Definition upd (L : kind -> list Z) (k : kind) (l : list Z) : kind -> list Z :=
  fun k' => if decide (k' = k) then l else L k'.

Lemma upd_eq L k l : upd L k l k = l.
Proof. unfold upd. by rewrite decide_True. Qed.
Lemma upd_ne L k k' l : k' <> k -> upd L k l k' = L k'.
Proof. intros. unfold upd. by rewrite decide_False. Qed.

#[local] Instance node_inj : Inj (=) (=) node.
Proof. intros a b. unfold node. lia. Qed.

Lemma node_elem a (l : list Z) : node a ∈ node <$> l <-> a ∈ l.
Proof. apply (list_elem_of_fmap_inj node). Qed.

Context (Hhead : forall k k', head k = head k' -> k = k') (Hshift : 10 <= page_shift <= 16).

(** Taking a slab off its list. *)
Lemma del_linked h L k l1 a l2 : linked h L -> L k = l1 ++ a :: l2 ->
  exists h', bds_list_del (node a) h = Ret (tt, h') /\ linked h' (upd L k (l1 ++ l2)) /\
    (forall p, is_Some (h' !! p) <-> is_Some (h !! p)).
Proof.
  intros Hl Hk. pose proof (ln_list h L Hl k) as Hd. rewrite Hk, fmap_app, fmap_cons in Hd.
  destruct (bds_list_del_run _ _ _ _ _ Hd) as (h' & Hr & Hd' & Hf & Hs). exists h'. split; [done|]. split; [|done].
  assert (Hsub : forall k' b, b ∈ upd L k (l1 ++ l2) k' -> b ∈ L k').
  { intros k' b. unfold upd. case_decide; [subst|done]. rewrite Hk. set_solver. }
  split.
  - intros k'. destruct (decide (k' = k)) as [->|Hne]; [rewrite upd_eq, fmap_app; done|]. rewrite upd_ne by done.
    eapply dlist_frame; [apply (ln_list h L Hl k')|]. intros p Hp. apply Hf. rewrite <- fmap_app. intros Hin.
    assert (Hk2 : forall b, b ∈ l1 ++ l2 -> b ∈ L k) by (rewrite Hk; set_solver).
    apply elem_of_cons in Hp as [->|(b & -> & Hb)%list_elem_of_fmap]; apply elem_of_cons in Hin as [He|Hin].
    + by apply Hne, Hhead.
    + apply list_elem_of_fmap in Hin as (b & He & Hb). by apply (ln_head h L Hl k k' b (Hk2 _ Hb)).
    + by apply (ln_head h L Hl k' k b Hb).
    + rewrite node_elem in Hin. by apply Hne, (ln_once h L Hl k' k b Hb (Hk2 _ Hin)).
  - intros k1 k2 b H1%Hsub H2%Hsub. apply (ln_once h L Hl _ _ b H1 H2).
  - intros k1 k2 b H1%Hsub. apply (ln_head h L Hl _ _ b H1).
Qed.

(** Putting a slab at the front of a list. *)
Lemma add_linked h L k a : linked h L -> is_Some (h !! node a) -> (forall k', a ∉ L k') -> (forall k', head k' <> node a) ->
  exists h', bds_list_add (node a) (head k) h = Ret (tt, h') /\ linked h' (upd L k (a :: L k)) /\
    (forall p, is_Some (h' !! p) <-> is_Some (h !! p)).
Proof.
  intros Hl Ha Hno Hnh. pose proof (ln_list h L Hl k) as Hd.
  assert (Hnew : node a ∉ head k :: (node <$> L k)).
  { rewrite not_elem_of_cons. split; [by apply not_eq_sym, Hnh|]. rewrite node_elem. apply Hno. }
  destruct (bds_list_add_run _ _ _ _ Hd Ha Hnew) as (h' & Hr & Hd' & Hf & Hs). exists h'. split; [done|]. split; [|done].
  assert (Hsub : forall k' b, b ∈ upd L k (a :: L k) k' -> (b = a /\ k' = k) \/ b ∈ L k').
  { intros k' b. unfold upd. case_decide; [subst|auto]. set_solver. }
  split.
  - intros k'. destruct (decide (k' = k)) as [->|Hne]; [by rewrite upd_eq, fmap_cons|]. rewrite upd_ne by done.
    eapply dlist_frame; [apply (ln_list h L Hl k')|]. intros p Hp. apply Hf. intros Hin.
    apply elem_of_cons in Hin as [->|Hin].
    { apply elem_of_cons in Hp as [He|Hp]; [by apply (Hnh k')|]. rewrite node_elem in Hp. by apply (Hno k'). }
    apply elem_of_cons in Hp as [->|(b & -> & Hb)%list_elem_of_fmap]; apply elem_of_cons in Hin as [He|Hin].
    + by apply Hne, Hhead.
    + apply list_elem_of_fmap in Hin as (b & He & Hb). by apply (ln_head h L Hl k k' b Hb).
    + by apply (ln_head h L Hl k' k b Hb).
    + rewrite node_elem in Hin. by apply Hne, (ln_once h L Hl k' k b Hb Hin).
  - intros k1 k2 b [[-> ->]|H1]%Hsub [[Hb ->]|H2]%Hsub; [done|by destruct (Hno k2)| |apply (ln_once h L Hl _ _ b H1 H2)].
    subst b. by destruct (Hno k1).
  - intros k1 k2 b [[-> ->]|H1]%Hsub; [apply Hnh|apply (ln_head h L Hl _ _ b H1)].
Qed.

(** Moving a slab to the front of another list. *)
Definition moved (L : kind -> list Z) (k k' : kind) (rest : list Z) (a : Z) : kind -> list Z :=
  upd (upd L k rest) k' (a :: upd L k rest k').

Lemma move_linked h L k k' l1 a l2 : linked h L -> L k = l1 ++ a :: l2 ->
  exists h1 h', bds_list_del (node a) h = Ret (tt, h1) /\ bds_list_add (node a) (head k') h1 = Ret (tt, h') /\
    linked h' (moved L k k' (l1 ++ l2) a) /\ (forall p, is_Some (h' !! p) <-> is_Some (h !! p)).
Proof.
  intros Hl Hk. assert (Ha : a ∈ L k) by (rewrite Hk; set_solver).
  destruct (del_linked h L k l1 a l2 Hl Hk) as (h1 & H1 & Hl1 & Hs1).
  destruct (add_linked h1 (upd L k (l1 ++ l2)) k' a Hl1) as (h' & H2 & Hl2 & Hs2).
  - apply Hs1. eapply dlist_alloc; [apply (ln_list h L Hl k)|]. apply elem_of_cons. right. by apply node_elem.
  - intros k1. destruct (decide (k1 = k)) as [->|Hne].
    + rewrite upd_eq. pose proof (ln_list h L Hl k) as [Hnd _]. rewrite Hk in Hnd.
      apply list.NoDup_cons in Hnd as [_ Hnd]. apply NoDup_fmap_1 in Hnd. apply list.NoDup_app in Hnd as (H3 & H4 & H5).
      apply list.NoDup_cons in H5 as [H5 _]. set_solver.
    + rewrite upd_ne by done. intros Hin. by apply Hne, (ln_once h L Hl k1 k a Hin Ha).
  - intros k1. apply (ln_head h L Hl k k1 a Ha).
  - exists h1, h'. split; [done|]. split; [done|]. split; [done|]. intros p. by rewrite Hs2.
Qed.

(** The members of the lists after a move. *)
Lemma moved_elem L k k' l1 a l2 h k1 b : linked h L -> L k = l1 ++ a :: l2 ->
  b ∈ moved L k k' (l1 ++ l2) a k1 <-> (b = a /\ k1 = k') \/ (b <> a /\ b ∈ L k1).
Proof.
  intros Hl Hk. pose proof (ln_list h L Hl k) as [Hnd _]. rewrite Hk in Hnd.
  apply list.NoDup_cons in Hnd as [_ Hnd]. apply NoDup_fmap_1 in Hnd. apply list.NoDup_app in Hnd as (H3 & H4 & H5).
  apply list.NoDup_cons in H5 as [H5 _]. pose proof (ln_once h L Hl) as Ho.
  assert (Ha : a ∈ L k) by (rewrite Hk; set_solver).
  assert (Hu : forall k2, b ∈ upd L k (l1 ++ l2) k2 <-> b <> a /\ b ∈ L k2).
  { intros k2. unfold upd. case_decide as Hd; [subst k2; rewrite Hk; set_solver|]. split; [|tauto].
    intros Hb. split; [|done]. intros ->. by apply Hd, (Ho k2 k a). }
  unfold moved. unfold upd at 1. case_decide as Hd; [subst k1|].
  - rewrite elem_of_cons, Hu. split; [intros [->|?]; auto|intros [[-> _]|?]; auto].
  - rewrite Hu. split; [auto|]. intros [[_ ?]|?]; [done|auto].
Qed.

Lemma first_run h L k a l : linked h L -> L k = a :: l -> get_next (head k) h = Ret (node a, h).
Proof.
  intros Hl Hk. apply get_next_run. destruct (ln_list h L Hl k) as [_ Hc]. rewrite Hk in Hc. by destruct Hc as (Hn & _).
Qed.

Lemma empty_run h L k : linked h L -> list_empty (head k) h = Ret (match L k with [] => true | _ => false end, h).
Proof. intros Hl. rewrite (list_empty_run _ _ _ (ln_list h L Hl k)). by destruct (L k). Qed.

(** * The free objects of a slab *)

(** The first [n] objects of the chain that starts with [i]. *)
Fixpoint walk (n : nat) (b : list Z) (i : Z) : list Z :=
  match n with
  | O => []
  | S n' => i :: walk n' b (default 0 (b !! Z.to_nat i))
  end.
Definition free_objs (c : cache_desc) (x : slab_desc) : list Z :=
  walk (Z.to_nat (num c - sl_refcount x)) (bufctl x) (free x).

Lemma walk_length n b i : length (walk n b i) = n.
Proof. revert i. induction n as [|n IH]; intros i; cbn; [done|]. by rewrite IH. Qed.

(** A change to an index that is not on the chain. *)
Lemma walk_insert n b i j v : 0 <= j -> Forall (fun x => 0 <= x) (walk n b i) -> j ∉ walk n b i ->
  walk n (<[Z.to_nat j := v]> b) i = walk n b i.
Proof.
  intros Hj. revert i. induction n as [|n IH]; intros i Hp Hn; cbn; [done|]. cbn in Hp, Hn.
  apply list.Forall_cons in Hp as [Hi Hp]. apply not_elem_of_cons in Hn as [Hne Hn]. f_equal.
  rewrite list_lookup_insert_ne by lia. by apply IH.
Qed.

Record slab_ok (c : cache_desc) (x : slab_desc) : Prop := {
  so_len : Z.of_nat (length (bufctl x)) = num c;
  so_count : 0 <= sl_refcount x <= num c;
  so_nodup : NoDup (free_objs c x);
  so_range : Forall (fun i => 0 <= i < num c) (free_objs c x);
  so_lock : slab_lock x = false
}.

(** Object [i] of a slab, and the objects in use. *)
Definition obj_at (c : cache_desc) (x : slab_desc) (i : Z) : Z := s_mem x + i * buffer_size c.
Definition in_use (c : cache_desc) (x : slab_desc) (i : Z) : Prop := 0 <= i < num c /\ i ∉ free_objs c x.

(** A slab after its first free object was taken. *)
Definition taken (c : cache_desc) (x : slab_desc) : slab_desc :=
  mkSlab (sl_colour x) (s_mem x) (default 0 (bufctl x !! Z.to_nat (free x))) (sl_refcount x + 1) false (bufctl x).

Lemma free_objs_taken c x : sl_refcount x < num c -> free_objs c x = free x :: free_objs c (taken c x).
Proof.
  intros Hlt. unfold free_objs, taken. cbn [sl_refcount bufctl free].
  replace (Z.to_nat (num c - sl_refcount x)) with (S (Z.to_nat (num c - (sl_refcount x + 1)))) by lia. done.
Qed.

Lemma taken_ok c x : slab_ok c x -> sl_refcount x < num c ->
  slab_ok c (taken c x) /\ 0 <= free x < num c /\
  (forall i, in_use c (taken c x) i <-> i = free x \/ in_use c x i).
Proof.
  intros Hok Hlt. pose proof (free_objs_taken c x Hlt) as He.
  pose proof (so_nodup c x Hok) as Hnd. pose proof (so_range c x Hok) as Hr. rewrite He in Hnd, Hr.
  apply list.NoDup_cons in Hnd as [Hni Hnd]. apply list.Forall_cons in Hr as [Hf Hr].
  pose proof (so_count c x Hok). split_and!; [|lia..|].
  - split; cbn [bufctl sl_refcount slab_lock taken]; [apply (so_len c x Hok)|lia|done|done|done].
  - intros i. unfold in_use. rewrite He, not_elem_of_cons. split.
    + intros [Hi Hn]. destruct (Z.eq_dec i (free x)); [auto|]. auto.
    + intros [->|(Hi & _ & Hn)]; auto.
Qed.

(** A slab after object [i] was given back. *)
Definition returned (c : cache_desc) (x : slab_desc) (i : Z) : slab_desc :=
  mkSlab (sl_colour x) (s_mem x) i (sl_refcount x - 1) false (<[Z.to_nat i := uwrap 16 (free x)]> (bufctl x)).

Lemma returned_ok c x i : slab_ok c x -> num c < 2 ^ 16 -> in_use c x i -> 0 < sl_refcount x /\
  slab_ok c (returned c x i) /\ (forall j, in_use c (returned c x i) j <-> j <> i /\ in_use c x j).
Proof.
  intros Hok Hn [Hi Hni]. pose proof (so_count c x Hok) as Hc. pose proof (so_len c x Hok) as Hl.
  assert (Hpos : 0 < sl_refcount x).
  { destruct (decide (0 < sl_refcount x)) as [|Hz]; [done|]. exfalso.
    (* all indices are free *)
    assert (Hall : forall j, 0 <= j < num c -> j ∈ free_objs c x).
    { intros j Hj. assert (Hsub : list_to_set (free_objs c x) = (list_to_set (seqZ 0 (num c)) : gset Z)).
      { apply set_subseteq_size_eq.
        - intros y Hy. rewrite elem_of_list_to_set in *. apply elem_of_seqZ.
          pose proof (so_range c x Hok) as Hr. rewrite list.Forall_forall in Hr. specialize (Hr y Hy). lia.
        - rewrite !size_list_to_set by (apply NoDup_seqZ || apply (so_nodup c x Hok)).
          unfold free_objs. rewrite walk_length, length_seqZ. lia. }
      assert (Hin : j ∈ (list_to_set (seqZ 0 (num c)) : gset Z)) by (apply elem_of_list_to_set, elem_of_seqZ; lia).
      rewrite <- Hsub in Hin. by apply elem_of_list_to_set in Hin. }
    by apply Hni, Hall. }
  assert (He : free_objs c (returned c x i) = i :: free_objs c x).
  { unfold free_objs, returned. cbn [sl_refcount bufctl free].
    replace (Z.to_nat (num c - (sl_refcount x - 1))) with (S (Z.to_nat (num c - sl_refcount x))) by lia. cbn [walk]. f_equal.
    rewrite list_lookup_insert_eq by lia. cbn [default].
    pose proof (so_range c x Hok) as Hr. unfold free_objs in Hr, Hni.
    destruct (Z.to_nat (num c - sl_refcount x)) as [|m] eqn:Em; [done|].
    assert (Hf : 0 <= free x < num c) by (cbn [walk] in Hr; by apply list.Forall_cons in Hr as [? _]).
    rewrite uwrap_small by lia. apply walk_insert; [lia| |done]. eapply list.Forall_impl; [exact Hr|]. cbn. lia. }
  split; [done|]. split.
  - split; cbn [bufctl sl_refcount slab_lock returned].
    + by rewrite length_insert.
    + lia.
    + rewrite He. apply list.NoDup_cons. split; [done|apply (so_nodup c x Hok)].
    + rewrite He. apply list.Forall_cons. split; [lia|apply (so_range c x Hok)].
    + done.
  - intros j. unfold in_use. rewrite He, not_elem_of_cons. tauto.
Qed.

(** * The invariant *)

(** What stays the same while a cache is used. *)
Definition shape (c : cache_desc) := (flags c, num c, buffer_size c, mgmt_size c, slab_size c, page_order c, slab_magic c).

Lemma shape_eq c c' : shape c = shape c' ->
  flags c = flags c' /\ num c = num c' /\ buffer_size c = buffer_size c' /\ mgmt_size c = mgmt_size c' /\
  slab_size c = slab_size c' /\ page_order c = page_order c' /\ slab_magic c = slab_magic c'.
Proof. by intros [= -> -> -> -> -> -> ->]. Qed.

Record cache_ok (c : cache_desc) : Prop := {
  co_layout : layout_ok page_shift c;
  co_colour : colour_ok c;
  co_small : Z.abs (colour c * colour_offset c) <= 2 ^ 15;
  co_size : 0 < buffer_size c;
  co_num : num c < 2 ^ 16;
  co_magic : slab_magic c = SLAB_MAGIC
}.

(** Where a slab lies. *)
Record placed (c : cache_desc) (m : gmap Z Z) (a : Z) (x : slab_desc) : Prop := {
  pl_page : slab_base c x mod 2 ^ page_shift = 0;
  pl_colour : 0 <= sl_colour x;
  pl_fits : s_mem x + num c * buffer_size c <= slab_base c x + slab_size c;
  pl_desc : off_slab c = false -> a = slab_base c x;
  pl_mapped : m !! slab_base c x = Some (slab_size c)
}.

Definition kind_ok (c : cache_desc) (k : kind) (x : slab_desc) : Prop :=
  match k with
  | Partial => sl_refcount x < num c
  | Full => sl_refcount x = num c
  | Free => sl_refcount x = 0
  end.

Definition apart (c : cache_desc) (p q : Z) : Prop := p + slab_size c <= q \/ q + slab_size c <= p.

Record ok (s : state) (L : kind -> list Z) : Prop := {
  ok_links : linked (heap s) L;
  ok_dom : forall a, is_Some (slabs s !! a) <-> exists k, a ∈ L k;
  ok_slab : forall a x, slabs s !! a = Some x -> slab_ok (cache s) x /\ placed (cache s) (mapped s) a x;
  ok_kind : forall k a x, a ∈ L k -> slabs s !! a = Some x -> kind_ok (cache s) k x;
  ok_apart : forall a b x y, a <> b -> slabs s !! a = Some x -> slabs s !! b = Some y ->
    apart (cache s) (slab_base (cache s) x) (slab_base (cache s) y);
  ok_cache : cache_ok (cache s)
}.

Lemma slab_ok_shape c c' x : shape c = shape c' -> slab_ok c x -> slab_ok c' x.
Proof.
  intros (_ & Hn & _)%shape_eq [H1 H2 H3 H4 H5]. unfold free_objs in *. rewrite Hn in *. by split.
Qed.
Lemma base_shape c c' x : shape c = shape c' -> slab_base c x = slab_base c' x.
Proof. intros (Hf & _ & _ & Hm & _)%shape_eq. unfold slab_base, off_slab. by rewrite Hf, Hm. Qed.
Lemma placed_shape c c' m a x : shape c = shape c' -> placed c m a x -> placed c' m a x.
Proof.
  intros Hs [H1 H2 H3 H4 H5]. pose proof (base_shape c c' x Hs) as Hb.
  apply shape_eq in Hs as (Hf & Hn & Hsz & Hm & Hss & _). unfold off_slab in *. rewrite Hf, Hn, Hsz, Hss, Hb in *. by split.
Qed.

(** Replacing slab [a] by a version of it, on the lists [L']. *)
Lemma ok_update (s : state) L L' a x x' h' c' :
  ok s L -> slabs s !! a = Some x -> slab_ok (cache s) x' -> s_mem x' = s_mem x -> sl_colour x' = sl_colour x ->
  shape (cache s) = shape c' -> cache_ok c' -> linked h' L' ->
  (forall k, a ∈ L' k -> kind_ok (cache s) k x') -> (exists k, a ∈ L' k) ->
  (forall k b, b <> a -> b ∈ L' k <-> b ∈ L k) ->
  ok (mkState h' (<[a := x']> (slabs s)) c' (mapped s) (mmaps s) (mallocs s)) L'.
Proof.
  intros Hok Ha Hx' Hmem Hcol Hsh Hc' Hl' Hk' Hin' Hoth.
  assert (Hbase : forall c, slab_base c x' = slab_base c x) by (intros c; unfold slab_base; by rewrite Hmem, Hcol).
  assert (Hlook : forall b y, <[a := x']> (slabs s) !! b = Some y ->
            (b = a /\ y = x') \/ (b <> a /\ slabs s !! b = Some y)).
  { intros b y. destruct (decide (a = b)) as [<-|Hne]; [rewrite lookup_insert_eq|rewrite lookup_insert_ne by done]; [intros [= <-]|]; auto. }
  split; cbn [heap slabs cache mapped].
  - done.
  - intros b. destruct (decide (b = a)) as [->|Hne].
    + rewrite lookup_insert_eq. split; eauto.
    + rewrite lookup_insert_ne by done. rewrite (ok_dom s L Hok). split; intros [k Hb]; exists k; by apply Hoth.
  - intros b y [[-> ->]|[Hne Hy]]%Hlook.
    + split; [by apply (slab_ok_shape (cache s))|]. apply (placed_shape (cache s)); [done|].
      destruct (ok_slab s L Hok a x Ha) as [_ [H1 H2 H3 H4 H5]]. by split; rewrite ?Hbase, ?Hmem, ?Hcol.
    + destruct (ok_slab s L Hok b y Hy). split; [by apply (slab_ok_shape (cache s))|by apply (placed_shape (cache s))].
  - intros k b y Hb Hy%Hlook. pose proof (shape_eq _ _ Hsh) as (_ & Hn & _).
    assert (Hkk : forall z, kind_ok (cache s) k z -> kind_ok c' k z) by (intros z; unfold kind_ok; rewrite Hn; done).
    apply Hkk. destruct Hy as [[-> ->]|[Hne Hy]]; [auto|]. apply (ok_kind s L Hok k b y); [by apply Hoth|done].
  - intros b d y z Hne Hy Hz. pose proof (shape_eq _ _ Hsh) as (_ & _ & _ & _ & Hss & _).
    unfold apart. rewrite <- Hss, <- (base_shape (cache s) c' y Hsh), <- (base_shape (cache s) c' z Hsh).
    destruct (Hlook b y Hy) as [[-> ->]|[Hb Hy']], (Hlook d z Hz) as [[-> ->]|[Hd Hz']]; rewrite ?Hbase.
    + done.
    + apply (ok_apart s L Hok a d x z); done.
    + apply (ok_apart s L Hok b a y x); done.
    + apply (ok_apart s L Hok b d y z); done.
  - done.
Qed.

Lemma cache_ok_counts c r f t : cache_ok c -> cache_ok (set_counts r f t c).
Proof. intros [[] H2 H3 H4 H5 H6]. by split; [split|..]. Qed.
Lemma shape_counts c r f t : shape c = shape (set_counts r f t c).
Proof. done. Qed.

(** ** Taking an object *)

Lemma del_add_run (s : state) L k k' l1 a l2 : linked (heap s) L -> L k = l1 ++ a :: l2 ->
  exists h', (del a ;;; add a k')%cprog s = Ret (tt, set_heap h' s) /\ linked h' (moved L k k' (l1 ++ l2) a).
Proof.
  intros Hl Hk. destruct (move_linked _ _ k k' _ _ _ Hl Hk) as (h1 & h' & H1 & H2 & H3 & _). exists h'. split; [|done].
  unfold del, add, on_heap, cbind. rewrite H1. cbn. by rewrite H2.
Qed.

Lemma take_run (s : state) L a l x : ok s L -> L Partial = a :: l -> slabs s !! a = Some x ->
  exists s' L', (lock_slab a ;;; take_object a)%cprog s = Ret (Some (obj_at (cache s) x (free x)), s') /\ ok s' L' /\
    slabs s' = <[a := taken (cache s) x]> (slabs s) /\ shape (cache s') = shape (cache s) /\
    mmaps s' = mmaps s /\ mallocs s' = mallocs s /\ (forall p, is_Some (heap s' !! p) <-> is_Some (heap s !! p)) /\
    mapped s' = mapped s.
Proof.
  intros Hok HL Ha. set (c := cache s). destruct (ok_slab s L Hok a x Ha) as [Hsl Hpl].
  assert (HaP : a ∈ L Partial) by (rewrite HL; set_solver).
  pose proof (ok_kind s L Hok Partial a x HaP Ha) as Hlt. cbn in Hlt. fold c in Hlt, Hsl.
  pose proof (so_count _ _ Hsl) as Hc. pose proof (co_num _ (ok_cache s L Hok)) as Hnum. fold c in Hnum.
  destruct (taken_ok c x Hsl Hlt) as (Hsl' & Hfree & _).
  pose proof (so_len _ _ Hsl) as Hlen. pose proof (so_lock _ _ Hsl) as Hlock.
  destruct (lookup_lt_is_Some_2 (bufctl x) (Z.to_nat (free x))) as [nx Hnx]; [lia|].
  set (y := mkSlab (sl_colour x) (s_mem x) nx (sl_refcount x + 1) true (bufctl x)).
  set (c1 := set_counts (swrap 32 (refcount c + 1)) (swrap 32 (free_slab_count c + 0)) (swrap 32 (total_slab_count c + 0)) c).
  set (s1 := mkState (heap s) (<[a := y]> (slabs s)) c1 (mapped s) (mmaps s) (mallocs s)).
  assert (Htaken : taken c x = set_lock false y) by (unfold taken, y, set_lock; cbn; by rewrite Hnx).
  assert (Hrun : (lock_slab a ;;; take_object a)%cprog s =
     ((if sl_refcount x + 1 =? num c then del a ;;; add a Full else cret tt) ;;; unlock_slab a ;;;
      cret (Some (obj_at c x (free x))))%cprog s1).
  { unfold lock_slab, take_object, load_slab, store_slab, count, cbind, cget, cmod. rewrite Ha. cbn [cexpect cret].
    rewrite Hlock. cbn [slabs set_slabs cache]. rewrite lookup_insert_eq. cbn [cexpect cret set_lock sl_refcount free bufctl s_mem sl_colour slab_lock].
    fold c. rewrite (uwrap_small 32 (sl_refcount x)), (swrap_small 32 (sl_refcount x + 1)), (uwrap_small 32 (sl_refcount x + 1)) by lia.
    rewrite (proj2 (Z.ltb_lt _ _) Hlt), (proj2 (Z.ltb_ge (free x) 0)), Hnx by lia. cbn [cexpect cret slabs set_slabs set_cache cache].
    rewrite insert_insert_eq. unfold set_cache. cbn [heap slabs mapped mmaps mallocs cache set_slabs]. fold c y. fold c1. fold s1.
    by destruct (sl_refcount x + 1 =? num c). }
  rewrite Hrun. clear Hrun.
  destruct (sl_refcount x + 1 =? num c) eqn:Efull; bool_to_Z.
  - destruct (del_add_run s1 L Partial Full [] a l) as (h' & Hda & Hl'); [apply (ok_links s L Hok)|done|].
    eexists (mkState h' (<[a := taken c x]> (slabs s)) c1 (mapped s) (mmaps s) (mallocs s)), _. split.
    { unfold cbind at 1. rewrite Hda. unfold unlock_slab, load_slab, store_slab, cbind, cget, cmod. cbn [set_heap slabs s1].
      rewrite lookup_insert_eq. cbn. unfold set_slabs, set_heap. cbn. rewrite insert_insert_eq. by rewrite Htaken. }
    split; [|split_and!; try done].
    + eapply (ok_update s L _ a x (taken c x) h' c1 Hok Ha); try done.
      * apply cache_ok_counts, (ok_cache s L Hok).
      * intros k Hk. apply (moved_elem L Partial Full [] a l (heap s)) in Hk; [|apply (ok_links s L Hok)|done].
        destruct Hk as [[_ ->]|[? _]]; [|done]. exact Efull.
      * exists Full. apply (moved_elem L Partial Full [] a l (heap s)); [apply (ok_links s L Hok)|done|]. auto.
      * intros k b Hne. rewrite (moved_elem L Partial Full [] a l (heap s)); [|apply (ok_links s L Hok)|done]. intuition congruence.
    + destruct (move_linked (heap s) L Partial Full [] a l (ok_links s L Hok) HL) as (h1 & h2 & M1 & M2 & _ & Hs).
      revert Hda. unfold del, add, on_heap, cbind. cbn [heap s1]. rewrite M1. cbn [heap set_heap]. rewrite M2. intros [= <-]. done.
  - exists (mkState (heap s) (<[a := taken c x]> (slabs s)) c1 (mapped s) (mmaps s) (mallocs s)), L. split.
    { unfold unlock_slab, load_slab, store_slab, cbind, cget, cmod, cret. cbn [slabs s1].
      rewrite lookup_insert_eq. cbn. unfold set_slabs, s1. cbn. rewrite insert_insert_eq. by rewrite Htaken. }
    split; [|split_and!; done].
    eapply (ok_update s L L a x (taken c x) (heap s) c1 Hok Ha); try done.
    + apply cache_ok_counts, (ok_cache s L Hok).
    + apply (ok_links s L Hok).
    + intros k Hk. assert (k = Partial) as -> by (apply (ln_once _ _ (ok_links s L Hok) k Partial a Hk HaP)). change (sl_refcount x + 1 < num c). lia.
    + eauto.
Qed.

(** ** The objects in use *)

Definition live (s : state) (o : Z) : Prop :=
  exists a x i, slabs s !! a = Some x /\ in_use (cache s) x i /\ o = obj_at (cache s) x i.

Lemma obj_in_slab (s : state) L a x i : ok s L -> slabs s !! a = Some x -> 0 <= i < num (cache s) ->
  slab_base (cache s) x <= obj_at (cache s) x i /\ obj_at (cache s) x i + buffer_size (cache s) <= slab_base (cache s) x + slab_size (cache s).
Proof.
  intros Hok Ha Hi. destruct (ok_slab s L Hok a x Ha) as [_ Hp]. destruct (ok_cache s L Hok) as [Hl _ _ Hs _ _].
  pose proof (pl_colour _ _ _ _ Hp). pose proof (pl_fits _ _ _ _ Hp). pose proof (lo_mgmt _ _ Hl) as Hm. pose proof (lo_num _ _ Hl).
  unfold SIZEOF_BUFCTL, SIZEOF_SLAB_DESC in Hm. unfold obj_at. split; [|nia].
  unfold slab_base. destruct (off_slab (cache s)); nia.
Qed.

(** An address is that of at most one object. *)
Lemma obj_inj (s : state) L a b x y i j : ok s L -> slabs s !! a = Some x -> slabs s !! b = Some y ->
  0 <= i < num (cache s) -> 0 <= j < num (cache s) -> obj_at (cache s) x i = obj_at (cache s) y j -> a = b /\ i = j.
Proof.
  intros Hok Ha Hb Hi Hj He. pose proof (co_size _ (ok_cache s L Hok)).
  destruct (decide (a = b)) as [<-|Hne].
  - rewrite Ha in Hb. injection Hb as <-. split; [done|]. unfold obj_at in He. nia.
  - destruct (obj_in_slab s L a x i Hok Ha Hi), (obj_in_slab s L b y j Hok Hb Hj).
    destruct (ok_apart s L Hok a b x y Hne Ha Hb); lia.
Qed.

(** Objects do not overlap. *)
Lemma obj_apart (s : state) L o o' : ok s L -> live s o -> live s o' -> o <> o' ->
  o + buffer_size (cache s) <= o' \/ o' + buffer_size (cache s) <= o.
Proof.
  intros Hok (a & x & i & Ha & [Hi _] & ->) (b & y & j & Hb & [Hj _] & ->) Hne.
  pose proof (co_size _ (ok_cache s L Hok)). destruct (decide (a = b)) as [<-|Hab].
  - rewrite Ha in Hb. injection Hb as <-. unfold obj_at in *. assert (i <> j) by (intros ->; done). nia.
  - destruct (obj_in_slab s L a x i Hok Ha Hi), (obj_in_slab s L b y j Hok Hb Hj).
    destruct (ok_apart s L Hok a b x y Hab Ha Hb); lia.
Qed.

(** What a change of one slab does to the objects in use. *)
Lemma live_update (s s' : state) L a x x' :
  ok s L -> slabs s !! a = Some x -> slabs s' = <[a := x']> (slabs s) -> shape (cache s') = shape (cache s) -> s_mem x' = s_mem x ->
  forall o, live s' o <-> (exists i, in_use (cache s) x' i /\ o = obj_at (cache s) x i) \/
                          (exists b y i, b <> a /\ slabs s !! b = Some y /\ in_use (cache s) y i /\ o = obj_at (cache s) y i).
Proof.
  intros Hok Ha Hs Hsh Hm o. apply shape_eq in Hsh as (_ & Hn & Hb & _).
  assert (Hu : forall y i, in_use (cache s') y i <-> in_use (cache s) y i) by (intros y i; unfold in_use, free_objs; by rewrite Hn).
  assert (Hob : forall y i, obj_at (cache s') y i = obj_at (cache s) y i) by (intros y i; unfold obj_at; by rewrite Hb).
  assert (Hox : forall i, obj_at (cache s) x' i = obj_at (cache s) x i) by (intros i; unfold obj_at; by rewrite Hm).
  unfold live. rewrite Hs. split.
  - intros (b & y & i & Hy & Hi & ->). rewrite Hob. apply Hu in Hi. destruct (decide (a = b)) as [<-|Hne].
    + rewrite lookup_insert_eq in Hy. injection Hy as <-. left. exists i. auto.
    + rewrite lookup_insert_ne in Hy by done. right. exists b, y, i. auto.
  - intros [(i & Hi & ->)|(b & y & i & Hne & Hy & Hi & ->)].
    + exists a, x', i. rewrite lookup_insert_eq, Hob, Hox, Hu. auto.
    + exists b, y, i. rewrite lookup_insert_ne, Hob, Hu by done. auto.
Qed.

Lemma live_taken (s s' : state) L a x :
  ok s L -> slabs s !! a = Some x -> sl_refcount x < num (cache s) ->
  slabs s' = <[a := taken (cache s) x]> (slabs s) -> shape (cache s') = shape (cache s) ->
  ~ live s (obj_at (cache s) x (free x)) /\ (forall o, live s' o <-> o = obj_at (cache s) x (free x) \/ live s o).
Proof.
  intros Hok Ha Hlt Hs Hsh. destruct (ok_slab s L Hok a x Ha) as [Hsl _].
  destruct (taken_ok _ x Hsl Hlt) as (_ & Hf & Hu). split.
  - intros (b & y & i & Hy & [Hi Hni] & He). destruct (obj_inj s L a b x y (free x) i Hok Ha Hy Hf Hi He) as [<- <-].
    rewrite Ha in Hy. injection Hy as <-. apply Hni. rewrite (free_objs_taken _ x Hlt). set_solver.
  - intros o. rewrite (live_update s s' L a x _ Hok Ha Hs Hsh) by done. unfold live. split.
    + intros [(i & Hi & ->)|(b & y & i & _ & Hy & Hi & ->)].
      * apply Hu in Hi as [->|Hi]; [auto|]. right. exists a, x, i. auto.
      * right. exists b, y, i. auto.
    + intros [->|(b & y & i & Hy & Hi & ->)].
      * left. exists (free x). split; [|done]. apply Hu. auto.
      * destruct (decide (b = a)) as [->|Hne]; [|right; exists b, y, i; auto].
        rewrite Ha in Hy. injection Hy as <-. left. exists i. split; [|done]. apply Hu. auto.
Qed.

Lemma live_returned (s s' : state) L a x i :
  ok s L -> slabs s !! a = Some x -> in_use (cache s) x i ->
  slabs s' = <[a := returned (cache s) x i]> (slabs s) -> shape (cache s') = shape (cache s) ->
  forall o, live s' o <-> o <> obj_at (cache s) x i /\ live s o.
Proof.
  intros Hok Ha Hiu Hs Hsh o. destruct (ok_slab s L Hok a x Ha) as [Hsl _].
  destruct (returned_ok _ x i Hsl (co_num _ (ok_cache s L Hok)) Hiu) as (_ & _ & Hu). pose proof (proj1 Hiu) as Hi.
  rewrite (live_update s s' L a x _ Hok Ha Hs Hsh) by done. unfold live. split.
  - intros [(j & [Hj Hju]%Hu & ->)|(b & y & j & Hne & Hy & Hj & ->)].
    + split; [|exists a, x, j; auto]. intros He.
      destruct (obj_inj s L a a x x j i Hok Ha Ha (proj1 Hju) Hi He) as [_ Hji]. done.
    + split; [|exists b, y, j; auto]. intros He. destruct (obj_inj s L b a y x j i Hok Hy Ha (proj1 Hj) Hi He). done.
  - intros [Hne (b & y & j & Hy & Hj & ->)]. destruct (decide (b = a)) as [->|Hba]; [|right; exists b, y, j; auto].
    rewrite Ha in Hy. injection Hy as <-. left. exists j. split; [|done]. apply Hu. split; [|done]. by intros ->.
Qed.

(** ** A slab that is used again, and a new one *)

Lemma reuse_run (s : state) L a l : ok s L -> L Free = a :: l ->
  exists h', (del a ;;; add a Partial)%cprog s = Ret (tt, set_heap h' s) /\ ok (set_heap h' s) (moved L Free Partial l a).
Proof.
  intros Hok HL. destruct (del_add_run s L Free Partial [] a l (ok_links s L Hok) HL) as (h' & Hr & Hl'). exists h'. split; [done|].
  assert (HaF : a ∈ L Free) by (rewrite HL; set_solver). destruct (proj2 (ok_dom s L Hok a)) as [x Ha]; [eauto|].
  destruct (ok_slab s L Hok a x Ha) as [Hsl _]. pose proof (ok_kind s L Hok Free a x HaF Ha) as Hz. cbn in Hz.
  pose proof (lo_num _ _ (co_layout _ (ok_cache s L Hok))).
  pose proof (fun k b => moved_elem L Free Partial [] a l (heap s) k b (ok_links s L Hok) HL) as Hm. cbn [app] in Hm.
  replace (set_heap h' s) with (mkState h' (<[a := x]> (slabs s)) (cache s) (mapped s) (mmaps s) (mallocs s))
    by (rewrite insert_id by done; reflexivity).
  apply (ok_update s L _ a x x h' (cache s) Hok Ha Hsl); try done.
  - apply (ok_cache s L Hok).
  - intros k Hk. apply Hm in Hk as [[_ ->]|[? _]]; [|done]. cbn. lia.
  - exists Partial. apply Hm. auto.
  - intros k b Hne. rewrite Hm. intuition congruence.
Qed.

(** The descriptor of a new slab. *)
Definition new_slab (c : cache_desc) (mem : Z) : slab_desc :=
  mkSlab (colour_next c) (mem + colour_next c + (if off_slab c then 0 else mgmt_size c)) 0 0 false (init_bufctl (num c)).

Lemma walk_init n m i : (i + n <= m)%nat -> Z.of_nat m < 2 ^ 16 ->
  walk n (init_bufctl (Z.of_nat m)) (Z.of_nat i) = Z.of_nat <$> seq i n.
Proof.
  revert i. induction n as [|n IH]; intros i Hi Hm; cbn; [done|]. f_equal.
  destruct n as [|n]; [done|].
  rewrite <- (IH (S i)) by lia. f_equal. unfold init_bufctl. rewrite Nat2Z.id, list_lookup_fmap, lookup_seq_lt by lia. cbn.
  rewrite uwrap_small by lia. lia.
Qed.

Lemma new_slab_ok c mem : 0 < num c < 2 ^ 16 -> slab_ok c (new_slab c mem) /\ (forall i, ~ in_use c (new_slab c mem) i).
Proof.
  intros Hn. assert (Hf : free_objs c (new_slab c mem) = Z.of_nat <$> seq 0 (Z.to_nat (num c))).
  { unfold free_objs, new_slab. cbn [sl_refcount bufctl free]. rewrite Z.sub_0_r.
    rewrite <- (Z2Nat.id (num c)) at 2 by lia. apply (walk_init _ _ 0); lia. }
  split; [split|].
  - cbn. unfold init_bufctl. rewrite length_fmap, length_seq. lia.
  - cbn. lia.
  - rewrite Hf. apply NoDup_fmap_2; [intros x y; lia|apply NoDup_seq].
  - rewrite Hf. apply list.Forall_forall. intros x (y & -> & Hy%elem_of_seq)%list_elem_of_fmap. lia.
  - done.
  - intros i [Hi Hni]. apply Hni. rewrite Hf. apply list_elem_of_fmap. exists (Z.to_nat i). rewrite elem_of_seq. lia.
Qed.

(** Memory that the system may hand out next. *)
Definition fresh_page (s : state) (p : Z) : Prop :=
  p <> NULL /\ p mod 2 ^ page_shift = 0 /\
  forall a x, slabs s !! a = Some x -> apart (cache s) p (slab_base (cache s) x).
Definition fresh_desc (s : state) (m : Z) : Prop :=
  m <> NULL /\ slabs s !! m = None /\ forall k, head k <> node m.

Lemma setup_run (s : state) L m p :
  ok s L -> fresh_page s p -> fresh_desc s m -> (off_slab (cache s) = false -> m = p) ->
  mapped s !! p = Some (slab_size (cache s)) ->
  exists s', __setup_slab_desc m p s = Ret (tt, s') /\ ok s' (upd L Partial (m :: L Partial)) /\
    slabs s' = <[m := new_slab (cache s) p]> (slabs s) /\ shape (cache s') = shape (cache s) /\
    mmaps s' = mmaps s /\ mallocs s' = mallocs s.
Proof.
  intros Hok (Hp0 & Hpp & Hpa) (Hm0 & Hms & Hmh) Hon Hmap. set (c := cache s).
  assert (HmL : forall k, m ∉ L k). { intros k Hk. destruct (proj2 (ok_dom s L Hok m)) as [x Hx]; [eauto|]. congruence. }
  set (h0 := <[node m := mkHead 0 0]> (heap s)).
  assert (Hl0 : linked h0 L).
  { destruct (ok_links s L Hok) as [H1 H2 H3]. split; [|done|done]. intros k. eapply dlist_frame; [apply H1|].
    intros q Hq. unfold h0. apply lookup_insert_ne. intros <-. apply elem_of_cons in Hq as [Hq|Hq]; [by apply (Hmh k)|].
    rewrite node_elem in Hq. by apply (HmL k). }
  destruct (add_linked h0 L Partial m Hl0) as (h' & Hadd & Hl' & _); [unfold h0; rewrite lookup_insert_eq; eauto|done|done|].
  destruct (ok_cache s L Hok) as [Hlay Hcol Hsm Hsz Hnum Hmag]. fold c in Hlay, Hcol, Hsm, Hsz, Hnum, Hmag.
  set (c1 := set_counts (swrap 32 (refcount c + 0)) (swrap 32 (free_slab_count c + 0)) (swrap 32 (total_slab_count c + 1))
               (set_colour_next (next_colour c) c)).
  assert (Hc0 : 0 <= colour_next c) by (destruct Hcol as [->|]; lia).
  assert (Hbase : slab_base c (new_slab c p) = p) by (unfold slab_base, new_slab; cbn; destruct (off_slab c); lia).
  exists (mkState h' (<[m := new_slab c p]> (slabs s)) c1 (mapped s) (mmaps s) (mallocs s)).
  split. { unfold __setup_slab_desc, store_slab, add, count, on_heap, cbind, cget, cmod. cbn. fold h0. rewrite Hadd. reflexivity. }
  split; [|done].
  assert (Hnc : 0 < num c < 2 ^ 16) by (pose proof (lo_num _ _ Hlay); lia).
  assert (Hlook : forall b y, <[m := new_slab c p]> (slabs s) !! b = Some y ->
            (b = m /\ y = new_slab c p) \/ (b <> m /\ slabs s !! b = Some y)).
  { intros b y. destruct (decide (m = b)) as [<-|Hne]; [rewrite lookup_insert_eq|rewrite lookup_insert_ne by done]; [intros [= <-]|]; auto. }
  split; cbn [heap slabs cache mapped].
  - done.
  - intros b. destruct (decide (b = m)) as [->|Hne].
    + rewrite lookup_insert_eq. split; [|eauto]. intros _. exists Partial. rewrite upd_eq. set_solver.
    + rewrite lookup_insert_ne by done. rewrite (ok_dom s L Hok). unfold upd.
      split; intros [k Hb]; exists k; case_decide; subst; set_solver.
  - intros b y [[-> ->]|[Hne Hy]]%Hlook.
    + split; [by apply (slab_ok_shape c), new_slab_ok|]. apply (placed_shape c); [done|].
      split; rewrite ?Hbase; [done|done| |done|done]. unfold new_slab. cbn [s_mem].
      pose proof (lo_fits _ _ Hlay). rewrite Z.abs_mul, (Z.abs_eq (colour_offset c)) in * by (apply (lo_coff _ _ Hlay)).
      unfold colour_ok in Hcol. rewrite Z.abs_mul, (Z.abs_eq (colour_offset c)) in Hcol by (apply (lo_coff _ _ Hlay)).
      pose proof (lo_coff _ _ Hlay). destruct Hcol as [->|]; [|lia]. pose proof (Z.abs_nonneg (colour c)). nia.
    + destruct (ok_slab s L Hok b y Hy). split; [by apply (slab_ok_shape c)|by apply (placed_shape c)].
  - intros k b y Hb [[-> ->]|[Hne Hy]]%Hlook.
    + unfold upd in Hb. case_decide as Hk; [subst k; cbn; lia|]. by destruct (HmL k).
    + assert (Hb' : b ∈ L k) by (unfold upd in Hb; case_decide; subst; set_solver). apply (ok_kind s L Hok k b y Hb' Hy).
  - intros b d y z Hne Hy Hz. unfold apart. rewrite <- !(base_shape c c1) by done.
    change (slab_size c1) with (slab_size c).
    destruct (Hlook b y Hy) as [[-> ->]|[Hb Hy']], (Hlook d z Hz) as [[-> ->]|[Hd Hz']]; rewrite ?Hbase.
    + done.
    + apply (Hpa d z Hz').
    + destruct (Hpa b y Hy'); auto.
    + apply (ok_apart s L Hok b d y z); done.
  - apply cache_ok_counts. destruct Hlay as [? ? ? ? ? ?]. split; [by split| |done..]. unfold colour_ok. cbn. by apply next_colour_ok.
Qed.

(** The system has memory for [n] more slabs. *)
Fixpoint pairwise (c : cache_desc) (l : list Z) : Prop :=
  match l with
  | [] => True
  | p :: l' => Forall (apart c p) l' /\ pairwise c l'
  end.
Record supply (s : state) (n : nat) : Prop := {
  su_pages : (n <= length (mmaps s))%nat;
  su_fresh : Forall (fresh_page s) (mmaps s);
  su_apart : pairwise (cache s) (mmaps s);
  su_descs : if off_slab (cache s) then (n <= length (mallocs s))%nat /\ Forall (fresh_desc s) (mallocs s) /\ NoDup (mallocs s)
             else Forall (fresh_desc s) (mmaps s)
}.

Lemma apart_shape c c' p q : shape c = shape c' -> apart c p q -> apart c' p q.
Proof. intros (_ & _ & _ & _ & Hs & _)%shape_eq. unfold apart. by rewrite Hs. Qed.
Lemma pairwise_shape c c' l : shape c = shape c' -> pairwise c l -> pairwise c' l.
Proof.
  intros Hs. induction l as [|p l IH]; cbn; [done|]. intros [Hp Hl]. split; [|auto].
  eapply list.Forall_impl; [exact Hp|]. intros q. by apply apart_shape.
Qed.

(** What is fresh stays fresh while the slabs stay where they are. *)
Lemma fresh_keep (s s' : state) :
  shape (cache s) = shape (cache s') ->
  (forall a x', slabs s' !! a = Some x' -> exists x, slabs s !! a = Some x /\ slab_base (cache s) x' = slab_base (cache s) x) ->
  (forall p, fresh_page s p -> fresh_page s' p) /\ (forall m, fresh_desc s m -> fresh_desc s' m).
Proof.
  intros Hsh Hsl. split.
  - intros p (H1 & H2 & H3). split; [done|]. split; [done|]. intros a x' (x & Hx & Hb)%Hsl.
    rewrite <- (base_shape (cache s) (cache s')), Hb by done. eapply apart_shape; [exact Hsh|]. eauto.
  - intros m (H1 & H2 & H3). split; [done|]. split; [|done]. destruct (slabs s' !! m) as [x'|] eqn:Hx; [|done].
    apply Hsl in Hx as (x & Hx & _). congruence.
Qed.

Lemma supply_keep (s s' : state) n :
  supply s n -> shape (cache s) = shape (cache s') -> mmaps s' = mmaps s -> mallocs s' = mallocs s ->
  (forall a x', slabs s' !! a = Some x' -> exists x, slabs s !! a = Some x /\ slab_base (cache s) x' = slab_base (cache s) x) ->
  supply s' n.
Proof.
  intros [H1 H2 H3 H4] Hsh Hm Hma Hsl. destruct (fresh_keep s s' Hsh Hsl) as [Hp Hd].
  assert (Ho : off_slab (cache s') = off_slab (cache s)) by (apply shape_eq in Hsh as [Hf _]; unfold off_slab; by rewrite Hf).
  split; rewrite ?Hm, ?Hma, ?Ho.
  - done.
  - eapply list.Forall_impl; [exact H2|done].
  - by apply (pairwise_shape (cache s)).
  - destruct (off_slab (cache s)); [|eapply list.Forall_impl; [exact H4|done]].
    destruct H4 as (? & H4 & ?). split_and!; [done| |done]. eapply list.Forall_impl; [exact H4|done].
Qed.

Lemma supply_less (s : state) n m : supply s n -> (m <= n)%nat -> supply s m.
Proof. intros [H1 H2 H3 H4] Hle. split; [lia|done|done|]. destruct (off_slab (cache s)); [|done]. destruct H4 as (? & ? & ?). split_and!; [lia|done|done]. Qed.

(** A slab that was added to those that are there. *)
Lemma fresh_after (s s' : state) m p :
  shape (cache s) = shape (cache s') -> slabs s' = <[m := new_slab (cache s) p]> (slabs s) ->
  (forall q, fresh_page s q -> apart (cache s) p q -> fresh_page s' q) /\ (forall d, fresh_desc s d -> d <> m -> fresh_desc s' d).
Proof.
  intros Hsh Hs. split.
  - intros q (H1 & H2 & H3) Hap. split; [done|]. split; [done|]. intros a x'. rewrite Hs.
    rewrite <- (base_shape (cache s) (cache s')) by done. intros Hx. eapply apart_shape; [exact Hsh|].
    destruct (decide (m = a)) as [<-|Hne]; [rewrite lookup_insert_eq in Hx; injection Hx as <-|rewrite lookup_insert_ne in Hx by done; eauto].
    assert (slab_base (cache s) (new_slab (cache s) p) = p) as -> by (unfold slab_base, new_slab; cbn; destruct (off_slab (cache s)); lia).
    destruct Hap; [right|left]; done.
  - intros d (H1 & H2 & H3) Hne. split; [done|]. split; [|done]. by rewrite Hs, lookup_insert_ne.
Qed.

Lemma grow_run (s : state) L n : ok s L -> supply s (S n) ->
  exists m p s', bds_cache_grow s = Ret (0, s') /\ ok s' (upd L Partial (m :: L Partial)) /\
    slabs s' = <[m := new_slab (cache s) p]> (slabs s) /\ slabs s !! m = None /\ shape (cache s') = shape (cache s) /\ supply s' n.
Proof.
  intros Hok [H1 H2 H3 H4]. destruct (mmaps s) as [|p l] eqn:Hm; [cbn in H1; lia|].
  apply list.Forall_cons in H2 as [Hp H2]. cbn [pairwise] in H3. destruct H3 as [Hap H3].
  pose proof Hp as (Hp0 & Hpp & Hpa). pose proof (proj2 (Z.eqb_neq p NULL) Hp0) as Hp0'.
  pose proof (lo_num _ _ (co_layout _ (ok_cache s L Hok))) as Hn0.
  assert (Hss : 0 < slab_size (cache s)).
  { pose proof (lo_fits _ _ (co_layout _ (ok_cache s L Hok))). pose proof (lo_coff _ _ (co_layout _ (ok_cache s L Hok))).
    pose proof (co_size _ (ok_cache s L Hok)). pose proof (lo_mgmt _ _ (co_layout _ (ok_cache s L Hok))) as Hmg.
    unfold SIZEOF_BUFCTL, SIZEOF_SLAB_DESC in Hmg. pose proof (Z.abs_nonneg (colour (cache s))). destruct (off_slab (cache s)); nia. }
  set (s0 := mkState (heap s) (slabs s) (cache s) (<[p := slab_size (cache s)]> (mapped s)) l (mallocs s)).
  assert (Hok0 : forall ma, ok (mkState (heap s) (slabs s) (cache s) (<[p := slab_size (cache s)]> (mapped s)) l ma) L).
  { intros ma. destruct Hok as [K1 K2 K3 K4 K5 K6]. split; try done. intros a x Hx. destruct (K3 a x Hx) as [K7 [Q1 Q2 Q3 Q4 Q5]].
    split; [done|]. split; try done. cbn [mapped]. rewrite lookup_insert_ne; [done|]. intros He.
    destruct (Hpa a x Hx); cbn [cache] in *; lia. }
  assert (Hne : forall q, apart (cache s) p q -> q <> p) by (intros q [?|?] ->; lia).
  destruct (off_slab (cache s)) eqn:Hoff.
  - destruct H4 as (H4 & H5 & H6). destruct (mallocs s) as [|m lm] eqn:Hma; [cbn in H4; lia|].
    apply list.Forall_cons in H5 as [Hd H5]. apply list.NoDup_cons in H6 as [H6 H7].
    pose proof Hd as (Hm0 & Hms & Hmh). pose proof (proj2 (Z.eqb_neq m NULL) Hm0) as Hm0'.
    set (s1 := mkState (heap s) (slabs s) (cache s) (<[p := slab_size (cache s)]> (mapped s)) l lm).
    destruct (setup_run s1 L m p (Hok0 lm)) as (s' & Hr & Hok' & Hsl & Hsh & Hmm & Hmal); [done|done|intros E; change (off_slab (cache s) = false) in E; congruence|cbn; by rewrite lookup_insert_eq|].
    exists m, p, s'. split.
    { unfold bds_cache_grow, __get_free_pages, malloc, cbind, cget. rewrite Hm, Hp0', Hoff. cbn beta iota. rewrite Hp0'. cbn beta iota delta [mallocs]. rewrite Hma. cbn beta iota delta [heap slabs cache mapped mmaps].
      rewrite Hm0'. fold s1. by rewrite Hr. }
    split; [done|]. split; [done|]. split; [done|]. split; [done|].
    destruct (fresh_after s1 s' m p (eq_sym Hsh) Hsl) as [Hfp Hfd].
    split; rewrite ?Hmm, ?Hmal; cbn [mmaps mallocs s1 cache].
    + cbn in H1. lia.
    + apply list.Forall_forall. intros q Hq. rewrite list.Forall_forall in H2, Hap. apply Hfp; [exact (H2 q Hq)|exact (Hap q Hq)].
    + apply (pairwise_shape (cache s1)); [by symmetry|done].
    + assert (off_slab (cache s') = true) as -> by (apply shape_eq in Hsh as [Hf _]; unfold off_slab; rewrite Hf; exact Hoff).
      split_and!; [cbn in H4; lia| |done]. apply list.Forall_forall. intros d Hdd. rewrite list.Forall_forall in H5.
      apply Hfd; [exact (H5 d Hdd)|]. intros ->. done.
  - apply list.Forall_cons in H4 as [Hd H4].
    destruct (setup_run s0 L p p (Hok0 _)) as (s' & Hr & Hok' & Hsl & Hsh & Hmm & Hmal); [done|done|done|cbn; by rewrite lookup_insert_eq|].
    exists p, p, s'. split.
    { unfold bds_cache_grow, __get_free_pages, cbind, cget. rewrite Hm, Hp0', Hoff. cbn beta iota. rewrite Hp0'. fold s0. by rewrite Hr. }
    split; [done|]. split; [done|]. split; [apply Hd|]. split; [done|].
    destruct (fresh_after s0 s' p p (eq_sym Hsh) Hsl) as [Hfp Hfd].
    split; rewrite ?Hmm, ?Hmal; cbn [mmaps mallocs s0 cache].
    + cbn in H1. lia.
    + apply list.Forall_forall. intros q Hq. rewrite list.Forall_forall in H2, Hap. apply Hfp; [exact (H2 q Hq)|exact (Hap q Hq)].
    + apply (pairwise_shape (cache s0)); [by symmetry|done].
    + assert (off_slab (cache s') = false) as -> by (apply shape_eq in Hsh as [Hf _]; unfold off_slab; rewrite Hf; exact Hoff).
      apply list.Forall_forall. intros d Hdd. rewrite list.Forall_forall in H4, Hap. apply Hfd; [exact (H4 d Hdd)|]. apply Hne, (Hap d Hdd).
Qed.

(** * Allocation *)

(** With a slab on the list of partly used ones. *)
Lemma alloc_step fuel (s : state) L a l : ok s L -> L Partial = a :: l ->
  bds_cache_alloc (S fuel) s =
  (let! obj := (lock_slab a ;;; take_object a) in
   match obj with Some obj => cret obj | None => bds_cache_alloc fuel end)%cprog s.
Proof.
  intros Hok HL. cbn [bds_cache_alloc]. unfold cbind at 1, on_heap at 1. rewrite (empty_run _ L Partial (ok_links s L Hok)), HL.
  unfold cbind at 1, on_heap at 1. cbn [heap set_heap]. rewrite (empty_run _ L Free (ok_links s L Hok)). cbn [negb orb].
  unfold cbind at 1. unfold cbind at 1, on_heap at 1. cbn [heap set_heap]. rewrite (first_run _ L Partial a l (ok_links s L Hok) HL).
  cbn [cret]. replace (node a - next_off) with a by (unfold node; lia).
  change (set_heap (heap s) (set_heap (heap s) (set_heap (heap s) s))) with (set_heap (heap s) s).
  replace (set_heap (heap s) s) with s by (by destruct s). symmetry. apply cbind_assoc.
Qed.

Lemma alloc_partial fuel (s : state) L a l : ok s L -> L Partial = a :: l ->
  exists x s' L', slabs s !! a = Some x /\ sl_refcount x < num (cache s) /\
    bds_cache_alloc (S fuel) s = Ret (obj_at (cache s) x (free x), s') /\ ok s' L' /\
    slabs s' = <[a := taken (cache s) x]> (slabs s) /\ shape (cache s') = shape (cache s) /\
    mmaps s' = mmaps s /\ mallocs s' = mallocs s.
Proof.
  intros Hok HL. assert (HaP : a ∈ L Partial) by (rewrite HL; set_solver).
  destruct (proj2 (ok_dom s L Hok a)) as [x Ha]; [eauto|].
  pose proof (ok_kind s L Hok Partial a x HaP Ha) as Hlt. cbn in Hlt.
  destruct (take_run s L a l x Hok HL Ha) as (s' & L' & Hr & Hok' & Hs & Hsh & Hm & Hma & _).
  exists x, s', L'. split_and!; try done. rewrite (alloc_step fuel s L a l Hok HL). unfold cbind at 1. by rewrite Hr.
Qed.

(** With none there, the first free slab is moved to it. *)
Lemma alloc_reuse fuel (s : state) L a l : ok s L -> L Partial = [] -> L Free = a :: l ->
  exists h', ok (set_heap h' s) (moved L Free Partial l a) /\ moved L Free Partial l a Partial = [a] /\
    bds_cache_alloc (S fuel) s = bds_cache_alloc (S fuel) (set_heap h' s).
Proof.
  intros Hok HP HF. destruct (reuse_run s L a l Hok HF) as (h' & Hmv & Hok1). exists h'. set (s1 := set_heap h' s) in *.
  assert (Hmv' : forall A (K : prog A), (del a ;;; add a Partial ;;; K)%cprog s = K s1).
  { intros A K. rewrite <- cbind_assoc. unfold cbind at 1. by rewrite Hmv. }
  assert (HP1 : moved L Free Partial l a Partial = [a]) by (unfold moved; by rewrite upd_eq, upd_ne, HP).
  split; [done|]. split; [done|]. rewrite (alloc_step fuel s1 _ a [] Hok1 HP1).
  cbn [bds_cache_alloc]. unfold cbind at 1, on_heap at 1. rewrite (empty_run _ L Partial (ok_links s L Hok)), HP.
  unfold cbind at 1, on_heap at 1. cbn [heap set_heap]. rewrite (empty_run _ L Free (ok_links s L Hok)), HF. cbn [negb orb].
  unfold cbind at 1. unfold cbind at 1, on_heap at 1. cbn [heap set_heap]. rewrite (first_run _ L Free a l (ok_links s L Hok) HF).
  replace (node a - next_off) with a by (unfold node; lia).
  change (set_heap (heap s) (set_heap (heap s) (set_heap (heap s) s))) with (set_heap (heap s) s).
  replace (set_heap (heap s) s) with s by (by destruct s).
  rewrite Hmv'. unfold cbind at 1, on_heap at 1. rewrite (first_run _ _ Partial a [] (ok_links _ _ Hok1) HP1).
  cbn [cret]. replace (node a - next_off) with a by (unfold node; lia). replace (set_heap (heap s1) s1) with s1 by (by destruct s1).
  symmetry. apply cbind_assoc.
Qed.

Lemma supply_taken (s s' : state) n a x : supply s n -> slabs s !! a = Some x -> slabs s' = <[a := taken (cache s) x]> (slabs s) ->
  shape (cache s') = shape (cache s) -> mmaps s' = mmaps s -> mallocs s' = mallocs s -> supply s' n.
Proof.
  intros Hsu Ha Hs Hsh Hm Hma. apply (supply_keep s); try done. intros b y. rewrite Hs.
  destruct (decide (a = b)) as [<-|Hne]; [rewrite lookup_insert_eq|rewrite lookup_insert_ne by done]; [intros [= <-]|]; eauto.
Qed.

(** [bds_cache_alloc] returns an object that is not in use and leaves all the
    others as they were, when the system has memory for another slab. *)
Lemma alloc_run (s : state) L n : ok s L -> supply s (S n) ->
  exists obj s' L', bds_cache_alloc 2 s = Ret (obj, s') /\ ok s' L' /\ supply s' n /\ shape (cache s') = shape (cache s) /\
    ~ live s obj /\ (forall o, live s' o <-> o = obj \/ live s o).
Proof.
  intros Hok Hsu. destruct (L Partial) as [|a l] eqn:HP.
  2: { destruct (alloc_partial 1 s L a l Hok HP) as (x & s' & L' & Ha & Hlt & Hr & Hok' & Hs & Hsh & Hm & Hma).
       destruct (live_taken s s' L a x Hok Ha Hlt Hs Hsh) as [Hnl Hlv]. exists (obj_at (cache s) x (free x)), s', L'.
       split_and!; try done. apply (supply_less _ (S n)); [|lia]. by apply (supply_taken s s' _ a x). }
  destruct (L Free) as [|a l] eqn:HF.
  - destruct (grow_run s L n Hok Hsu) as (m & p & s1 & Hg & Hok1 & Hs1 & Hms & Hsh1 & Hsu1).
    destruct (alloc_partial 0 s1 _ m (L Partial) Hok1) as (x & s' & L' & Ha & Hlt & Hr & Hok' & Hs & Hsh & Hm & Hma); [apply upd_eq|].
    assert (Hlive1 : forall o, live s1 o <-> live s o).
    { pose proof (shape_eq _ _ Hsh1) as (_ & Hn & Hb & _). intros o. unfold live, in_use, obj_at, free_objs. rewrite Hs1, Hn, Hb. split.
      - intros (b & y & i & Hy & Hi & ->). destruct (decide (m = b)) as [<-|Hne].
        + rewrite lookup_insert_eq in Hy. injection Hy as <-. exfalso.
          apply (proj2 (new_slab_ok (cache s) p ltac:(pose proof (lo_num _ _ (co_layout _ (ok_cache s L Hok))); pose proof (co_num _ (ok_cache s L Hok)); lia)) i Hi).
        + rewrite lookup_insert_ne in Hy by done. eauto 8.
      - intros (b & y & i & Hy & Hi & ->). exists b, y, i. rewrite lookup_insert_ne by congruence. auto. }
    destruct (live_taken s1 s' _ m x Hok1 Ha Hlt Hs Hsh) as [Hnl Hlv].
    exists (obj_at (cache s1) x (free x)), s', L'. split_and!; [|done| |congruence|by rewrite <- Hlive1|].
    + cbn [bds_cache_alloc]. unfold cbind at 1, on_heap at 1. rewrite (empty_run _ L Partial (ok_links s L Hok)), HP.
      unfold cbind at 1, on_heap at 1. cbn [heap set_heap]. rewrite (empty_run _ L Free (ok_links s L Hok)), HF. cbn [negb orb].
      change (set_heap (heap s) (set_heap (heap s) s)) with (set_heap (heap s) s). replace (set_heap (heap s) s) with s by (by destruct s).
      unfold cbind at 1. rewrite Hg. exact Hr.
    + by apply (supply_taken s1 s' _ m x).
    + intros o. by rewrite Hlv, Hlive1.
  - destruct (alloc_reuse 1 s L a l Hok HP HF) as (h' & Hok1 & HP1 & Heq). set (s1 := set_heap h' s) in *.
    destruct (alloc_partial 1 s1 _ a [] Hok1 HP1) as (x & s' & L' & Ha & Hlt & Hr & Hok' & Hs & Hsh & Hm & Hma).
    destruct (live_taken s1 s' _ a x Hok1 Ha Hlt Hs Hsh) as [Hnl Hlv].
    exists (obj_at (cache s1) x (free x)), s', L'. split_and!; try done; [by rewrite Heq|].
    apply (supply_less _ (S n)); [|lia]. apply (supply_taken s1 s' _ a x); try done. apply (supply_keep s); try done. cbn. eauto.
Qed.

(** * Freeing an object *)

(** The lists with slab [a] on list [k] and the others where they were. *)
Definition relinked (L L' : kind -> list Z) (a : Z) (k : kind) : Prop :=
  forall k1 b, b ∈ L' k1 <-> (b = a /\ k1 = k) \/ (b <> a /\ b ∈ L k1).

(** Moving it, or leaving it. *)
Lemma relink_run (s : state) L0 L k k' a (b : bool) (K : prog unit) :
  linked (heap s) L -> relinked L0 L a k ->
  exists h' L', ((if b then del a ;;; add a k' ;;; K else cret tt)%cprog s = if b then K (set_heap h' s) else Ret (tt, set_heap h' s)) /\
    linked h' L' /\ relinked L0 L' a (if b then k' else k).
Proof.
  intros Hl HL. assert (Ha : a ∈ L k) by (apply HL; auto). destruct b.
  - apply list_elem_of_split in Ha as (l1 & l2 & Hk).
    destruct (del_add_run s L k k' l1 a l2 Hl Hk) as (h' & Hr & Hl'). exists h', (moved L k k' (l1 ++ l2) a). split_and!; [|done|].
    + rewrite <- cbind_assoc. unfold cbind at 1. by rewrite Hr.
    + intros k1 b. rewrite (moved_elem L k k' l1 a l2 (heap s) k1 b Hl Hk), (HL k1 b). split; [intros [?|[? [[? _]|?]]]; auto; done|].
      intros [?|[? ?]]; auto.
  - exists (heap s), L. split_and!; [by destruct s|done|done].
Qed.

(** The index of an object of a slab. *)
Lemma index_run (s : state) L a x i : ok s L -> slabs s !! a = Some x -> 0 <= i < num (cache s) ->
  uwrap 64 (obj_at (cache s) x i - s_mem x) / buffer_size (cache s) = i.
Proof.
  intros Hok Ha Hi. set (c := cache s) in *. pose proof (ok_cache s L Hok) as Hco. fold c in Hco. pose proof (co_size _ Hco).
  unfold obj_at. replace (s_mem x + i * buffer_size c - s_mem x) with (i * buffer_size c) by lia.
  pose proof (lo_fits _ _ (co_layout _ Hco)) as Hf. pose proof (lo_coff _ _ (co_layout _ Hco)).
  pose proof (Z.abs_nonneg (colour c)). pose proof (lo_mgmt _ _ (co_layout _ Hco)) as Hmg. unfold SIZEOF_BUFCTL, SIZEOF_SLAB_DESC in Hmg.
  assert (Hss : slab_size c <= 2 ^ 25).
  { rewrite (lo_slab _ _ (co_layout _ Hco)). apply (pages_range page_shift Hshift), (lo_order _ _ (co_layout _ Hco)). }
  assert (0 <= (if off_slab c then 0 else mgmt_size c)) by (destruct (off_slab c); lia).
  rewrite uwrap_small by nia. apply Z.div_mul. lia.
Qed.

Definition one_less (c : cache_desc) : cache_desc :=
  set_counts (swrap 32 (refcount c + -1)) (swrap 32 (free_slab_count c + 0)) (swrap 32 (total_slab_count c + 0)) c.

(** Up to the moves between the lists. *)
Lemma free_one_steps (s : state) L a x i : ok s L -> slabs s !! a = Some x -> in_use (cache s) x i ->
  __free_one a (obj_at (cache s) x i) s =
  ((if sl_refcount x - 1 =? num (cache s) - 1 then del a ;;; add a Partial ;;; cret tt else cret tt) ;;;
   (if sl_refcount x - 1 =? 0 then del a ;;; add a Free ;;; count 0 1 0 else cret tt) ;;; unlock_slab a)%cprog
    (mkState (heap s) (<[a := set_lock true (returned (cache s) x i)]> (slabs s)) (one_less (cache s)) (mapped s) (mmaps s) (mallocs s)).
Proof.
  intros Hok Ha Hiu. set (c := cache s) in *. destruct (ok_slab s L Hok a x Ha) as [Hsl _]. fold c in Hsl.
  pose proof (ok_cache s L Hok) as Hco. fold c in Hco. pose proof (co_num _ Hco) as Hnum. pose proof (co_size _ Hco) as Hsz.
  destruct (returned_ok c x i Hsl Hnum Hiu) as (Hpos & _). pose proof (proj1 Hiu) as Hi.
  pose proof (so_count _ _ Hsl) as Hc. pose proof (so_len _ _ Hsl) as Hlen. pose proof (so_lock _ _ Hsl) as Hlock.
  assert (Hload : load_slab a s = Ret (x, s)) by (unfold load_slab, cbind, cget; by rewrite Ha).
  assert (Hlk : lock_slab a s = Ret (tt, set_slabs (<[a := set_lock true x]> (slabs s)) s))
    by (unfold lock_slab, cbind; rewrite Hload, Hlock; done).
  unfold __free_one. unfold cbind at 1, cget at 1. fold c. unfold cbind at 1. rewrite Hload.
  rewrite (proj2 (Z.eqb_neq (buffer_size c) 0)) by lia. pose proof (index_run s L a x i Hok Ha Hi) as Hidx. fold c in Hidx. rewrite Hidx. unfold cbind at 1. rewrite Hlk.
  rewrite (proj2 (Z.leb_gt _ _)) by lia. rewrite (swrap_small 32 i), (swrap_small 32 (sl_refcount x - 1)) by lia.
  unfold cbind at 1, store_slab at 1, cmod at 1. unfold cbind at 1, count at 1, cmod at 1. unfold set_cache, set_slabs.
  cbn [heap slabs cache mapped mmaps mallocs]. rewrite insert_insert_eq.
  rewrite (uwrap_small 32 (sl_refcount x - 1)), (uwrap_small 32 (num c - 1)) by lia.
  change (mkSlab (sl_colour x) (s_mem x) i (sl_refcount x - 1) true (<[Z.to_nat i := uwrap 16 (free x)]> (bufctl x)))
    with (set_lock true (returned c x i)).
  unfold one_less. fold c. set (s1 := mkState _ _ _ _ _ _).
  unfold cbind at 1 5. destruct (sl_refcount x - 1 =? num c - 1); [|done]. unfold cbind. destruct (del a s1) as [[[] t]|]; [|done].
  by destruct (add a Partial t) as [[[] t']|].
Qed.

(** A slab with an object in use is full or partly used. *)
Lemma in_use_list (s : state) L a x i : ok s L -> slabs s !! a = Some x -> in_use (cache s) x i ->
  relinked L L a (if sl_refcount x =? num (cache s) then Full else Partial).
Proof.
  intros Hok Ha Hiu. destruct (ok_slab s L Hok a x Ha) as [Hsl _].
  destruct (returned_ok _ x i Hsl (co_num _ (ok_cache s L Hok)) Hiu) as (Hpos & _).
  destruct (proj1 (ok_dom s L Hok a)) as [k HkL]; [eauto|]. pose proof (ok_kind s L Hok k a x HkL Ha) as Hkk.
  assert (k = (if sl_refcount x =? num (cache s) then Full else Partial)) as <-.
  { destruct k; cbn in Hkk; destruct (sl_refcount x =? num (cache s)) eqn:E; bool_to_Z; (done || lia). }
  intros k1 b. split; [|intros [[-> ->]|[_ ?]]; done]. intros Hb. destruct (decide (b = a)) as [->|]; [|auto].
  left. split; [done|]. apply (ln_once _ _ (ok_links s L Hok) k1 k a Hb HkL).
Qed.

Lemma free_one_run (s : state) L a x i : ok s L -> slabs s !! a = Some x -> in_use (cache s) x i ->
  exists s' L', __free_one a (obj_at (cache s) x i) s = Ret (tt, s') /\ ok s' L' /\
    slabs s' = <[a := returned (cache s) x i]> (slabs s) /\ shape (cache s') = shape (cache s) /\
    mmaps s' = mmaps s /\ mallocs s' = mallocs s.
Proof.
  intros Hok Ha Hiu. rewrite (free_one_steps s L a x i Hok Ha Hiu). pose proof (in_use_list s L a x i Hok Ha Hiu) as HL0.
  set (c := cache s) in *. destruct (ok_slab s L Hok a x Ha) as [Hsl _]. fold c in Hsl.
  pose proof (ok_cache s L Hok) as Hco. fold c in Hco.
  destruct (returned_ok c x i Hsl (co_num _ Hco) Hiu) as (Hpos & Hsl' & _). pose proof (so_count _ _ Hsl) as Hc.
  set (y := set_lock true (returned c x i)). set (n := sl_refcount x - 1) in *.
  set (s1 := mkState (heap s) (<[a := y]> (slabs s)) (one_less c) (mapped s) (mmaps s) (mallocs s)).
  destruct (relink_run s1 L L _ Partial a (n =? num c - 1) (cret tt) (ok_links s L Hok) HL0) as (h1 & L1 & Hr1 & Hl1 & HL1).
  assert (Hk1 : (if n =? num c - 1 then Partial else if sl_refcount x =? num c then Full else Partial) = Partial).
  { destruct (n =? num c - 1) eqn:E; bool_to_Z; [done|]. destruct (sl_refcount x =? num c) eqn:E2; bool_to_Z; [lia|done]. }
  rewrite Hk1 in HL1.
  assert (Hr1' : (if n =? num c - 1 then del a ;;; add a Partial ;;; cret tt else cret tt)%cprog s1 = Ret (tt, set_heap h1 s1))
    by (rewrite Hr1; by destruct (n =? num c - 1)).
  unfold cbind at 1. rewrite Hr1'.
  destruct (relink_run (set_heap h1 s1) L L1 Partial Free a (n =? 0) (count 0 1 0)) as (h2 & L2 & Hr2 & Hl2 & HL2); [done|done|].
  unfold cbind at 1. rewrite Hr2.
  set (c2 := if n =? 0 then set_counts (swrap 32 (refcount (one_less c) + 0)) (swrap 32 (free_slab_count (one_less c) + 1))
               (swrap 32 (total_slab_count (one_less c) + 0)) (one_less c) else one_less c).
  assert (Hr3 : (if n =? 0 then count 0 1 0 (set_heap h2 (set_heap h1 s1)) else Ret (tt, set_heap h2 (set_heap h1 s1)))
    = Ret (tt, mkState h2 (<[a := y]> (slabs s)) c2 (mapped s) (mmaps s) (mallocs s))) by (unfold c2; by destruct (n =? 0)).
  rewrite Hr3.
  exists (mkState h2 (<[a := returned c x i]> (slabs s)) c2 (mapped s) (mmaps s) (mallocs s)), L2. split.
  { unfold unlock_slab, load_slab, store_slab, cbind, cget, cmod. cbn [slabs]. rewrite lookup_insert_eq. cbn.
    unfold set_slabs. cbn. rewrite insert_insert_eq. reflexivity. }
  assert (Hc2 : shape c = shape c2 /\ cache_ok c2)
    by (unfold c2, one_less; destruct (n =? 0); (split; [done|]; repeat apply cache_ok_counts; done)).
  split; [|split_and!; [done|by symmetry; apply Hc2|done|done]].
  apply (ok_update s L L2 a x _ h2 c2 Hok Ha Hsl'); try done; try apply Hc2.
  - intros k1 Hk1'. apply HL2 in Hk1' as [[_ ->]|[? _]]; [|done]. destruct (n =? 0) eqn:E; bool_to_Z; cbn; fold c; unfold n in *; lia.
  - eexists. apply HL2. auto.
  - intros k1 b Hne. rewrite (HL2 k1 b). intuition congruence.
Qed.

(** ** Finding the slab of an object *)

(** Only its own slab holds an object. *)
Lemma holds_obj (s : state) L a b x y i : ok s L -> slabs s !! a = Some x -> slabs s !! b = Some y -> 0 <= i < num (cache s) ->
  holds s (obj_at (cache s) x i) (node b) = bool_decide (b = a).
Proof.
  intros Hok Ha Hb Hi. unfold holds. replace (node b - next_off) with b by (unfold node; lia). rewrite Hb.
  pose proof (co_size _ (ok_cache s L Hok)). case_bool_decide as Hba.
  - subst b. rewrite Ha in Hb. injection Hb as <-. unfold obj_at. apply andb_true_iff. split; apply Z.leb_le; nia.
  - apply andb_false_iff. destruct (obj_in_slab s L a x i Hok Ha Hi).
    assert (Hn : 0 <= num (cache s) - 1 < num (cache s)) by lia.
    destruct (obj_in_slab s L b y 0 Hok Hb ltac:(lia)), (obj_in_slab s L b y _ Hok Hb Hn). unfold obj_at in *.
    destruct (ok_apart s L Hok a b x y (not_eq_sym Hba) Ha Hb); [left|right]; apply Z.leb_gt; lia.
Qed.

Lemma find_obj (s : state) L a x i (l : list Z) : ok s L -> slabs s !! a = Some x -> 0 <= i < num (cache s) ->
  (forall b, b ∈ l -> is_Some (slabs s !! b)) ->
  List.find (holds s (obj_at (cache s) x i)) (node <$> l) = if decide (a ∈ l) then Some (node a) else None.
Proof.
  intros Hok Ha Hi. induction l as [|b l IH]; intros Hl; cbn; [done|].
  destruct (Hl b) as [y Hy]; [set_solver|]. rewrite (holds_obj s L a b x y i Hok Ha Hy Hi). case_bool_decide as Hb.
  - subst b. rewrite decide_True by set_solver. done.
  - rewrite IH by set_solver. destruct (decide (a ∈ l)), (decide (a ∈ b :: l)); set_solver.
Qed.

Lemma find_list_run (s : state) L k a x i : ok s L -> slabs s !! a = Some x -> 0 <= i < num (cache s) ->
  __find_object_in_slab_list k (obj_at (cache s) x i) s = Ret (if decide (a ∈ L k) then Some a else None, s).
Proof.
  intros Hok Ha Hi. pose proof (ok_links s L Hok) as Hl. unfold __find_object_in_slab_list, on_heap, cbind, cget.
  rewrite (empty_run _ L k Hl). destruct (L k) as [|b l] eqn:Hk.
  { rewrite decide_False by set_solver. cbn. by destruct s. }
  cbn [heap set_heap]. rewrite (first_run _ L k b l Hl Hk). cbn [heap set_heap].
  pose proof (ln_list _ _ Hl k) as Hd. rewrite Hk in Hd. pose proof (dlist_length _ _ _ Hd) as Hlen.
  replace (set_heap (heap s) s) with s by (by destruct s).
  erewrite list_find_run; [|exact Hd| |done]. 2: { destruct Hd as [_ Hd]. by destruct Hd as (Hn & _). }
  rewrite (find_obj s L a x i (b :: l) Hok Ha Hi).
  - assert (Hset : set_heap (heap s) s = s) by (by destruct s). unfold cret. case_decide; cbn; rewrite !Hset; [|done].
    by replace (node a - next_off) with a by (unfold node; lia).
  - intros d Hd'. apply (ok_dom s L Hok). exists k. by rewrite Hk.
Qed.

(** The page an address is in. *)
Lemma page_of_spec x : page_of x = 2 ^ page_shift * (x / 2 ^ page_shift).
Proof.
  unfold page_of. rewrite <- (Z.shiftr_div_pow2 x page_shift), Z.mul_comm, <- Z.shiftl_mul_pow2 by lia.
  apply Z.bits_inj'. intros n Hn. rewrite Z.land_spec, !Z.shiftl_spec by done. destruct (Z.lt_ge_cases n page_shift).
  - rewrite !(Z.testbit_neg_r _ (n - page_shift)) by lia. apply andb_false_r.
  - rewrite Z.shiftr_spec, Z.bits_m1, andb_true_r by lia. f_equal. lia.
Qed.

Context (Hdata : forall p, data p <> SLAB_MAGIC).

(** On the way back from a page of a slab. *)
Lemma find_magic_run (s : state) L a x (k fuel : nat) :
  ok s L -> off_slab (cache s) = false -> slabs s !! a = Some x -> (k < fuel)%nat ->
  Z.of_nat k * 2 ^ page_shift < slab_size (cache s) ->
  find_magic fuel (a + Z.of_nat k * 2 ^ page_shift) s = Ret (a, s).
Proof.
  intros Hok Hon Ha. revert fuel. destruct (ok_slab s L Hok a x Ha) as [_ Hpl]. pose proof (pl_desc _ _ _ _ Hpl Hon) as Hbase.
  pose proof (pl_mapped _ _ _ _ Hpl) as Hmap. rewrite <- Hbase in Hmap.
  assert (H2 : 0 < 2 ^ page_shift) by (apply Z.pow_pos_nonneg; lia).
  induction k as [|k IH]; intros [|fuel] Hf Hk; try lia; cbn [find_magic]; unfold page_word, cbind, cget.
  - rewrite Z.add_0_r, Ha. cbn. by rewrite Z.eqb_refl.
  - assert (Hno : slabs s !! (a + Z.of_nat (S k) * 2 ^ page_shift) = None).
    { destruct (slabs s !! (a + Z.of_nat (S k) * 2 ^ page_shift)) as [y|] eqn:Hy; [|done]. exfalso. destruct (ok_slab s L Hok _ y Hy) as [_ Hpl']. pose proof (pl_desc _ _ _ _ Hpl' Hon) as Hb'.
      assert (Hd : 0 < Z.of_nat (S k) * 2 ^ page_shift) by lia.
      assert (Hne : a <> a + Z.of_nat (S k) * 2 ^ page_shift) by lia.
      destruct (ok_apart s L Hok a _ x y Hne Ha Hy); lia. }
    rewrite Hno.
    assert (is_mapped s (a + Z.of_nat (S k) * 2 ^ page_shift) = true) as ->.
    { unfold is_mapped. apply existsb_exists. exists (a, slab_size (cache s)). split.
      - apply list_elem_of_In, elem_of_map_to_list. done.
      - cbn [fst snd]. apply andb_true_iff. split; [apply Z.leb_le; nia|apply Z.ltb_lt; lia]. }
    cbn [cret]. rewrite (co_magic _ (ok_cache s L Hok)), (proj2 (Z.eqb_neq _ _) (Hdata _)).
    replace (a + Z.of_nat (S k) * 2 ^ page_shift - 2 ^ page_shift) with (a + Z.of_nat k * 2 ^ page_shift) by lia. apply IH; lia.
Qed.

(** [bds_cache_free] takes an object that is in use back and leaves the others
    as they were. *)
Lemma free_run (s : state) L o : ok s L -> live s o ->
  exists s' L', bds_cache_free o s = Ret (0, s') /\ ok s' L' /\ shape (cache s') = shape (cache s) /\
    (forall o', live s' o' <-> o' <> o /\ live s o') /\ (forall n, supply s n -> supply s' n).
Proof.
  intros Hok (a & x & i & Ha & Hiu & ->). pose proof (proj1 Hiu) as Hi.
  destruct (free_one_run s L a x i Hok Ha Hiu) as (s' & L' & Hr & Hok' & Hs & Hsh & Hm & Hma).
  exists s', L'. split; [|split_and!; [done|done| |]].
  - assert (Hlast : (__free_one a (obj_at (cache s) x i) ;;; cret 0)%cprog s = Ret (0, s')) by (unfold cbind; by rewrite Hr).
    unfold bds_cache_free. unfold cbind at 1, cget at 1. destruct (off_slab (cache s)) eqn:Hoff.
    + unfold cbind at 1. rewrite (find_list_run s L Partial a x i Hok Ha Hi). destruct (decide (a ∈ L Partial)) as [|Hnp].
      { unfold cbind at 1, cret at 1. exact Hlast. }
      unfold cbind at 1. rewrite (find_list_run s L Full a x i Hok Ha Hi). rewrite decide_True; [exact Hlast|].
      pose proof (in_use_list s L a x i Hok Ha Hiu) as HL. destruct (sl_refcount x =? num (cache s)); [apply HL; auto|].
      destruct Hnp. apply HL. auto.
    + destruct (ok_slab s L Hok a x Ha) as [_ Hpl]. pose proof (pl_desc _ _ _ _ Hpl Hoff) as Hbase. pose proof (pl_page _ _ _ _ Hpl) as Hpg.
      rewrite <- Hbase in Hpg. destruct (obj_in_slab s L a x i Hok Ha Hi) as [Hlo Hhi]. rewrite <- Hbase in Hlo, Hhi.
      pose proof (co_size _ (ok_cache s L Hok)). pose proof (lo_slab _ _ (co_layout _ (ok_cache s L Hok))) as Hss.
      pose proof (lo_order _ _ (co_layout _ (ok_cache s L Hok))). set (P := 2 ^ page_shift) in *.
      assert (HP : 0 < P) by (apply Z.pow_pos_nonneg; lia). set (q := obj_at (cache s) x i) in *.
      assert (Hq : page_of q = a + Z.of_nat (Z.to_nat ((q - a) / P)) * P).
      { rewrite page_of_spec. fold P. rewrite Z2Nat.id by (apply Z.div_pos; lia).
        rewrite (Z.div_mod a P) at 1 2 by lia. rewrite Hpg, Z.add_0_r.
        replace q with ((q - P * (a / P)) + (a / P) * P) at 1 by lia. rewrite Z.div_add by lia. lia. }
      assert (Hlt : (q - a) / P * P <= q - a) by (rewrite Z.mul_comm; apply Z.mul_div_le; lia).
      assert (Hq0 : 0 <= (q - a) / P) by (apply Z.div_pos; lia).
      unfold cbind at 1. rewrite Hq. rewrite (find_magic_run s L a x); [exact Hlast|done|done|done| |fold P; lia].
      apply Z2Nat.inj_lt; [done|apply Z.pow_nonneg; lia|]. unfold pages in Hss. fold P in Hss. nia.
  - apply (live_returned s s' L a x i); done.
  - intros n Hsu. apply (supply_keep s); try done. intros b z. rewrite Hs.
    destruct (decide (a = b)) as [<-|Hne]; [rewrite lookup_insert_eq|rewrite lookup_insert_ne by done]; [intros [= <-]|]; eauto.
Qed.

(** * Giving slabs back *)

(** The first slab of a list is given back to the system. *)
Lemma release_run (s : state) L k a l x : ok s L -> L k = a :: l -> slabs s !! a = Some x ->
  exists h', (del a ;;; release a)%cprog s =
      Ret (tt, mkState h' (delete a (slabs s)) (cache s) (delete (slab_base (cache s) x) (mapped s)) (mmaps s) (mallocs s)) /\
    ok (mkState h' (delete a (slabs s)) (cache s) (delete (slab_base (cache s) x) (mapped s)) (mmaps s) (mallocs s)) (upd L k l).
Proof.
  intros Hok HL Ha. destruct (del_linked (heap s) L k [] a l (ok_links s L Hok) HL) as (h1 & Hr & Hl1 & _). cbn [app] in Hl1.
  assert (Hsub : forall k' b, b ∈ upd L k l k' <-> b <> a /\ b ∈ L k').
  { intros k' b. pose proof (ln_list _ _ (ok_links s L Hok) k) as [Hnd _]. rewrite HL in Hnd.
    apply list.NoDup_cons in Hnd as [_ Hnd]. apply NoDup_fmap_1, list.NoDup_cons in Hnd as [Hni _].
    assert (HaL : a ∈ L k) by (rewrite HL; set_solver). destruct (decide (k' = k)) as [->|Hne].
    - rewrite upd_eq, HL. set_solver.
    - rewrite upd_ne by done. split; [|tauto]. intros Hb. split; [|done]. intros ->.
      by apply Hne, (ln_once _ _ (ok_links s L Hok) k' k a). }
  exists (delete (node a) h1). split.
  { unfold del, release, on_heap, load_slab, __reclaim_free_pages, cbind, cget, cmod. rewrite Hr. cbn [set_heap slabs cache]. rewrite Ha. done. }
  assert (Hlook : forall b y, delete a (slabs s) !! b = Some y -> b <> a /\ slabs s !! b = Some y).
  { intros b y Hb. apply lookup_delete_Some in Hb as [? ?]. auto. }
  split; cbn [heap slabs cache mapped].
  - split; [|apply (ln_once _ _ Hl1)|apply (ln_head _ _ Hl1)]. intros k'. eapply dlist_frame; [apply (ln_list _ _ Hl1)|].
    intros p Hp. apply lookup_delete_ne. intros <-. apply elem_of_cons in Hp as [Hp|Hp].
    + apply (ln_head _ _ (ok_links s L Hok) k k' a); [rewrite HL; set_solver|done].
    + rewrite node_elem in Hp. apply Hsub in Hp as [? _]. done.
  - intros b. split.
    + intros [y [Hne Hy]%Hlook]. destruct (proj1 (ok_dom s L Hok b)) as [k' Hk']; [eauto|]. exists k'. apply Hsub. auto.
    + intros [k' [Hne Hb]%Hsub]. rewrite lookup_delete_ne by done. apply (ok_dom s L Hok). eauto.
  - intros b y [Hne Hy]%Hlook. destruct (ok_slab s L Hok b y Hy) as [H1 [P1 P2 P3 P4 P5]]. split; [done|]. split; try done.
    rewrite lookup_delete_ne; [done|]. intros He. pose proof (pages_range page_shift Hshift _ (lo_order _ _ (co_layout _ (ok_cache s L Hok)))) as Hp.
    rewrite <- (lo_slab _ _ (co_layout _ (ok_cache s L Hok))) in Hp. destruct (ok_apart s L Hok a b x y (not_eq_sym Hne) Ha Hy); lia.
  - intros k' b y [_ Hb]%Hsub [_ Hy]%Hlook. by apply (ok_kind s L Hok k' b y).
  - intros b d y z Hne [_ Hy]%Hlook [_ Hz]%Hlook. by apply (ok_apart s L Hok b d y z).
  - apply (ok_cache s L Hok).
Qed.

(** The lists only matter element by element, in order. *)
Lemma ok_lists (s : state) L L' : ok s L -> (forall k, L k = L' k) -> ok s L'.
Proof.
  intros [[O1 O2 O3] O4 O5 O6 O7 O8] HL. split; try done.
  - split; [intros k|intros k k' a|intros k k' a]; rewrite <- ?HL; eauto.
  - intros b. rewrite O4. split; intros [k Hb]; exists k; [by rewrite <- HL|by rewrite HL].
  - intros k a y. rewrite <- HL. apply O6.
Qed.

(** The lists of the first state without the slabs of [k]: their pages are
    unmapped, the others are as they were. *)
Definition gone (s s' : state) (L : kind -> list Z) (k : kind) : Prop :=
  (forall a, slabs s' !! a = if decide (a ∈ L k) then None else slabs s !! a) /\
  (forall a x, a ∈ L k -> slabs s !! a = Some x -> mapped s' !! slab_base (cache s) x = None) /\
  (forall p, (forall a x, a ∈ L k -> slabs s !! a = Some x -> slab_base (cache s) x <> p) -> mapped s' !! p = mapped s !! p) /\
  mapped s' ⊆ mapped s.

Lemma gone_cons (s s1 s' : state) L k a l x : L k = a :: l -> slabs s !! a = Some x ->
  s1 = mkState (heap s1) (delete a (slabs s)) (cache s) (delete (slab_base (cache s) x) (mapped s)) (mmaps s) (mallocs s) ->
  gone s1 s' (upd L k l) k -> gone s s' L k.
Proof.
  intros HL Ha Hs1 (G1 & G2 & G3 & G4). rewrite Hs1 in G1, G2, G3, G4. cbn [slabs cache mapped] in *. rewrite upd_eq in G1, G2, G3.
  split_and!.
  - intros b. rewrite G1, HL. destruct (decide (b = a)) as [->|Hne].
    + rewrite lookup_delete_eq, (decide_True (P := a ∈ a :: l)) by set_solver. by case_decide.
    + rewrite lookup_delete_ne by done. repeat case_decide; set_solver.
  - intros b y Hb Hy. destruct (decide (b = a)) as [->|Hne].
    + rewrite Ha in Hy. injection Hy as <-. destruct (mapped s' !! slab_base (cache s) x) as [z|] eqn:Hz; [|done].
      apply (lookup_weaken _ _ _ _ Hz) in G4. by rewrite lookup_delete_eq in G4.
    + apply (G2 b); [rewrite HL in Hb; set_solver|]. by rewrite lookup_delete_ne.
  - intros p Hp. rewrite G3, lookup_delete_ne; [done| |].
    + apply (Hp a x); [rewrite HL; set_solver|done].
    + intros d y Hd Hy. apply lookup_delete_Some in Hy as [_ Hy]. apply (Hp d y); [rewrite HL; set_solver|done].
  - etrans; [exact G4|apply delete_subseteq].
Qed.

Lemma destroy_list_run (fuel : nat) (s : state) L k : ok s L -> (length (L k) < fuel)%nat ->
  exists s', __destroy_slab_list fuel k s = Ret (tt, s') /\ ok s' (upd L k []) /\ cache s' = cache s /\ gone s s' L k.
Proof.
  revert s L. induction fuel as [|fuel IH]; intros s L Hok Hf; [lia|]. cbn [__destroy_slab_list].
  assert (Hset : set_heap (heap s) s = s) by (by destruct s).
  unfold cbind at 1, on_heap at 1. rewrite (empty_run _ L k (ok_links s L Hok)), Hset. destruct (L k) as [|a l] eqn:HL.
  - exists s. split; [done|]. split; [|split; [done|]].
    + apply (ok_lists s L); [done|]. intros k'. destruct (decide (k' = k)) as [->|]; [by rewrite upd_eq|by rewrite upd_ne].
    + unfold gone. rewrite HL. split_and!; [intros b; by rewrite decide_False by set_solver|set_solver|done|done].
  - unfold cbind at 1, on_heap at 1. rewrite (first_run _ L k a l (ok_links s L Hok) HL), Hset.
    replace (node a - next_off) with a by (unfold node; lia).
    destruct (proj2 (ok_dom s L Hok a)) as [x Ha]; [exists k; rewrite HL; set_solver|].
    destruct (release_run s L k a l x Hok HL Ha) as (h' & Hr & Hok1). set (s1 := mkState h' _ _ _ _ _) in *.
    destruct (IH s1 (upd L k l) Hok1) as (s' & Hr' & Hok' & Hc & Hg); [rewrite upd_eq; cbn in Hf; lia|].
    exists s'. split; [|split; [|split; [done|by apply (gone_cons s s1 s' L k a l x)]]].
    + revert Hr. unfold cbind at 1. destruct (del a s) as [[[] t]|] eqn:Hd; [|done]. intros Hr.
      unfold cbind at 1. rewrite Hd. unfold cbind at 1. rewrite Hr. exact Hr'.
    + eapply ok_lists; [exact Hok'|]. intros k'. destruct (decide (k' = k)) as [->|]; [by rewrite !upd_eq|by rewrite !upd_ne].
Qed.

Lemma length_slabs (s : state) L k : ok s L -> (length (L k) <= size (slabs s))%nat.
Proof.
  intros Hok. pose proof (ln_list _ _ (ok_links s L Hok) k) as [Hnd _]. apply list.NoDup_cons in Hnd as [_ Hnd]. apply NoDup_fmap_1 in Hnd.
  rewrite <- (size_list_to_set (C := gset Z)), <- size_dom by done. apply subseteq_size. intros a Ha.
  apply elem_of_list_to_set in Ha. apply elem_of_dom, (ok_dom s L Hok). eauto.
Qed.

(** C32. [bds_cache_destroy] of a cache that is not in use, or with [force] set,
    gives all slabs back: their pages are unmapped, their descriptors are gone,
    the lists are empty, and no other mapping is touched. *)
Theorem destroy_gives_back (s : state) L force : ok s L -> force = true \/ refcount (cache s) <= 0 ->
  exists s', bds_cache_destroy force s = Ret (true, s') /\ ok s' (fun _ => []) /\ slabs s' = ∅ /\
    (forall a x, slabs s !! a = Some x -> mapped s' !! slab_base (cache s) x = None) /\
    (forall p, (forall a x, slabs s !! a = Some x -> slab_base (cache s) x <> p) -> mapped s' !! p = mapped s !! p).
Proof.
  intros Hok Hfr. unfold bds_cache_destroy. unfold cbind at 1, cget at 1.
  assert ((0 <? refcount (cache s)) && negb force = false) as ->.
  { destruct Hfr as [->|]; [apply andb_false_r|]. rewrite (proj2 (Z.ltb_ge _ _)) by lia. done. }
  pose proof (fun k => length_slabs s L k Hok) as Hlen.
  destruct (destroy_list_run (S (size (slabs s))) s L Free Hok) as (s1 & R1 & Hok1 & C1 & G1 & G2 & G3 & G4); [specialize (Hlen Free); lia|].
  destruct (destroy_list_run (S (size (slabs s))) s1 _ Partial Hok1) as (s2 & R2 & Hok2 & C2 & G1' & G2' & G3' & G4'); [specialize (Hlen Partial); change (upd L Free [] Partial) with (L Partial); lia|].
  destruct (destroy_list_run (S (size (slabs s))) s2 _ Full Hok2) as (s3 & R3 & Hok3 & C3 & G1'' & G2'' & G3'' & G4''); [specialize (Hlen Full); change (upd (upd L Free []) Partial [] Full) with (L Full); lia|].
  exists s3. unfold cbind. rewrite R1, R2, R3. split; [done|]. rewrite C2 in *. rewrite C1 in *.
  change (upd L Free [] Partial) with (L Partial) in *. change (upd (upd L Free []) Partial [] Full) with (L Full) in *.
  assert (Hok' : ok s3 (fun _ => [])) by (eapply ok_lists; [exact Hok3|]; by intros []). split; [exact Hok'|].
  assert (HE : slabs s3 = ∅).
  { apply map_eq. intros a. rewrite lookup_empty. destruct (slabs s3 !! a) eqn:E; [|done].
    destruct (proj1 (ok_dom s3 _ Hok' a)) as [k Hk]; [eauto|]. set_solver. }
  split; [done|]. split.
  - intros a x Ha. destruct (proj1 (ok_dom s L Hok a)) as [k Hk]; [eauto|].
    assert (Hup : forall p, mapped s1 !! p = None -> mapped s3 !! p = None).
    { intros p Hp. apply eq_None_not_Some. intros [z Hz]. apply (lookup_weaken _ _ _ _ Hz) in G4''.
      apply (lookup_weaken _ _ _ _ G4'') in G4'. congruence. }
    pose proof (ln_once _ _ (ok_links s L Hok)) as Honce. destruct k.
    + apply eq_None_not_Some. intros [z Hz]. apply (lookup_weaken _ _ _ _ Hz) in G4''. rewrite (G2' a x) in G4''; [done|done|].
      rewrite G1, decide_False; [done|]. intros Hf. discriminate (Honce _ _ a Hk Hf).
    + apply (G2'' a x); [done|]. rewrite G1', G1. rewrite !decide_False; [done| |]; intros Hf; discriminate (Honce _ _ a Hk Hf).
    + apply Hup, (G2 a x); done.
  - intros p Hp. rewrite G3'', G3', G3; [done|..].
    + intros a x _ Ha. by apply (Hp a x).
    + intros a x _. rewrite G1. case_decide; [done|]. intros Ha. by apply (Hp a x).
    + intros a x _. rewrite G1'. case_decide; [done|]. rewrite G1. case_decide; [done|]. intros Ha. by apply (Hp a x).
Qed.

(** ** The collector *)

(** The counters say how many slabs there are. *)
Definition exact (s : state) (L : kind -> list Z) : Prop :=
  free_slab_count (cache s) = Z.of_nat (length (L Free)) /\ total_slab_count (cache s) = Z.of_nat (size (slabs s)).

(** A free slab that is given back has no object in use. *)
Lemma live_released (s s' : state) L a l x : ok s L -> L Free = a :: l -> slabs s !! a = Some x ->
  slabs s' = delete a (slabs s) -> shape (cache s') = shape (cache s) -> forall o, live s' o <-> live s o.
Proof.
  intros Hok HL Ha Hs Hsh o. apply shape_eq in Hsh as (_ & Hn & Hb & _). unfold live, in_use, free_objs, obj_at. rewrite Hs, Hn, Hb. split.
  - intros (b & y & i & [_ Hy]%lookup_delete_Some & Hi). exists b, y, i. auto.
  - intros (b & y & i & Hy & Hi & ->). exists b, y, i. split; [|done]. apply lookup_delete_Some. split; [|done]. intros <-.
    rewrite Ha in Hy. injection Hy as <-. assert (HaF : a ∈ L Free) by (rewrite HL; set_solver).
    pose proof (ok_kind s L Hok Free a x HaF Ha) as Hz. cbn in Hz. destruct (ok_slab s L Hok a x Ha) as [Hsl _].
    destruct (returned_ok _ x i Hsl (co_num _ (ok_cache s L Hok)) Hi) as [? _]. lia.
Qed.

Lemma ok_counts (s : state) L r f t : ok s L -> ok (set_cache (set_counts r f t (cache s)) s) L.
Proof.
  intros [O1 O2 O3 O4 O5 O6]. split; [done|done| |done|done|by apply cache_ok_counts].
  intros a x Ha. destruct (O3 a x Ha). split; [by apply (slab_ok_shape (cache s))|by apply (placed_shape (cache s))].
Qed.

(** Giving back the first free slab, with the counters. *)
Lemma collect_step (s : state) L a l : ok s L -> exact s L -> L Free = a :: l -> Z.of_nat (size (slabs s)) < 2 ^ 25 ->
  exists s', (del a ;;; release a ;;; count 0 (-1) (-1))%cprog s = Ret (tt, s') /\ ok s' (upd L Free l) /\ exact s' (upd L Free l) /\
    (forall o, live s' o <-> live s o) /\ linger (cache s') = linger (cache s) /\ S (size (slabs s')) = size (slabs s) /\
    shape (cache s') = shape (cache s).
Proof.
  intros Hok [Hf Ht] HL Hsz. destruct (proj2 (ok_dom s L Hok a)) as [x Ha]; [exists Free; rewrite HL; set_solver|].
  destruct (release_run s L Free a l x Hok HL Ha) as (h' & Hr & Hok1).
  assert (Hd : size (delete a (slabs s)) = pred (size (slabs s))) by (apply map_size_delete_Some; eauto).
  assert (Hpos : size (slabs s) <> 0%nat) by (intros Hz%map_size_empty_inv; by rewrite Hz in Ha).
  pose proof (length_slabs s L Free Hok) as Hlf. rewrite HL in Hf, Hlf. cbn [length] in Hf, Hlf.
  set (s1 := mkState h' _ _ _ _ _) in *.
  exists (set_cache (set_counts (swrap 32 (refcount (cache s) + 0)) (swrap 32 (free_slab_count (cache s) + -1))
                       (swrap 32 (total_slab_count (cache s) + -1)) (cache s)) s1).
  split; [|split; [|split; [|split; [|split; [reflexivity|split; [|reflexivity]]]]]].
  - revert Hr. unfold cbind at 1 2. destruct (del a s) as [[[] t]|] eqn:Hda; [|done]. intros Hr. unfold cbind. rewrite Hr. reflexivity.
  - exact (ok_counts s1 _ _ _ _ Hok1).
  - split; cbn; rewrite ?upd_eq, !swrap_small; lia.
  - by apply (live_released s _ L a l x).
  - cbn. lia.
Qed.

Lemma destroy_free_run (fuel : nat) t (s : state) L :
  ok s L -> exact s L -> 2 <= linger (cache s) -> Z.of_nat (size (slabs s)) < 2 ^ 25 -> (length (L Free) < fuel)%nat ->
  size (slabs s) <> 0%nat ->
  exists s' L', __destroy_free_slabs fuel t s = Ret (tt, s') /\ ok s' L' /\ exact s' L' /\ (forall o, live s' o <-> live s o) /\
    (100 * free_slab_count (cache s') / total_slab_count (cache s') < t \/ free_slab_count (cache s') < linger (cache s)) /\
    shape (cache s') = shape (cache s).
Proof.
  revert s L. induction fuel as [|fuel IH]; intros s L Hok Hex Hli Hsz Hfu Hne; [lia|]. cbn [__destroy_free_slabs].
  pose proof (length_slabs s L Free Hok) as Hlf. pose proof Hex as [Hf Ht]. unfold cbind at 1, cget at 1. cbv zeta.
  rewrite (uwrap_small 32 (total_slab_count (cache s))), (uwrap_small 32 (free_slab_count (cache s))) by lia.
  rewrite (uwrap_small 32 (free_slab_count (cache s) * 100)) by lia. rewrite (proj2 (Z.eqb_neq (total_slab_count _) 0)) by lia.
  destruct (_ || _) eqn:E.
  { exists s, L. split; [done|]. split_and!; try done. apply orb_true_iff in E as [E|E]; bool_to_Z; [left|by right]. by rewrite Z.mul_comm. }
  apply orb_false_iff in E as [_ E]. bool_to_Z. destruct (L Free) as [|a l] eqn:HL; [cbn in Hf; lia|].
  destruct (collect_step s L a l Hok Hex HL Hsz) as (s1 & Hr & Hok1 & Hex1 & Hlv & Hl1 & Hs1 & Hsh1).
  assert (Hset : set_heap (heap s) s = s) by (by destruct s).
  unfold cbind at 1, on_heap at 1. rewrite (first_run _ L Free a l (ok_links s L Hok) HL), Hset.
  replace (node a - next_off) with a by (unfold node; lia). cbn [length] in *.
  destruct (IH s1 (upd L Free l) Hok1 Hex1) as (s' & L' & Hr' & Hok' & Hex' & Hlv' & Hend & Hsh'); try lia.
  { rewrite upd_eq. lia. }
  exists s', L'. split_and!; try done.
  - revert Hr. unfold cbind at 1 2. destruct (del a s) as [[[] u]|] eqn:Hda; [|done]. destruct (release a u) as [[[] v]|] eqn:Hre; [|done].
    intros Hr. unfold cbind at 1. rewrite Hda. unfold cbind at 1. rewrite Hre. unfold cbind at 1. rewrite Hr. exact Hr'.
  - intros o. by rewrite Hlv', Hlv.
  - by rewrite <- Hl1.
  - by rewrite Hsh'.
Qed.

(** C31. As long as the counters of a cache are exact, the collector only takes
    free slabs: it returns, every object in use stays in use, and of the slabs
    that are left at most the given percentage, or fewer than [linger], are
    free. *)
Theorem collect_keeps_live t (s : state) L : ok s L -> exact s L -> 2 <= linger (cache s) ->
  Z.of_nat (size (slabs s)) < 2 ^ 25 -> 0 <= t <= 99 ->
  exists s' L', collect t s = Ret (tt, s') /\ ok s' L' /\ exact s' L' /\ (forall o, live s' o <-> live s o) /\
    (100 * free_slab_count (cache s') <= t * total_slab_count (cache s') \/ free_slab_count (cache s') < linger (cache s)).
Proof.
  intros Hok Hex Hli Hsz Ht. pose proof (length_slabs s L Free Hok) as Hlf. pose proof Hex as [Hf Htot].
  unfold collect. unfold cbind at 1, cget at 1. cbv zeta.
  rewrite (uwrap_small 32 (total_slab_count (cache s))), (uwrap_small 32 (free_slab_count (cache s))) by lia.
  rewrite uwrap_small by nia. destruct (_ <? _) eqn:E; bool_to_Z.
  - assert (Hpos : 0 <= t * total_slab_count (cache s) / 100) by (apply Z.div_pos; nia).
    destruct (destroy_free_run (S (Z.to_nat (free_slab_count (cache s)))) t s L Hok Hex Hli Hsz) as (s' & L' & Hr & Hok' & Hex' & Hlv & Hend & _);
      [lia|lia|].
    exists s', L'. split_and!; try done. destruct Hend as [Hd|]; [left|by right].
    destruct Hex' as [Hf' Ht']. destruct (decide (total_slab_count (cache s') = 0)) as [Hz|Hz].
    { pose proof (length_slabs s' L' Free Hok') as Hl'. rewrite Hz in *. lia. }
    pose proof (Z.div_mod (100 * free_slab_count (cache s')) (total_slab_count (cache s')) Hz).
    pose proof (Z.mod_pos_bound (100 * free_slab_count (cache s')) (total_slab_count (cache s')) ltac:(lia)). nia.
  - exists s, L. split_and!; try done. left. pose proof (Z.mul_div_le (t * total_slab_count (cache s)) 100). lia.
Qed.

(** * Clients *)

(** The lists of a new cache. *)
Definition init_lists : lheap :=
  <[head Partial := mkHead (head Partial) (head Partial)]> (<[head Full := mkHead (head Full) (head Full)]>
    (<[head Free := mkHead (head Free) (head Free)]> ∅)).
Definition new_cache (c : cache_desc) (mm ml : list Z) : state := mkState init_lists ∅ c ∅ mm ml.

Lemma new_cache_ok c mm ml : cache_ok c -> ok (new_cache c mm ml) (fun _ => []) /\ (forall o, ~ live (new_cache c mm ml) o).
Proof.
  intros Hc. split; [|by intros o (a & x & i & Ha & _)]. split; try done.
  - split; [|set_solver|set_solver]. intros k. assert (Hk : init_lists !! head k = Some (mkHead (head k) (head k))).
    { unfold init_lists. destruct k; repeat (rewrite lookup_insert_eq || rewrite lookup_insert_ne by (intros ?%Hhead; done)); done. }
    split; [apply NoDup_singleton|]. cbn. unfold nxt, prv. by rewrite Hk.
  - intros a. cbn. rewrite lookup_empty. split; [by intros []|]. intros [k Hk]. set_solver.
Qed.

(** What a user does: takes an object, or gives back one of those it holds. *)
Inductive op : Set := Alloc | FreeNth (k : nat).
Definition step (x : op) (held : list Z) : prog (list Z) :=
  match x with
  | Alloc => (let! o := bds_cache_alloc 2 in cret (o :: held))%cprog
  | FreeNth k =>
      match held !! k with
      | Some o => (let! _ := bds_cache_free o in cret (delete k held))%cprog
      | None => cret held
      end
  end.
Fixpoint steps (l : list op) (held : list Z) : prog (list Z) :=
  match l with
  | [] => cret held
  | x :: l' => (let! held := step x held in steps l' held)%cprog
  end.
Definition allocs (l : list op) : nat := length (List.filter (fun x => match x with Alloc => true | _ => false end) l).

(** What the allocator promises: the objects in use are those the user holds. *)
Definition holding (s : state) (held : list Z) : Prop := NoDup held /\ forall o, live s o <-> o ∈ held.

Lemma steps_run l (s : state) L held : ok s L -> holding s held -> supply s (allocs l) ->
  exists held' s' L', steps l held s = Ret (held', s') /\ ok s' L' /\ holding s' held' /\ shape (cache s') = shape (cache s).
Proof.
  revert s L held. induction l as [|x l IH]; intros s L held Hok [Hnd Hlv] Hsu; cbn [steps]; [exists held, s, L; done|].
  assert (Hstep : exists held1 s1 L1, step x held s = Ret (held1, s1) /\ ok s1 L1 /\ holding s1 held1 /\
            supply s1 (allocs l) /\ shape (cache s1) = shape (cache s)).
  { destruct x as [|k]; cbn [step].
    - destruct (alloc_run s L (allocs l) Hok Hsu) as (o & s1 & L1 & Hr & Hok1 & Hsu1 & Hsh1 & Hnl & Hlv1).
      exists (o :: held), s1, L1. unfold cbind. rewrite Hr. split_and!; try done. split.
      + apply list.NoDup_cons. by rewrite <- Hlv.
      + intros o'. rewrite Hlv1, Hlv. set_solver.
    - destruct (held !! k) as [o|] eqn:Hk; [|exists held, s, L; split_and!; done].
      destruct (free_run s L o Hok) as (s1 & L1 & Hr & Hok1 & Hsh1 & Hlv1 & Hsu1); [apply Hlv, list_elem_of_lookup; eauto|].
      exists (delete k held), s1, L1. unfold cbind. rewrite Hr. split_and!; try done; [|by apply Hsu1].
      pose proof (delete_Permutation held k o Hk) as Hp. rewrite Hp in Hnd. apply list.NoDup_cons in Hnd as [Hno Hnd].
      assert (Hel : forall o', o' ∈ held <-> o' = o \/ o' ∈ delete k held) by (intros o'; rewrite Hp at 1; apply elem_of_cons).
      split; [done|]. intros o'. rewrite Hlv1, Hlv, Hel. split; [tauto|]. intros Ho. split; [by intros ->|auto]. }
  destruct Hstep as (held1 & s1 & L1 & Hr & Hok1 & Hh1 & Hsu1 & Hsh1). unfold cbind. rewrite Hr.
  destruct (IH s1 L1 held1 Hok1 Hh1 Hsu1) as (h' & s' & L' & Hr' & Hok' & Hh' & Hsh'). exists h', s', L'. by rewrite Hsh'.
Qed.

(** C19. The allocator refines its specification, the set of objects its user
    holds: from a cache that [__setup_cache_desc] has set up, with memory for
    the slabs, any sequence of allocations and frees of held objects returns,
    and then the objects held are different, do not overlap, and each lies in
    pages that are mapped for a slab. *)
Theorem slab_refines line c fl size c' mm ml (l : list op) :
  0 < line < 2 ^ 15 -> num c = 0 -> colour_next c = 0 -> 0 < size -> __setup_cache_desc page_shift line c fl size = Ret (0, c') ->
  num c' < 2 ^ 16 -> Z.abs (colour c' * colour_offset c') <= 2 ^ 15 -> supply (new_cache c' mm ml) (allocs l) ->
  exists held s', steps l [] (new_cache c' mm ml) = Ret (held, s') /\ holding s' held /\
    (forall o o', o ∈ held -> o' ∈ held -> o <> o' -> o + size <= o' \/ o' + size <= o) /\
    (forall o, o ∈ held -> exists p, mapped s' !! p = Some (slab_size c') /\ p <= o /\ o + size <= p + slab_size c').
Proof.
  intros Hline Hn Hcn Hs Hset Hnum Hcol Hsu.
  destruct (setup_cache_desc_ok page_shift line Hshift Hline c fl size c') as (Hlay & Hbs & Hnext & Hmag); [done|lia|done|].
  assert (Hco : cache_ok c') by (split; [done|left; congruence|done|lia|done|done]).
  destruct (new_cache_ok c' mm ml Hco) as [Hok Hno].
  destruct (steps_run l (new_cache c' mm ml) (fun _ => []) [] Hok) as (held & s' & L' & Hr & Hok' & [Hnd Hlv] & Hsh); [|done|].
  { split; [constructor|]. intros o. split; [intros Ho; by destruct (Hno o)|set_solver]. }
  pose proof (shape_eq _ _ Hsh) as (_ & _ & Hsz & _ & Hss & _). cbn [cache new_cache] in Hsz, Hss. rewrite Hbs in Hsz.
  exists held, s'. split_and!; [done|done| |].
  - intros o o' Ho%Hlv Ho'%Hlv Hne. pose proof (obj_apart s' L' o o' Hok' Ho Ho' Hne) as Ha. by rewrite Hsz in Ha.
  - intros o (a & x & i & Ha & [Hi _] & ->)%Hlv. destruct (ok_slab s' L' Hok' a x Ha) as [_ Hpl].
    destruct (obj_in_slab s' L' a x i Hok' Ha Hi) as [H1 H2]. exists (slab_base (cache s') x).
    rewrite Hsz, Hss in H2. rewrite <- Hss at 1. split_and!; [apply (pl_mapped _ _ _ _ Hpl)|done|done].
Qed.

(** When the system has no page for another slab, [bds_cache_alloc] does not
    return NULL: it reads the reference count of a slab that is NULL. *)
Theorem alloc_oom_faults (s : state) L (fuel : nat) : ok s L -> L Partial = [] -> L Free = [] -> mmaps s = [] ->
  bds_cache_alloc (S fuel) s = Fault NullDeref.
Proof.
  intros Hok HP HF Hm. assert (Hset : set_heap (heap s) s = s) by (by destruct s). cbn [bds_cache_alloc].
  unfold cbind at 1, on_heap at 1. rewrite (empty_run _ L Partial (ok_links s L Hok)), HP, Hset.
  unfold cbind at 1, on_heap at 1. rewrite (empty_run _ L Free (ok_links s L Hok)), HF, Hset. cbn [negb orb].
  unfold bds_cache_grow, __get_free_pages, cbind, cget. rewrite Hm. reflexivity.
Qed.

End Slab.

(** * Concrete runs *)

(** A cache of objects of 200 bytes, 19 to a slab, with the [linger] that
    [bds_cache_create] sets; the descriptors are on the slabs. *)
Definition demo_head (k : kind) : Z := match k with Partial => 1000 | Full => 1016 | Free => 1032 end.
Definition demo_data (p : Z) : Z := 0.
Definition with_linger (n : Z) (c : cache_desc) : cache_desc :=
  mkCache (flags c) (num c) (colour c) (colour_offset c) (colour_next c) (page_order c) (slab_size c) (mgmt_size c)
    (buffer_size c) (slab_magic c) (refcount c) (free_slab_count c) (total_slab_count c) n.
Definition demo_pages : list Z := [4096; 8192; 12288].
Definition demo_cache (mm : list Z) : state := new_cache demo_head (with_linger 8 (cache_of 200)) mm [].
Definition demo_steps (l : list op) : cprog state (list Z) := steps 12 demo_head demo_data l [].

Definition result {A} (r : outcome (A * state)) : outcome A :=
  match r with Ret (x, _) => Ret x | Fault f => Fault f end.
Definition demo_alloc : cprog state Z := bds_cache_alloc demo_head 2.
Definition demo_free (o : Z) : cprog state Z := bds_cache_free 12 demo_head demo_data o.

Lemma demo_heads k k' : demo_head k = demo_head k' -> k = k'.
Proof. by destruct k, k'. Qed.
Lemma demo_datas p : demo_data p <> SLAB_MAGIC.
Proof. done. Qed.
Lemma demo_cache_ok : cache_ok 12 (with_linger 8 (cache_of 200)).
Proof. split; [split|..]; vm_compute; (congruence || (split; congruence) || (left; congruence)). Qed.
Lemma demo_supply : supply 12 demo_head (demo_cache demo_pages) 3.
Proof.
  split.
  - vm_compute. lia.
  - repeat (apply list.Forall_cons; split); [..|constructor]; (split; [done|split; [done|]]; intros a x Hx; cbn in Hx; by rewrite lookup_empty in Hx).
  - repeat constructor; vm_compute; congruence.
  - cbn. repeat (apply list.Forall_cons; split); [..|constructor]; (split; [done|split; [done|by intros []]]).
Qed.

(** A slab that is taken from the free list is not counted off: after eight
    rounds of one allocation and one free, and one more allocation, the cache
    has one slab, none free, and counts eight free ones; the collector then
    takes the head of the empty free list for a slab. *)
Theorem collector_counts_stale :
  result ((let! _ := demo_steps (concat (replicate 8 [Alloc; FreeNth 0]) ++ [Alloc]) in
     let! s := cget in
     let! none_free := on_heap (list_empty (demo_head Free)) in
     cret (none_free, free_slab_count (cache s), total_slab_count (cache s)))%cprog (demo_cache demo_pages)) = Ret (true, 8, 1) /\
  result ((demo_steps (concat (replicate 8 [Alloc; FreeNth 0]) ++ [Alloc]) ;;; collect demo_head 25)%cprog (demo_cache demo_pages))
    = Fault OutOfBounds.
Proof. by vm_compute. Qed.

(** With a [linger] of 0, as in the cache of the cache descriptors, the
    collector gives the last slab back and then divides by the number of slabs. *)
Theorem collector_divides_by_zero :
  result ((demo_steps [Alloc; FreeNth 0] ;;; collect demo_head 25)%cprog
            (new_cache demo_head (with_linger 0 (cache_of 200)) demo_pages [])) = Fault DivByZero.
Proof. by vm_compute. Qed.

(** An object that is freed twice is handed out twice. *)
Theorem double_free_given_twice :
  result ((let! a := demo_alloc in
     let! _ := demo_alloc in
     demo_free a ;;;
     demo_free a ;;;
     let! x := demo_alloc in
     let! y := demo_alloc in
     cret (a, x, y))%cprog (demo_cache demo_pages)) = Ret (4238, 4238, 4238).
Proof. by vm_compute. Qed.

(** [bds_alloc_chunk] asks whether the first partly used slab is a list of
    its own, which it never is: with a partly used slab and no free one it takes
    the head of the free list for a slab. *)
Theorem chunk_takes_list_head :
  result ((demo_alloc ;;; bds_alloc_chunk demo_head)%cprog (demo_cache demo_pages)) = Fault OutOfBounds.
Proof. by vm_compute. Qed.

(** Three allocations with a free in between. *)
Lemma slab_refines_witness :
  exists held s', demo_steps [Alloc; Alloc; FreeNth 0; Alloc] (new_cache demo_head (cache_of 200) demo_pages []) = Ret (held, s') /\
    holding s' held /\ (forall o, o ∈ held -> exists p, mapped s' !! p = Some 4096 /\ p <= o /\ o + 200 <= p + 4096).
Proof.
  destruct (slab_refines 12 demo_head demo_data demo_heads ltac:(lia) demo_datas 64 fresh_cache 0 200 (cache_of 200) demo_pages []
              [Alloc; Alloc; FreeNth 0; Alloc]) as (held & s' & Hr & Hh & _ & Hm);
    [lia|reflexivity|reflexivity|lia|vm_compute; reflexivity|vm_compute; reflexivity|vm_compute; congruence| |].
  - destruct demo_supply as [H1 H2 H3 H4]. by split.
  - exists held, s'. split; [exact Hr|]. split; [exact Hh|exact Hm].
Defined.

Lemma alloc_oom_faults_witness : bds_cache_alloc demo_head 2 (demo_cache []) = Fault NullDeref.
Proof.
  refine (alloc_oom_faults 12 demo_head demo_data demo_heads _ demo_datas (demo_cache []) (fun _ => []) 1 _ _ _ _); [lia| |done..].
  apply (new_cache_ok 12 demo_head demo_data demo_heads ltac:(lia) demo_datas), demo_cache_ok.
Defined.

(** After an allocation. *)
Lemma destroy_gives_back_witness :
  exists held s s', demo_steps [Alloc] (demo_cache demo_pages) = Ret (held, s) /\ bds_cache_destroy demo_head true s = Ret (true, s') /\ slabs s' = ∅.
Proof.
  destruct (new_cache_ok 12 demo_head demo_data demo_heads ltac:(lia) demo_datas _ demo_pages [] demo_cache_ok) as [Hok Hno].
  destruct (steps_run 12 demo_head demo_data demo_heads ltac:(lia) demo_datas [Alloc] (demo_cache demo_pages) (fun _ => []) [] Hok) as (held & s & L & Hr & Hok' & _).
  - split; [constructor|]. intros o. split; [intros Ho; by destruct (Hno o)|set_solver].
  - apply (supply_less 12 demo_head demo_data demo_heads ltac:(lia) _ 3); [exact demo_supply|vm_compute; lia].
  - destruct (destroy_gives_back 12 demo_head demo_data demo_heads ltac:(lia) demo_datas s L true Hok' (or_introl eq_refl)) as (s' & Hd & _ & He & _).
    exists held, s, s'. split; [exact Hr|]. split; [exact Hd|exact He].
Defined.

(** After the cache has grown by a slab. *)
Lemma collect_keeps_live_witness :
  exists s s', bds_cache_grow demo_head (demo_cache demo_pages) = Ret (0, s) /\ collect demo_head 25 s = Ret (tt, s').
Proof.
  destruct (new_cache_ok 12 demo_head demo_data demo_heads ltac:(lia) demo_datas _ demo_pages [] demo_cache_ok) as [Hok _].
  destruct (grow_run 12 demo_head demo_data demo_heads ltac:(lia) (demo_cache demo_pages) _ 2 Hok demo_supply) as (m & p & s & Hg & Hok' & Hs & _).
  assert (Hc : (free_slab_count (cache s), total_slab_count (cache s), linger (cache s)) = (0, 1, 8))
    by (revert Hg; vm_compute; intros [= <-]; reflexivity).
  injection Hc as Hc1 Hc2 Hc3.
  assert (Hsz : size (slabs s) = 1%nat) by (rewrite Hs, map_size_insert_None by done; reflexivity).
  destruct (collect_keeps_live 12 demo_head demo_data demo_heads ltac:(lia) demo_datas 25 s _ Hok') as (s' & L' & Hr & _).
  - split; [rewrite Hc1|rewrite Hc2, Hsz]; reflexivity.
  - rewrite Hc3. lia.
  - rewrite Hsz. reflexivity.
  - lia.
  - exists s, s'. split; [exact Hg|exact Hr].
Defined.

End Slab.
