(* ===== verification/JobQueue.v ===== *)
(** The job queues of the file system process: sfs/src/sfs_job.c, on the
    intrusive lists of [BdsList].

    The store holds the array of queues, the jobs, and the list heads embedded
    in both; a pointer is an address and NULL is 0. *)
From stdpp Require Import base gmap list numbers.
From S2P Require Import Prelude BdsList JobId.

Module JobQueue.

Definition NULL : Z := 0.
Definition HIGH_PRIORITY : Z := 0.
Definition MEDIUM_PRIORITY : Z := 1.
Definition LOW_PRIORITY : Z := 2.
Definition NUM_PRIORITY_MAX : Z := 2.

(** Layout on x86-64: [sizeof(sfs_job_queue_t)], [offsetof(sfs_job_queue_t,
    list)] and [offsetof(sfs_job_t, wait_list)]. *)
Definition queue_size : Z := 32.
Definition list_off : Z := 8.
Definition wait_off : Z := 128.

(** A spin lock before [pthread_spin_init], and after it. *)
Inductive spinlock : Set := LockUninit | LockFree | LockHeld.

(** [sfs_job_queue_t] less its list head, which is in the heap. *)
Record sfs_job_queue : Type := mkQueue { q_priority : Z; q_lock : spinlock }.

Record store : Type := mkStore {
  heap : lheap;
  queues : gmap Z sfs_job_queue;
  jobs : gmap Z JobId.sfs_job;
  errno : Z
}.

Definition set_heap (h : lheap) (s : store) : store := mkStore h (queues s) (jobs s) (errno s).
Definition set_queues (q : gmap Z sfs_job_queue) (s : store) : store :=
  mkStore (heap s) q (jobs s) (errno s).
Definition set_errno (e : Z) (s : store) : store := mkStore (heap s) (queues s) (jobs s) e.

(** Run a list operation on the heads of the store. *)
Definition on_heap {A} (c : cprog lheap A) : cprog store A := fun s =>
  match c (heap s) with
  | Ret (a, h) => Ret (a, set_heap h s)
  | Fault f => Fault f
  end.

Definition load_queue (q : Z) : cprog store sfs_job_queue := fun s =>
  match queues s !! q with Some r => Ret (r, s) | None => Fault OutOfBounds end.

Definition load_job (j : Z) : cprog store JobId.sfs_job := fun s =>
  match jobs s !! j with Some r => Ret (r, s) | None => Fault OutOfBounds end.

Definition set_lock (q : Z) (l : spinlock) : cprog store unit :=
  (let! r := load_queue q in
   cmod (fun s => set_queues (<[q := mkQueue (q_priority r) l]> (queues s)) s))%cprog.

Definition set_priority (q p : Z) : cprog store unit :=
  (let! r := load_queue q in
   cmod (fun s => set_queues (<[q := mkQueue p (q_lock r)]> (queues s)) s))%cprog.

Definition spin_init (q : Z) : cprog store unit := set_lock q LockFree.
Definition spin_destroy (q : Z) : cprog store unit := set_lock q LockUninit.

Definition spin_lock (q : Z) : cprog store unit :=
  (let! r := load_queue q in
   match q_lock r with
   | LockUninit => cfault Uninit
   | LockHeld => cfault Deadlock
   | LockFree => set_lock q LockHeld
   end)%cprog.

Definition spin_unlock (q : Z) : cprog store unit :=
  (let! r := load_queue q in
   match q_lock r with
   | LockUninit => cfault Uninit
   | _ => set_lock q LockFree
   end)%cprog.

(** [malloc(sizeof(sfs_job_queue_t) * (NUM_PRIORITY_MAX + 1))] at [base]: the
    block's contents are whatever was there. *)
Definition alloc_queues (base : Z) (junk : Z -> list_head) (junk_prio : Z -> Z) : cprog store unit :=
  cmod (fun s =>
    let put s i := let q := base + queue_size * i in
      mkStore (<[q + list_off := junk i]> (heap s))
              (<[q := mkQueue (junk_prio i) LockUninit]> (queues s)) (jobs s) (errno s) in
    fold_left put [0; 1; 2] s).

(** [free(job_list)] *)
Definition free_queues (base : Z) : cprog store unit :=
  cmod (fun s =>
    let drop s i := let q := base + queue_size * i in
      mkStore (delete (q + list_off) (heap s)) (delete q (queues s)) (jobs s) (errno s) in
    fold_left drop [0; 1; 2] s).

(** The loop of [sfs_job_list_init]; [n] passes are left. *)
Fixpoint init_queues (n : nat) (priority temp : Z) : cprog store unit :=
  match n with
  | O => cret tt
  | S n' =>
      (set_priority temp priority ;;;
       on_heap (INIT_LIST_HEAD (temp + list_off)) ;;;
       spin_init temp ;;;
       init_queues n' (priority + 1) (temp + queue_size))%cprog
  end.

(** [mem] is what [malloc] returns. The result is the return value and the
    new value of [*job_list]. *)
Definition sfs_job_list_init (mem : Z) (junk : Z -> list_head) (junk_prio : Z -> Z) : cprog store (Z * Z) :=
  if mem =? NULL then cret (-1, NULL)
  else (alloc_queues mem junk junk_prio ;;;
        init_queues (Z.to_nat NUM_PRIORITY_MAX) HIGH_PRIORITY mem ;;;
        cret (0, mem))%cprog.

Fixpoint reset_queues (n : nat) (temp : Z) : cprog store unit :=
  match n with
  | O => cret tt
  | S n' =>
      (set_priority temp (-1) ;;;
       on_heap (INIT_LIST_HEAD (temp + list_off)) ;;;
       spin_destroy temp ;;;
       reset_queues n' (temp + queue_size))%cprog
  end.

Definition sfs_job_queue_destroy (job_list : Z) : cprog store (Z * Z) :=
  if job_list =? NULL then cret (-1, job_list)
  else (reset_queues (Z.to_nat NUM_PRIORITY_MAX) job_list ;;;
        free_queues job_list ;;;
        cret (0, NULL))%cprog.

(** The parameter check the three operations share. *)
Definition bad_params (priority job_list job : Z) : bool :=
  (priority <? HIGH_PRIORITY) || (NUM_PRIORITY_MAX <? priority) ||
  (NULL =? job_list) || (NULL =? job).

Definition sfs_enqueue_job (priority job_list job : Z) : cprog store Z :=
  if bad_params priority job_list job then (cmod (set_errno EINVAL) ;;; cret (-1))%cprog
  else
    let job_list := job_list + queue_size * priority in
    (spin_lock job_list ;;;
     on_heap (bds_list_add_tail (job + wait_off) (job_list + list_off)) ;;;
     spin_unlock job_list ;;;
     cret 0)%cprog.

(** [list_for_each_entry(temp, head, wait_list)] from the node [pos] on, up
    to the job whose id is [id]. *)
Fixpoint find_job (id head pos : Z) (fuel : nat) : cprog store (option Z) :=
  match fuel with
  | O => cfault Deadlock
  | S fuel' =>
      if pos =? head then cret None
      else (let! temp := load_job (pos - wait_off) in
            if JobId.id temp =? id then cret (Some pos)
            else let! n := on_heap (get_next pos) in find_job id head n fuel')%cprog
  end.

(** The second critical section of [sfs_dequeue_job]. *)
Definition remove_job (job_list id : Z) : cprog store Z :=
  (spin_lock job_list ;;;
   let! n := on_heap (get_next (job_list + list_off)) in
   let! s := cget in
   let! hit := find_job id (job_list + list_off) n (size (heap s)) in
   let! found := match hit with
                 | Some temp => on_heap (bds_list_del temp) ;;; cret 1
                 | None => cret (-1)
                 end in
   spin_unlock job_list ;;;
   cret found)%cprog.

Definition sfs_dequeue_job (priority job_list job : Z) : cprog store Z :=
  if bad_params priority job_list job then (cmod (set_errno EINVAL) ;;; cret (-1))%cprog
  else
    let job_list := job_list + queue_size * priority in
    (spin_lock job_list ;;;
     let! e := on_heap (list_empty (job_list + list_off)) in
     spin_unlock job_list ;;;
     if (e : bool) then cret (-1)
     else
       let! j := load_job job in
       let! found := remove_job job_list (JobId.id j) in
       if found =? 1 then cret 0 else cret (-1))%cprog.

Definition sfs_submit_job (priority job_list job : Z) : cprog store Z :=
  if bad_params priority job_list job then (cmod (set_errno EINVAL) ;;; cret (-1))%cprog
  else (let! ret := sfs_enqueue_job priority job_list job in
        if negb (ret =? 0) then cret (-1) else cret 0)%cprog.

(** * What the store represents *)

Definition qaddr (jl : Z) (i : nat) : Z := jl + queue_size * Z.of_nat i.
Definition head_of (jl : Z) (i : nat) : Z := qaddr jl i + list_off.
Definition wl (j : Z) : Z := j + wait_off.
Definition nodes (jl : Z) (i : nat) (q : list Z) : list Z := head_of jl i :: (wl <$> q).

(** A job that may be queued: its struct and its embedded list head are
    allocated. *)
Definition job_ok (s : store) (j : Z) : Prop :=
  j <> NULL /\ is_Some (jobs s !! j) /\ is_Some (heap s !! wl j).

(** The array at [jl] holds the queues [qs], in order of priority. *)
Record rep (s : store) (jl : Z) (qs : list (list Z)) : Prop := {
  rep_jl : jl <> NULL;
  rep_len : length qs = 2%nat;
  rep_queue i q : qs !! i = Some q ->
    (exists p, queues s !! qaddr jl i = Some (mkQueue p LockFree)) /\
    dlist (heap s) (head_of jl i) (wl <$> q) /\ Forall (job_ok s) q;
  rep_sep i i' q q' : qs !! i = Some q -> qs !! i' = Some q' -> i <> i' ->
    nodes jl i q ## nodes jl i' q'
}.

(** The list without its first element at which [p] holds. *)
Fixpoint remove_first (p : Z -> bool) (q : list Z) : option (list Z) :=
  match q with
  | [] => None
  | j :: q' => if p j then Some q' else (cons j) <$> remove_first p q'
  end.

#[global] Instance wl_inj : Inj (=) (=) wl.
Proof. intros x y. unfold wl. lia. Qed.

(** * Lemmas *)

Lemma on_heap_run {A} (c : cprog lheap A) s a h :
  c (heap s) = Ret (a, h) -> on_heap c s = Ret (a, set_heap h s).
Proof. unfold on_heap. by intros ->. Qed.

Definition locked (q : Z) (l : spinlock) (s : store) : store :=
  set_queues (alter (fun r => mkQueue (q_priority r) l) q (queues s)) s.

Lemma set_lock_run q l s : is_Some (queues s !! q) -> set_lock q l s = Ret (tt, locked q l s).
Proof.
  intros [r Hr]. unfold set_lock, cbind, load_queue, locked, cmod. rewrite Hr.
  do 3 f_equal. apply map_eq. intros i. rewrite lookup_alter. case_decide; simplify_map_eq; done.
Qed.

Lemma spin_lock_run s q p :
  queues s !! q = Some (mkQueue p LockFree) -> spin_lock q s = Ret (tt, locked q LockHeld s).
Proof.
  intros Hq. unfold spin_lock, cbind at 1, load_queue. rewrite Hq. simpl.
  apply set_lock_run. rewrite Hq. eauto.
Qed.

Lemma locked_queue s q l r :
  queues s !! q = Some r -> queues (locked q l s) !! q = Some (mkQueue (q_priority r) l).
Proof. intros Hq. unfold locked. simpl. by rewrite lookup_alter_eq, Hq. Qed.

(** Leaving a critical section restores the array of queues, whatever
    happened to the list inside. *)
Lemma spin_unlock_run s q p h :
  queues s !! q = Some (mkQueue p LockFree) ->
  spin_unlock q (set_heap h (locked q LockHeld s)) = Ret (tt, set_heap h s).
Proof.
  intros Hq. unfold spin_unlock, cbind at 1, load_queue. simpl.
  rewrite lookup_alter_eq, Hq. simpl.
  rewrite set_lock_run by (simpl; rewrite lookup_alter_eq, Hq; simpl; eauto).
  unfold locked, set_heap, set_queues. simpl. do 3 f_equal.
  apply map_eq. intros i. rewrite !lookup_alter. repeat case_decide; subst; rewrite ?Hq; done.
Qed.

(** A critical section that runs one list operation. *)
Lemma critical_run {A} (c : cprog lheap A) s q p a h :
  queues s !! q = Some (mkQueue p LockFree) -> c (heap s) = Ret (a, h) ->
  (spin_lock q ;;; let! x := on_heap c in spin_unlock q ;;; cret x)%cprog s = Ret (a, set_heap h s).
Proof.
  intros Hq Hc. unfold cbind. rewrite (spin_lock_run _ _ _ Hq).
  rewrite (on_heap_run c (locked q LockHeld s) a h Hc). by rewrite (spin_unlock_run _ _ _ _ Hq).
Qed.

Lemma bad_params_false p jl j :
  bad_params p jl j = false <-> 0 <= p <= 2 /\ jl <> NULL /\ j <> NULL.
Proof.
  unfold bad_params, HIGH_PRIORITY, NUM_PRIORITY_MAX, NULL.
  rewrite !orb_false_iff, !Z.ltb_ge, !Z.eqb_neq. lia.
Qed.

Lemma bad_params_run p jl j s :
  bad_params p jl j = true ->
  sfs_enqueue_job p jl j s = Ret (-1, set_errno EINVAL s) /\
  sfs_dequeue_job p jl j s = Ret (-1, set_errno EINVAL s) /\
  sfs_submit_job p jl j s = Ret (-1, set_errno EINVAL s).
Proof. intros H. unfold sfs_enqueue_job, sfs_dequeue_job, sfs_submit_job. by rewrite H. Qed.

Lemma qaddr_Z jl p : 0 <= p -> qaddr jl (Z.to_nat p) = jl + queue_size * p.
Proof. intros. unfold qaddr. by rewrite Z2Nat.id. Qed.

Section Rep.
Context (s : store) (jl : Z) (qs : list (list Z)) (Hrep : rep s jl qs).

Lemma rep_index p q : 0 <= p -> qs !! Z.to_nat p = Some q -> p <= 1.
Proof. intros Hp Hq%lookup_lt_Some. rewrite (rep_len _ _ _ Hrep) in Hq. lia. Qed.

Lemma rep_job_not_head q i j :
  qs !! i = Some q -> job_ok s j -> (forall q', q' ∈ qs -> j ∉ q') ->
  (forall k, (k < 2)%nat -> wl j <> head_of jl k) -> wl j ∉ nodes jl i q.
Proof.
  intros Hq Hj Hnew Hh. unfold nodes. rewrite elem_of_cons, list_elem_of_fmap.
  intros [He|(j' & He & Hin)].
  - eapply Hh; [|exact He]. apply lookup_lt_Some in Hq. by rewrite (rep_len _ _ _ Hrep) in Hq.
  - apply wl_inj in He as ->. eapply Hnew; [|exact Hin]. by eapply list_elem_of_lookup_2.
Qed.

(** Replacing one queue: the representation of the whole array from what
    changed in the heap. *)
Lemma rep_update i q q' h' :
  qs !! i = Some q -> dlist h' (head_of jl i) (wl <$> q') ->
  Forall (job_ok s) q' ->
  (forall p, p ∉ nodes jl i q -> p ∉ nodes jl i q' -> h' !! p = heap s !! p) ->
  (forall p, is_Some (h' !! p) <-> is_Some (heap s !! p)) ->
  (forall k r, qs !! k = Some r -> k <> i -> nodes jl k r ## nodes jl i q') ->
  rep (set_heap h' s) jl (<[i := q']> qs).
Proof.
  intros Hq Hd Hok Hsame Hdom Hsep. destruct Hrep as [H0 H1 H2 H3].
  assert (Hi : (i < length qs)%nat) by (by eapply lookup_lt_Some).
  assert (Hjob : forall j, job_ok s j -> job_ok (set_heap h' s) j).
  { intros j (? & ? & ?). split_and!; [done|done|]. simpl. by apply Hdom. }
  split; [done|by rewrite length_insert| |].
  - intros k r Hk. destruct (decide (k = i)) as [->|Hne].
    + rewrite list_lookup_insert_eq in Hk by done. injection Hk as <-.
      split_and!; [by apply (H2 i q)|done|]. eapply list.Forall_impl; [exact Hok|done].
    + rewrite list_lookup_insert_ne in Hk by done. destruct (H2 k r Hk) as (? & Hdk & Hfk).
      split_and!; [done| |eapply list.Forall_impl; [exact Hfk|done]].
      eapply dlist_frame; [exact Hdk|]. intros p Hp. apply Hsame.
      * exact (H3 k i r q Hk Hq Hne p Hp).
      * exact (Hsep k r Hk Hne p Hp).
  - intros k k' r r' Hk Hk' Hne.
    destruct (decide (k = i)) as [->|]; destruct (decide (k' = i)) as [->|]; [done| | |].
    + rewrite list_lookup_insert_eq in Hk by done. injection Hk as <-.
      rewrite list_lookup_insert_ne in Hk' by done. intros x Hx Hx'. by apply (Hsep k' r' Hk') in Hx'.
    + rewrite list_lookup_insert_eq in Hk' by done. injection Hk' as <-.
      rewrite list_lookup_insert_ne in Hk by done. by apply (Hsep k r).
    + rewrite list_lookup_insert_ne in Hk, Hk' by done. by apply (H3 k k').
Qed.

(** A job that may be put on a queue of the array: allocated, on no queue,
    and not overlapping the array. *)
Definition queueable (j : Z) : Prop :=
  job_ok s j /\ (forall q, q ∈ qs -> j ∉ q) /\ (forall k, (k < 2)%nat -> wl j <> head_of jl k).

Lemma enqueue_run p q j :
  0 <= p -> qs !! Z.to_nat p = Some q -> queueable j ->
  exists h', sfs_enqueue_job p jl j s = Ret (0, set_heap h' s) /\
    rep (set_heap h' s) jl (<[Z.to_nat p := q ++ [j]]> qs) /\
    (forall x, is_Some (h' !! x) <-> is_Some (heap s !! x)) /\
    (forall x, x ∉ wl j :: nodes jl (Z.to_nat p) q -> h' !! x = heap s !! x).
Proof.
  intros Hp Hq (Hj & Hnew & Hhead). pose proof (rep_index _ _ Hp Hq) as Hp1.
  destruct (rep_queue _ _ _ Hrep _ _ Hq) as ((pr & Hqr) & Hd & Hok).
  pose proof (rep_job_not_head _ _ _ Hq Hj Hnew Hhead) as Hni.
  pose proof (qaddr_Z jl p Hp) as Hadr.
  destruct Hj as (Hnz & Hjob & Hwl).
  destruct (bds_list_add_tail_run _ _ _ (wl j) Hd Hwl Hni) as (h' & Hrun & Hd' & Hsame & Hdom).
  exists h'. split_and!; [|eapply rep_update; try done|done|done].
  - unfold sfs_enqueue_job.
    rewrite (proj2 (bad_params_false _ _ _)) by (split; [lia|split; [apply (rep_jl _ _ _ Hrep)|done]]).
    unfold head_of, wl in Hrun. rewrite Hadr in Hqr, Hrun. unfold cbind at 1.
    rewrite (spin_lock_run _ _ _ Hqr). unfold cbind at 1.
    rewrite (on_heap_run _ (locked (jl + queue_size * p) LockHeld s) _ _ Hrun).
    unfold cbind. by rewrite (spin_unlock_run _ _ _ _ Hqr).
  - by rewrite fmap_app.
  - apply Forall_app. split; [done|]. by constructor.
  - intros x Hx Hx'. apply Hsame. unfold nodes in *. rewrite fmap_app in Hx'. set_solver.
  - intros k r Hk Hne x Hx. unfold nodes. rewrite fmap_app, elem_of_cons, elem_of_app.
    pose proof (rep_sep _ _ _ Hrep _ _ _ _ Hk Hq Hne x Hx) as Hx1. unfold nodes in Hx1.
    rewrite elem_of_cons in Hx1. simpl. rewrite list_elem_of_singleton.
    intros [?|[?| ->]]; [tauto|tauto|].
    by apply (rep_job_not_head _ _ _ Hk (conj Hnz (conj Hjob Hwl)) Hnew Hhead) in Hx.
Qed.

(** The first job of a queue with the given id. *)
Definition has_id (id j : Z) : bool :=
  match jobs s !! j with Some r => JobId.id r =? id | None => false end.

Lemma find_job_from id head x xs fuel t :
  heap t = heap s -> jobs t = jobs s ->
  head ∉ wl x :: (wl <$> xs) -> chain (heap s) (wl x :: (wl <$> xs) ++ [head]) ->
  Forall (job_ok s) (x :: xs) -> (length (x :: xs) < fuel)%nat ->
  find_job id head (wl x) fuel t = Ret (wl <$> List.find (has_id id) (x :: xs), t).
Proof.
  intros Hth Htj. revert x fuel. induction xs as [|y xs IH]; intros x [|fuel] Hh Hc Hok Hf; try (simpl in Hf; lia);
    apply list.Forall_cons in Hok as [(Hz & [r Hr] & _) Hok];
    simpl; rewrite (proj2 (Z.eqb_neq (wl x) head)) by set_solver;
    unfold cbind at 1, load_job; rewrite Htj; unfold wl, has_id in *;
    rewrite Z.add_simpl_r, Hr; destruct (JobId.id r =? id) eqn:Hid; try done;
    destruct Hc as (Hn & Hc); rewrite <- Hth in Hn; unfold cbind;
    erewrite on_heap_run by (apply get_next_run; exact Hn);
    replace (set_heap (heap t) t) with t by (by destruct t).
  - destruct fuel; [simpl in Hf; lia|]. simpl. by rewrite Z.eqb_refl.
  - simpl. apply IH; [set_solver|apply Hc|done|simpl in *; lia].
Qed.

Lemma find_job_run id i q n t :
  heap t = heap s -> jobs t = jobs s ->
  qs !! i = Some q -> nxt (heap s) (head_of jl i) = Some n ->
  find_job id (head_of jl i) n (size (heap s)) t = Ret (wl <$> List.find (has_id id) q, t).
Proof.
  intros Ht Htj Hq Hn. destruct (rep_queue _ _ _ Hrep _ _ Hq) as (_ & Hd & Hok).
  pose proof (dlist_length _ _ _ Hd) as Hlen. destruct Hd as [Hnd Hc].
  destruct q as [|x q]; simpl in Hc; destruct Hc as (Hn' & Hc); rewrite Hn' in Hn; injection Hn as <-.
  - destruct (size (heap s)) eqn:Hsz; [simpl in Hlen; lia|]. simpl. by rewrite Z.eqb_refl.
  - apply find_job_from; [done|done|by apply list.NoDup_cons in Hnd as [? _]|apply Hc|done|].
    simpl in *. rewrite length_fmap in Hlen. lia.
Qed.

Lemma find_split (p : Z -> bool) q j :
  List.find p q = Some j -> exists l1 l2, q = l1 ++ j :: l2 /\ remove_first p q = Some (l1 ++ l2).
Proof.
  induction q as [|x q IH]; simpl; [done|]. destruct (p x) eqn:Hx.
  - intros [= ->]. by exists [], q.
  - intros (l1 & l2 & -> & Hr)%IH. exists (x :: l1), l2. by rewrite Hr.
Qed.

Lemma find_none (p : Z -> bool) q : List.find p q = None -> remove_first p q = None.
Proof. induction q as [|x q IH]; simpl; [done|]. destruct (p x); [done|]. by intros ->%IH. Qed.

(** The second critical section takes the first job with the id out, if
    there is one. *)
Lemma remove_job_run i q id :
  qs !! i = Some q ->
  match remove_first (has_id id) q with
  | Some q' => exists h', remove_job (qaddr jl i) id s = Ret (1, set_heap h' s) /\
      rep (set_heap h' s) jl (<[i := q']> qs) /\
      (forall x, is_Some (h' !! x) <-> is_Some (heap s !! x))
  | None => remove_job (qaddr jl i) id s = Ret (-1, s)
  end.
Proof.
  intros Hq. destruct (rep_queue _ _ _ Hrep _ _ Hq) as ((pr & Hqr) & Hd & Hok).
  destruct (dlist_first _ _ _ Hd) as (n & Hn & _ & _).
  assert (Hrun : forall (r : Z) (t : store),
    (let! hit := find_job id (head_of jl i) n (size (heap s)) in
     let! found := match hit with
                   | Some temp => on_heap (bds_list_del temp) ;;; cret 1
                   | None => cret (-1)
                   end in
     spin_unlock (qaddr jl i) ;;; cret found)%cprog (locked (qaddr jl i) LockHeld s) = Ret (r, t) ->
    remove_job (qaddr jl i) id s = Ret (r, t)).
  { intros r t Ht. unfold remove_job, cbind at 1. rewrite (spin_lock_run _ _ _ Hqr).
    unfold cbind at 1. erewrite on_heap_run by (apply get_next_run; exact Hn).
    rewrite <- Ht. reflexivity. }
  pose proof (find_job_run id i q n (locked (qaddr jl i) LockHeld s) eq_refl eq_refl Hq Hn) as Hf.
  destruct (List.find (has_id id) q) as [j|] eqn:He.
  - destruct (find_split _ _ _ He) as (l1 & l2 & -> & ->).
    rewrite fmap_app, fmap_cons in Hd.
    destruct (bds_list_del_run _ _ _ _ _ Hd) as (h' & Hdel & Hd' & Hsame & Hdom).
    rewrite <- fmap_app in Hd', Hsame. exists h'. split_and!; [|eapply rep_update; try done|done].
    + apply Hrun. unfold cbind at 1. rewrite Hf. simpl. unfold cbind.
      rewrite (on_heap_run _ (locked (qaddr jl i) LockHeld s) _ _ Hdel). simpl.
      by rewrite (spin_unlock_run _ _ _ _ Hqr).
    + apply Forall_app in Hok as [H1 [_ H2]%list.Forall_cons]. by apply Forall_app.
    + intros x _ Hx. by apply Hsame.
    + intros k r Hk Hne x Hx Hx'. apply (rep_sep _ _ _ Hrep _ _ _ _ Hk Hq Hne x Hx).
      unfold nodes in *. revert Hx'. rewrite !fmap_app, fmap_cons. clear. set_solver.
  - rewrite (find_none _ _ He). apply Hrun. unfold cbind. rewrite Hf. simpl.
    pose proof (spin_unlock_run s (qaddr jl i) pr (heap s) Hqr) as Hu.
    replace (set_heap (heap s) (locked (qaddr jl i) LockHeld s))
      with (locked (qaddr jl i) LockHeld s) in Hu by done.
    rewrite Hu. by destruct s.
Qed.

Lemma dequeue_run p q j r :
  0 <= p -> qs !! Z.to_nat p = Some q -> j <> NULL -> jobs s !! j = Some r ->
  match remove_first (has_id (JobId.id r)) q with
  | Some q' => exists h', sfs_dequeue_job p jl j s = Ret (0, set_heap h' s) /\
      rep (set_heap h' s) jl (<[Z.to_nat p := q']> qs) /\
      (forall x, is_Some (h' !! x) <-> is_Some (heap s !! x))
  | None => sfs_dequeue_job p jl j s = Ret (-1, s)
  end.
Proof.
  intros Hp Hq Hnz Hj. pose proof (rep_index _ _ Hp Hq) as Hp1.
  destruct (rep_queue _ _ _ Hrep _ _ Hq) as ((pr & Hqr) & Hd & Hok).
  pose proof (remove_job_run _ _ (JobId.id r) Hq) as Hrm. rewrite (qaddr_Z jl p Hp) in Hrm, Hqr.
  assert (Hunf : forall (b : Z) t, (if match q with [] => true | _ => false end then cret (-1) else
       let! found := remove_job (jl + queue_size * p) (JobId.id r) in
       if found =? 1 then cret 0 else cret (-1))%cprog s = Ret (b, t) ->
    sfs_dequeue_job p jl j s = Ret (b, t)).
  { intros b t Ht. unfold sfs_dequeue_job.
    rewrite (proj2 (bad_params_false _ _ _)) by (split; [lia|split; [apply (rep_jl _ _ _ Hrep)|done]]).
    pose proof (list_empty_run _ _ _ Hd) as Hl. unfold head_of in Hl. rewrite (qaddr_Z jl p Hp) in Hl.
    unfold cbind at 1. rewrite (spin_lock_run _ _ _ Hqr). unfold cbind at 1.
    rewrite (on_heap_run _ (locked (jl + queue_size * p) LockHeld s) _ _ Hl).
    unfold cbind at 1. rewrite (spin_unlock_run _ _ _ _ Hqr).
    replace (set_heap (heap s) s) with s by (by destruct s). rewrite <- Ht.
    destruct q; [done|]. simpl. unfold cbind at 1, load_job. by rewrite Hj. }
  destruct (remove_first (has_id (JobId.id r)) q) as [q'|] eqn:Hr.
  - destruct Hrm as (h' & Hrun & Hrep' & Hdom). exists h'. split; [|done]. apply Hunf.
    destruct q; [done|]. simpl. unfold cbind. by rewrite Hrun.
  - apply Hunf. destruct q; [done|]. simpl. unfold cbind. by rewrite Hrm.
Qed.

End Rep.

(** * The abstract queues

    An operation of the array, what it does to the two queues, and when a
    client may call it. *)

Inductive qop : Set :=
  | Submit (priority job : Z)
  | Dequeue (priority job : Z).

Definition run_qop (jl : Z) (o : qop) : cprog store Z :=
  match o with
  | Submit p j => sfs_submit_job p jl j
  | Dequeue p j => sfs_dequeue_job p jl j
  end.

Fixpoint run_qops (jl : Z) (os : list qop) : cprog store (list Z) :=
  match os with
  | [] => cret []
  | o :: os' => (let! r := run_qop jl o in let! rs := run_qops jl os' in cret (r :: rs))%cprog
  end.

Section Spec.
Context (js : gmap Z JobId.sfs_job).

Definition same_id (j x : Z) : bool :=
  match js !! j, js !! x with
  | Some r, Some r' => JobId.id r' =? JobId.id r
  | _, _ => false
  end.

(** First in at the back, out by job id. *)
Definition spec_qop (o : qop) (qs : list (list Z)) : Z * list (list Z) :=
  match o with
  | Submit p j => (0, alter (fun q => q ++ [j]) (Z.to_nat p) qs)
  | Dequeue p j =>
      match remove_first (same_id j) (default [] (qs !! Z.to_nat p)) with
      | Some q' => (0, <[Z.to_nat p := q']> qs)
      | None => (-1, qs)
      end
  end.

Fixpoint spec_qops (os : list qop) (qs : list (list Z)) : list Z * list (list Z) :=
  match os with
  | [] => ([], qs)
  | o :: os' => let '(r, qs') := spec_qop o qs in
                let '(rs, qs'') := spec_qops os' qs' in (r :: rs, qs'')
  end.

End Spec.

(** Priorities HIGH and MEDIUM, allocated jobs, and no job queued twice. *)
Definition legal_qop (s : store) (jl : Z) (qs : list (list Z)) (o : qop) : Prop :=
  match o with
  | Submit p j => 0 <= p < 2 /\ queueable s jl qs j
  | Dequeue p j => 0 <= p < 2 /\ job_ok s j
  end.

Fixpoint legal_qops (s : store) (jl : Z) (qs : list (list Z)) (os : list qop) : Prop :=
  match os with
  | [] => True
  | o :: os' => legal_qop s jl qs o /\ legal_qops s jl (spec_qop (jobs s) o qs).2 os'
  end.

Lemma submit_enqueue p jl j s :
  sfs_submit_job p jl j s = sfs_enqueue_job p jl j s \/
  exists r t, sfs_enqueue_job p jl j s = Ret (r, t) /\ r <> 0.
Proof.
  unfold sfs_submit_job. destruct (bad_params p jl j) eqn:Hb.
  - left. unfold sfs_enqueue_job. by rewrite Hb.
  - unfold cbind. destruct (sfs_enqueue_job p jl j s) as [[r t]|f]; [|by left].
    destruct (Z.eqb_spec r 0) as [->|]; [by left|right; eauto].
Qed.

(** The queues do not depend on what else is allocated. *)
Lemma rep_grow s s' jl qs :
  rep s jl qs -> queues s' = queues s ->
  (forall x, is_Some (heap s !! x) -> heap s' !! x = heap s !! x) ->
  (forall j, is_Some (jobs s !! j) -> is_Some (jobs s' !! j)) -> rep s' jl qs.
Proof.
  intros [H1 H2 H3 H4] Hq Hh Hj. split; [done|done| |done].
  intros i q Hi. rewrite Hq. destruct (H3 i q Hi) as (G1 & G2 & G3). split_and!; [done| |].
  - apply (dlist_frame _ _ _ _ G2). intros p Hp. apply Hh. by eapply dlist_alloc.
  - eapply list.Forall_impl; [exact G3|]. intros j (J1 & J2 & J3). split_and!; [done|by apply Hj|]. by rewrite Hh.
Qed.

(** A job in new memory may be queued. *)
Lemma fresh_queueable s s' jl qs j :
  rep s jl qs -> jobs s !! j = None -> heap s !! wl j = None -> j <> NULL ->
  is_Some (jobs s' !! j) -> is_Some (heap s' !! wl j) -> queueable s' jl qs j.
Proof.
  intros [H1 H2 H3 H4] Hj Hh Hn Hj' Hh'. split_and!; [done| |].
  - intros q Hq Hin. apply list_elem_of_lookup_1 in Hq as [i Hi]. destruct (H3 i q Hi) as (_ & _ & G3).
    rewrite list.Forall_forall in G3. destruct (G3 j Hin) as (_ & [y Hy] & _). congruence.
  - intros k Hk Heq. assert (exists q, qs !! k = Some q) as [q Hq] by (apply lookup_lt_is_Some; lia).
    destruct (H3 k q Hq) as (_ & G2 & _).
    destruct (dlist_alloc _ _ _ (head_of jl k) G2) as [y Hy]; [left|]. congruence.
Qed.

Lemma alter_insert_list {A} (f : A -> A) i (l : list A) x :
  l !! i = Some x -> alter f i l = <[i := f x]> l.
Proof.
  revert i. induction l as [|y l IH]; intros [|i] Hi; simpl in *; simplify_eq; try done.
  f_equal. by apply IH.
Qed.

Lemma remove_first_ext p p' q : (forall x, p x = p' x) -> remove_first p q = remove_first p' q.
Proof. intros He. induction q as [|x q IH]; simpl; [done|]. by rewrite He, IH. Qed.

(** One operation follows its specification. *)
Lemma qop_refines s jl qs o :
  rep s jl qs -> legal_qop s jl qs o ->
  exists s', run_qop jl o s = Ret ((spec_qop (jobs s) o qs).1, s') /\
    rep s' jl (spec_qop (jobs s) o qs).2 /\ jobs s' = jobs s /\
    (forall x, is_Some (heap s' !! x) <-> is_Some (heap s !! x)).
Proof.
  intros Hrep Hl. destruct o as [p j|p j]; destruct Hl as [Hp Hj];
    (assert (exists q, qs !! Z.to_nat p = Some q) as [q Hq]
      by (apply lookup_lt_is_Some; rewrite (rep_len _ _ _ Hrep); lia)).
  - destruct (enqueue_run _ _ _ Hrep p q j (proj1 Hp) Hq Hj) as (h' & Hrun & Hrep' & Hdom & _).
    exists (set_heap h' s). simpl. rewrite (alter_insert_list _ _ _ _ Hq). split_and!; try done.
    destruct (submit_enqueue p jl j s) as [->|(r & t & He & Hr)]; [done|]. congruence.
  - destruct Hj as (Hnz & [r Hr] & _).
    pose proof (dequeue_run _ _ _ Hrep p q j r (proj1 Hp) Hq Hnz Hr) as Hd. simpl. rewrite Hq. simpl.
    rewrite (remove_first_ext (same_id (jobs s) j) (has_id s (JobId.id r)))
      by (intros x; unfold same_id, has_id; rewrite Hr; done).
    destruct (remove_first (has_id s (JobId.id r)) q) as [q'|].
    + destruct Hd as (h' & Hrun & Hrep' & Hdom). exists (set_heap h' s). done.
    + exists s. done.
Qed.

Lemma legal_qops_store s s' jl qs os :
  jobs s' = jobs s -> (forall x, is_Some (heap s' !! x) <-> is_Some (heap s !! x)) ->
  legal_qops s jl qs os -> legal_qops s' jl qs os.
Proof.
  intros Hj Hh. revert qs. induction os as [|o os IH]; intros qs; simpl; [done|]. rewrite Hj.
  intros [Hl Hls]. split; [|by apply IH].
  destruct o; simpl in *; unfold queueable, job_ok in *; rewrite Hj, Hh; done.
Qed.

(** C3. Every sequence of submissions and removals at the priorities HIGH and
    MEDIUM returns what the abstract queues return and leaves the lists in
    memory representing them: a submitted job goes to the back of its queue
    and a removal takes the first job with the id out, or returns -1 when
    there is none. *)
Theorem queues_refine s jl qs os :
  rep s jl qs -> legal_qops s jl qs os ->
  exists s', run_qops jl os s = Ret ((spec_qops (jobs s) os qs).1, s') /\
    rep s' jl (spec_qops (jobs s) os qs).2.
Proof.
  revert s qs. induction os as [|o os IH]; intros s qs Hrep Hl; simpl; [eauto|].
  destruct Hl as [Hl Hls]. destruct (qop_refines s jl qs o Hrep Hl) as (s1 & Hrun & Hrep1 & Hj & Hdom).
  destruct (IH s1 _ Hrep1 (legal_qops_store s s1 _ _ _ Hj Hdom Hls)) as (s2 & Hrun2 & Hrep2).
  exists s2. rewrite Hj in *. destruct (spec_qop (jobs s) o qs) as [r qs1]; simpl in *.
  destruct (spec_qops (jobs s) os qs1) as [rs qs2]; simpl in *. split; [|done].
  unfold cbind. rewrite Hrun, Hrun2. done.
Qed.

(** * Creation and destruction *)

(** Two allocated jobs, for examples. *)
Definition demo : store :=
  let j i := JobId.mkJob 1 1 i 1 (replicate 8 1) (replicate 8 0) 0 0 0 in
  mkStore (<[wl 5000 := mkHead 0 0]> (<[wl 6000 := mkHead 0 0]> ∅)) ∅
          (<[5000 := j 7]> (<[6000 := j 8]> ∅)) 0.

(** One pass of the loops of [sfs_job_list_init] and
    [sfs_job_queue_destroy]. *)
Lemma queue_pass p l t s :
  is_Some (queues s !! t) -> is_Some (heap s !! (t + list_off)) ->
  exists h', (set_priority t p ;;; on_heap (INIT_LIST_HEAD (t + list_off)) ;;; set_lock t l)%cprog s
    = Ret (tt, mkStore h' (<[t := mkQueue p l]> (queues s)) (jobs s) (errno s)) /\
    dlist h' (t + list_off) [] /\ (forall x, x <> t + list_off -> h' !! x = heap s !! x).
Proof.
  intros [r Hr] Hh. destruct (INIT_LIST_HEAD_run _ _ Hh) as (h' & Hrun & Hd & Hsame & _).
  exists h'. split_and!; [|done|done].
  unfold cbind at 1, set_priority, cbind at 1, load_queue, cmod. rewrite Hr.
  unfold cbind at 1. erewrite on_heap_run by exact Hrun.
  rewrite set_lock_run by (simpl; rewrite lookup_insert_eq; eauto).
  unfold locked, set_queues, set_heap. simpl. do 3 f_equal.
  apply map_eq. intros i. rewrite lookup_alter. case_decide; simplify_map_eq; done.
Qed.

Lemma init_queues_step n p t s :
  init_queues (S n) p t s
  = ((set_priority t p ;;; on_heap (INIT_LIST_HEAD (t + list_off)) ;;; set_lock t LockFree) ;;;
     init_queues n (p + 1) (t + queue_size))%cprog s.
Proof.
  simpl. unfold cbind. destruct (set_priority t p s) as [[? ?]|]; [|done].
  by destruct (on_heap _ _) as [[? ?]|].
Qed.

Lemma reset_queues_step n t s :
  reset_queues (S n) t s
  = ((set_priority t (-1) ;;; on_heap (INIT_LIST_HEAD (t + list_off)) ;;; set_lock t LockUninit) ;;;
     reset_queues n (t + queue_size))%cprog s.
Proof.
  simpl. unfold cbind. destruct (set_priority t (-1) s) as [[? ?]|]; [|done].
  by destruct (on_heap _ _) as [[? ?]|].
Qed.

(** [sfs_job_list_init] makes two empty queues, HIGH and MEDIUM, of the block
    it allocates; the lock of the third one stays uninitialised. *)
Lemma list_init_run mem junk jp s :
  mem <> NULL ->
  exists s', sfs_job_list_init mem junk jp s = Ret ((0, mem), s') /\
    rep s' mem [[]; []] /\ jobs s' = jobs s /\
    queues s' !! (mem + queue_size * LOW_PRIORITY) = Some (mkQueue (jp 2) LockUninit) /\
    (forall x, is_Some (heap s !! x) -> is_Some (heap s' !! x)).
Proof.
  intros Hm. unfold sfs_job_list_init. rewrite (proj2 (Z.eqb_neq _ _) Hm).
  unfold cbind at 1, alloc_queues, cmod. cbn [fold_left]. cbv zeta.
  change (Z.to_nat NUM_PRIORITY_MAX) with 2%nat. unfold cbind at 1.
  set (s0 := mkStore _ _ _ _) at 1.
  unfold queue_size, list_off in s0.
  rewrite init_queues_step. unfold cbind at 1.
  destruct (queue_pass HIGH_PRIORITY LockFree mem s0) as (h1 & -> & Hd1 & Hs1).
  { exists (mkQueue (jp 0) LockUninit). simpl. rewrite !lookup_insert_ne by lia. rewrite lookup_insert. case_decide; [done|lia]. }
  { exists (junk 0). simpl. unfold list_off. rewrite !lookup_insert_ne by lia. rewrite lookup_insert. case_decide; [done|lia]. }
  rewrite init_queues_step. unfold cbind at 1.
  edestruct (queue_pass (HIGH_PRIORITY + 1) LockFree (mem + queue_size)) as (h2 & -> & Hd2 & Hs2).
  { exists (mkQueue (jp 1) LockUninit). simpl. unfold queue_size.
    rewrite !lookup_insert_ne by lia. rewrite lookup_insert. case_decide; [done|lia]. }
  { exists (junk 1). simpl. rewrite Hs1 by (unfold queue_size, list_off; lia). simpl. unfold queue_size, list_off.
    rewrite lookup_insert_ne by lia. rewrite lookup_insert. case_decide; [done|lia]. }
  eexists. split; [reflexivity|]. simpl. split_and!.
  - split; [done|done| |].
    + intros [|[|i]] q; simpl; intros [= <-]; unfold qaddr, head_of, qaddr; simpl.
      * rewrite Z.add_0_r. split_and!; [|eapply dlist_frame; [exact Hd1|]|by constructor].
        -- eexists. rewrite lookup_insert_ne by (unfold queue_size; lia). by rewrite lookup_insert_eq.
        -- intros x Hx. apply Hs2. unfold queue_size, list_off in *. set_solver by lia.
      * change (queue_size * Z.of_nat 1) with queue_size.
        split_and!; [eexists; by rewrite lookup_insert_eq|done|by constructor].
    + intros [|[|i]] [|[|i']] q q'; simpl; intros [= <-] [= <-] Hne; try done;
        unfold nodes, head_of, qaddr, queue_size, list_off; simpl; set_solver by lia.
  - done.
  - rewrite !lookup_insert_ne by (unfold queue_size, LOW_PRIORITY; lia). simpl.
    unfold queue_size, LOW_PRIORITY. by rewrite lookup_insert_eq.
  - intros x Hx.
    destruct (decide (x = mem + queue_size + list_off)) as [->|]; [eapply dlist_alloc; [exact Hd2|set_solver]|].
    rewrite Hs2 by done. simpl.
    destruct (decide (x = mem + list_off)) as [->|]; [eapply dlist_alloc; [exact Hd1|set_solver]|].
    rewrite Hs1 by done. simpl.
    rewrite !lookup_insert_is_Some'. tauto.
Qed.

(** A queue whose lock was never initialised can be neither filled nor
    emptied. *)
Lemma uninit_queue_run p jl j s pr :
  0 <= p <= 2 -> jl <> NULL -> j <> NULL ->
  queues s !! (jl + queue_size * p) = Some (mkQueue pr LockUninit) ->
  sfs_submit_job p jl j s = Fault Uninit /\ sfs_dequeue_job p jl j s = Fault Uninit.
Proof.
  intros Hp Hjl Hj Hq. unfold sfs_submit_job, sfs_dequeue_job, sfs_enqueue_job.
  rewrite (proj2 (bad_params_false p jl j)) by done.
  unfold cbind, spin_lock, cbind, load_queue. by rewrite Hq.
Qed.

(** The array made at start-up represents two empty queues, HIGH and MEDIUM,
    and has a third one, for LOW_PRIORITY, that no
    operation can use: the loop stops at NUM_PRIORITY_MAX = 2, which is the
    last priority and not the number of priorities, so the list head and the
    lock of the third queue are never initialised. *)
Theorem list_init_two_of_three mem junk jp s :
  mem <> NULL ->
  exists s', sfs_job_list_init mem junk jp s = Ret ((0, mem), s') /\
    rep s' mem [[]; []] /\ jobs s' = jobs s /\
    (forall j, j <> NULL -> run_qop mem (Submit LOW_PRIORITY j) s' = Fault Uninit /\
                            run_qop mem (Dequeue LOW_PRIORITY j) s' = Fault Uninit).
Proof.
  intros Hm. destruct (list_init_run mem junk jp s Hm) as (s' & Hrun & Hrep & Hj & Hlow & _).
  exists s'. split_and!; [done..|].
  intros j Hj'. apply uninit_queue_run with (pr := jp 2); done.
Qed.

Lemma list_init_two_of_three_witness :
  exists s', sfs_job_list_init 1000 (fun _ => mkHead 0 0) (fun i => i) demo = Ret ((0, 1000), s') /\
    rep s' 1000 [[]; []] /\ run_qop 1000 (Submit LOW_PRIORITY 5000) s' = Fault Uninit.
Proof.
  destruct (list_init_two_of_three 1000 (fun _ => mkHead 0 0) (fun i => i) demo) as (s' & H1 & H2 & _ & H3);
    [discriminate|].
  exists s'. split_and!; [exact H1|exact H2|]. apply (H3 5000). discriminate.
Defined.

(** Bad arguments leave the store as it is, but for errno. *)
Theorem bad_params_refused p jl j s o :
  p < HIGH_PRIORITY \/ NUM_PRIORITY_MAX < p \/ jl = NULL \/ j = NULL ->
  o = Submit p j \/ o = Dequeue p j ->
  run_qop jl o s = Ret (-1, set_errno EINVAL s).
Proof.
  intros Hbad Ho.
  assert (Hb : bad_params p jl j = true).
  { apply not_false_is_true. rewrite bad_params_false. unfold HIGH_PRIORITY, NUM_PRIORITY_MAX in *. lia. }
  destruct (bad_params_run p jl j s Hb) as (_ & Hd & Hs). destruct Ho as [-> | ->]; done.
Qed.

(** Destroying the array frees it and clears the caller's pointer, so that a
    second call returns -1; the jobs still queued are not freed. *)
Theorem queue_destroy_frees s jl qs :
  rep s jl qs ->
  exists s', sfs_job_queue_destroy jl s = Ret ((0, NULL), s') /\
    sfs_job_queue_destroy NULL s' = Ret ((-1, NULL), s') /\
    (forall p, 0 <= p <= 2 -> queues s' !! (jl + queue_size * p) = None) /\
    jobs s' = jobs s.
Proof.
  intros Hrep. pose proof (rep_len _ _ _ Hrep) as Hlen.
  destruct qs as [|q0 [|q1 [|]]]; try done. unfold sfs_job_queue_destroy at 1.
  rewrite (proj2 (Z.eqb_neq _ _) (rep_jl _ _ _ Hrep)).
  destruct (rep_queue _ _ _ Hrep 0%nat q0 eq_refl) as ((p0 & Hq0) & Hd0 & _).
  destruct (rep_queue _ _ _ Hrep 1%nat q1 eq_refl) as ((p1 & Hq1) & Hd1 & _).
  unfold head_of, qaddr in *. change (queue_size * Z.of_nat 1) with queue_size in *.
  change (queue_size * Z.of_nat 0) with 0 in *. rewrite Z.add_0_r in *.
  change (Z.to_nat NUM_PRIORITY_MAX) with 2%nat. unfold cbind at 1.
  rewrite reset_queues_step. unfold cbind at 1.
  destruct (queue_pass (-1) LockUninit jl s) as (h1 & -> & _ & Hs1);
    [eauto|eapply dlist_alloc; [exact Hd0|set_solver]|].
  rewrite reset_queues_step. unfold cbind at 1.
  edestruct (queue_pass (-1) LockUninit (jl + queue_size)) as (h2 & -> & _ & Hs2);
    [simpl; rewrite lookup_insert_ne by (unfold queue_size; lia); eauto| |].
  { simpl. rewrite Hs1 by (unfold queue_size; lia). eapply dlist_alloc; [exact Hd1|set_solver]. }
  eexists. split; [reflexivity|]. split_and!; [reflexivity| |done].
  intros p Hp. simpl. assert (p = 0 \/ p = 1 \/ p = 2) as [-> | [-> | ->]] by lia;
    rewrite !lookup_delete; repeat case_decide; done.
Qed.

(** Jobs 5000 and 6000 submitted, then the first one removed. *)
Lemma queues_refine_witness :
  exists s1 s2, sfs_job_list_init 1000 (fun _ => mkHead 0 0) (fun i => i) demo = Ret ((0, 1000), s1) /\
    run_qops 1000 [Submit 1 5000; Submit 1 6000; Dequeue 1 5000; Dequeue 0 5000] s1
      = Ret ([0; 0; 0; -1], s2) /\
    rep s2 1000 [[]; [6000]].
Proof.
  destruct (list_init_run 1000 (fun _ => mkHead 0 0) (fun i => i) demo) as (s1 & H1 & H2 & H3 & _ & H4);
    [discriminate|].
  destruct (queues_refine s1 1000 [[]; []]
    [Submit 1 5000; Submit 1 6000; Dequeue 1 5000; Dequeue 0 5000] H2) as (s2 & H5 & H6).
  - cbn [legal_qops]. rewrite H3. unfold legal_qop, queueable, job_ok. rewrite H3.
    assert (is_Some (heap s1 !! wl 5000)) by (apply H4; eexists; reflexivity).
    assert (is_Some (heap s1 !! wl 6000)) by (apply H4; eexists; reflexivity).
    assert (Hh : forall j k, j ∈ [5000; 6000] -> (k < 2)%nat -> wl j <> head_of 1000 k).
    { intros j [|[|k]] Hj Hk; try lia; unfold wl, wait_off, head_of, qaddr, queue_size, list_off;
        rewrite !elem_of_cons in Hj; destruct Hj as [-> | [-> | Hj]]; try lia; set_solver. }
    split_and!; try done; try (eexists; reflexivity); try (intros k; apply Hh; set_solver);
      apply list.Forall_forall, (bool_decide_unpack _); vm_compute; exact I.
  - exists s1, s2. rewrite H3 in H5, H6. auto.
Defined.

Lemma bad_params_refused_witness :
  run_qop 1000 (Submit 3 5000) demo = Ret (-1, set_errno EINVAL demo).
Proof. apply (bad_params_refused 3 1000 5000); [right; left; reflexivity|left; reflexivity]. Defined.

Lemma queue_destroy_frees_witness :
  exists s1 s2, sfs_job_list_init 1000 (fun _ => mkHead 0 0) (fun i => i) demo = Ret ((0, 1000), s1) /\
    sfs_job_queue_destroy 1000 s1 = Ret ((0, NULL), s2) /\ jobs s2 = jobs demo.
Proof.
  destruct (list_init_run 1000 (fun _ => mkHead 0 0) (fun i => i) demo) as (s1 & H1 & H2 & H3 & _);
    [discriminate|].
  destruct (queue_destroy_frees s1 1000 [[]; []] H2) as (s2 & H4 & _ & _ & H5).
  exists s1, s2. split_and!; [exact H1|exact H4|congruence].
Defined.

(** A new job has the priority INVALID_PRIORITY until its creator sets one.
    [sfs_unlink] and [sfs_rmdir] never do, so the submission of their job is
    always refused with EINVAL. *)
Theorem unset_priority_refused s0 s1 j jl a s :
  JobId.sfs_new_job true s0 = Ret (Some j, s1) ->
  sfs_submit_job (JobId.priority j) jl a s = Ret (-1, set_errno EINVAL s).
Proof.
  intros Hn. assert (JobId.priority j = JobId.INVALID_PRIORITY) as ->; [|by apply bad_params_run].
  unfold JobId.sfs_new_job, JobId.sfs_job_init in Hn.
  apply cbind_Ret in Hn as (o & s2 & H1 & H2). apply cbind_Ret in H1 as (i & s3 & _ & [= <- <-]).
  apply cbind_Ret in H2 as (i' & s4 & _ & [= <- <-]). reflexivity.
Qed.

Lemma unset_priority_refused_witness :
  exists j s1, JobId.sfs_new_job true JobId.init = Ret (Some j, s1) /\
    sfs_submit_job (JobId.priority j) 1000 5000 demo = Ret (-1, set_errno EINVAL demo).
Proof.
  destruct (JobId.sfs_new_job true JobId.init) as [[[j|] s1]|] eqn:E; [|vm_compute in E; discriminate..].
  exists j, s1. split; [reflexivity|]. exact (unset_priority_refused JobId.init s1 j 1000 5000 demo E).
Defined.

End JobQueue.
