(* ===== verification/SfsdPool.v ===== *)
(** The pools of storage daemons: [sstack_sfsd_pool_init],
    [sstack_sfsd_pool_destroy], [sstack_sfsd_add] and [sstack_sfsd_remove] of
    sfs/src/sfs_helper.c.

    There is a list of daemons for each of eight ranges of weights; a daemon is
    linked into the list of its weight through the list head in its
    structure. *)
From Stdlib Require Import ZArith Lia.
From stdpp Require Import base gmap list numbers.
From S2P Require Import Prelude BdsList JobQueue.

Module SfsdPool.
Import JobQueue.

Definition MAX_SFSD_POOLS : Z := 8.
Definition MAXIMUM_WEIGHT : Z := 0.
Definition MINIMUM_WEIGHT : Z := 100.

(** The low and the high end of each row of [weights]. *)
Definition weights : list (Z * Z) := [(0, 10); (11, 20); (21, 30); (31, 40); (41, 50); (51, 60); (61, 70); (71, 100)].

(** [sizeof(sstack_sfsd_pool_t)], the offset of its list and of the list in
    [sfsd_t]. *)
Definition pool_size : Z := 32.
Definition pool_list : Z := 8.
Definition sfsd_list : Z := 24.

Record sfsd_pool : Type := mkPool { low : Z; high : Z; plock : spinlock }.
Record store : Type := mkStore { heap : lheap; pools : gmap Z sfsd_pool; errno : Z }.

Definition on_heap {A} (c : cprog lheap A) : cprog store A := fun s =>
  match c (heap s) with
  | Ret (a, h) => Ret (a, mkStore h (pools s) (errno s))
  | Fault f => Fault f
  end.
Definition load_pool (p : Z) : cprog store sfsd_pool := fun s =>
  match pools s !! p with Some r => Ret (r, s) | None => Fault OutOfBounds end.
Definition store_pool (p : Z) (r : sfsd_pool) : cprog store unit :=
  (let! _ := load_pool p in cmod (fun s => mkStore (heap s) (<[p := r]> (pools s)) (errno s)))%cprog.
Definition put_errno (e : Z) : cprog store unit := cmod (fun s => mkStore (heap s) (pools s) e).

Definition spin_lock (p : Z) : cprog store unit :=
  (let! r := load_pool p in
   match plock r with
   | LockUninit => cfault Uninit
   | LockHeld => cfault Deadlock
   | LockFree => store_pool p (mkPool (low r) (high r) LockHeld)
   end)%cprog.
Definition spin_unlock (p : Z) : cprog store unit :=
  (let! r := load_pool p in
   match plock r with
   | LockUninit => cfault Uninit
   | _ => store_pool p (mkPool (low r) (high r) LockFree)
   end)%cprog.

(** [calloc] of the array at [base], and [free] of it. *)
Definition alloc_pools (base : Z) : cprog store unit :=
  cmod (fun s => fold_left (fun s i => let p := base + pool_size * i in
    mkStore (<[p + pool_list := mkHead 0 0]> (heap s)) (<[p := mkPool 0 0 LockUninit]> (pools s)) (errno s)) (seqZ 0 MAX_SFSD_POOLS) s).
Definition free_pools (base : Z) : cprog store unit :=
  cmod (fun s => fold_left (fun s i => let p := base + pool_size * i in
    mkStore (delete (p + pool_list) (heap s)) (delete p (pools s)) (errno s)) (seqZ 0 MAX_SFSD_POOLS) s).

(** The loop over the rows of [weights]. *)
Fixpoint init_pools (rows : list (Z * Z)) (temp : Z) : cprog store unit :=
  match rows with
  | [] => cret tt
  | (l, h) :: rows' =>
      (let! r := load_pool temp in
       store_pool temp (mkPool l h (plock r)) ;;;
       on_heap (INIT_LIST_HEAD (temp + pool_list)) ;;;
       store_pool temp (mkPool l h LockFree) ;;;
       init_pools rows' (temp + pool_size))%cprog
  end.
(** [mem] is what [calloc] returns. *)
Definition sstack_sfsd_pool_init (mem : Z) : cprog store Z :=
  if mem =? NULL then cret NULL
  else (alloc_pools mem ;;; init_pools weights mem ;;; cret mem)%cprog.

Fixpoint reset_pools (n : nat) (temp : Z) : cprog store unit :=
  match n with
  | O => cret tt
  | S n' =>
      (let! r := load_pool temp in
       store_pool temp (mkPool 0 0 (plock r)) ;;;
       on_heap (INIT_LIST_HEAD (temp + pool_list)) ;;;
       store_pool temp (mkPool 0 0 LockUninit) ;;;
       reset_pools n' (temp + pool_size))%cprog
  end.
Definition sstack_sfsd_pool_destroy (pools : Z) : cprog store Z :=
  if pools =? NULL then (put_errno EINVAL ;;; cret (-1))%cprog
  else (reset_pools (Z.to_nat MAX_SFSD_POOLS) pools ;;; free_pools pools ;;; cret 0)%cprog.

(** The first row that covers the weight. *)
Fixpoint pool_index (rows : list (Z * Z)) (weight : Z) : nat :=
  match rows with
  | [] => O
  | (l, h) :: rows' => if (l <=? weight) && (weight <=? h) then O else S (pool_index rows' weight)
  end.
Definition pool_of (pools weight : Z) : Z := pools + pool_size * Z.of_nat (pool_index weights weight).

(** The weight is an [uint32_t]. *)
Definition bad_params (weight pools sfsd : Z) : bool :=
  (weight <? MAXIMUM_WEIGHT) || (MINIMUM_WEIGHT <? weight) || (NULL =? pools) || (NULL =? sfsd).

Definition sstack_sfsd_add (weight pools sfsd : Z) : cprog store Z :=
  if bad_params weight pools sfsd then (put_errno EINVAL ;;; cret (-1))%cprog
  else
    let temp := pool_of pools weight in
    (spin_lock temp ;;;
     on_heap (bds_list_add_tail (sfsd + sfsd_list) (temp + pool_list)) ;;;
     spin_unlock temp ;;;
     cret 0)%cprog.

Definition sstack_sfsd_remove (weight pools sfsd : Z) : cprog store Z :=
  if bad_params weight pools sfsd then (put_errno EINVAL ;;; cret (-1))%cprog
  else
    let temp := pool_of pools weight in
    (spin_lock temp ;;;
     let! e := on_heap (list_empty (temp + pool_list)) in
     spin_unlock temp ;;;
     if (e : bool) then cret (-1)
     else
       spin_lock temp ;;;
       let! n := on_heap (get_next (temp + pool_list)) in
       let! s := cget in
       let! hit := on_heap (list_find (Z.eqb (sfsd + sfsd_list)) (temp + pool_list) n (size (heap s))) in
       let! found := match hit with Some x => on_heap (bds_list_del x) ;;; cret 1 | None => cret (-1) end in
       spin_unlock temp ;;;
       cret (if found =? 1 then 0 else -1))%cprog.

(** * The weights *)

(** Every weight that is accepted belongs to exactly one range. *)
Lemma weights_partition w : 0 <= w <= 100 ->
  exists l h, weights !! pool_index weights w = Some (l, h) /\ l <= w <= h /\
    forall i l' h', weights !! i = Some (l', h') -> l' <= w <= h' -> i = pool_index weights w.
Proof.
  intros Hw. unfold weights. cbn [pool_index].
  repeat match goal with |- context [if (?a <=? w) && (w <=? ?b) then _ else _] =>
    destruct (Z.leb_spec a w); destruct (Z.leb_spec w b); cbn [andb] end; try lia;
  (eexists _, _; split; [reflexivity|]; split; [lia|]; intros i l' h' Hi Hr;
   do 8 (destruct i as [|i]; [cbn in Hi; injection Hi as <- <-; (lia || reflexivity)|]); cbn in Hi; by destruct i).
Qed.
Lemma pool_index_lt w : 0 <= w <= 100 -> (pool_index weights w < 8)%nat.
Proof. intros Hw. destruct (weights_partition w Hw) as (l & h & Hl & _). by apply lookup_lt_Some in Hl. Qed.

(** * The pools are lists of daemons *)

Definition paddr (base : Z) (i : nat) : Z := base + pool_size * Z.of_nat i.
Definition phead (base : Z) (i : nat) : Z := paddr base i + pool_list.
Definition node (j : Z) : Z := j + sfsd_list.
Definition cells (base : Z) (i : nat) (l : list Z) : list Z := phead base i :: (node <$> l).

#[global] Instance node_inj : Inj (=) (=) node.
Proof. intros x y. unfold node. lia. Qed.
Lemma phead_inj base i j : phead base i = phead base j -> i = j.
Proof. unfold phead, paddr, pool_size, pool_list. lia. Qed.
Lemma paddr_inj base i j : paddr base i = paddr base j -> i = j.
Proof. unfold paddr, pool_size. lia. Qed.

Record rep (s : store) (base : Z) (qs : list (list Z)) : Prop := {
  rep_base : base <> NULL;
  rep_len : length qs = 8%nat;
  rep_pool i q : qs !! i = Some q -> (exists l h, weights !! i = Some (l, h) /\ pools s !! paddr base i = Some (mkPool l h LockFree)) /\
    dlist (heap s) (phead base i) (node <$> q);
  rep_sep i j q q' : qs !! i = Some q -> qs !! j = Some q' -> i <> j -> cells base i q ## cells base j q'
}.

(** A daemon that is in no pool. *)
Definition unpooled (s : store) (base : Z) (qs : list (list Z)) (j : Z) : Prop :=
  j <> NULL /\ is_Some (heap s !! node j) /\ (forall q, q ∈ qs -> j ∉ q) /\ (forall k, (k < 8)%nat -> node j <> phead base k).

Definition set_heap (h : lheap) (s : store) : store := mkStore h (pools s) (errno s).
Definition held (p : Z) (r : sfsd_pool) (s : store) : store := mkStore (heap s) (<[p := mkPool (low r) (high r) LockHeld]> (pools s)) (errno s).

Lemma pool_lock_run s p r : pools s !! p = Some r -> plock r = LockFree -> spin_lock p s = Ret (tt, held p r s).
Proof. intros Hp Hl. unfold spin_lock, cbind at 1, load_pool. rewrite Hp, Hl. unfold store_pool, cbind, load_pool. by rewrite Hp. Qed.
Lemma pool_unlock_run s p r h : pools s !! p = Some r -> plock r = LockFree -> spin_unlock p (set_heap h (held p r s)) = Ret (tt, set_heap h s).
Proof.
  intros Hp Hl. unfold spin_unlock, cbind at 1, load_pool. cbn [pools set_heap held]. rewrite lookup_insert_eq. cbn [plock low high].
  unfold store_pool, cbind, load_pool, cmod. cbn [pools set_heap held heap errno]. rewrite lookup_insert_eq. cbn. rewrite insert_insert_eq.
  rewrite insert_id; [done|]. destruct r as [l hi lk]. cbn in *. by subst.
Qed.
(** A critical section that runs one operation on the list. *)
Lemma section_run {A} (c : cprog lheap A) s p r a h : pools s !! p = Some r -> plock r = LockFree -> c (heap s) = Ret (a, h) ->
  (spin_lock p ;;; let! x := on_heap c in spin_unlock p ;;; cret x)%cprog s = Ret (a, set_heap h s).
Proof.
  intros Hp Hl Hc. unfold cbind. rewrite (pool_lock_run _ _ _ Hp Hl). unfold on_heap. cbn [heap held]. rewrite Hc.
  change (mkStore h (pools (held p r s)) (errno (held p r s))) with (set_heap h (held p r s)). by rewrite (pool_unlock_run _ _ _ _ Hp Hl).
Qed.

Lemma find_node j q : List.find (Z.eqb (node j)) (node <$> q) = node <$> List.find (Z.eqb j) q.
Proof.
  induction q as [|x q IH]; [done|]. cbn. rewrite IH. replace (node j =? node x) with (j =? x); [by destruct (j =? x)|].
  unfold node. destruct (Z.eqb_spec j x); [subst; by rewrite Z.eqb_refl|]. symmetry. apply Z.eqb_neq. lia.
Qed.

Section Rep.
Context (s : store) (base : Z) (qs : list (list Z)) (Hrep : rep s base qs).
Set Default Proof Using "All".

(** Replacing the list of one pool. *)
Lemma pool_update i q q' h' :
  qs !! i = Some q -> dlist h' (phead base i) (node <$> q') ->
  (forall p, p ∉ cells base i q -> p ∉ cells base i q' -> h' !! p = heap s !! p) ->
  (forall k r, qs !! k = Some r -> k <> i -> cells base k r ## cells base i q') ->
  rep (set_heap h' s) base (<[i := q']> qs).
Proof.
  intros Hq Hd Hsame Hsep. destruct Hrep as [H0 H1 H2 H3]. assert (Hi : (i < length qs)%nat) by (by eapply lookup_lt_Some).
  split; [done|by rewrite length_insert| |].
  - intros k r Hk. destruct (decide (k = i)) as [->|Hne].
    + rewrite list_lookup_insert_eq in Hk by done. injection Hk as <-. split; [by apply (H2 i q)|done].
    + rewrite list_lookup_insert_ne in Hk by done. destruct (H2 k r Hk) as (Hp & Hdk). split; [done|].
      eapply dlist_frame; [exact Hdk|]. intros p Hp'. apply Hsame; [exact (H3 k i r q Hk Hq Hne p Hp')|exact (Hsep k r Hk Hne p Hp')].
  - intros k k' r r' Hk Hk' Hne. destruct (decide (k = i)) as [->|]; destruct (decide (k' = i)) as [->|]; [done| | |].
    + rewrite list_lookup_insert_eq in Hk by done. injection Hk as <-. rewrite list_lookup_insert_ne in Hk' by done.
      intros x Hx Hx'. by apply (Hsep k' r' Hk') in Hx'.
    + rewrite list_lookup_insert_eq in Hk' by done. injection Hk' as <-. rewrite list_lookup_insert_ne in Hk by done. by apply (Hsep k r).
    + rewrite list_lookup_insert_ne in Hk, Hk' by done. by apply (H3 k k').
Qed.

Lemma unpooled_cells i q j : qs !! i = Some q -> unpooled s base qs j -> node j ∉ cells base i q.
Proof.
  intros Hq (_ & _ & Hnew & Hh). unfold cells. rewrite elem_of_cons, list_elem_of_fmap. intros [He|(j' & He & Hin)].
  - eapply Hh; [|exact He]. apply lookup_lt_Some in Hq. by rewrite (rep_len _ _ _ Hrep) in Hq.
  - apply node_inj in He as ->. eapply Hnew; [|exact Hin]. by eapply list_elem_of_lookup_2.
Qed.

Lemma params_ok w j : 0 <= w <= 100 -> j <> NULL -> bad_params w base j = false.
Proof.
  intros Hw Hj. pose proof (rep_base _ _ _ Hrep). unfold bad_params, MAXIMUM_WEIGHT, MINIMUM_WEIGHT.
  rewrite (proj2 (Z.ltb_ge w 0)), (proj2 (Z.ltb_ge 100 w)), !(proj2 (Z.eqb_neq NULL _)) by (done || lia). done.
Qed.

Lemma add_run w j q : 0 <= w <= 100 -> qs !! pool_index weights w = Some q -> unpooled s base qs j ->
  exists h', sstack_sfsd_add w base j s = Ret (0, set_heap h' s) /\ rep (set_heap h' s) base (<[pool_index weights w := q ++ [j]]> qs) /\
    (forall x, is_Some (h' !! x) <-> is_Some (heap s !! x)).
Proof.
  intros Hw Hq Hj. set (i := pool_index weights w) in *. destruct (rep_pool _ _ _ Hrep i q Hq) as [(l & hi & Hrow & Hp) Hd].
  pose proof (unpooled_cells i q j Hq Hj) as Hni. pose proof Hj as (Hnz & Hal & Hnew & Hh).
  destruct (bds_list_add_tail_run _ _ _ (node j) Hd Hal Hni) as (h' & Hrun & Hd' & Hsame & Hdom). exists h'. split; [|split; [|done]].
  - unfold sstack_sfsd_add. rewrite params_ok by done. change (pool_of base w) with (paddr base i). unfold cbind.
    rewrite (pool_lock_run _ _ _ Hp eq_refl). unfold on_heap. cbn [heap held]. change (j + sfsd_list) with (node j). change (paddr base i + pool_list) with (phead base i).
    rewrite Hrun. change (mkStore h' _ _) with (set_heap h' (held (paddr base i) (mkPool l hi LockFree) s)).
    by rewrite (pool_unlock_run _ _ _ _ Hp eq_refl).
  - eapply pool_update; [done|by rewrite fmap_app| |].
    + intros p H1 H2. apply Hsame. unfold cells in *. rewrite fmap_app in H2. set_solver.
    + intros k r Hk Hne x Hx. unfold cells. rewrite fmap_app, elem_of_cons, elem_of_app.
      pose proof (rep_sep _ _ _ Hrep _ _ _ _ Hk Hq Hne x Hx) as Hx1. unfold cells in Hx1. rewrite elem_of_cons in Hx1. cbn. rewrite list_elem_of_singleton.
      intros [?|[?| ->]]; [tauto|tauto|]. by apply (unpooled_cells k r j Hk Hj) in Hx.
Qed.

Lemma remove_step w j q : 0 <= w <= 100 -> qs !! pool_index weights w = Some q -> j <> NULL ->
  sstack_sfsd_remove w base j s = match List.find (Z.eqb j) q with
                                  | Some x => match bds_list_del (node x) (heap s) with Ret (_, h) => Ret (0, set_heap h s) | Fault f => Fault f end
                                  | None => Ret (-1, s)
                                  end.
Proof.
  intros Hw Hq Hnz. set (i := pool_index weights w) in *. destruct (rep_pool _ _ _ Hrep i q Hq) as [(l & hi & Hrow & Hp) Hd].
  assert (Hsame : set_heap (heap s) s = s) by (by destruct s). set (r := mkPool l hi LockFree) in *.
  unfold sstack_sfsd_remove. rewrite params_ok by done. change (pool_of base w) with (paddr base i).
  change (paddr base i + pool_list) with (phead base i). change (j + sfsd_list) with (node j).
  unfold cbind at 1. rewrite (pool_lock_run _ _ _ Hp eq_refl). unfold cbind at 1, on_heap at 1. cbn [heap held]. rewrite (list_empty_run _ _ _ Hd).
  unfold cbind at 1. change (mkStore (heap s) _ _) with (set_heap (heap s) (held (paddr base i) r s)).
  rewrite (pool_unlock_run _ _ _ _ Hp eq_refl), Hsame. destruct q as [|x q0]; [done|].
  cbn [fmap list_fmap]. set (q := x :: q0) in *.
  assert (Hn : nxt (heap s) (phead base i) = Some (node x)) by apply Hd.
  unfold cbind at 1. rewrite (pool_lock_run _ _ _ Hp eq_refl). unfold cbind at 1, on_heap at 1. cbn [heap held]. rewrite (get_next_run _ _ _ Hn).
  change (mkStore (heap s) _ _) with (set_heap (heap s) (held (paddr base i) r s)).
  unfold cbind at 1, cget. unfold cbind at 1, on_heap at 1. cbn [heap set_heap].
  rewrite (list_find_run _ _ (node <$> q) _ _ _ Hd Hn (dlist_length _ _ _ Hd)), find_node.
  destruct (List.find (Z.eqb j) q) as [j'|]; cbn [fmap option_fmap option_map]; unfold cbind at 1.
  - unfold cbind at 1, on_heap. cbn [heap set_heap]. destruct (bds_list_del (node j') (heap s)) as [[[] h']|]; [|done]. unfold cret at 1.
    unfold cbind. change (mkStore h' _ _) with (set_heap h' (held (paddr base i) r s)). by rewrite (pool_unlock_run _ _ _ _ Hp eq_refl).
  - unfold cret at 1. unfold cbind at 1. change (mkStore (heap s) _ _) with (set_heap (heap s) (held (paddr base i) r s)).
    by rewrite (pool_unlock_run _ _ _ _ Hp eq_refl), Hsame.
Qed.

Lemma remove_run w j q : 0 <= w <= 100 -> qs !! pool_index weights w = Some q -> j <> NULL ->
  match remove_first (Z.eqb j) q with
  | Some q' => exists h', sstack_sfsd_remove w base j s = Ret (0, set_heap h' s) /\ rep (set_heap h' s) base (<[pool_index weights w := q']> qs) /\
      (forall x, is_Some (h' !! x) <-> is_Some (heap s !! x))
  | None => sstack_sfsd_remove w base j s = Ret (-1, s)
  end.
Proof.
  intros Hw Hq Hnz. rewrite (remove_step w j q Hw Hq Hnz). set (i := pool_index weights w) in *.
  destruct (rep_pool _ _ _ Hrep i q Hq) as [_ Hd]. destruct (List.find (Z.eqb j) q) as [j'|] eqn:Hfind; [|by rewrite (find_none _ _ Hfind)].
  destruct (find_split _ _ _ Hfind) as (l1 & l2 & Hsplit & ->). rewrite Hsplit, fmap_app, fmap_cons in Hd.
  destruct (bds_list_del_run _ _ _ _ _ Hd) as (h' & Hrun & Hd' & Hsame' & Hdom). exists h'. rewrite Hrun. split; [done|]. split; [|done].
  eapply pool_update; [exact Hq|by rewrite fmap_app| |].
  - intros p _ Hp'. apply Hsame'. unfold cells in Hp'. by rewrite fmap_app in Hp'.
  - intros k r Hk Hne y Hy Hy'. apply (rep_sep _ _ _ Hrep _ _ _ _ Hk Hq Hne y Hy). unfold cells in *. rewrite Hsplit, fmap_app, fmap_cons.
    rewrite fmap_app in Hy'. set_solver.
Qed.
End Rep.

(** * Creation *)

Lemma alloc_in base ix : forall s, let s' := fold_left (fun s i => let p := base + pool_size * i in
    mkStore (<[p + pool_list := mkHead 0 0]> (heap s)) (<[p := mkPool 0 0 LockUninit]> (pools s)) (errno s)) ix s in
  (forall i, i ∈ ix \/ is_Some (pools s !! (base + pool_size * i)) -> is_Some (pools s' !! (base + pool_size * i))) /\
  (forall i, i ∈ ix \/ is_Some (heap s !! (base + pool_size * i + pool_list)) -> is_Some (heap s' !! (base + pool_size * i + pool_list))) /\
  (forall p, is_Some (heap s !! p) -> is_Some (heap s' !! p)).
Proof.
  induction ix as [|k ix IH]; intros s; cbn [fold_left].
  - split_and!; [intros i [Hi|Hi]; [by apply not_elem_of_nil in Hi|done]..|done].
  - destruct (IH (mkStore (<[base + pool_size * k + pool_list := mkHead 0 0]> (heap s)) (<[base + pool_size * k := mkPool 0 0 LockUninit]> (pools s)) (errno s)))
      as (H1 & H2 & H3).
    assert (Hin : forall {A} (m : gmap Z A) a b (x : A), is_Some (m !! b) \/ a = b -> is_Some (<[a := x]> m !! b)).
    { intros A m a b0 x Hs. rewrite lookup_insert. case_decide; [eauto|]. by destruct Hs. }
    split_and!.
    + intros i Hi. apply H1. cbn [pools]. rewrite elem_of_cons in Hi. destruct Hi as [[->|Hi]|Hi]; [right; apply Hin; by right|by left|right; apply Hin; by left].
    + intros i Hi. apply H2. cbn [heap]. rewrite elem_of_cons in Hi. destruct Hi as [[->|Hi]|Hi]; [right; apply Hin; by right|by left|right; apply Hin; by left].
    + intros q Hq. apply H3. cbn [heap]. apply Hin. by left.
Qed.

Definition ready (s : store) (base : Z) (i : nat) : Prop := is_Some (pools s !! paddr base i) /\ is_Some (heap s !! phead base i).
Definition emptied (s : store) (base : Z) (i : nat) : Prop :=
  (exists l h, weights !! i = Some (l, h) /\ pools s !! paddr base i = Some (mkPool l h LockFree)) /\ dlist (heap s) (phead base i) [].

Lemma init_run base rows : forall n s, rows = drop n weights ->
  (forall i, (i < n)%nat -> emptied s base i) -> (forall i, (n <= i < 8)%nat -> ready s base i) ->
  exists s', init_pools rows (paddr base n) s = Ret (tt, s') /\ (forall i, (i < 8)%nat -> emptied s' base i) /\
    (forall p, is_Some (heap s' !! p) <-> is_Some (heap s !! p)).
Proof.
  induction rows as [|[l h] rows IH]; intros n s Hrows Hdone Hready.
  - exists s. split; [done|]. split; [|done]. intros i Hi. apply Hdone. pose proof (f_equal length Hrows) as Hlen. rewrite length_drop in Hlen. cbn in Hlen. lia.
  - assert (Hrow : weights !! n = Some (l, h)) by (rewrite <- (Nat.add_0_r n), <- lookup_drop, <- Hrows; done).
    assert (Hn : (n < 8)%nat) by (by apply lookup_lt_Some in Hrow).
    destruct (Hready n) as [[r Hr] Hh]; [lia|]. destruct (INIT_LIST_HEAD_run (heap s) (phead base n) Hh) as (h' & Hi & Hd & Hsame & Hdom).
    set (s1 := mkStore h' (<[paddr base n := mkPool l h LockFree]> (pools s)) (errno s)).
    assert (Hstep : init_pools ((l, h) :: rows) (paddr base n) s = init_pools rows (paddr base (S n)) s1).
    { cbn [init_pools]. unfold cbind at 1, load_pool. rewrite Hr. unfold cbind at 1, store_pool. unfold cbind at 1, load_pool. rewrite Hr. unfold cmod.
      unfold cbind at 1, on_heap. cbn [heap pools errno]. change (paddr base n + pool_list) with (phead base n). rewrite Hi.
      unfold cbind at 1. unfold cbind at 1. cbn [pools]. rewrite lookup_insert_eq. cbn [heap pools errno]. rewrite insert_insert_eq. fold s1. f_equal. unfold paddr, pool_size. lia. }
    rewrite Hstep. destruct (IH (S n) s1) as (s' & Hrun & Hall & Hdom').
    + rewrite (drop_S _ _ _ Hrow) in Hrows. by injection Hrows.
    + intros i Hi'. destruct (decide (i = n)) as [->|Hne].
      * split; [|done]. exists l, h. split; [done|]. cbn [pools s1]. by rewrite lookup_insert_eq.
      * destruct (Hdone i) as [(l' & hh & Hw & Hp) Hd']; [lia|]. split.
        -- exists l', hh. split; [done|]. cbn [pools s1]. rewrite lookup_insert_ne; [done|]. intros He. apply paddr_inj in He. lia.
        -- eapply dlist_frame; [exact Hd'|]. intros q Hq. apply list_elem_of_singleton in Hq as ->. apply Hsame. intros He. apply phead_inj in He. lia.
    + intros i Hi'. destruct (Hready i) as [[y Hy] Hz]; [lia|]. split; cbn [pools heap s1]; [|by apply Hdom].
      rewrite lookup_insert_ne; [eauto|]. intros He. apply paddr_inj in He. lia.
    + exists s'. split; [done|]. split; [done|]. intros q. rewrite Hdom'. apply Hdom.
Qed.

(** The new pools are empty. *)
Lemma pool_init_run base s : base <> NULL -> exists s', sstack_sfsd_pool_init base s = Ret (base, s') /\ rep s' base (replicate 8 []) /\
  (forall p, is_Some (heap s !! p) -> is_Some (heap s' !! p)).
Proof.
  intros Hb. unfold sstack_sfsd_pool_init. rewrite (proj2 (Z.eqb_neq _ _) Hb).
  destruct (alloc_in base (seqZ 0 MAX_SFSD_POOLS) s) as (H1 & H2 & H3). unfold cbind at 1, alloc_pools, cmod.
  set (s1 := fold_left _ _ s) in *. destruct (init_run base weights 0 s1 eq_refl) as (s' & Hrun & Hall & Hdom); [lia| |].
  { intros i Hi. assert (Hin : Z.of_nat i ∈ seqZ 0 MAX_SFSD_POOLS) by (apply elem_of_seqZ; unfold MAX_SFSD_POOLS; lia).
    split; [apply H1|apply H2]; by left. }
  exists s'. unfold cbind. replace (paddr base 0) with base in Hrun by (unfold paddr; lia). rewrite Hrun. split; [done|]. split.
  - split; [done|done| |].
    + intros i q Hq. apply lookup_replicate in Hq as [-> Hi]. by apply Hall.
    + intros i j q q' Hq Hq' Hne. apply lookup_replicate in Hq as [-> _], Hq' as [-> _]. unfold cells. cbn. intros x Hx Hx'.
      apply list_elem_of_singleton in Hx, Hx'. subst x. by apply phead_inj in Hx'.
  - intros q Hq. apply Hdom. by apply H3.
Qed.

(** * Refinement *)

Inductive pop : Type := Add (w j : Z) | Remove (w j : Z).
Definition run_pop (base : Z) (o : pop) : cprog store Z :=
  match o with Add w j => sstack_sfsd_add w base j | Remove w j => sstack_sfsd_remove w base j end.
(** A daemon joins the pool of its weight at the end, and leaves it. *)
Definition spec_pop (o : pop) (qs : list (list Z)) : Z * list (list Z) :=
  match o with
  | Add w j => if 100 <? w then (-1, qs) else (0, alter (fun q => q ++ [j]) (pool_index weights w) qs)
  | Remove w j =>
      if 100 <? w then (-1, qs)
      else match qs !! pool_index weights w ≫= remove_first (Z.eqb j) with
           | Some q' => (0, <[pool_index weights w := q']> qs)
           | None => (-1, qs)
           end
  end.
(** A daemon is added while it is in no pool. *)
Definition legal_pop (s : store) (base : Z) (qs : list (list Z)) (o : pop) : Prop :=
  match o with
  | Add w j => 0 <= w /\ (w <= 100 -> unpooled s base qs j)
  | Remove w j => 0 <= w /\ j <> NULL
  end.
Fixpoint run_pops (base : Z) (os : list pop) : cprog store (list Z) :=
  match os with
  | [] => cret []
  | o :: os' => (let! r := run_pop base o in let! rs := run_pops base os' in cret (r :: rs))%cprog
  end.
Fixpoint spec_pops (os : list pop) (qs : list (list Z)) : list Z * list (list Z) :=
  match os with
  | [] => ([], qs)
  | o :: os' => let '(r, qs1) := spec_pop o qs in let '(rs, qs2) := spec_pops os' qs1 in (r :: rs, qs2)
  end.
Fixpoint legal_pops (s : store) (base : Z) (qs : list (list Z)) (os : list pop) : Prop :=
  match os with
  | [] => True
  | o :: os' => legal_pop s base qs o /\ legal_pops s base (spec_pop o qs).2 os'
  end.

Lemma too_light w base j : 100 < w -> bad_params w base j = true.
Proof. intros Hw. unfold bad_params, MINIMUM_WEIGHT. rewrite (proj2 (Z.ltb_lt 100 w)) by lia. by rewrite orb_true_r. Qed.
Lemma pool_errno s base qs e : rep s base qs -> rep (mkStore (heap s) (pools s) e) base qs.
Proof. by intros [? ? ? ?]. Qed.

Lemma pop_refines s base qs o : rep s base qs -> legal_pop s base qs o ->
  exists s', run_pop base o s = Ret ((spec_pop o qs).1, s') /\ rep s' base (spec_pop o qs).2 /\
    (forall x, is_Some (heap s' !! x) <-> is_Some (heap s !! x)).
Proof.
  intros Hrep Hl. destruct o as [w j|w j]; destruct Hl as [Hw Hj]; cbn [run_pop spec_pop]; destruct (Z.ltb_spec 100 w) as [Hbig|Hle].
  1, 3: unfold sstack_sfsd_add, sstack_sfsd_remove; rewrite too_light by done; eexists; split; [reflexivity|]; split; [by apply pool_errno|done].
  all: assert (exists q, qs !! pool_index weights w = Some q) as [q Hq] by
    (apply lookup_lt_is_Some; rewrite (rep_len _ _ _ Hrep); apply pool_index_lt; lia).
  - destruct (add_run s base qs Hrep w j q) as (h' & Hrun & Hr & Hdom); [lia|done|by apply Hj|]. exists (set_heap h' s).
    cbn [fst snd]. rewrite (alter_insert_list _ _ _ _ Hq). done.
  - pose proof (remove_run s base qs Hrep w j q ltac:(lia) Hq Hj) as Hr. rewrite Hq. cbn [mbind option_bind].
    destruct (remove_first (Z.eqb j) q) as [q'|]; [|by exists s]. destruct Hr as (h' & Hrun & Hr & Hdom). by exists (set_heap h' s).
Qed.

Lemma legal_pops_heap s s' base qs os : (forall x, is_Some (heap s' !! x) <-> is_Some (heap s !! x)) ->
  legal_pops s base qs os -> legal_pops s' base qs os.
Proof.
  intros Hh. revert qs. induction os as [|o os IH]; intros qs; cbn [legal_pops]; [done|]. intros [Hl Hls]. split; [|by apply IH].
  destruct o; cbn in *; [|done]. unfold unpooled in *. by rewrite Hh.
Qed.

(** C24. Pools that were set up answer to any sequence of additions and removals of
    daemons as a list of daemons for each range of weights does. *)
Theorem pools_refine s base : base <> NULL ->
  exists s0, sstack_sfsd_pool_init base s = Ret (base, s0) /\
    forall os, legal_pops s0 base (replicate 8 []) os ->
      exists s', run_pops base os s0 = Ret ((spec_pops os (replicate 8 [])).1, s') /\ rep s' base (spec_pops os (replicate 8 [])).2.
Proof.
  intros Hb. destruct (pool_init_run base s Hb) as (s0 & Hinit & Hrep & _). exists s0. split; [done|]. intros os. generalize (replicate 8 ([] : list Z)), Hrep.
  clear Hinit Hrep. revert s0. induction os as [|o os IH]; intros s0 qs Hrep Hl; [by exists s0|]. destruct Hl as [Hl Hls].
  destruct (pop_refines s0 base qs o Hrep Hl) as (s1 & Hrun & Hrep1 & Hdom).
  destruct (IH s1 _ Hrep1 (legal_pops_heap s0 s1 _ _ _ Hdom Hls)) as (s2 & Hrun2 & Hrep2). exists s2. cbn [run_pops spec_pops].
  destruct (spec_pop o qs) as [r qs1]. cbn [fst snd] in *. destruct (spec_pops os qs1) as [rs qs2]. unfold cbind. rewrite Hrun, Hrun2. done.
Qed.

(** * Examples *)

(** Two daemons, at 1000 and 2000. *)
Definition demo_store : store := mkStore {[node 1000 := mkHead 0 0; node 2000 := mkHead 0 0]} ∅ 0.
Definition demo_pops : list pop := [Add 5 1000; Add 10 2000; Remove 5 1000; Add 100 1000; Remove 5 1000; Add 101 1000].
Lemma check_unpooled j qs : forallb (forallb (fun x => negb (x =? j))) qs = true -> forall q, q ∈ qs -> j ∉ q.
Proof.
  intros H q Hq Hj. apply list_elem_of_In in Hq. apply forallb_forall with (x := q) in H; [|done].
  apply forallb_forall with (x := j) in H; [|by apply list_elem_of_In]. by rewrite Z.eqb_refl in H.
Qed.
Lemma pools_refine_witness :
  exists s0, sstack_sfsd_pool_init 4000 demo_store = Ret (4000, s0) /\
    exists s', run_pops 4000 demo_pops s0 = Ret ([0; 0; 0; 0; -1; -1], s') /\ rep s' 4000 [[2000]; []; []; []; []; []; []; [1000]].
Proof.
  destruct (pools_refine demo_store 4000) as (s0 & Hinit & Hall); [done|]. exists s0. split; [exact Hinit|].
  assert (Hd : forall x, match sstack_sfsd_pool_init 4000 demo_store with Ret (_, t) => heap t !! x | _ => None end = heap s0 !! x) by (rewrite Hinit; done).
  apply (Hall demo_pops).
  assert (H1 : is_Some (heap s0 !! node 1000)) by (rewrite <- Hd; vm_compute; eauto).
  assert (H2 : is_Some (heap s0 !! node 2000)) by (rewrite <- Hd; vm_compute; eauto).
  assert (Hheads : forall j k, j < 4000 - 24 -> node j <> phead 4000 k) by (intros j k; unfold node, phead, paddr, sfsd_list, pool_list, pool_size; lia).
  cbn [legal_pops demo_pops]. unfold legal_pop, unpooled.
  split_and!; try lia; try done; intros _;
    (split_and!; [done|done|apply check_unpooled; vm_compute; reflexivity|intros k _; apply Hheads; lia]).
Defined.
End SfsdPool.
