(* ===== verification/Dispatcher.v ===== *)
(** The dispatcher thread of the file system process: one round of
    [sfs_dispatcher] (sfs/src/sfs.c), on the queues of [JobQueue].

    A round detaches the jobs of the HIGH queue, sends each one to all its
    storage daemons and puts it on the queue of pending jobs; the code for the
    other two queues is compiled out. The calls of [sstack_send_payload] are
    recorded in a trace. *)
From stdpp Require Import base gmap list numbers.
From S2P Require Import Prelude BdsList JobId JobQueue.

Module Dispatcher.
Import JobQueue.

Definition MAX_HIGH_PRIO : Z := 64.
Definition JOB_STARTED : Z := 0.

(** The trace holds the sfsd and the job of every payload sent. *)
Record state : Type := mkState { st : store; sent : list (Z * Z) }.

Definition on_store {A} (c : cprog store A) : cprog state A := fun d =>
  match c (st d) with
  | Ret (a, s) => Ret (a, mkState s (sent d))
  | Fault f => Fault f
  end.

Definition send_payload (sfsd job : Z) : cprog state unit :=
  cmod (fun d => mkState (st d) (sent d ++ [(sfsd, job)])).

Definition set_jobs (js : gmap Z JobId.sfs_job) (s : store) : store :=
  mkStore (heap s) (queues s) js (errno s).

Definition with_status (r : JobId.sfs_job) (l : list Z) : JobId.sfs_job :=
  JobId.mkJob (JobId.version r) (JobId.job_type r) (JobId.id r) (JobId.num_clients r)
    (JobId.sfsds r) l (JobId.payload_len r) (JobId.priority r) (JobId.payload r).

(** [job->job_status[j] = v] *)
Definition set_job_status (job : Z) (j : nat) (v : Z) : cprog store unit :=
  (let! r := load_job job in
   if (j <? length (JobId.job_status r))%nat
   then cmod (fun s => set_jobs (<[job := with_status r (<[j := v]> (JobId.job_status r))]> (jobs s)) s)
   else cfault OutOfBounds)%cprog.

(** [for (j = 0; j < job->num_clients; j++)], with [n] clients left. *)
Fixpoint send_clients (n : nat) (job : Z) (j : nat) : cprog state unit :=
  match n with
  | O => cret tt
  | S n' =>
      (let! r := on_store (load_job job) in
       let! sfsd := cexpect OutOfBounds (JobId.sfsds r !! j) in
       (if sfsd =? NULL then cfault NullDeref else send_payload sfsd job) ;;;
       on_store (set_job_status job j JOB_STARTED) ;;;
       send_clients n' job (S j))%cprog
  end.

(** [while (!list_empty(temp))]; [i] counts the jobs sent in this round. *)
Fixpoint drain (fuel : nat) (temp pending_jobs i : Z) : cprog state unit :=
  match fuel with
  | O => cfault Deadlock
  | S fuel' =>
      (let! e := on_store (on_heap (list_empty temp)) in
       if (e : bool) then cret tt
       else
         let! n := on_store (on_heap (get_next temp)) in
         let job := n - wait_off in
         on_store (on_heap (bds_list_del n)) ;;;
         if i =? MAX_HIGH_PRIO then cret tt
         else
           let! r := on_store (load_job job) in
           send_clients (Z.to_nat (JobId.num_clients r)) job 0 ;;;
           let! ret := on_store (sfs_enqueue_job HIGH_PRIORITY pending_jobs job) in
           drain fuel' temp pending_jobs (i + 1))%cprog
  end.

(** One round of the loop, up to [sleep]. The counter stops the inner loop
    after MAX_HIGH_PRIO + 1 detached jobs, so the fuel is enough. *)
Definition dispatch_round (job_list pending_jobs : Z) : cprog state unit :=
  drain (Z.to_nat MAX_HIGH_PRIO + 2) (job_list + queue_size * HIGH_PRIORITY + list_off) pending_jobs 0.

(** * Lemmas *)

(** A job that can be sent: its client array is filled in. *)
Definition sendable (r : JobId.sfs_job) : Prop :=
  (Z.to_nat (JobId.num_clients r) <= JobId.MAX_SFSD_CLIENTS)%nat /\
  length (JobId.sfsds r) = JobId.MAX_SFSD_CLIENTS /\
  length (JobId.job_status r) = JobId.MAX_SFSD_CLIENTS /\
  Forall (fun a => a <> NULL) (take (Z.to_nat (JobId.num_clients r)) (JobId.sfsds r)).

(** What sending makes of a job, and what it sends. *)
Definition started (r : JobId.sfs_job) : JobId.sfs_job :=
  let n := Z.to_nat (JobId.num_clients r) in
  with_status r (replicate n JOB_STARTED ++ drop n (JobId.job_status r)).

Definition sends (js : gmap Z JobId.sfs_job) (job : Z) : list (Z * Z) :=
  match js !! job with
  | Some r => (fun a => (a, job)) <$> take (Z.to_nat (JobId.num_clients r)) (JobId.sfsds r)
  | None => []
  end.

(** The loop over the clients from [j] on. *)
Lemma send_clients_run n job j d r done :
  jobs (st d) !! job = Some r ->
  JobId.job_status r = replicate j JOB_STARTED ++ done ->
  (n <= length done)%nat -> (j + n <= length (JobId.sfsds r))%nat ->
  Forall (fun a => a <> NULL) (take n (drop j (JobId.sfsds r))) ->
  exists s', send_clients n job j d
    = Ret (tt, mkState s' (sent d ++ ((fun a => (a, job)) <$> take n (drop j (JobId.sfsds r))))) /\
    s' = set_jobs (<[job := with_status r (replicate (j + n) JOB_STARTED ++ drop n done)]> (jobs (st d))) (st d).
Proof.
  revert j d r done. induction n as [|n IH]; intros j [s tr] r done Hr Hst Hn Hj Hnz.
  - eexists. split; [simpl; by rewrite app_nil_r|]. simpl. rewrite Nat.add_0_r, drop_0, <- Hst.
    replace (with_status r (JobId.job_status r)) with r by (by destruct r).
    rewrite insert_id by done. by destruct s.
  - destruct done as [|x done]; [simpl in Hn; lia|].
    assert (exists a, JobId.sfsds r !! j = Some a) as [a Ha] by (apply lookup_lt_is_Some; lia).
    rewrite (drop_S _ _ _ Ha) in Hnz |- *. simpl in Hnz. apply list.Forall_cons in Hnz as [Ha0 Hnz].
    cbn [send_clients]. unfold cbind at 1, on_store, load_job. cbn [st]. simpl in Hr. rewrite Hr.
    unfold cbind at 1. rewrite Ha. simpl. unfold cbind at 1.
    rewrite (proj2 (Z.eqb_neq _ _) Ha0). unfold send_payload, cmod. simpl.
    unfold cbind at 1, on_store, set_job_status, cbind at 1, load_job. simpl. rewrite Hr.
    assert (Hlen : (j <? length (JobId.job_status r))%nat = true).
    { apply Nat.ltb_lt. rewrite Hst, length_app, length_replicate. simpl. lia. }
    rewrite Hlen. unfold cmod.
    set (r1 := with_status r (<[j := JOB_STARTED]> (JobId.job_status r))).
    assert (Hst1 : JobId.job_status r1 = replicate (S j) JOB_STARTED ++ done).
    { simpl. rewrite Hst, insert_app_r_alt by (rewrite length_replicate; lia).
      rewrite length_replicate, Nat.sub_diag. simpl.
      rewrite (app_assoc _ [JOB_STARTED] done : _ ++ JOB_STARTED :: done = _). 
      change [JOB_STARTED] with (replicate 1 JOB_STARTED). rewrite <- replicate_add.
      by rewrite Nat.add_1_r. }
    destruct (IH (S j) (mkState (set_jobs (<[job := r1]> (jobs s)) s) (tr ++ [(a, job)])) r1 done)
      as (s' & Hrun & Hs').
    + simpl. by rewrite lookup_insert_eq.
    + done.
    + simpl in Hn. lia.
    + simpl. lia.
    + done.
    + exists s'. simpl in Hrun. split.
      * unfold st, sent. rewrite Hrun. simpl. by rewrite <- app_assoc.
      * rewrite Hs'. simpl. unfold set_jobs. simpl. rewrite insert_insert_eq.
        rewrite Nat.add_succ_r. done.
Qed.

(** An array of queues does not see changes elsewhere. *)
Lemma rep_frame s s' jl qs :
  rep s jl qs -> queues s' = queues s ->
  (forall j, is_Some (jobs s !! j) -> is_Some (jobs s' !! j)) ->
  (forall x, is_Some (heap s !! x) -> is_Some (heap s' !! x)) ->
  (forall i q x, qs !! i = Some q -> x ∈ nodes jl i q -> heap s' !! x = heap s !! x) ->
  rep s' jl qs.
Proof.
  intros [H0 H1 H2 H3] Hq Hj Hh Hs. split; [done|done| |done].
  intros i q Hi. destruct (H2 i q Hi) as (Hqi & Hd & Hok). rewrite Hq. split_and!; [done| |].
  - eapply dlist_frame; [exact Hd|]. intros x Hx. by eapply Hs.
  - eapply list.Forall_impl; [exact Hok|]. intros j (? & ? & ?). split_and!; auto.
Qed.

(** The queue at index [i] is what [q] says, and nothing overlaps. *)
Record both (s : store) (jl pl : Z) (qs ps : list (list Z)) : Prop := {
  both_jl : rep s jl qs;
  both_pl : rep s pl ps;
  both_sep i i' q q' : qs !! i = Some q -> ps !! i' = Some q' -> nodes jl i q ## nodes pl i' q'
}.

(** Detaching the first job of the HIGH queue. *)
Lemma detach_run s jl pl j hi me ps :
  both s jl pl [j :: hi; me] ps ->
  exists h', bds_list_del (wl j) (heap s) = Ret (tt, h') /\
    both (set_heap h' s) jl pl [hi; me] ps /\ queueable (set_heap h' s) pl ps j.
Proof.
  intros [Hj Hp Hsep].
  destruct (rep_queue _ _ _ Hj 0%nat (j :: hi) eq_refl) as ((pr & Hqr) & Hd & Hok).
  destruct (bds_list_del_run _ _ [] _ _ Hd) as (h' & Hrun & Hd' & Hsame & Hdom). rewrite app_nil_l in Hd', Hsame.
  apply list.Forall_cons in Hok as [Hokj Hok].
  assert (Hsub : forall x, x ∈ nodes jl 0 hi -> x ∈ nodes jl 0 (j :: hi)) by (unfold nodes; set_solver).
  exists h'. split_and!; [done|split|].
  - change [hi; me] with (<[0%nat := hi]> [j :: hi; me]). eapply rep_update; try done.
    + intros x _ Hx. by apply Hsame.
    + intros k r Hk Hne x Hx Hx'. apply (rep_sep _ _ _ Hj k 0%nat r (j :: hi) Hk eq_refl Hne x Hx). auto.
  - eapply rep_frame; [exact Hp|done|done|intros x; apply Hdom|].
    intros i q x Hi Hx. apply Hsame. intros Hin.
    by apply (Hsep 0%nat i (j :: hi) q eq_refl Hi x (Hsub x Hin)).
  - intros [|[|i]] i' q q'; simpl; intros [= <-] Hq' x Hx Hx'.
    + by apply (Hsep 0%nat i' _ _ eq_refl Hq' x (Hsub x Hx)).
    + by apply (Hsep 1%nat i' _ _ eq_refl Hq' x Hx).
  - assert (Hwl : wl j ∈ nodes jl 0 (j :: hi)) by (unfold nodes; set_solver).
    destruct Hokj as (? & ? & ?). unfold queueable, job_ok.
    split_and!; [done|done|by apply Hdom| |].
    + intros q Hq Hjq. apply list_elem_of_lookup in Hq as [i Hi].
      apply (Hsep 0%nat i _ _ eq_refl Hi _ Hwl). unfold nodes. set_solver.
    + intros k Hk He. assert (exists q, ps !! k = Some q) as [q Hq]
        by (apply lookup_lt_is_Some; by rewrite (rep_len _ _ _ Hp)).
      apply (Hsep 0%nat k _ _ eq_refl Hq _ Hwl). unfold nodes. rewrite He. set_solver.
Qed.

(** Putting a detached job on the pending queue. *)
Lemma pending_run s jl pl qs j phi pme :
  both s jl pl qs [phi; pme] -> queueable s pl [phi; pme] j ->
  (forall i q, qs !! i = Some q -> wl j ∉ nodes jl i q) ->
  exists h', sfs_enqueue_job HIGH_PRIORITY pl j s = Ret (0, set_heap h' s) /\
    both (set_heap h' s) jl pl qs [phi ++ [j]; pme].
Proof.
  intros [Hj Hp Hsep] Hq Hnot.
  destruct (enqueue_run _ _ _ Hp HIGH_PRIORITY phi j) as (h' & Hrun & Hrep & Hdom & Hsame); [done|done|done|].
  exists h'. split; [done|]. change (Z.to_nat HIGH_PRIORITY) with 0%nat in *. split; [|done|].
  - eapply rep_frame; [exact Hj|done|done|intros x; apply Hdom|].
    intros i q x Hi Hx. apply Hsame. rewrite elem_of_cons. intros [-> |Hin].
    + by apply (Hnot i q).
    + by apply (Hsep i 0%nat q phi Hi eq_refl x Hx).
  - intros i [|[|i']] q q' Hi; simpl; intros [= <-] x Hx Hx'.
    + unfold nodes in Hx'. rewrite fmap_app in Hx'. simpl in Hx'.
      destruct (decide (x = wl j)) as [->|Hne]; [by eapply Hnot|].
      apply (Hsep i 0%nat q phi Hi eq_refl x Hx). unfold nodes. set_solver.
    + by apply (Hsep i 1%nat q pme Hi eq_refl x Hx).
Qed.

Lemma on_store_run {A} (c : cprog store A) s tr a s' :
  c s = Ret (a, s') -> on_store c (mkState s tr) = Ret (a, mkState s' tr).
Proof. unfold on_store. simpl. by intros ->. Qed.

Lemma on_list_run {A} (c : cprog lheap A) s tr a h :
  c (heap s) = Ret (a, h) -> on_store (on_heap c) (mkState s tr) = Ret (a, mkState (set_heap h s) tr).
Proof. intros Hc. by apply on_store_run, on_heap_run. Qed.

Lemma set_heap_id s : set_heap (heap s) s = s.
Proof. by destruct s. Qed.

Lemma elem_of_take_sub {A} (x : A) n l : x ∈ take n l -> x ∈ l.
Proof. intros Hx. rewrite <- (take_drop n l). apply elem_of_app. by left. Qed.

Lemma Forall_impl_In {A} (P Q : A -> Prop) l :
  (forall x, x ∈ l -> P x -> Q x) -> Forall P l -> Forall Q l.
Proof. rewrite !list.Forall_forall. auto. Qed.

(** The jobs a round can send. *)
Definition all_sendable (js : gmap Z JobId.sfs_job) (l : list Z) : Prop :=
  Forall (fun j => exists r, js !! j = Some r /\ sendable r) l.

(** Sending one job that is ready. *)
Lemma send_job_run d job r :
  jobs (st d) !! job = Some r -> sendable r ->
  send_clients (Z.to_nat (JobId.num_clients r)) job 0 d
  = Ret (tt, mkState (set_jobs (<[job := started r]> (jobs (st d))) (st d))
                     (sent d ++ sends (jobs (st d)) job)).
Proof.
  intros Hr (Hn & Hl & Hs & Hnz). unfold sends. rewrite Hr.
  destruct (send_clients_run (Z.to_nat (JobId.num_clients r)) job 0 d r (JobId.job_status r))
    as (s' & Hrun & ->); try done; rewrite ?Hs, ?Hl; done.
Qed.

Lemma both_set_jobs s jl pl qs ps job r :
  both s jl pl qs ps -> both (set_jobs (<[job := r]> (jobs s)) s) jl pl qs ps.
Proof.
  intros [Hj Hp Hs]. split; [eapply rep_frame; [exact Hj|done| |done|done]
                           |eapply rep_frame; [exact Hp|done| |done|done]|done];
    intros j Hjob; apply lookup_insert_is_Some'; by right.
Qed.

(** The loop, with [k] more jobs to send: it sends the first [k] jobs of the
    queue and detaches one more. *)
Lemma drain_run k fuel d jl pl hi me phi pme :
  both (st d) jl pl [hi; me] [phi; pme] -> NoDup hi -> all_sendable (jobs (st d)) (take k hi) ->
  (k <= Z.to_nat MAX_HIGH_PRIO)%nat -> (k + 2 <= fuel)%nat ->
  exists d', drain fuel (head_of jl 0) pl (MAX_HIGH_PRIO - Z.of_nat k) d = Ret (tt, d') /\
    both (st d') jl pl [drop (S k) hi; me] [phi ++ take k hi; pme] /\
    sent d' = sent d ++ mjoin (sends (jobs (st d)) <$> take k hi) /\
    (forall j r, j ∈ take k hi -> jobs (st d) !! j = Some r -> jobs (st d') !! j = Some (started r)) /\
    (forall j, j ∉ take k hi -> jobs (st d') !! j = jobs (st d) !! j).
Proof.
  revert k fuel d phi. induction hi as [|j hi IH]; intros k fuel [s tr] phi Hb Hnd Hsend Hk Hf;
    (destruct fuel as [|fuel]; [lia|]); cbn [drain st sent] in *.
  - rewrite !take_nil, !drop_nil, app_nil_r. eexists. split_and!.
    + destruct (rep_queue _ _ _ (both_jl _ _ _ _ _ Hb) 0%nat [] eq_refl) as (_ & Hd & _).
      unfold cbind at 1. rewrite (on_list_run _ _ _ _ _ (list_empty_run _ _ _ Hd)), set_heap_id. reflexivity.
    + done.
    + by rewrite app_nil_r.
    + intros ? ? Hin. by apply elem_of_nil in Hin.
    + done.
  - destruct (rep_queue _ _ _ (both_jl _ _ _ _ _ Hb) 0%nat (j :: hi) eq_refl) as (_ & Hd & _).
    destruct (detach_run _ _ _ _ _ _ _ Hb) as (h' & Hdel & Hb' & Hq).
    assert (Hnext : nxt (heap s) (head_of jl 0) = Some (wl j)) by (destruct Hd as [_ Hc]; apply Hc).
    unfold cbind at 1. rewrite (on_list_run _ _ _ _ _ (list_empty_run _ _ _ Hd)), set_heap_id. cbn [fmap list_fmap].
    unfold cbind at 1. rewrite (on_list_run _ _ _ _ _ (get_next_run _ _ _ Hnext)), set_heap_id. cbv zeta.
    unfold cbind at 1. rewrite (on_list_run _ _ _ _ _ Hdel).
    replace (wl j - wait_off) with j by (unfold wl; lia).
    destruct k as [|k].
    + rewrite Z.sub_0_r, Z.eqb_refl. eexists. split; [reflexivity|]. simpl. rewrite !app_nil_r, drop_0.
      split_and!; [exact Hb'|done| |done]. intros ? ? Hin. by apply elem_of_nil in Hin.
    + assert (Hne : (MAX_HIGH_PRIO - Z.of_nat (S k) =? MAX_HIGH_PRIO) = false) by (apply Z.eqb_neq; lia).
      rewrite Hne. simpl in Hsend. apply list.Forall_cons in Hsend as [(r & Hr & Hrs) Hsend].
      assert (Hload : load_job j (set_heap h' s) = Ret (r, set_heap h' s)) by (unfold load_job; simpl; by rewrite Hr).
      unfold cbind at 1. rewrite (on_store_run _ _ _ _ _ Hload).
      unfold cbind at 1. rewrite (send_job_run (mkState (set_heap h' s) tr) j r Hr Hrs). cbn [st sent jobs].
      apply (both_set_jobs _ _ _ _ _ j (started r)) in Hb'.
      apply list.NoDup_cons in Hnd as [Hjn Hnd].
      edestruct (pending_run _ jl pl [hi; me] j phi pme Hb') as (h2 & Henq & Hb2).
      { destruct Hq as ((? & ? & ?) & ? & ?). split_and!; try done.
        split_and!; [done|simpl; rewrite lookup_insert_eq; eauto|done]. }
      { intros [|[|i]] q; simpl; intros [= <-].
        - unfold nodes. rewrite elem_of_cons. intros [He|Hin].
          + destruct (rep_queue _ _ _ (both_jl _ _ _ _ _ Hb) 0%nat (j :: hi) eq_refl) as (_ & [Hn _] & _).
            apply list.NoDup_cons in Hn as [Hn _]. apply Hn. rewrite <- He. set_solver.
          + apply list_elem_of_fmap in Hin as (j' & He & Hin). apply wl_inj in He as ->. done.
        - intros Hin. eapply (rep_sep _ _ _ (both_jl _ _ _ _ _ Hb) 0%nat 1%nat (j :: hi) me eq_refl eq_refl);
            [done| |exact Hin]. unfold nodes. set_solver. }
      unfold cbind at 1. rewrite (on_store_run _ _ _ _ _ Henq).
      replace (MAX_HIGH_PRIO - Z.of_nat (S k) + 1) with (MAX_HIGH_PRIO - Z.of_nat k) by lia.
      edestruct (IH k fuel (mkState _ (tr ++ sends (jobs s) j)) (phi ++ [j]) Hb2 Hnd) as
        (d' & Hrun & Hb3 & Hs3 & Hst & Hrest).
      { simpl. eapply Forall_impl_In; [|exact Hsend]. intros j' Hj' (r' & Hr' & ?). exists r'. split; [|done].
        rewrite lookup_insert_ne; [done|]. intros ->. apply Hjn. by eapply elem_of_take_sub. }
      { lia. } { lia. }
      assert (Hnk : j ∉ take k hi) by (intros Hin; apply Hjn; by eapply elem_of_take_sub).
      exists d'. cbn [take drop]. split; [exact Hrun|]. split_and!.
      * rewrite <- app_assoc in Hb3. exact Hb3.
      * rewrite Hs3. simpl. rewrite <- app_assoc. do 3 f_equal. apply List.map_ext_in.
        intros j' Hj'%list_elem_of_In. unfold sends. rewrite lookup_insert_ne; [done|]. intros ->. done.
      * intros j' r' [->|Hin]%elem_of_cons Hr'.
        -- rewrite Hrest by done. simpl. rewrite lookup_insert_eq. congruence.
        -- apply Hst; [done|]. simpl. rewrite lookup_insert_ne; [done|]. intros ->. done.
      * intros j' Hj'. rewrite Hrest by set_solver. simpl. rewrite lookup_insert_ne; [done|]. set_solver.
Qed.


(** One job, for the sfsds 8 and 9, on the HIGH queue at 1000; the pending
    queues at 2000 are empty. *)
Definition demo_job : JobId.sfs_job :=
  JobId.mkJob 1 1 7 2 (8 :: 9 :: replicate 6 0) (replicate 8 (-1)) 0 0 0.

Definition demo : state :=
  mkState (mkStore
    (list_to_map [(1008, mkHead 5128 5128); (5128, mkHead 1008 1008); (1040, mkHead 1040 1040);
                  (2008, mkHead 2008 2008); (2040, mkHead 2040 2040)])
    (list_to_map [(1000, mkQueue 0 LockFree); (1032, mkQueue 1 LockFree);
                  (2000, mkQueue 0 LockFree); (2032, mkQueue 1 LockFree)])
    {[5000 := demo_job]} 0) [].

Lemma disjoint_Forall (l l' : list Z) : Forall (fun x => x ∉ l') l -> l ## l'.
Proof. rewrite list.Forall_forall. intros H x Hx. exact (H x Hx). Qed.

Ltac disjoint := apply disjoint_Forall, (bool_decide_unpack _); vm_compute; exact I.

Lemma demo_both : both (st demo) 1000 2000 [[5000]; []] [[]; []].
Proof.
  assert (Hok : job_ok (st demo) 5000).
  { unfold job_ok. split_and!; [discriminate|eexists; reflexivity|eexists; reflexivity]. }
  assert (Hrep : forall i q, [[5000]; []] !! i = Some q -> nodes 1000 i q ## nodes 2000 0 [] /\ nodes 1000 i q ## nodes 2000 1 []).
  { intros [|[|i]] q; simpl; intros [= <-]; split; disjoint. }
  split.
  - split; [discriminate|reflexivity| |].
    + intros [|[|i]] q; simpl; intros [= <-]; (split_and!; [eexists; reflexivity| |repeat constructor; done]);
        (split; [apply (bool_decide_unpack _); vm_compute; exact I|repeat split; reflexivity]).
    + intros [|[|i]] [|[|i']] q q'; simpl; intros [= <-] [= <-] Hne; try done; disjoint.
  - split; [discriminate|reflexivity| |].
    + intros [|[|i]] q; simpl; intros [= <-]; (split_and!; [eexists; reflexivity| |constructor]);
        (split; [apply (bool_decide_unpack _); vm_compute; exact I|repeat split; reflexivity]).
    + intros [|[|i]] [|[|i']] q q'; simpl; intros [= <-] [= <-] Hne; try done; disjoint.
  - intros i [|[|i']] q q' Hq; simpl; intros [= <-]; by apply Hrep.
Qed.


End Dispatcher.
