(* ===== verification/RbTree.v ===== *)
(** The search and the insertion that [rb_gen] of oss/rb.h generates for the
    trees of the file system process.

    A node with its two pointers and its colour is a [Node]; [rbt_nil] is
    [Nil]. The arrays [path] that the C code winds and unwinds become the
    recursion: what the unwinding loop does at a path entry is done when the
    recursive call for the child returns, and the flag says whether the loop
    is still running. *)
From Stdlib Require Import Sorting.Sorted.
From stdpp Require Import base gmap list numbers.
From S2P Require Import Prelude.

Inductive color : Set := Red | Black.

Section RbTree.
Context {N : Type}.

Inductive rbt : Type :=
  | Nil
  | Node (c : color) (l : rbt) (x : N) (r : rbt).

Definition rbtn_red_get (t : rbt) : bool :=
  match t with Node Red _ _ _ => true | _ => false end.

Definition color_set (c : color) (t : rbt) : rbt :=
  match t with Nil => Nil | Node _ l x r => Node c l x r end.

Definition rb_new : rbt := Nil.

Fixpoint rb_search (cmp : N -> N -> Z) (t : rbt) (key : N) : option N :=
  match t with
  | Nil => None
  | Node _ l x r =>
      if cmp key x =? 0 then Some x
      else if cmp key x <? 0 then rb_search cmp l key
      else rb_search cmp r key
  end.

(** The unwinding step at [cnode] when the path went to its left child. *)
Definition fix_left (c : color) (left : rbt) (x : N) (r : rbt) : rbt * bool :=
  if rbtn_red_get left then
    match left with
    | Node lc leftleft y lr =>
        if rbtn_red_get leftleft then
          (* fix up 4-node: blacken leftleft, rotate right *)
          (Node lc (color_set Black leftleft) y (Node c lr x r), true)
        else (Node c left x r, true)
    | Nil => (Node c left x r, true)
    end
  else (Node c left x r, false).

(** The unwinding step at [cnode] when the path went to its right child. *)
Definition fix_right (c : color) (left : rbt) (x : N) (right : rbt) : rbt * bool :=
  if rbtn_red_get right then
    if rbtn_red_get left then
      (* split 4-node *)
      (Node Red (color_set Black left) x (color_set Black right), true)
    else
      match right with
      | Node _ rl y rr =>
          (* lean left: rotate left, the new top takes the old top's colour *)
          (Node c (Node Red left x rl) y rr, true)
      | Nil => (Node c left x right, true)
      end
  else (Node c left x right, false).

Fixpoint rb_ins (cmp : N -> N -> Z) (node : N) (t : rbt) : outcome (rbt * bool) :=
  match t with
  | Nil => Ret (Node Red Nil node Nil, true)
  | Node c l x r =>
      if cmp node x =? 0 then Fault AssertFail
      else if cmp node x <? 0 then
        match rb_ins cmp node l with
        | Ret (l', true) => Ret (fix_left c l' x r)
        | Ret (l', false) => Ret (Node c l' x r, false)
        | Fault f => Fault f
        end
      else
        match rb_ins cmp node r with
        | Ret (r', true) => Ret (fix_right c l x r')
        | Ret (r', false) => Ret (Node c l x r', false)
        | Fault f => Fault f
        end
  end.

(** The root is set and blackened only when the loop ran to its end. *)
Definition rb_insert (cmp : N -> N -> Z) (t : rbt) (node : N) : outcome rbt :=
  match rb_ins cmp node t with
  | Ret (t', true) => Ret (color_set Black t')
  | Ret (t', false) => Ret t'
  | Fault f => Fault f
  end.

(** The number of entries the array [path] needs below its first one. *)
Fixpoint depth (t : rbt) : nat :=
  match t with Nil => 0 | Node _ l _ r => S (Nat.max (depth l) (depth r)) end.

Fixpoint elements (t : rbt) : list N :=
  match t with Nil => [] | Node _ l x r => elements l ++ x :: elements r end.

(** * The shape of a left-leaning red-black tree

    [shape t n]: every path from [t] down has [n] black nodes, no red node has
    a red child, and no right child is red. *)
Inductive shape : rbt -> nat -> Prop :=
  | shape_nil : shape Nil 0
  | shape_black l x r n :
      shape l n -> shape r n -> rbtn_red_get r = false -> shape (Node Black l x r) (S n)
  | shape_red l x r n :
      shape l n -> shape r n -> rbtn_red_get l = false -> rbtn_red_get r = false ->
      shape (Node Red l x r) n.

(** What the unwinding passes up from a red node: a red node whose left child
    may be red too. *)
Inductive loose : rbt -> nat -> Prop :=
  | loose_shape t n : shape t n -> loose t n
  | loose_red l x r n :
      shape l n -> shape r n -> rbtn_red_get l = true -> rbtn_red_get r = false ->
      loose (Node Red l x r) n.

Hint Constructors shape loose : sstack.

Lemma fix_left_black l x r n t b :
  loose l n -> shape r n -> rbtn_red_get r = false ->
  fix_left Black l x r = (t, b) -> shape t (S n).
Proof.
  intros Hl Hr Hrr. unfold fix_left. inversion Hl as [? ? Hs|? ? ? ? H1 H2 H3 H4]; subst.
  - inversion Hs as [|? ? ? ? G1 G2 G3|? ? ? ? G1 G2 G3 G4]; subst; simpl; try rewrite G3; intros [= <- <-];
      auto with sstack.
  - simpl. rewrite H3. intros [= <- <-]. destruct l0 as [|[] ll y lr]; try discriminate.
    inversion H1; subst. simpl. constructor; auto with sstack.
    all: try (constructor; auto with sstack). 
Qed.

Lemma fix_left_red l x r n t b :
  shape l n -> shape r n -> rbtn_red_get r = false ->
  fix_left Red l x r = (t, b) -> loose t n.
Proof.
  intros Hl Hr Hrr. unfold fix_left.
  inversion Hl as [|? ? ? ? G1 G2 G3|? ? ? ? G1 G2 G3 G4]; subst; simpl; try rewrite G3; intros [= <- <-];
    auto with sstack.
Qed.

Lemma fix_right_black l x r n t b :
  shape l n -> shape r n -> fix_right Black l x r = (t, b) -> shape t (S n).
Proof.
  intros Hl Hr. unfold fix_right.
  inversion Hr as [|? ? ? ? G1 G2 G3|? ? ? ? G1 G2 G3 G4]; subst; simpl.
  - intros [= <- <-]. auto with sstack.
  - intros [= <- <-]. auto with sstack.
  - inversion Hl; subst; simpl; intros [= <- <-]; auto 6 with sstack.
Qed.

Lemma fix_right_red l x r n t b :
  shape l n -> shape r n -> rbtn_red_get l = false ->
  fix_right Red l x r = (t, b) -> loose t n.
Proof.
  intros Hl Hr Hll. unfold fix_right. rewrite Hll.
  inversion Hr as [|? ? ? ? G1 G2 G3|? ? ? ? G1 G2 G3 G4]; subst; simpl; intros [= <- <-];
    auto with sstack.
Qed.

(** A step that stops the loop has not changed the colour of its node. *)
Lemma fix_left_stop c l x r t :
  fix_left c l x r = (t, false) -> t = Node c l x r /\ rbtn_red_get l = false.
Proof.
  unfold fix_left. destruct (rbtn_red_get l) eqn:Hl; [|by intros [= <-]].
  destruct l as [|? ll ? ?]; [done|]. by destruct (rbtn_red_get ll).
Qed.

Lemma fix_right_stop c l x r t :
  fix_right c l x r = (t, false) -> t = Node c l x r /\ rbtn_red_get r = false.
Proof.
  unfold fix_right. destruct (rbtn_red_get r) eqn:Hr; [|by intros [= <-]].
  destruct (rbtn_red_get l); [done|]. by destruct r.
Qed.

Lemma rb_ins_shape cmp x t n t' b :
  shape t n -> rb_ins cmp x t = Ret (t', b) ->
  loose t' n /\ (rbtn_red_get t = false -> shape t' n) /\
  (b = false -> shape t' n /\ rbtn_red_get t' = rbtn_red_get t).
Proof.
  intros Ht. revert t' b. induction Ht as [|l y r n Hl IHl Hr IHr Hrr|l y r n Hl IHl Hr IHr Hll Hrr];
    intros t' b; cbn [rb_ins].
  - intros [= <- <-]. split_and!; auto with sstack.
  - destruct (_ =? 0); [done|]. destruct (_ <? 0).
    + destruct (rb_ins cmp x l) as [[l' b']|] eqn:El; [|done]. destruct (IHl _ _ eq_refl) as (H1 & H2 & H3).
      destruct b'; intros [= Hf].
      * pose proof (fix_left_black _ _ _ _ _ _ H1 Hr Hrr Hf). split_and!; auto with sstack.
        intros ->. destruct (fix_left_stop _ _ _ _ _ Hf) as [-> _]. done.
      * subst. destruct (H3 eq_refl). split_and!; auto with sstack.
    + destruct (rb_ins cmp x r) as [[r' b']|] eqn:Er; [|done]. destruct (IHr _ _ eq_refl) as (H1 & H2 & H3).
      destruct b'; intros [= Hf].
      * pose proof (fix_right_black _ _ _ _ _ _ Hl (H2 Hrr) Hf). split_and!; auto with sstack.
        intros ->. destruct (fix_right_stop _ _ _ _ _ Hf) as [-> _]. done.
      * subst. destruct (H3 eq_refl) as [? Hc]. rewrite Hrr in Hc. split_and!; auto with sstack.
  - destruct (_ =? 0); [done|]. destruct (_ <? 0).
    + destruct (rb_ins cmp x l) as [[l' b']|] eqn:El; [|done]. destruct (IHl _ _ eq_refl) as (H1 & H2 & H3).
      destruct b'; intros [= Hf].
      * pose proof (fix_left_red _ _ _ _ _ _ (H2 Hll) Hr Hrr Hf). split_and!; [done|done|].
        intros ->. destruct (fix_left_stop _ _ _ _ _ Hf) as [-> ?]. auto with sstack.
      * subst. destruct (H3 eq_refl) as [? Hc]. rewrite Hll in Hc. split_and!; auto with sstack.
    + destruct (rb_ins cmp x r) as [[r' b']|] eqn:Er; [|done]. destruct (IHr _ _ eq_refl) as (H1 & H2 & H3).
      destruct b'; intros [= Hf].
      * pose proof (fix_right_red _ _ _ _ _ _ Hl (H2 Hrr) Hll Hf). split_and!; [done|done|].
        intros ->. destruct (fix_right_stop _ _ _ _ _ Hf) as [-> ?]. auto with sstack.
      * subst. destruct (H3 eq_refl) as [? Hc]. rewrite Hrr in Hc. split_and!; auto with sstack.
Qed.

(** A whole tree: the root is black. *)
Definition balanced (t : rbt) : Prop := rbtn_red_get t = false /\ exists n, shape t n.

Lemma rb_insert_balanced cmp t x t' :
  balanced t -> rb_insert cmp t x = Ret t' -> balanced t'.
Proof.
  intros [Hc [n Hs]] Hi. unfold rb_insert in Hi.
  destruct (rb_ins cmp x t) as [[u b]|] eqn:E; [|done].
  destruct (rb_ins_shape _ _ _ _ _ _ Hs E) as (_ & H1 & H2). specialize (H1 Hc).
  destruct b; injection Hi as <-.
  - destruct u as [|[] l y r]; simpl; (split; [done|]); inversion H1; subst; eauto with sstack.
  - destruct (H2 eq_refl) as [? Hr]. split; [congruence|eauto].
Qed.

(** * Depth *)

Lemma shape_size t n : shape t n -> (2 ^ n <= S (length (elements t)))%nat.
Proof. induction 1; simpl; rewrite ?length_app; simpl; lia. Qed.

Lemma shape_depth t n :
  shape t n -> (depth t <= 2 * n + (if rbtn_red_get t then 1 else 0))%nat.
Proof.
  induction 1 as [|l x r n H1 IH1 H2 IH2 H3|l x r n H1 IH1 H2 IH2 H3 H4]; simpl.
  - lia.
  - rewrite H3 in IH2. destruct (rbtn_red_get l); lia.
  - rewrite H3 in IH1. rewrite H4 in IH2. lia.
Qed.

(** A tree of less than 2^63 nodes is at most 126 deep: the 128 entries of
    [path] are enough. *)
Lemma balanced_depth t :
  balanced t -> (N.of_nat (length (elements t)) < 2 ^ 63)%N -> (depth t <= 126)%nat.
Proof.
  intros [Hc [n Hs]] Hlt. pose proof (shape_size _ _ Hs) as H1. pose proof (shape_depth _ _ Hs) as H2.
  rewrite Hc in H2. destruct (le_lt_dec n 63) as [|Hn]; [lia|].
  assert (N.of_nat (2 ^ n) <= 2 ^ 63)%N by lia.
  rewrite Nat2N.inj_pow in H. assert (2 ^ 64 <= 2 ^ N.of_nat n)%N by (apply N.pow_le_mono_r; lia).
  change (N.of_nat 2) with 2%N in H. lia.
Qed.

(** * Order *)

Lemma fix_left_elements c l x r t b :
  fix_left c l x r = (t, b) -> elements t = elements l ++ x :: elements r.
Proof.
  unfold fix_left. destruct (rbtn_red_get l) eqn:Hl; [|by intros [= <- _]].
  destruct l as [|lc ll y lr]; [done|]. destruct (rbtn_red_get ll); intros [= <- _]; simpl.
  - destruct ll; simpl; by rewrite <- ?app_assoc.
  - by rewrite <- app_assoc.
Qed.

Lemma fix_right_elements c l x r t b :
  fix_right c l x r = (t, b) -> elements t = elements l ++ x :: elements r.
Proof.
  unfold fix_right. destruct (rbtn_red_get r) eqn:Hr; [|by intros [= <- _]].
  destruct (rbtn_red_get l); [intros [= <- _]; by destruct l, r|].
  destruct r as [|rc rl y rr]; [done|]. intros [= <- _]. simpl. by rewrite <- app_assoc.
Qed.

Lemma StronglySorted_app_iff {A} (R : A -> A -> Prop) l1 l2 :
  StronglySorted R (l1 ++ l2) <->
  StronglySorted R l1 /\ StronglySorted R l2 /\ (forall x y, x ∈ l1 -> y ∈ l2 -> R x y).
Proof.
  induction l1 as [|a l1 IH]; simpl.
  - split; [|tauto]. intros. split_and!; [constructor|done|]. intros ? ? Hx. by apply elem_of_nil in Hx.
  - split.
    + intros [H1 H2]%StronglySorted_inv. apply IH in H1 as (G1 & G2 & G3).
      apply Forall_app in H2 as [H2 H2']. split_and!; [by constructor|done|].
      intros x y [->|Hx]%elem_of_cons Hy; [|by apply G3]. rewrite list.Forall_forall in H2'. auto.
    + intros ([H1 H2]%StronglySorted_inv & H3 & H4). constructor.
      * apply IH. split_and!; [done|done|]. intros; apply H4; [by constructor|done].
      * apply Forall_app. split; [done|]. apply list.Forall_forall. intros. apply H4; [constructor|done].
Qed.

(** Whatever the comparison says, an insertion adds one node. *)
Lemma rb_ins_length cmp x t t' b :
  rb_ins cmp x t = Ret (t', b) -> length (elements t') = S (length (elements t)).
Proof.
  revert t' b. induction t as [|c l IHl y r IHr]; intros t' b; cbn [rb_ins]; [by intros [= <- _]|].
  destruct (_ =? 0); [done|]. destruct (_ <? 0).
  - destruct (rb_ins cmp x l) as [[l' []]|]; [| |done]; specialize (IHl _ _ eq_refl); intros [= Hf].
    + rewrite (fix_left_elements _ _ _ _ _ _ Hf). simpl. rewrite !length_app, IHl. simpl. lia.
    + subst. simpl. rewrite !length_app, IHl. simpl. lia.
  - destruct (rb_ins cmp x r) as [[r' []]|]; [| |done]; specialize (IHr _ _ eq_refl); intros [= Hf].
    + rewrite (fix_right_elements _ _ _ _ _ _ Hf). simpl. rewrite !length_app. simpl. lia.
    + subst. simpl. rewrite !length_app. simpl. lia.
Qed.

Lemma elements_color_set c t : elements (color_set c t) = elements t.
Proof. by destruct t. Qed.

(** A tree built by insertions. *)
Fixpoint rb_inserts (cmp : N -> N -> Z) (xs : list N) (t : rbt) : outcome rbt :=
  match xs with
  | [] => Ret t
  | x :: xs' => match rb_insert cmp t x with
                | Ret t' => rb_inserts cmp xs' t'
                | Fault f => Fault f
                end
  end.

Lemma rb_inserts_balanced cmp xs t t' :
  balanced t -> rb_inserts cmp xs t = Ret t' ->
  balanced t' /\ length (elements t') = (length xs + length (elements t))%nat.
Proof.
  revert t. induction xs as [|x xs IH]; intros t Hb; simpl; [by intros [= <-]|].
  destruct (rb_insert cmp t x) as [u|] eqn:E; [|done]. intros H.
  destruct (IH u (rb_insert_balanced _ _ _ _ Hb E) H) as [H1 ->]. split; [done|].
  unfold rb_insert in E. destruct (rb_ins cmp x t) as [[v []]|] eqn:Ei; [| |done]; injection E as <-;
    rewrite ?elements_color_set, (rb_ins_length _ _ _ _ _ Ei); lia.
Qed.

Section Keyed.
Context (key : N -> Z) (cmp : N -> N -> Z).

(** The comparison functions of the trees compare one key field. *)
Definition compares_key : Prop :=
  forall a b, (cmp a b = 0 <-> key a = key b) /\ (cmp a b < 0 <-> key a < key b).

Context (Hcmp : compares_key).

Definition sorted (t : rbt) : Prop :=
  StronglySorted (fun a b => key a < key b) (elements t).

Lemma sorted_node c l x r :
  sorted (Node c l x r) <->
  sorted l /\ sorted r /\ (forall y, y ∈ elements l -> key y < key x) /\
  (forall y, y ∈ elements r -> key x < key y).
Proof.
  unfold sorted. simpl. rewrite StronglySorted_app_iff. split.
  - intros (H1 & [H2 H3]%StronglySorted_inv & H4). rewrite list.Forall_forall in H3.
    split_and!; [done|done| |done]. intros. apply H4; [done|constructor].
  - intros (H1 & H2 & H3 & H4). split_and!; [done| |].
    + constructor; [done|]. by apply list.Forall_forall.
    + intros a b Ha [->|Hb]%elem_of_cons; [auto|]. specialize (H3 _ Ha). specialize (H4 _ Hb). lia.
Qed.

(** The search finds the node with the key, if there is one. *)
Lemma rb_search_spec t k :
  sorted t ->
  match rb_search cmp t k with
  | Some y => y ∈ elements t /\ key y = key k
  | None => forall y, y ∈ elements t -> key y <> key k
  end.
Proof.
  induction t as [|c l IHl x r IHr]; intros Hs; [intros y Hy; by apply elem_of_nil in Hy|].
  apply sorted_node in Hs as (H1 & H2 & H3 & H4). specialize (IHl H1). specialize (IHr H2).
  cbn [rb_search elements]. destruct (Hcmp k x) as [He Hlt].
  destruct (Z.eqb_spec (cmp k x) 0) as [E|E].
  { split; [set_solver|]. symmetry. tauto. }
  destruct (Z.ltb_spec (cmp k x) 0) as [E'|E'].
  - apply Hlt in E'. destruct (rb_search cmp l k) as [y|].
    + destruct IHl. split; [set_solver|done].
    + intros y [Hy|[->|Hy]%elem_of_cons]%elem_of_app; [auto|lia|]. specialize (H4 _ Hy). lia.
  - assert (key x < key k) by (assert (key k <> key x) by tauto; lia).
    destruct (rb_search cmp r k) as [y|].
    + destruct IHr. split; [set_solver|done].
    + intros y [Hy|[->|Hy]%elem_of_cons]%elem_of_app; [|lia|auto]. specialize (H3 _ Hy). lia.
Qed.

(** The insertion fails its assertion exactly when the key is there. *)
Lemma rb_ins_spec t x :
  sorted t ->
  match rb_ins cmp x t with
  | Ret (t', _) => sorted t' /\ elements t' ≡ₚ x :: elements t /\ (forall y, y ∈ elements t -> key y <> key x)
  | Fault f => f = AssertFail /\ exists y, y ∈ elements t /\ key y = key x
  end.
Proof.
  induction t as [|c l IHl y r IHr]; intros Hs.
  { simpl. split_and!; [repeat constructor|done|]. intros y Hy. by apply elem_of_nil in Hy. }
  apply sorted_node in Hs as (H1 & H2 & H3 & H4). specialize (IHl H1). specialize (IHr H2).
  cbn [rb_ins elements]. destruct (Hcmp x y) as [He Hlt].
  destruct (Z.eqb_spec (cmp x y) 0) as [E|E].
  { split; [done|]. exists y. split; [set_solver|]. symmetry. tauto. }
  destruct (Z.ltb_spec (cmp x y) 0) as [E'|E'].
  - apply Hlt in E'. destruct (rb_ins cmp x l) as [[l' b]|f].
    + destruct IHl as (G1 & G2 & G3).
      assert (Hd : forall t', elements t' = elements l' ++ y :: elements r ->
        sorted t' /\ elements t' ≡ₚ x :: elements l ++ y :: elements r /\
        (forall z, z ∈ elements l ++ y :: elements r -> key z <> key x)).
      { intros t' Ht'. split_and!.
        - unfold sorted. rewrite Ht'. apply (sorted_node c l' y r). split_and!; try done.
          intros z. rewrite G2. intros [->|Hz]%elem_of_cons; auto.
        - by rewrite Ht', G2.
        - intros z [Hz|[->|Hz]%elem_of_cons]%elem_of_app; [auto|lia|]. specialize (H4 _ Hz). lia. }
      destruct b; [|by apply Hd]. destruct (fix_left c l' y r) as [t' b] eqn:Ef.
      apply Hd. by eapply fix_left_elements.
    + destruct IHl as (-> & z & ? & ?). split; [done|]. exists z. set_solver.
  - assert (Hgt : key y < key x) by (assert (key x <> key y) by tauto; lia).
    destruct (rb_ins cmp x r) as [[r' b]|f].
    + destruct IHr as (G1 & G2 & G3).
      assert (Hd : forall t', elements t' = elements l ++ y :: elements r' ->
        sorted t' /\ elements t' ≡ₚ x :: elements l ++ y :: elements r /\
        (forall z, z ∈ elements l ++ y :: elements r -> key z <> key x)).
      { intros t' Ht'. split_and!.
        - unfold sorted. rewrite Ht'. apply (sorted_node c l y r'). split_and!; try done.
          intros z. rewrite G2. intros [->|Hz]%elem_of_cons; auto.
        - rewrite Ht', G2. solve_Permutation.
        - intros z [Hz|[->|Hz]%elem_of_cons]%elem_of_app; [|lia|auto]. specialize (H3 _ Hz). lia. }
      destruct b; [|by apply Hd]. destruct (fix_right c l y r') as [t' b] eqn:Ef.
      apply Hd. by eapply fix_right_elements.
    + destruct IHr as (-> & z & ? & ?). split; [done|]. exists z. set_solver.
Qed.

(** The search in a tree that has one more node. *)
Lemma search_inserted t t' x k :
  sorted t -> sorted t' -> elements t' ≡ₚ x :: elements t ->
  rb_search cmp t' k = if key k =? key x then Some x else rb_search cmp t k.
Proof.
  intros Hs Hs' Hp. pose proof (rb_search_spec t k Hs) as H1. pose proof (rb_search_spec t' k Hs') as H2.
  assert (Hinj : forall a b, a ∈ elements t' -> b ∈ elements t' -> key a = key b -> a = b).
  { intros a b Ha Hb Hab. clear -Hs' Ha Hb Hab. unfold sorted in Hs'.
    induction (elements t') as [|c l IH]; [by apply elem_of_nil in Ha|].
    apply StronglySorted_inv in Hs' as [Hs' Hf]. rewrite list.Forall_forall in Hf.
    apply elem_of_cons in Ha as [->|Ha], Hb as [->|Hb]; [done| | |auto].
    - specialize (Hf _ Hb). lia.
    - specialize (Hf _ Ha). lia. }
  destruct (Z.eqb_spec (key k) (key x)) as [E|E]; destruct (rb_search cmp t' k) as [y|].
  - f_equal. destruct H2. apply Hinj; [done|rewrite Hp; constructor|congruence].
  - exfalso. eapply (H2 x); [rewrite Hp; constructor|done].
  - destruct H2 as [H2 H3]. rewrite Hp in H2. apply elem_of_cons in H2 as [->|H2]; [congruence|].
    destruct (rb_search cmp t k) as [z|]; [|exfalso; by eapply H1]. destruct H1.
    f_equal. apply Hinj; [rewrite Hp; by constructor|rewrite Hp; by constructor|congruence].
  - destruct (rb_search cmp t k) as [z|]; [|done]. destruct H1. exfalso.
    eapply (H2 z); [rewrite Hp; by constructor|done].
Qed.

End Keyed.

End RbTree.
Arguments rbt : clear implicits.

(** C10. The insertion of a key that is not in the tree keeps the tree balanced
    and in order, and a search then finds the new node under its key and
    everything else where it was; the insertion of a key that is there fails
    the assertion [cmp != 0]. *)
Theorem rb_insert_correct {N} (key : N -> Z) cmp t x :
  compares_key key cmp -> balanced t -> sorted key t ->
  match rb_search cmp t x with
  | None => exists t', rb_insert cmp t x = Ret t' /\ balanced t' /\ sorted key t' /\
      forall k, rb_search cmp t' k = if key k =? key x then Some x else rb_search cmp t k
  | Some _ => rb_insert cmp t x = Fault AssertFail
  end.
Proof.
  intros Hcmp Hb Hs. pose proof (rb_search_spec key cmp Hcmp t x Hs) as Hx.
  pose proof (rb_ins_spec key cmp Hcmp t x Hs) as Hi. unfold rb_insert.
  destruct (rb_search cmp t x) as [y|].
  { destruct (rb_ins cmp x t) as [[u b]|f]; [|by destruct Hi as [-> _]].
    destruct Hi as (_ & _ & Hn), Hx as [? ?]. exfalso. by eapply Hn. }
  destruct (rb_ins cmp x t) as [[u b]|f] eqn:E; [|destruct Hi as (_ & z & ? & ?); exfalso; by eapply Hx].
  destruct Hi as (H1 & H2 & _).
  assert (exists t', rb_insert cmp t x = Ret t' /\ elements t' = elements u) as (t' & Ht & He).
  { unfold rb_insert. rewrite E. destruct b; eexists; (split; [done|]); [apply elements_color_set|done]. }
  assert (Hs' : sorted key t') by (unfold sorted; by rewrite He).
  exists t'. split_and!; [by unfold rb_insert in Ht; rewrite E in Ht|by eapply rb_insert_balanced|done|].
  intros k. rewrite <- He in H2. eapply search_inserted; eassumption.
Qed.

(** The fixed array of 128 path entries is never outrun, whatever the
    comparison function: a tree built by fewer than 2^63 insertions is at most
    126 deep. *)
Theorem rb_path_fits {N} (cmp : N -> N -> Z) xs t :
  rb_inserts cmp xs rb_new = Ret t -> (N.of_nat (length xs) < 2 ^ 63)%N -> (depth t <= 126)%nat.
Proof.
  intros Hi Hl. destruct (rb_inserts_balanced cmp xs rb_new t) as [H1 H2]; [|done|].
  - split; [done|]. exists 0%nat. constructor.
  - apply balanced_depth; [done|]. rewrite H2. simpl. by rewrite Nat.add_0_r.
Qed.

Lemma rb_path_fits_witness :
  match rb_inserts Z.sub [4; 1; 3; 2; 5] rb_new with
  | Ret t => elements t = [1; 2; 3; 4; 5] /\ (depth t <= 126)%nat
  | Fault _ => False
  end.
Proof.
  destruct (rb_inserts Z.sub [4; 1; 3; 2; 5] rb_new) as [t|] eqn:E; [|discriminate].
  split; [injection E as <-; reflexivity|]. apply (rb_path_fits Z.sub [4; 1; 3; 2; 5] t E). reflexivity.
Defined.

Lemma rb_insert_correct_witness :
  exists t, rb_insert Z.sub (Node Black Nil 3 Nil) 5 = Ret t /\ rb_search Z.sub t 5 = Some 5.
Proof.
  destruct (rb_insert_correct (fun k => k) Z.sub (Node Black Nil 3 Nil) 5) as (t & H1 & _ & _ & H2).
  - intros a b. lia.
  - split; [reflexivity|]. exists 1%nat. repeat constructor.
  - repeat constructor.
  - exists t. split; [exact H1|]. rewrite H2. reflexivity.
Defined.
