(* ===== verification/OssTree.v ===== *)
(** The red-black tree of oss/rbtree/red_black_tree.c, which the two-tier cache
    keeps its entries and their times in: [RBTreeInsert] with [TreeInsertHelp],
    [RBExactQuery], [RBDelete] with [RBDeleteFixUp] and [TreeSuccessor], and the
    rotations.

    A subtree is a value; the chain of parents of a node is the list of frames
    from the node up to the sentinel root, so a loop that climbs the parents is
    a recursion on that list. [Nil] stands for the sentinel [nil], which is
    black; to paint it, to rotate through it or to climb over the root fails
    the assertions of the code, here [AssertFail]. Nodes keep their addresses
    through every operation. *)
From Stdlib Require Import ZArith Lia Sorted.
From stdpp Require Import base gmap list numbers.
From S2P Require Import Prelude.

Module OssTree.

Section Data.
Context {K I : Type}.

Record elem : Type := mkElem { addr : Z; key : K; info : I }.

Inductive tree : Type :=
  | Nil
  | N (red : bool) (e : elem) (left right : tree).

(** The parent of the node in the hole, with its other child: the hole is the
    left or the right child. *)
Inductive frame : Type :=
  | InL (red : bool) (e : elem) (right : tree)
  | InR (red : bool) (e : elem) (left : tree).

Definition is_red (t : tree) : bool := match t with Nil => false | N c _ _ _ => c end.
Definition paint (c : bool) (t : tree) : tree := match t with Nil => Nil | N _ e l r => N c e l r end.
Definition frame_red (f : frame) : bool := match f with InL c _ _ | InR c _ _ => c end.
Definition paint_frame (c : bool) (f : frame) : frame := match f with InL _ e t => InL c e t | InR _ e t => InR c e t end.

Definition plug1 (f : frame) (t : tree) : tree :=
  match f with InL c e r => N c e t r | InR c e l => N c e l t end.
Fixpoint plug (t : tree) (fs : list frame) : tree :=
  match fs with [] => t | f :: fs => plug (plug1 f t) fs end.

Definition LeftRotate (t : tree) : outcome tree :=
  match t with N c x a (N d y b e) => Ret (N d y (N c x a b) e) | _ => Fault AssertFail end.
Definition RightRotate (t : tree) : outcome tree :=
  match t with N c y (N d x a b) e => Ret (N d x a (N c y b e)) | _ => Fault AssertFail end.


(** * Insertion *)

(** The loop of [RBTreeInsert] from the red node [x] on. After the rotations
    the parent of [x] is black and the loop ends. *)
Fixpoint insert_fix (x : tree) (fs : list frame) : outcome tree :=
  match fs with
  | [] => Ret x
  | p :: rest =>
      if frame_red p then
        match rest with
        | [] => Fault AssertFail
        | InL _ ge y :: rest =>
            if is_red y then insert_fix (N true ge (plug1 (paint_frame false p) x) (paint false y)) rest
            else
              obind (match p with InR _ _ _ => LeftRotate (plug1 p x) | InL _ _ _ => Ret (plug1 p x) end) (fun px =>
              obind (RightRotate (N true ge (paint false px) y)) (fun t => Ret (plug t rest)))
        | InR _ ge y :: rest =>
            if is_red y then insert_fix (N true ge (paint false y) (plug1 (paint_frame false p) x)) rest
            else
              obind (match p with InL _ _ _ => RightRotate (plug1 p x) | InR _ _ _ => Ret (plug1 p x) end) (fun px =>
              obind (LeftRotate (N true ge y (paint false px))) (fun t => Ret (plug t rest)))
        end
      else Ret (plug x fs)
  end.

(** * Deletion *)

(** The node at an address and its chain of parents. *)
Fixpoint locate (z : Z) (t : tree) (fs : list frame) : option (bool * elem * tree * tree * list frame) :=
  match t with
  | Nil => None
  | N c e l r =>
      if addr e =? z then Some (c, e, l, r, fs)
      else match locate z l (InL c e r :: fs) with
           | Some p => Some p
           | None => locate z r (InR c e l :: fs)
           end
  end.

(** [TreeSuccessor] of a node with a right child: the leftmost node of that
    child, [c], [e], with its own right child and its parents. *)
Fixpoint leftmost (c : bool) (e : elem) (l r : tree) (fs : list frame) : bool * elem * tree * list frame :=
  match l with
  | Nil => (c, e, r, fs)
  | N c' e' l' r' => leftmost c' e' l' r' (InL c e r :: fs)
  end.

(** What a pass of [RBDeleteFixUp] does when the sibling [w] of [x] is black:
    the loop goes on with the parent, or rotates and leaves. *)
Inductive pass : Type :=
  | Up (parent : tree)
  | Done (t : tree).

Definition rebalance (f : frame) (x : tree) : outcome pass :=
  match f with
  | InL pc pe (N _ we wl wr as w) =>
      if negb (is_red wr) && negb (is_red wl) then Ret (Up (N pc pe x (paint true w)))
      else
        obind (if is_red wr then Ret w else RightRotate (N true we (paint false wl) wr)) (fun w =>
        match w with
        | N _ we wl wr => obind (LeftRotate (N false pe x (N pc we wl (paint false wr)))) (fun t => Ret (Done t))
        | Nil => Fault AssertFail
        end)
  | InR pc pe (N _ we wl wr as w) =>
      if negb (is_red wr) && negb (is_red wl) then Ret (Up (N pc pe (paint true w) x))
      else
        obind (if is_red wl then Ret w else LeftRotate (N true we wl (paint false wr))) (fun w =>
        match w with
        | N _ we wl wr => obind (RightRotate (N false pe (N pc we (paint false wl) wr) x)) (fun t => Ret (Done t))
        | Nil => Fault AssertFail
        end)
  | _ => Fault AssertFail
  end.

(** [RBDeleteFixUp]. A red sibling is rotated above the parent, which becomes
    red; when the pass then moves [x] to the parent, the loop ends there.
    [x=root] and [x->red=0] paint the root, which is black. *)
Fixpoint RBDeleteFixUp (x : tree) (fs : list frame) : outcome tree :=
  if is_red x then Ret (plug (paint false x) fs)
  else
    match fs with
    | [] => Ret (paint false x)
    | InL _ pe (N true we wl wr) :: rest =>
        obind (rebalance (InL true pe wl) x) (fun s =>
        match s with
        | Up p => Ret (plug (paint false p) (InL false we wr :: rest))
        | Done t => Ret (paint false (plug t (InL false we wr :: rest)))
        end)
    | InR _ pe (N true we wl wr) :: rest =>
        obind (rebalance (InR true pe wr) x) (fun s =>
        match s with
        | Up p => Ret (plug (paint false p) (InR false we wl :: rest))
        | Done t => Ret (paint false (plug t (InR false we wl :: rest)))
        end)
    | f :: rest =>
        obind (rebalance f x) (fun s =>
        match s with
        | Up p => RBDeleteFixUp p rest
        | Done t => Ret (paint false (plug t rest))
        end)
    end.

(** [y] takes the place and the colour of [z]. *)
Fixpoint put_at (z : Z) (y : elem) (t : tree) : tree :=
  match t with
  | Nil => Nil
  | N c e l r => N c (if addr e =? z then y else e) (put_at z y l) (put_at z y r)
  end.

(** The tree without the node at [z], and what that node held: its key and
    info are given to the functions that destroy them. *)
Definition RBDelete (z : Z) (t : tree) : outcome (tree * elem) :=
  match locate z t [] with
  | None => Fault UseAfterFree
  | Some (zc, ze, l, r, fs) =>
      match l, r with
      | N _ _ _ _, N rc re rl rr =>
          let '(yc, ye, x, ys) := leftmost rc re rl rr (InR zc ze l :: fs) in
          obind (if yc then Ret (plug x ys) else RBDeleteFixUp x ys) (fun t => Ret (put_at z ye t, ze))
      | _, _ =>
          let x := match l with Nil => r | _ => l end in
          obind (if zc then Ret (plug x fs) else RBDeleteFixUp x fs) (fun t => Ret (t, ze))
      end
  end.

(** * Operations that compare keys *)

Section Compare.
Context (Compare : K -> K -> Z).

(** [TreeInsertHelp]: the parents of the place of a new key. *)
Fixpoint TreeInsertHelp (k : K) (t : tree) (fs : list frame) : list frame :=
  match t with
  | Nil => fs
  | N c e l r => if Compare (key e) k =? 1 then TreeInsertHelp k l (InL c e r :: fs) else TreeInsertHelp k r (InR c e l :: fs)
  end.

(** [a] is the address [SafeMalloc] answers. *)
Definition RBTreeInsert (a : Z) (k : K) (i : I) (t : tree) : outcome tree :=
  obind (insert_fix (N true (mkElem a k i) Nil Nil) (TreeInsertHelp k t [])) (fun t => Ret (paint false t)).

Fixpoint RBExactQuery (t : tree) (q : K) : option elem :=
  match t with
  | Nil => None
  | N _ e l r =>
      let compVal := Compare (key e) q in
      if compVal =? 0 then Some e else if compVal =? 1 then RBExactQuery l q else RBExactQuery r q
  end.
End Compare.
End Data.

Arguments elem : clear implicits.
Arguments tree : clear implicits.
Arguments frame : clear implicits.

(** * The nodes in order *)

Section InOrder.
Context {K I : Type}.
Notation tree := (tree K I).
Notation frame := (frame K I).
Notation elem := (elem K I).

Fixpoint inorder (t : tree) : list elem :=
  match t with Nil => [] | N _ e l r => inorder l ++ e :: inorder r end.

(** The nodes before and behind the hole. *)
Fixpoint before (fs : list frame) : list elem :=
  match fs with [] => [] | InL _ _ _ :: fs => before fs | InR _ e l :: fs => before fs ++ inorder l ++ [e] end.
Fixpoint behind (fs : list frame) : list elem :=
  match fs with [] => [] | InL _ e r :: fs => e :: inorder r ++ behind fs | InR _ _ _ :: fs => behind fs end.

Lemma inorder_plug fs : forall t, inorder (plug t fs) = before fs ++ inorder t ++ behind fs.
Proof.
  induction fs as [|[c e r|c e l] fs IH]; intros t; cbn; [by rewrite app_nil_r| |]; rewrite IH; cbn; by rewrite <- ?app_assoc.
Qed.
Lemma inorder_paint c t : inorder (paint c t) = inorder t.
Proof. by destruct t. Qed.



Lemma left_rotate_inorder t t' : LeftRotate t = Ret t' -> inorder t' = inorder t.
Proof. destruct t as [|c x a [|d y b e]]; try done. intros [= <-]. cbn. by rewrite <- ?app_assoc. Qed.
Lemma right_rotate_inorder t t' : RightRotate t = Ret t' -> inorder t' = inorder t.
Proof. destruct t as [|c y [|d x a b] e]; try done. intros [= <-]. cbn. by rewrite <- ?app_assoc. Qed.

(** Take a run of the operations apart. *)
Ltac steps :=
  repeat match goal with
  | H : Ret _ = Ret _ |- _ => apply Ret_inj in H; subst
  | H : Fault _ = Ret _ |- _ => discriminate H
  | H : obind _ _ = Ret _ |- _ => apply obind_ret in H as (? & ? & H)
  | H : LeftRotate _ = Ret _ |- _ => apply left_rotate_inorder in H
  | H : RightRotate _ = Ret _ |- _ => apply right_rotate_inorder in H
  | H : (if ?b then _ else _) = Ret _ |- _ => destruct b
  | H : (match ?x with _ => _ end) = Ret _ |- _ => destruct x
  end.
(** Compare two in-order lists. *)
Ltac inorder_eq := repeat progress (cbn in *; rewrite ?inorder_plug, ?inorder_paint, <- ?app_assoc in *); try congruence.

Lemma insert_fix_inorder fs : forall x t, insert_fix x fs = Ret t -> inorder t = before fs ++ inorder x ++ behind fs.
Proof.
  induction fs as [fs IH] using (induction_ltof1 _ length). unfold ltof in IH. intros x t H.
  destruct fs as [|p [|g rest]]; cbn [insert_fix] in H.
  - steps. by rewrite app_nil_r.
  - destruct (frame_red p); steps. by rewrite inorder_plug.
  - destruct (frame_red p); [|steps; by rewrite inorder_plug].
    destruct g as [gc ge y|gc ge y], p as [pc pe s|pc pe s]; cbn [plug1 paint_frame] in H; destruct (is_red y);
      try (apply IH in H; [|cbn; lia]); steps; inorder_eq.
    all: repeat match goal with H : inorder _ = _ |- _ => rewrite H; clear H; inorder_eq end.
Qed.
Definition result (s : @pass K I) : tree := match s with Up t | Done t => t end.

Lemma rebalance_inorder f x s : rebalance f x = Ret s -> inorder (result s) = before [f] ++ inorder x ++ behind [f].
Proof.
  destruct f as [pc pe [|wc we wl wr]|pc pe [|wc we wl wr]]; cbn [rebalance]; intros H; try done.
  all: destruct (negb (is_red wr) && negb (is_red wl)); [steps; inorder_eq; by rewrite ?app_nil_r|].
  all: steps; inorder_eq; rewrite ?app_nil_r.
  all: repeat match goal with H : inorder _ = _ |- _ => rewrite H; clear H; inorder_eq end.
  all: repeat match goal with H : _ ++ _ = _ ++ _ |- _ => rewrite H; clear H; inorder_eq end.
  all: by rewrite !app_comm_cons, !app_assoc, H0.
Qed.

Lemma fixup_inorder fs : forall x t, RBDeleteFixUp x fs = Ret t -> inorder t = before fs ++ inorder x ++ behind fs.
Proof.
  induction fs as [|f rest IH]; intros x t H; cbn [RBDeleteFixUp] in H; destruct (is_red x);
    try (steps; rewrite ?inorder_plug, ?inorder_paint, ?app_nil_r; done).
  assert (Hgo : forall g, obind (rebalance g x) (fun s => match s with Up p => RBDeleteFixUp p rest | Done t => Ret (paint false (plug t rest)) end) = Ret t ->
    inorder t = before rest ++ (before [g] ++ inorder x ++ behind [g]) ++ behind rest).
  { intros g [s [Hs Hk]]%obind_ret. apply rebalance_inorder in Hs. rewrite <- Hs. destruct s as [q|q]; [by apply IH in Hk|]. apply Ret_inj in Hk as <-. by rewrite inorder_paint, inorder_plug. }
  assert (Hred : forall g h, obind (rebalance g x) (fun s => match s with Up p => Ret (plug (paint false p) (h :: rest)) | Done t => Ret (paint false (plug t (h :: rest))) end) = Ret t ->
    inorder t = before (h :: rest) ++ (before [g] ++ inorder x ++ behind [g]) ++ behind (h :: rest)).
  { intros g h [s [Hs Hk]]%obind_ret. apply rebalance_inorder in Hs. rewrite <- Hs. destruct s; apply Ret_inj in Hk as <-; by rewrite ?inorder_paint, inorder_plug, ?inorder_paint. }
  destruct f as [pc pe [|[] we wl wr]|pc pe [|[] we wl wr]]; (apply Hred in H || apply Hgo in H); rewrite H; inorder_eq; by rewrite ?app_nil_r.
Qed.

(** * The node that is deleted *)

Lemma locate_plug z (t : tree) : forall fs c e l r gs, locate z t fs = Some (c, e, l, r, gs) -> addr e = z /\ plug (N c e l r) gs = plug t fs.
Proof.
  induction t as [|c e l IHl r IHr]; intros fs c' e' l' r' gs; cbn; [done|]. destruct (Z.eqb_spec (addr e) z) as [Hz|Hz].
  - by intros [= -> -> -> -> ->].
  - destruct (locate z l _) as [p|] eqn:Hl; [intros [= ->]; by apply IHl in Hl|]. intros Hr. by apply IHr in Hr.
Qed.

Lemma locate_found e (t : tree) : e ∈ inorder t -> forall fs, is_Some (locate (addr e) t fs).
Proof.
  induction t as [|c e' l IHl r IHr]; cbn; [by intros ?%not_elem_of_nil|]. intros Hin fs. destruct (Z.eqb_spec (addr e') (addr e)) as [|Hz]; [by eexists|].
  destruct (locate (addr e) l _) as [p|] eqn:Hl; [by eexists|]. apply elem_of_app in Hin as [Hin|[->|Hin]%elem_of_cons]; [|done|by apply IHr].
  destruct (IHl Hin (InL c e' r :: fs)) as [? ?]. congruence.
Qed.

Lemma leftmost_plug (l : tree) : forall c e r fs yc ye x ys, leftmost c e l r fs = (yc, ye, x, ys) ->
  plug (N yc ye Nil x) ys = plug (N c e l r) fs /\ before ys = before fs.
Proof.
  induction l as [|c' e' l' IHl r' _]; intros c e r fs yc ye x ys; cbn [leftmost]; [by intros [= -> -> -> ->]|].
  intros H. by apply IHl in H as [-> ->].
Qed.

Lemma inorder_put_at z y t : inorder (put_at z y t) = (fun e => if addr e =? z then y else e) <$> inorder t.
Proof. induction t as [|c e l IHl r IHr]; cbn; [done|]. by rewrite IHl, IHr, fmap_app. Qed.

Lemma put_elsewhere z y (l : list elem) : z ∉ (addr <$> l) -> (fun e : elem => if addr e =? z then y else e) <$> l = l.
Proof.
  induction l as [|e l IH]; cbn; [done|]. intros Hz. rewrite IH by set_solver. destruct (Z.eqb_spec (addr e) z) as [Hez|]; [set_solver|done].
Qed.

(** The way up from the node that is spliced out. *)
Lemma splice_inorder (c : bool) x (fs : list frame) t : (if c then Ret (plug x fs) else RBDeleteFixUp x fs) = Ret t -> inorder t = before fs ++ inorder x ++ behind fs.
Proof. destruct c; intros H; [|by apply fixup_inorder]. steps. by rewrite inorder_plug. Qed.

Lemma delete_inorder z (t t' : tree) ze : NoDup (addr <$> inorder t) -> RBDelete z t = Ret (t', ze) ->
  addr ze = z /\ exists l1 l2, inorder t = l1 ++ ze :: l2 /\ inorder t' = l1 ++ l2.
Proof.
  intros Hnd H. unfold RBDelete in H. destruct (locate z t []) as [[[[[zc e] l] r] fs]|] eqn:Hloc; [|done].
  apply locate_plug in Hloc as [Hz Hp]. cbn in Hp. subst t.
  assert (Hone : forall x, (l = Nil /\ x = r) \/ (r = Nil /\ x = l) -> obind (if zc then Ret (plug x fs) else RBDeleteFixUp x fs) (fun t => Ret (t, e)) = Ret (t', ze) ->
    addr ze = z /\ exists l1 l2, inorder (plug (N zc e l r) fs) = l1 ++ ze :: l2 /\ inorder t' = l1 ++ l2).
  { intros x Hx [u [Hu [= -> ->]]]%obind_ret. split; [done|]. apply splice_inorder in Hu. rewrite Hu, inorder_plug. cbn.
    destruct Hx as [[-> ->]|[-> ->]]; cbn; [by eauto|]. exists (before fs ++ inorder l), (behind fs). by rewrite <- !app_assoc. }
  destruct l as [|lc le ll lr]; [by eapply Hone; eauto|]. destruct r as [|rc re rl rr]; [by eapply Hone; eauto|]. clear Hone.
  destruct (leftmost _ _ _ _ _) as [[[yc ye] x] ys] eqn:Hy. apply leftmost_plug in Hy as [Hy Hb].
  apply obind_ret in H as [u [Hu [= <- <-]]]. split; [done|]. apply splice_inorder in Hu. cbn [plug plug1] in Hy. rewrite <- Hy, inorder_plug in Hnd |- *.
  rewrite inorder_put_at, Hu, Hb. cbn [before]. rewrite Hb in Hnd. cbn [before inorder app] in Hnd.
  set (B := before fs ++ inorder (N lc le ll lr)). set (X := inorder x ++ behind ys). exists B, (ye :: X).
  replace (before fs ++ inorder (N lc le ll lr) ++ [e]) with (B ++ [e]) in * by (unfold B; by rewrite <- app_assoc).
  split; [unfold X; by rewrite <- app_assoc|]. replace ((B ++ [e]) ++ X) with (B ++ e :: X) by (by rewrite <- app_assoc). rewrite fmap_app. cbn. rewrite Hz, Z.eqb_refl.
  assert (Hn : NoDup (addr <$> B ++ e :: ye :: X)) by (revert Hnd; unfold B, X; cbn; by rewrite <- !app_assoc).
  rewrite fmap_app in Hn. cbn in Hn. apply list.NoDup_app in Hn as (_ & Hd & [Hze [_ _]%list.NoDup_cons]%list.NoDup_cons).
  rewrite !put_elsewhere; [done| |]; rewrite <- Hz.
  - intros Hx. apply Hze. by right.
  - intros Hx. apply (Hd _ Hx). by left.
Qed.
End InOrder.

(** * Balance *)

Section Balance.
Context {K I : Type}.
Notation tree := (tree K I).
Notation frame := (frame K I).

(** A red-black tree with the colour of its root and the number of black nodes
    on every way down. *)
Inductive rbt : tree -> bool -> nat -> Prop :=
  | rbt_nil : rbt Nil false 0
  | rbt_black e l r cl cr n : rbt l cl n -> rbt r cr n -> rbt (N false e l r) false (S n)
  | rbt_red e l r n : rbt l false n -> rbt r false n -> rbt (N true e l r) true n.

(** The parents of a hole that takes trees of black height [n], black ones only
    when the flag is set. *)
Inductive hole : list frame -> bool -> nat -> Prop :=
  | hole_root n : hole [] true n
  | hole_black_l e r c fs b n : rbt r c n -> hole fs b (S n) -> hole (InL false e r :: fs) false n
  | hole_black_r e l c fs b n : rbt l c n -> hole fs b (S n) -> hole (InR false e l :: fs) false n
  | hole_red_l e r fs n : rbt r false n -> hole fs false n -> hole (InL true e r :: fs) true n
  | hole_red_r e l fs n : rbt l false n -> hole fs false n -> hole (InR true e l :: fs) true n.

#[local] Hint Constructors rbt hole : core.

Ltac inv_rbt :=
  repeat match goal with
  | H : rbt Nil _ _ |- _ => inversion H; subst; clear H
  | H : rbt (N _ _ _ _) _ _ |- _ => inversion H; subst; clear H
  | H : rbt _ true _ |- _ => inversion H; subst; clear H
  | H : hole (_ :: _) _ _ |- _ => inversion H; subst; clear H
  | H : hole [] _ _ |- _ => inversion H; subst; clear H
  end.

Lemma rbt_colour t c n : rbt t c n -> is_red t = c.
Proof. by destruct 1. Qed.
Lemma rbt_is_black t c n : rbt t c n -> is_red t = false -> rbt t false n.
Proof. by destruct 1; cbn; intros; eauto. Qed.
Lemma rbt_paint t c n : rbt t c n -> exists m, rbt (paint false t) false m.
Proof. destruct 1; cbn; eauto. Qed.

Lemma plug_ok fs : forall b n t c, hole fs b n -> rbt t c n -> (b = true -> c = false) -> exists m, rbt (plug t fs) false m.
Proof.
  induction fs as [|f fs IH]; intros b n t c Hh Ht Hc.
  - inv_rbt. rewrite (Hc eq_refl) in Ht. eauto.
  - inv_rbt; cbn; try (rewrite (Hc eq_refl) in Ht); eapply IH; eauto; done.
Qed.

Lemma insert_fix_ok fs : forall b n x, hole fs b n -> rbt x true n -> exists t m, insert_fix x fs = Ret t /\ rbt (paint false t) false m.
Proof.
  induction fs as [fs IH] using (induction_ltof1 _ length). unfold ltof in IH. intros b n x Hh Hx.
  assert (Hgo : forall t fs' b' n' c, hole fs' b' n' -> rbt t c n' -> (b' = true -> c = false) -> exists u m, Ret (plug t fs') = Ret u /\ rbt (paint false u) false m).
  { intros t fs' b' n' c H1 H2 H3. destruct (plug_ok _ _ _ _ _ H1 H2 H3) as [m Hm]. apply rbt_paint in Hm as [m' Hm]. eauto. }
  destruct fs as [|p [|g rest]]; cbn [insert_fix].
  - destruct (rbt_paint _ _ _ Hx) as [m Hm]. eauto.
  - destruct p as [[] ? ?|[] ? ?]; cbn [frame_red]; try (by inv_rbt); (eapply Hgo; [exact Hh|exact Hx|]; intros ->; inversion Hh).
  - destruct (frame_red p) eqn:Hp; [|eapply Hgo; [exact Hh|exact Hx|]; intros ->; destruct p; cbn in Hp; subst; by inversion Hh].
    destruct g as [gc ge y|gc ge y]; (destruct gc; [destruct p; inversion Hh; subst; by inv_rbt|]).
    all: destruct p as [[] pe s|[] pe s]; try done; inversion Hh as [| | |? ? ? ? Hs Hg|? ? ? ? Hs Hg]; subst; inversion Hg; subst.
    all: match goal with H : rbt ?y ?c _ |- context [is_red ?y] => pose proof (rbt_colour _ _ _ H) as Hy; rewrite Hy; destruct c end; clear Hg Hh; inv_rbt; cbn.
    all: try (eapply (IH rest); [cbn; lia|eassumption|by eauto 6]).
    all: (eapply Hgo; [eassumption|by eauto 7|done]).
Qed.
Definition sibling (f : frame) : tree := match f with InL _ _ t | InR _ _ t => t end.

(** A black child that is one black node short and its black sibling: either
    the parent is short too, or the place of the parent is as before. *)
Lemma rebalance_ok f rest b n x : hole (f :: rest) b (S n) -> is_red (sibling f) = false -> rbt x false n ->
  exists s, rebalance f x = Ret s /\
    match s with
    | Up p => is_red p = frame_red f /\ rbt (paint false p) false (S n)
    | Done t => rbt t (frame_red f) (if frame_red f then S n else S (S n))
    end.
Proof.
  intros Hh Hw Hx.
  assert (Hsib : rbt (sibling f) false (S n)).
  { destruct f; cbn in Hw; inversion Hh; subst; cbn; eauto using rbt_is_black. }
  clear Hh Hw. destruct f as [pc pe w|pc pe w]; cbn in Hsib; inversion Hsib as [|we wl wr cl cr ? Hl Hr|]; subst.
  all: cbn [rebalance frame_red]; rewrite (rbt_colour _ _ _ Hl), (rbt_colour _ _ _ Hr).
  all: destruct cl, cr; cbn [negb andb]; inv_rbt; cbn; eexists; split; try reflexivity; cbn; try (split; [reflexivity|]); destruct pc; eauto 7.
Qed.

(** What the loop starts with at [x]: a red node that can be painted black, or
    a black one that is one black node short. *)
Definition short (x : tree) (n : nat) : Prop := if is_red x then rbt (paint false x) false (S n) else rbt x false n.

Lemma fixup_ok fs : forall b n x, hole fs b (S n) -> short x n -> exists t m, RBDeleteFixUp x fs = Ret t /\ rbt t false m.
Proof.
  induction fs as [|f rest IH]; intros b n x Hh Hx; unfold short in Hx; cbn [RBDeleteFixUp]; destruct (is_red x) eqn:Hr.
  - eauto.
  - eexists _, n. split; [reflexivity|]. destruct x; [done|]. inversion Hx; subst. cbn. eauto.
  - destruct (plug_ok _ _ _ _ _ Hh Hx ltac:(done)) as [m Hm]. eauto.
  - assert (Hdone : forall t fs' b' n' c, hole fs' b' n' -> rbt t c n' -> (b' = true -> c = false) -> exists u m, Ret (paint false (plug t fs')) = Ret u /\ rbt u false m).
    { intros t fs' b' n' c H1 H2 H3. destruct (plug_ok _ _ _ _ _ H1 H2 H3) as [m Hm]. apply rbt_paint in Hm as [m' Hm]. eauto. }
    assert (Hplain : is_red (sibling f) = false -> exists t m, obind (rebalance f x) (fun s => match s with Up p => RBDeleteFixUp p rest | Done t => Ret (paint false (plug t rest)) end) = Ret t /\ rbt t false m).
    { intros Hs. destruct (rebalance_ok _ _ _ _ _ Hh Hs Hx) as ([p|t] & -> & Hs'); cbn [obind].
      - destruct Hs' as [Hc Hp]. destruct (frame_red f) eqn:Hf; (destruct f; cbn in Hf; subst; inversion Hh; subst); (eapply IH; [eassumption|]); unfold short; rewrite Hc; [done|done|..].
        all: destruct p; [done|]; cbn in Hc; subst; done.
      - destruct f as [[]|[]]; cbn in Hs'; inversion Hh; subst; (eapply Hdone; [eassumption..|done]). }
    destruct f as [pc pe [|[] we wl wr]|pc pe [|[] we wl wr]]; try by apply Hplain.
    all: destruct pc; [by inversion Hh; subst; inv_rbt|]; inversion Hh; subst; inv_rbt.
    + edestruct (rebalance_ok (InL true pe wl) (InL false we wr :: rest)) as ([p|t] & -> & Hs'); [by eauto|by eapply rbt_colour|done|..]; cbn [obind].
      * destruct Hs' as [_ Hp]. edestruct (plug_ok (InL false we wr :: rest)) as [m Hm]; [by eauto|exact Hp|done|]. eauto.
      * eapply (Hdone _ (InL false we wr :: rest)); [by eauto|exact Hs'|done].
    + edestruct (rebalance_ok (InR true pe wr) (InR false we wl :: rest)) as ([p|t] & -> & Hs'); [by eauto|by eapply rbt_colour|done|..]; cbn [obind].
      * destruct Hs' as [_ Hp]. edestruct (plug_ok (InR false we wl :: rest)) as [m Hm]; [by eauto|exact Hp|done|]. eauto.
      * eapply (Hdone _ (InR false we wl :: rest)); [by eauto|exact Hs'|done].
Qed.

(** The parents of a node of a balanced tree are a hole. *)
Lemma hole_of fs : forall t n, rbt (plug t fs) false n -> exists b c k, hole fs b k /\ rbt t c k /\ (b = true -> c = false).
Proof.
  induction fs as [|f fs IH]; intros t n H; cbn in H; [by eexists true, false, _; eauto|].
  apply IH in H as (b & c & k & Hh & Ht & Hc). destruct f as [fc e s|fc e s]; cbn in Ht; inversion Ht; subst.
  - exists false. eexists _, _. split; [by eauto|]. split; [eassumption|done].
  - destruct b; [by specialize (Hc eq_refl)|]. exists true, false, k. eauto.
  - exists false. eexists _, _. split; [by eauto|]. split; [eassumption|done].
  - destruct b; [by specialize (Hc eq_refl)|]. exists true, false, k. eauto.
Qed.

Lemma rbt_put_at z y t c n : rbt t c n -> rbt (put_at z y t) c n.
Proof. induction 1; cbn; eauto. Qed.

(** Splicing out a node with one child at most keeps the tree balanced. *)
Lemma splice_ok c e l r x fs m : rbt (plug (N c e l r) fs) false m -> (l = Nil /\ x = r) \/ (r = Nil /\ x = l) ->
  exists t k, (if c then Ret (plug x fs) else RBDeleteFixUp x fs) = Ret t /\ rbt t false k.
Proof.
  intros (b & d & k & Hh & Ht & Hd)%hole_of Hx.
  assert (Hx' : exists cx kx, rbt x cx kx /\ if c then d = true /\ cx = false /\ kx = k else k = S kx).
  { inversion Ht; subst; destruct Hx as [[-> ->]|[-> ->]]; eauto 8. }
  destruct Hx' as (cx & kx & Hrx & Hk). destruct c.
  - destruct Hk as (-> & -> & ->). destruct b; [by specialize (Hd eq_refl)|]. destruct (plug_ok _ _ _ _ _ Hh Hrx ltac:(done)) as [m' Hm]. eauto.
  - subst k. eapply fixup_ok; [exact Hh|]. unfold short. rewrite (rbt_colour _ _ _ Hrx). destruct cx; [|done]. inversion Hrx; subst. cbn. eauto.
Qed.

Lemma delete_ok z t n : rbt t false n -> is_Some (locate z t []) -> exists t' ze m, RBDelete z t = Ret (t', ze) /\ rbt t' false m.
Proof.
  intros Ht [[[[[zc e] l] r] fs] Hloc]. unfold RBDelete. rewrite Hloc. apply locate_plug in Hloc as [_ Hp]. cbn in Hp. subst t.
  assert (Hone : forall x, (l = Nil /\ x = r) \/ (r = Nil /\ x = l) -> exists t' ze m, obind (if zc then Ret (plug x fs) else RBDeleteFixUp x fs) (fun t => Ret (t, e)) = Ret (t', ze) /\ rbt t' false m).
  { intros x Hx. destruct (splice_ok _ _ _ _ _ _ _ Ht Hx) as (u & k & -> & Hu). cbn. eauto. }
  destruct l as [|lc le ll lr]; [by apply Hone; auto|]. destruct r as [|rc re rl rr]; [by apply Hone; auto|]. clear Hone.
  destruct (leftmost _ _ _ _ _) as [[[yc ye] x] ys] eqn:Hy. apply leftmost_plug in Hy as [Hy _]. cbn [plug plug1] in Hy. rewrite <- Hy in Ht.
  destruct (splice_ok _ _ _ _ x _ _ Ht ltac:(auto)) as (u & k & -> & Hu). cbn. eexists _, _, _. split; [reflexivity|]. by apply rbt_put_at.
Qed.
End Balance.

(** * The order of the keys *)

(** What the comment in red_black_tree.h asks of [Compare]. *)
Class Ordering {K : Type} (Compare : K -> K -> Z) : Prop := {
  compare_range a b : Compare a b = -1 \/ Compare a b = 0 \/ Compare a b = 1;
  compare_sym a b : Compare b a = - Compare a b;
  compare_trans a b c : Compare a b <> 1 -> Compare b c <> 1 -> Compare a c <> 1
}.

Section Refinement.
Context {K I : Type} (Compare : K -> K -> Z) `{!Ordering Compare}.
Notation tree := (tree K I).
Notation elem := (elem K I).

Definition before_eq (a b : elem) : Prop := Compare (key a) (key b) <> 1.
Notation sorted := (StronglySorted before_eq).

Lemma sorted_app l1 l2 : sorted (l1 ++ l2) <-> sorted l1 /\ sorted l2 /\ (forall a b, a ∈ l1 -> b ∈ l2 -> before_eq a b).
Proof.
  induction l1 as [|x l1 IH]; cbn.
  - split; [|by intros (_ & ? & _)]. intros H. split; [constructor|]. split; [done|]. by intros a b ?%not_elem_of_nil.
  - split.
    + intros [Hs Hf]%StronglySorted_inv. apply IH in Hs as (H1 & H2 & H3). rewrite Forall_app in Hf. destruct Hf as [Hf1 Hf2].
      split; [by constructor|]. split; [done|]. intros a b [->|Ha]%elem_of_cons Hb; [|by apply H3]. rewrite list.Forall_forall in Hf2. by apply Hf2.
    + intros (H1 & H2 & H3). apply StronglySorted_inv in H1 as [H1 Hf]. constructor.
      * apply IH. split; [done|]. split; [done|]. intros a b Ha Hb. apply H3; [by right|done].
      * rewrite Forall_app. split; [done|]. rewrite list.Forall_forall. intros b Hb. apply H3; [by left|done].
Qed.

Lemma sorted_remove l1 e l2 : sorted (l1 ++ e :: l2) -> sorted (l1 ++ l2).
Proof.
  intros (H1 & H2 & H3)%sorted_app. apply StronglySorted_inv in H2 as [H2 _]. apply sorted_app.
  split; [done|]. split; [done|]. intros a b Ha Hb. apply H3; [done|by right].
Qed.

(** The place that [TreeInsertHelp] finds for [k] is behind the keys that are
    not greater and before those that are. *)
Lemma insert_help_place k t : forall fs, sorted (before fs ++ inorder t ++ behind fs) ->
  (forall e, e ∈ before fs -> Compare (key e) k <> 1) -> (forall e, e ∈ behind fs -> Compare (key e) k = 1) ->
  let gs := TreeInsertHelp Compare k t fs in
  before gs ++ behind gs = before fs ++ inorder t ++ behind fs /\
  (forall e, e ∈ before gs -> Compare (key e) k <> 1) /\ (forall e, e ∈ behind gs -> Compare (key e) k = 1).
Proof.
  induction t as [|c e l IHl r IHr]; intros fs Hs Hb Ha; cbn [TreeInsertHelp]; [done|].
  cbn [inorder] in Hs |- *. destruct (Z.eqb_spec (Compare (key e) k) 1) as [He|He].
  - edestruct (IHl (InL c e r :: fs)) as (Heq & Hr); cbn [before behind]; [|done| |].
    + by rewrite <- app_assoc in Hs.
    + intros f Hf. apply sorted_app in Hs as (_ & Hs & _). rewrite <- app_assoc in Hs. apply sorted_app in Hs as (_ & Hs & _).
      apply elem_of_cons in Hf as [->|Hf]; [done|]. apply StronglySorted_inv in Hs as [_ Hall]. rewrite list.Forall_forall in Hall.
      destruct (Z.eq_dec (Compare (key f) k) 1) as [|Hle]; [done|]. exfalso. exact (compare_trans _ _ _ (Hall f Hf) Hle He).
    + split; [|done]. rewrite Heq. cbn [before behind]. by rewrite <- !app_assoc.
  - edestruct (IHr (InR c e l :: fs)) as (Heq & Hr); cbn [before behind]; [| |done|].
    + revert Hs. by rewrite <- !app_assoc.
    + intros f Hf. apply elem_of_app in Hf as [Hf|Hf]; [by apply Hb|]. apply elem_of_app in Hf as [Hf|Hf]; [|by apply list_elem_of_singleton in Hf as ->].
      apply sorted_app in Hs as (_ & Hs & _). rewrite <- app_assoc in Hs. apply sorted_app in Hs as (_ & _ & Hs).
      apply (compare_trans _ (key e)); [|done]. apply Hs; [done|by left].
    + split; [|done]. rewrite Heq. cbn [before behind]. by rewrite <- !app_assoc.
Qed.

Lemma insert_help_plug k (t : tree) : forall fs, plug Nil (TreeInsertHelp Compare k t fs) = plug t fs.
Proof. induction t as [|c e l IHl r IHr]; intros fs; cbn; [done|]. case_match; [by rewrite IHl|by rewrite IHr]. Qed.

Lemma query_ok q t : sorted (inorder t) ->
  match RBExactQuery Compare t q with
  | Some e => e ∈ inorder t /\ Compare (key e) q = 0
  | None => forall e, e ∈ inorder t -> Compare (key e) q <> 0
  end.
Proof.
  induction t as [|c e l IHl r IHr]; cbn; [by intros _ e ?%not_elem_of_nil|]. intros (Hl & Hr & Hlr)%sorted_app.
  apply StronglySorted_inv in Hr as [Hr Her]. rewrite list.Forall_forall in Her. specialize (IHl Hl). specialize (IHr Hr).
  destruct (Z.eqb_spec (Compare (key e) q) 0) as [H0|H0]; [split; [set_solver|done]|].
  destruct (Z.eqb_spec (Compare (key e) q) 1) as [H1|H1].
  - destruct (RBExactQuery Compare l q) as [f|]; [destruct IHl; split; [set_solver|done]|].
    intros f [Hf|[->|Hf]%elem_of_cons]%elem_of_app; [by apply IHl|done|]. intros Hq. apply (compare_trans (key e) (key f) q); [by apply Her|lia|done].
  - destruct (RBExactQuery Compare r q) as [f|]; [destruct IHr; split; [set_solver|done]|].
    intros f [Hf|[->|Hf]%elem_of_cons]%elem_of_app; [|done|by apply IHr]. intros Hq.
    pose proof (compare_range (key e) q) as Hc. pose proof (compare_sym (key e) q) as Hs. pose proof (compare_sym (key f) q) as Hs'.
    apply (compare_trans q (key f) (key e)); [lia| |lia]. apply Hlr; [done|by left].
Qed.

(** * A finite map of nodes *)

Definition entry_of (e : elem) : Z * (K * I) := (addr e, (key e, info e)).

Record rep (t : tree) (m : gmap Z (K * I)) : Prop := {
  rep_balanced : exists n, rbt t false n;
  rep_sorted : sorted (inorder t);
  rep_addrs : NoDup (addr <$> inorder t);
  rep_map : m = list_to_map (entry_of <$> inorder t)
}.

Lemma entry_addrs (l : list elem) : (entry_of <$> l).*1 = addr <$> l.
Proof. rewrite <- list_fmap_compose. by apply list_fmap_ext. Qed.

Lemma rep_lookup t m a k i : rep t m -> m !! a = Some (k, i) <-> mkElem a k i ∈ inorder t.
Proof.
  intros [_ _ Hnd ->]. rewrite <- elem_of_list_to_map by (by rewrite entry_addrs). rewrite list_elem_of_fmap. split.
  - intros ([a' k' i'] & [= -> -> ->] & Hin). done.
  - intros Hin. by exists (mkElem a k i).
Qed.

Lemma insert_refines t m a k i : rep t m -> m !! a = None ->
  exists t', RBTreeInsert Compare a k i t = Ret t' /\ rep t' (<[a := (k, i)]> m).
Proof.
  intros Hrep Ha. pose proof Hrep as [[n Hb] Hs Hnd Hm]. unfold RBTreeInsert.
  destruct (insert_help_place k t []) as (Heq & Hle & Hgt); [by rewrite app_nil_r|by intros e ?%not_elem_of_nil..|].
  set (gs := TreeInsertHelp Compare k t []) in *. rewrite app_nil_r in Heq. cbn in Heq.
  assert (Hh : exists b, hole gs b 0).
  { pose proof (insert_help_plug k t []) as Hg. cbn in Hg. fold gs in Hg.
    rewrite <- Hg in Hb. apply hole_of in Hb as (b & c & j & Hh & Hnil & _). assert (j = 0%nat) as -> by (by inversion Hnil). eauto. }
  destruct Hh as [b Hh]. destruct (insert_fix_ok gs b 0 (N true (mkElem a k i) Nil Nil) Hh ltac:(repeat constructor)) as (t' & m' & Hrun & Hb').
  rewrite Hrun. exists (paint false t'). split; [done|]. apply insert_fix_inorder in Hrun. cbn in Hrun.
  assert (Hperm : inorder t' ≡ₚ mkElem a k i :: inorder t) by (rewrite Hrun, <- Heq; by rewrite Permutation_middle).
  assert (Hfresh : a ∉ addr <$> inorder t).
  { intros ([a' k' i'] & -> & Hin)%list_elem_of_fmap. apply (rep_lookup _ _ _ _ _ Hrep) in Hin. cbn in Ha. congruence. }
  constructor; rewrite ?inorder_paint; [by eauto| | |].
  - rewrite Hrun. rewrite <- Heq in Hs. apply sorted_app in Hs as (H1 & H2 & H3). apply sorted_app. split; [done|]. split.
    + constructor; [done|]. rewrite list.Forall_forall. intros e He. unfold before_eq. cbn. rewrite compare_sym, (Hgt e He). lia.
    + intros x y Hx [->|Hy]%elem_of_cons; [by apply Hle|by apply H3].
  - rewrite Hperm. cbn. by constructor.
  - subst m. symmetry. rewrite (list_to_map_proper _ (entry_of <$> (mkElem a k i :: inorder t))); [done| |by rewrite Hperm].
    rewrite entry_addrs, Hperm. cbn. by constructor.
Qed.

Lemma delete_refines t m a k i : rep t m -> m !! a = Some (k, i) ->
  exists t', RBDelete a t = Ret (t', mkElem a k i) /\ rep t' (delete a m).
Proof.
  intros Hrep Ha. pose proof Hrep as [[n Hb] Hs Hnd Hm]. apply (rep_lookup _ _ _ _ _ Hrep) in Ha.
  destruct (delete_ok a t n Hb (locate_found _ _ Ha [])) as (t' & ze & m' & Hrun & Hb'). exists t'.
  destruct (delete_inorder _ _ _ _ Hnd Hrun) as (Hz & l1 & l2 & Hl & Hl'). rewrite Hl in Hnd, Ha.
  assert (Hnd' : NoDup (addr ze :: (addr <$> l1 ++ l2))) by (revert Hnd; by rewrite !fmap_app, Permutation_middle).
  apply list.NoDup_cons in Hnd' as [Hout Hnd'].
  assert (ze = mkElem a k i) as ->.
  { apply elem_of_app in Ha as [Ha|[->|Ha]%elem_of_cons]; [|done|]; exfalso; apply Hout; rewrite Hz; apply list_elem_of_fmap; exists (mkElem a k i);
      (split; [done|]); apply elem_of_app; auto. }
  split; [done|]. constructor; rewrite ?Hl'; [by eauto|by eapply sorted_remove; rewrite <- Hl|done|].
  subst m. rewrite Hl, (list_to_map_proper _ ((a, (k, i)) :: (entry_of <$> l1 ++ l2))).
  - cbn. rewrite delete_insert_id; [done|]. apply not_elem_of_list_to_map_1. by rewrite entry_addrs.
  - by rewrite entry_addrs.
  - rewrite !fmap_app. cbn. symmetry. apply Permutation_middle.
Qed.

Lemma query_refines t m q : rep t m ->
  match RBExactQuery Compare t q with
  | Some e => m !! addr e = Some (key e, info e) /\ Compare (key e) q = 0
  | None => forall a k i, m !! a = Some (k, i) -> Compare k q <> 0
  end.
Proof.
  intros Hrep. pose proof (query_ok q t (rep_sorted _ _ Hrep)) as Hq. destruct (RBExactQuery Compare t q) as [[a k i]|].
  - destruct Hq as [Hin Hq]. split; [|done]. by apply (rep_lookup _ _ _ _ _ Hrep).
  - intros a k i Ha. apply (rep_lookup _ _ _ _ _ Hrep) in Ha. exact (Hq _ Ha).
Qed.

(** A comparison that agrees with [Compare] on the keys of the tree and the one
    that is asked for takes the same way. *)
Lemma insert_agrees cmp t m a k i : rep t m -> (forall b k' j, m !! b = Some (k', j) -> cmp k' k = Compare k' k) ->
  RBTreeInsert cmp a k i t = RBTreeInsert Compare a k i t.
Proof.
  intros Hrep Hc. unfold RBTreeInsert. do 2 f_equal.
  assert (Hin : forall e, e ∈ inorder t -> cmp (key e) k = Compare (key e) k).
  { intros [b k' j] He. apply (rep_lookup _ _ _ _ _ Hrep) in He. exact (Hc _ _ _ He). }
  clear Hrep Hc. generalize (@nil (frame K I)). induction t as [|c e l IHl r IHr]; intros fs; [done|]. cbn [TreeInsertHelp].
  rewrite Hin by set_solver. destruct (_ =? 1); [apply IHl|apply IHr]; intros e' He'; apply Hin; set_solver.
Qed.

Lemma query_agrees cmp t m q : rep t m -> (forall b k' j, m !! b = Some (k', j) -> cmp k' q = Compare k' q) ->
  RBExactQuery cmp t q = RBExactQuery Compare t q.
Proof.
  intros Hrep Hc. assert (Hin : forall e, e ∈ inorder t -> cmp (key e) q = Compare (key e) q).
  { intros [b k' j] He. apply (rep_lookup _ _ _ _ _ Hrep) in He. exact (Hc _ _ _ He). }
  clear Hrep Hc. induction t as [|c e l IHl r IHr]; [done|]. cbn [RBExactQuery]. rewrite Hin by set_solver.
  rewrite IHl, IHr by (intros e' He'; apply Hin; set_solver). done.
Qed.

Lemma rep_empty : rep Nil ∅.
Proof. by constructor; [eexists; constructor|constructor|constructor|]. Qed.
(** * Sequences of operations *)

Inductive op : Type :=
  | Insert (a : Z) (k : K) (i : I)
  | Delete (a : Z)
  | Query (q : K).

(** The node an operation answers or destroys, and the tree. *)
Definition run_op (o : op) (t : tree) : outcome (option elem * tree) :=
  match o with
  | Insert a k i => obind (RBTreeInsert Compare a k i t) (fun t => Ret (Some (mkElem a k i), t))
  | Delete a => obind (RBDelete a t) (fun '(t, e) => Ret (Some e, t))
  | Query q => Ret (RBExactQuery Compare t q, t)
  end.
Fixpoint run_ops (l : list op) (t : tree) : outcome (list (option elem) * tree) :=
  match l with
  | [] => Ret ([], t)
  | o :: l => obind (run_op o t) (fun '(r, t) => obind (run_ops l t) (fun '(rs, t) => Ret (r :: rs, t)))
  end.

(** New nodes have new addresses; only nodes of the tree are deleted. *)
Definition legal (o : op) (m : gmap Z (K * I)) : Prop :=
  match o with Insert a _ _ => m !! a = None | Delete a => is_Some (m !! a) | Query _ => True end.
Definition after (o : op) (m : gmap Z (K * I)) : gmap Z (K * I) :=
  match o with Insert a k i => <[a := (k, i)]> m | Delete a => delete a m | Query _ => m end.
Definition answer (o : op) (m : gmap Z (K * I)) (r : option elem) : Prop :=
  match o, r with
  | Insert a k i, Some e => e = mkElem a k i
  | Delete a, Some e => addr e = a /\ m !! a = Some (key e, info e)
  | Query q, Some e => m !! addr e = Some (key e, info e) /\ Compare (key e) q = 0
  | Query q, None => forall a k i, m !! a = Some (k, i) -> Compare k q <> 0
  | _, None => False
  end.
Fixpoint legal_ops (l : list op) (m : gmap Z (K * I)) : Prop :=
  match l with [] => True | o :: l => legal o m /\ legal_ops l (after o m) end.
Fixpoint answers (l : list op) (m : gmap Z (K * I)) (rs : list (option elem)) : Prop :=
  match l, rs with
  | [], [] => True
  | o :: l, r :: rs => answer o m r /\ answers l (after o m) rs
  | _, _ => False
  end.

Lemma node_op_refines o t m : rep t m -> legal o m -> exists r t', run_op o t = Ret (r, t') /\ answer o m r /\ rep t' (after o m).
Proof.
  intros Hrep Hl. destruct o as [a k i|a|q]; cbn in *.
  - destruct (insert_refines _ _ _ k i Hrep Hl) as (t' & -> & Hr). cbn. by eexists _, _.
  - destruct Hl as [[k i] Ha]. destruct (delete_refines _ _ _ _ _ Hrep Ha) as (t' & -> & Hr). cbn. by eexists _, _.
  - eexists _, _. split; [done|]. split; [|done]. pose proof (query_refines t m q Hrep) as Hq. by destruct (RBExactQuery Compare t q).
Qed.

(** C6. Any sequence of insertions of new nodes, deletions of nodes of the tree and
    queries returns, without a failed assertion, and answers as a finite map
    from the addresses of nodes to keys and values does; the tree stays a
    red-black tree in the order of its keys. *)
Theorem oss_tree_refines l t m : rep t m -> legal_ops l m ->
  exists rs t', run_ops l t = Ret (rs, t') /\ answers l m rs /\ rep t' (fold_left (fun m o => after o m) l m).
Proof.
  revert t m. induction l as [|o l IH]; intros t m Hrep Hl; cbn; [by eexists _, _|]. destruct Hl as [Ho Hl].
  destruct (node_op_refines o t m Hrep Ho) as (r & t' & -> & Ha & Hrep'). destruct (IH t' _ Hrep' Hl) as (rs & u & Hrun & Hans & Hfin).
  cbn. rewrite Hrun. by eexists _, _.
Qed.
End Refinement.

(** The order of the integers. *)
Definition three_way (a b : Z) : Z := if b <? a then 1 else if a <? b then -1 else 0.
#[export] Instance three_way_ordering : Ordering three_way.
Proof. split; unfold three_way; intros; repeat match goal with |- context [?a <? ?b] => destruct (Z.ltb_spec a b) | H : context [?a <? ?b] |- _ => destruct (Z.ltb_spec a b) end; lia. Qed.

Definition demo_ops : list (@op Z Z) :=
  [Insert 100 5 0; Insert 101 3 0; Insert 102 4 7; Insert 103 9 0; Insert 104 1 0; Query 4; Delete 100; Delete 104; Query 5].
Lemma oss_tree_refines_witness :
  legal_ops demo_ops ∅ /\
  exists rs t', run_ops three_way demo_ops Nil = Ret (rs, t') /\ answers three_way demo_ops ∅ rs /\ rep three_way t' (fold_left (fun m o => after o m) demo_ops ∅).
Proof.
  assert (H : legal_ops demo_ops ∅) by (repeat split; cbn; try (vm_compute; reflexivity); by eexists; vm_compute).
  split; [exact H|]. exact (oss_tree_refines three_way demo_ops Nil ∅ (rep_empty three_way) H).
Defined.

End OssTree.
