(* ===== verification/KeyTree.v ===== *)
(** What the trees generated by [rb_gen] promise to the components that use
    them: a finite map from a key to the address of the node that carries it.

    The clients ([LockTree], [JobTrees]) are proved against the interface. *)
From stdpp Require Import base gmap list numbers.
From S2P Require Import Prelude.

(** A search is given the key of the search node; an insertion and a removal
    are given the node, here its key and its address. *)
Class KeyTree (T : Type) := {
  kt_new : T;
  kt_search : T -> Z -> option Z;
  kt_insert : T -> Z -> Z -> outcome T;
  kt_remove : T -> Z -> Z -> outcome T;
  kt_ok : T -> Prop;
  kt_map : T -> gmap Z Z
}.

Class KeyTreeLaws (T : Type) `{KeyTree T} : Prop := {
  kt_new_ok : kt_ok kt_new;
  kt_new_map : kt_map kt_new = ∅;
  kt_search_map t k : kt_ok t -> kt_search t k = kt_map t !! k;
  kt_insert_new t k a :
    kt_ok t -> kt_map t !! k = None ->
    exists t', kt_insert t k a = Ret t' /\ kt_ok t' /\ kt_map t' = <[k := a]> (kt_map t);
  kt_insert_dup t k a :
    kt_ok t -> is_Some (kt_map t !! k) -> kt_insert t k a = Fault AssertFail;
  kt_remove_map t k a :
    kt_ok t -> kt_map t !! k = Some a ->
    exists t', kt_remove t k a = Ret t' /\ kt_ok t' /\ kt_map t' = delete k (kt_map t)
}.

(** The finite map itself meets the interface. *)
#[export] Instance map_tree : KeyTree (gmap Z Z) := {
  kt_new := ∅;
  kt_search t k := t !! k;
  kt_insert t k a := if t !! k then Fault AssertFail else Ret (<[k := a]> t);
  kt_remove t k a := if decide (t !! k = Some a) then Ret (delete k t) else Fault AssertFail;
  kt_ok _ := True;
  kt_map t := t
}.

#[export] Instance map_tree_laws : KeyTreeLaws (gmap Z Z).
Proof.
  split; simpl; try done.
  - intros t k a _ ->. eauto.
  - intros t k a _ [b ->]. done.
  - intros t k a _ Hk. rewrite decide_True by done. eauto.
Qed.

(** Lifting a tree operation to a component's state. *)
Definition of_outcome {S A} (o : outcome A) : cprog S A :=
  fun s => match o with Ret a => Ret (a, s) | Fault f => Fault f end.
