(* ===== verification/RbRemove.v ===== *)
(** The removal that [rb_gen] of oss/rb.h generates, and the interface of
    [KeyTree] met by the trees of rb.h.

    As in [RbTree] the winding of the array [path] is the recursion, and what
    the unwinding loop does at an entry is done when the call for the child
    returns. The status says how the loop stands: it is running, with the
    subtree one black node short; it has returned; or the node to prune was
    red, which is done at its parent. A rotation through [rbt_nil] or a colour
    put on it would corrupt the sentinel; here it counts as a failed
    assertion. *)
From Stdlib Require Import Sorting.Sorted.
From stdpp Require Import base gmap list numbers.
From S2P Require Import Prelude RbTree KeyTree.

Module RbRemove.

Inductive status : Set := Running | Returned | PrunedRed.

Section Remove.
Context {N : Type}.
Notation rbt := (rbt N).

Definition rbtn_left_get (t : rbt) : rbt := match t with Nil => Nil | Node _ l _ _ => l end.
Definition rbtn_right_get (t : rbt) : rbt := match t with Nil => Nil | Node _ _ _ r => r end.

(** The rotations move pointers and leave the colours. *)
Definition rbtn_rotate_left (t : rbt) : outcome rbt :=
  match t with Node c a x (Node d b y e) => Ret (Node d (Node c a x b) y e) | _ => Fault AssertFail end.
Definition rbtn_rotate_right (t : rbt) : outcome rbt :=
  match t with Node c (Node d a x b) y e => Ret (Node d a x (Node c b y e)) | _ => Fault AssertFail end.

Definition check (b : bool) : outcome unit := if b then Ret tt else Fault AssertFail.
Definition is_nil (t : rbt) : bool := match t with Nil => true | _ => false end.

(** The unwinding step at a node when the path went to its left child, now
    [l]; [top] is [pathp == path]. *)
Definition unwind_left (top : bool) (c : color) (l : rbt) (x : N) (right : rbt) : outcome (rbt * status) :=
  obind (check (negb (rbtn_red_get l))) (fun _ =>
  let rightleft := rbtn_left_get right in
  match c with
  | Red =>
      obind (if rbtn_red_get rightleft then
               obind (rbtn_rotate_right right) (fun tnode => rbtn_rotate_left (Node Black l x tnode))
             else rbtn_rotate_left (Node Red l x right)) (fun tnode =>
      obind (check (negb top)) (fun _ => Ret (tnode, Returned)))
  | Black =>
      if rbtn_red_get rightleft then
        match right with
        | Node rc rl y rr =>
            obind (rbtn_rotate_right (Node rc (color_set Black rl) y rr)) (fun tnode =>
            obind (rbtn_rotate_left (Node Black l x tnode)) (fun tnode => Ret (tnode, Returned)))
        | Nil => Fault AssertFail
        end
      else obind (rbtn_rotate_left (Node Red l x right)) (fun tnode => Ret (tnode, Running))
  end).

(** The same when the path went to its right child, now [r]. *)
Definition unwind_right (top : bool) (c : color) (left : rbt) (x : N) (r : rbt) : outcome (rbt * status) :=
  if rbtn_red_get left then
    match left with
    | Node lc ll y leftright =>
        if rbtn_red_get (rbtn_left_get leftright) then
          match leftright with
          | Node lrc lrl z lrr =>
              obind (rbtn_rotate_right (Node c (Node lc ll y (Node lrc (color_set Black lrl) z lrr)) x r)) (fun unode =>
              match unode with
              | Node uc ul uy pathp =>
                  obind (rbtn_rotate_right pathp) (fun tnode =>
                  obind (rbtn_rotate_left (Node uc ul uy tnode)) (fun tnode => Ret (tnode, Returned)))
              | Nil => Fault AssertFail
              end)
          | Nil => Fault AssertFail
          end
        else
          obind (check (negb (is_nil leftright))) (fun _ =>
          obind (rbtn_rotate_right (Node c (Node lc ll y (color_set Red leftright)) x r)) (fun tnode =>
          Ret (color_set Black tnode, Returned)))
    | Nil => Fault AssertFail
    end
  else
    match left with
    | Nil => Fault AssertFail
    | Node lc leftleft y lr =>
        match c with
        | Red =>
            if rbtn_red_get leftleft then
              obind (rbtn_rotate_right (Node Black (Node Red (color_set Black leftleft) y lr) x r)) (fun tnode =>
              obind (check (negb top)) (fun _ => Ret (tnode, Returned)))
            else Ret (Node Black (Node Red leftleft y lr) x r, Returned)
        | Black =>
            if rbtn_red_get leftleft then
              obind (rbtn_rotate_right (Node Black (Node lc (color_set Black leftleft) y lr) x r)) (fun tnode => Ret (tnode, Returned))
            else Ret (Node Black (Node Red leftleft y lr) x r, Running)
        end
    end.

(** The parent of what was removed on the left or on the right. *)
Definition at_left (top : bool) (c : color) (x : N) (r : rbt) (s : rbt * status) : outcome (rbt * status) :=
  match s.2 with
  | Running => unwind_left top c s.1 x r
  | Returned => Ret (Node c s.1 x r, Returned)
  | PrunedRed => Ret (Node c Nil x r, Returned)
  end.
Definition at_right (top : bool) (c : color) (l : rbt) (x : N) (s : rbt * status) : outcome (rbt * status) :=
  match s.2 with
  | Running => unwind_right top c l x s.1
  | Returned => Ret (Node c l x s.1, Returned)
  | PrunedRed => Fault AssertFail
  end.

Definition prune (c : color) : rbt * status := (Nil, match c with Red => PrunedRed | Black => Running end).

(** The successor is taken out of the subtree that it is the leftmost node
    of; its child pointers are not read. *)
Fixpoint take_first (t : rbt) : outcome (N * (rbt * status)) :=
  match t with
  | Nil => Fault AssertFail
  | Node c Nil x _ => Ret (x, prune c)
  | Node c l x r => obind (take_first l) (fun '(y, s) => obind (at_left false c x r s) (fun s => Ret (y, s)))
  end.

(** [same] compares the pointers in [assert(nodep->node == node)]. *)
Fixpoint rb_rem (cmp : N -> N -> Z) (same : N -> N -> bool) (node : N) (top : bool) (t : rbt) : outcome (rbt * status) :=
  match t with
  | Nil => Fault NullDeref
  | Node c l x r =>
      if cmp node x <? 0 then obind (rb_rem cmp same node false l) (at_left top c x r)
      else if cmp node x =? 0 then
        obind (check (same x node)) (fun _ =>
        match r with
        | Nil =>
            match l with
            | Nil => Ret (if top then (Nil, Returned) else prune c)
            | Node _ _ _ _ =>
                obind (check (match c with Black => true | Red => false end)) (fun _ =>
                obind (check (rbtn_red_get l)) (fun _ => Ret (color_set Black l, Returned)))
            end
        | Node _ _ _ _ => obind (take_first r) (fun '(y, s) => at_right top c l y s)
        end)
      else obind (rb_rem cmp same node false r) (at_right top c l x)
  end.

Definition rb_remove (cmp : N -> N -> Z) (same : N -> N -> bool) (t : rbt) (node : N) : outcome rbt :=
  obind (rb_rem cmp same node true t) (fun '(t, s) =>
  match s with
  | Running => obind (check (negb (rbtn_red_get t))) (fun _ => Ret t)
  | Returned => Ret t
  | PrunedRed => Fault OutOfBounds
  end).

(** * Balance *)

(** What a removal leaves of a subtree of shape [n]. *)
Definition left_over (t t' : rbt) (s : status) (n : nat) : Prop :=
  match s with
  | Running => rbtn_red_get t = false /\ rbtn_red_get t' = false /\ exists m, n = S m /\ shape t' m
  | Returned => shape t' n /\ (rbtn_red_get t = false -> rbtn_red_get t' = false)
  | PrunedRed => rbtn_red_get t = true /\ t' = Nil /\ n = 0%nat
  end.

#[local] Hint Constructors shape : core.

Ltac inv_shape :=
  repeat match goal with
  | H : shape Nil _ |- _ => inversion H; subst; clear H
  | H : shape (Node _ _ _ _) _ |- _ => inversion H; subst; clear H
  | H : shape ?t (S _) |- _ => is_var t; inversion H; subst; clear H; cbn in *; try discriminate
  end.
(** Case on the colour of a variable whose colour is tested. *)
Ltac case_red :=
  match goal with
  | |- context [rbtn_red_get ?t] => is_var t; let H := fresh "Hred" in destruct (rbtn_red_get t) eqn:H; [destruct t as [|[] ? ? ?]; try discriminate H; inv_shape|]
  end.

Lemma unwind_left_ok top c l x r m n : shape l m -> rbtn_red_get l = false -> shape r (S m) -> rbtn_red_get r = false ->
  (top = true -> c = Black) -> n = (if c then S m else S (S m)) ->
  exists t' s, unwind_left top c l x r = Ret (t', s) /\ left_over (Node c l x r) t' s n.
Proof.
  intros Hl Hlr Hr Hrr Ht ->. unfold unwind_left. rewrite Hlr. cbn [check negb obind]. inv_shape. cbn [rbtn_left_get].
  destruct c; [destruct top; [by specialize (Ht eq_refl)|]|]; case_red; cbn; eexists _, _; (split; [reflexivity|]); cbn; eauto 10.
  all: rewrite ?Hred; eauto 10.
Qed.
Lemma unwind_right_ok top c l x r m n : shape r m -> rbtn_red_get r = false -> shape l (S m) ->
  (c = Red -> rbtn_red_get l = false) -> (top = true -> c = Black) -> n = (if c then S m else S (S m)) ->
  exists t' s, unwind_right top c l x r = Ret (t', s) /\ left_over (Node c l x r) t' s n.
Proof.
  intros Hr Hrr Hl Hc Ht ->. unfold unwind_right. destruct (rbtn_red_get l) eqn:Hlr.
  - destruct c; [by specialize (Hc eq_refl)|]. destruct l as [|[] ll y lr]; try discriminate Hlr. inv_shape. cbn [rbtn_left_get].
    case_red; cbn; eexists _, _; (split; [reflexivity|]); cbn; eauto 10. all: rewrite ?Hred; eauto 10.
  - inv_shape. destruct c; [destruct top; [by specialize (Ht eq_refl)|]|]; case_red; cbn; eexists _, _; (split; [reflexivity|]); cbn; rewrite ?Hred; eauto 10.
Qed.

Lemma at_left_ok top c l x r n l' s : shape (Node c l x r) n -> (top = true -> c = Black) ->
  (forall k, shape l k -> left_over l l' s k) -> exists t' s', at_left top c x r (l', s) = Ret (t', s') /\ left_over (Node c l x r) t' s' n.
Proof.
  intros Hs Ht Hl. unfold at_left. cbn [fst snd]. destruct s.
  - inversion Hs as [|? ? ? k H1 H2 H3|? ? ? k H1 H2 H3 H4]; subst; destruct (Hl _ H1) as (G1 & G2 & m & -> & G3).
    + edestruct (unwind_left_ok top Black l' x r m) as (t' & s' & -> & Ho); eauto.
    + edestruct (unwind_left_ok top Red l' x r m) as (t' & s' & -> & Ho); eauto.
  - eexists _, _. split; [reflexivity|]. cbn. inversion Hs as [|? ? ? k H1 H2 H3|? ? ? k H1 H2 H3 H4]; subst; destruct (Hl _ H1) as (G1 & G2); eauto.
  - eexists _, _. split; [reflexivity|]. cbn. inversion Hs as [|? ? ? k H1 H2 H3|? ? ? k H1 H2 H3 H4]; subst; destruct (Hl _ H1) as (G1 & -> & ->); [|congruence]. eauto.
Qed.

Lemma at_right_ok top c l x r n r' s y : shape (Node c l x r) n -> (top = true -> c = Black) ->
  (forall k, shape r k -> left_over r r' s k) -> exists t' s', at_right top c l y (r', s) = Ret (t', s') /\ left_over (Node c l x r) t' s' n.
Proof.
  intros Hs Ht Hr. unfold at_right. cbn [fst snd].
  assert (Hb : rbtn_red_get r = false) by (by inversion Hs). destruct s.
  - inversion Hs as [|? ? ? k H1 H2 H3|? ? ? k H1 H2 H3 H4]; subst; destruct (Hr _ H2) as (G1 & G2 & m & -> & G3).
    + edestruct (unwind_right_ok top Black l y r' m) as (t' & s' & -> & Ho); eauto. done.
    + edestruct (unwind_right_ok top Red l y r' m) as (t' & s' & -> & Ho); eauto.
  - eexists _, _. split; [reflexivity|]. cbn. inversion Hs as [|? ? ? k H1 H2 H3|? ? ? k H1 H2 H3 H4]; subst; destruct (Hr _ H2) as (G1 & G2); specialize (G2 Hb); eauto.
  - inversion Hs as [|? ? ? k H1 H2 H3|? ? ? k H1 H2 H3 H4]; subst; destruct (Hr _ H2) as (G1 & _); congruence.
Qed.

Lemma prune_ok c x r n : shape (Node c Nil x r) n -> left_over (Node c Nil x r) (prune c).1 (prune c).2 n /\ r = Nil.
Proof.
  intros Hs. inversion Hs as [|? ? ? k H1 H2 H3|? ? ? k H1 H2 H3 H4]; subst; inv_shape; inversion H2; subst; cbn in *; try discriminate; eauto 10.
Qed.

Lemma shape_fun (t : rbt) n k : shape t n -> shape t k -> n = k.
Proof. intros H. revert k. induction H; intros k' H'; inversion H'; subst; [done|f_equal|]; auto. Qed.

Lemma take_first_ok t : forall n, shape t n -> t <> Nil ->
  exists y t' s, take_first t = Ret (y, (t', s)) /\ (forall k, shape t k -> left_over t t' s k).
Proof.
  induction t as [|c l IHl x r _]; intros n Hs Hn; [done|]. destruct l as [|lc ll ly lr].
  - destruct (prune_ok c x r n Hs) as [Ho ->]. exists x, (prune c).1, (prune c).2. split; [by destruct c|]. intros k Hk. by rewrite <- (shape_fun _ _ _ Hs Hk).
  - set (l := Node lc ll ly lr) in *.
    assert (Hl : exists m, shape l m) by (inversion Hs; eauto). destruct Hl as [m Hl]. destruct (IHl m Hl ltac:(done)) as (y & l' & s & Ht & Ho).
    destruct (at_left_ok false c l x r n l' s Hs ltac:(done) Ho) as (t' & s' & Hat & Ho'). exists y, t', s'. split.
    + change (take_first (Node c l x r)) with (obind (take_first l) (fun '(y, s) => obind (at_left false c x r s) (fun s => Ret (y, s)))). rewrite Ht. cbn [obind]. by rewrite Hat.
    + intros k Hk. by rewrite <- (shape_fun _ _ _ Hs Hk).
Qed.
(** * Order *)


Lemma rotate_left_elements (t t' : rbt) : rbtn_rotate_left t = Ret t' -> elements t' = elements t.
Proof. destruct t as [|c a x [|d b y e]]; try done. intros [= <-]. cbn. by rewrite <- app_assoc. Qed.
Lemma rotate_right_elements (t t' : rbt) : rbtn_rotate_right t = Ret t' -> elements t' = elements t.
Proof. destruct t as [|c [|d a x b] y e]; try done. intros [= <-]. cbn. by rewrite <- app_assoc. Qed.

Ltac elements_steps :=
  repeat match goal with
  | H : Ret _ = Ret _ |- _ => injection H as <- <-
  | H : Fault _ = Ret _ |- _ => discriminate H
  | H : obind _ _ = Ret _ |- _ => apply obind_ret in H as (? & ? & H)
  | H : rbtn_rotate_left _ = Ret _ |- _ => apply rotate_left_elements in H
  | H : rbtn_rotate_right _ = Ret _ |- _ => apply rotate_right_elements in H
  | H : (if ?b then _ else _) = Ret _ |- _ => destruct b
  | H : (match ?x with _ => _ end) = Ret _ |- _ => destruct x
  end.
Ltac elements_eq := cbn in *; rewrite ?elements_color_set, <- ?app_assoc in *; cbn in *.

Lemma unwind_left_elements top c l x r t' s : unwind_left top c l x r = Ret (t', s) -> elements t' = elements l ++ x :: elements r.
Proof.
  unfold unwind_left. intros H. apply obind_ret in H as (_ & _ & H). destruct c; elements_steps; elements_eq; try congruence.
  all: repeat match goal with H : elements _ = _ |- _ => rewrite H; clear H; elements_eq end; try done.
Qed.

Lemma unwind_right_elements top c l x r t' s : unwind_right top c l x r = Ret (t', s) -> elements t' = elements l ++ x :: elements r.
Proof.
  unfold unwind_right. intros H. destruct (rbtn_red_get l).
  - destruct l as [|lc ll y lr]; [done|]. destruct (rbtn_red_get (rbtn_left_get lr)).
    + destruct lr as [|lrc lrl z lrr]; [done|]. cbn [rbtn_rotate_right obind] in H. elements_steps. elements_eq.
      repeat match goal with H : elements _ = _ |- _ => rewrite H; clear H; elements_eq end. done.
    + elements_steps. elements_eq. repeat match goal with H : elements _ = _ |- _ => rewrite H; clear H; elements_eq end. done.
  - destruct l as [|lc ll y lr]; [done|]. destruct c, (rbtn_red_get ll); elements_steps; elements_eq; try done.
    all: repeat match goal with H : elements _ = _ |- _ => rewrite H; clear H; elements_eq end; done.
Qed.

Lemma at_left_elements top c l x r s t' s' : (s = PrunedRed -> l = Nil) -> at_left top c x r (l, s) = Ret (t', s') ->
  elements t' = elements l ++ x :: elements r.
Proof.
  unfold at_left. cbn [fst snd]. destruct s; [intros _; apply unwind_left_elements|by intros _ [= <- _]|]. intros Hl. rewrite Hl by done. by intros [= <- _].
Qed.
Lemma at_right_elements top c l x r s t' s' : at_right top c l x (r, s) = Ret (t', s') -> elements t' = elements l ++ x :: elements r.
Proof. unfold at_right. cbn [fst snd]. destruct s; [apply unwind_right_elements|by intros [= <- _]|done]. Qed.

Lemma take_first_elements t : forall n y t' s, shape t n -> take_first t = Ret (y, (t', s)) -> elements t = y :: elements t'.
Proof.
  induction t as [|c l IHl x r _]; intros n y t' s Hs Ht; [done|]. destruct l as [|lc ll ly lr].
  - destruct (prune_ok c x r n Hs) as [_ ->]. cbn in Ht. by injection Ht as <- <- _.
  - set (l := Node lc ll ly lr) in *.
    change (obind (take_first l) (fun '(y, s) => obind (at_left false c x r s) (fun s => Ret (y, s))) = Ret (y, (t', s))) in Ht.
    assert (Hl : exists m, shape l m) by (inversion Hs; eauto). destruct Hl as [m Hl].
    destruct (take_first_ok l m Hl ltac:(done)) as (z & l' & sl & Htl & Ho). rewrite Htl in Ht. cbn in Ht. apply obind_ret in Ht as ([u su] & Hat & [= -> -> ->]).
    apply at_left_elements in Hat; [|intros ->; by destruct (Ho m Hl) as (_ & -> & _)]. rewrite Hat. cbn [elements]. by rewrite (IHl _ _ _ _ Hl Htl).
Qed.

(** * The removal *)

Section Keyed.
Context (key : N -> Z) (cmp : N -> N -> Z) (same : N -> N -> bool).
Context (Hcmp : compares_key key cmp) (Hsame : forall x, same x x = true).

Lemma sorted_child c l x r y : sorted key (Node c l x r) -> y ∈ elements (Node c l x r) ->
  (cmp y x <? 0 = true /\ y ∈ elements l) \/ (cmp y x <? 0 = false /\ cmp y x =? 0 = true /\ y = x) \/ (cmp y x <? 0 = false /\ cmp y x =? 0 = false /\ y ∈ elements r).
Proof.
  intros (_ & _ & Hl & Hr)%sorted_node Hy. cbn in Hy. apply elem_of_app in Hy as [Hy|[->|Hy]%elem_of_cons].
  - left. split; [|done]. apply Z.ltb_lt, Hcmp. auto.
  - right; left. destruct (Hcmp x x) as [H0 Hlt]. split; [apply Z.ltb_ge; destruct (Z.lt_ge_cases (cmp x x) 0) as [E|]; [apply Hlt in E; lia|done]|]. split; [|done]. by apply Z.eqb_eq, H0.
  - right; right. specialize (Hr _ Hy). destruct (Hcmp y x) as [H0 Hlt]. split; [|split; [|done]].
    + apply Z.ltb_ge. destruct (Z.lt_ge_cases (cmp y x) 0) as [E|]; [apply Hlt in E; lia|done].
    + apply Z.eqb_neq. intros E. apply H0 in E. lia.
Qed.

Lemma rb_rem_ok t : forall n top node, shape t n -> sorted key t -> node ∈ elements t -> (top = true -> rbtn_red_get t = false) ->
  exists t' s l1 l2, rb_rem cmp same node top t = Ret (t', s) /\ ((forall k, shape t k -> left_over t t' s k) \/ (top = true /\ t' = Nil /\ s = Returned)) /\
    elements t = l1 ++ node :: l2 /\ elements t' = l1 ++ l2.
Proof.
  induction t as [|c l IHl x r IHr]; intros n top node Hs Hso Hin Htop; [by apply elem_of_nil in Hin|].
  assert (Hc : top = true -> c = Black) by (intros E; specialize (Htop E); by destruct c).
  assert (Hch : exists m, shape l m /\ shape r m) by (inversion Hs; eauto). destruct Hch as (m & Hl & Hr).
  pose proof Hso as (Sl & Sr & _ & _)%sorted_node. cbn [rb_rem]. destruct (sorted_child c l x r node Hso Hin) as [[-> Hy]|[(-> & -> & ->)|(-> & -> & Hy)]].
  - destruct (IHl m false node Hl Sl Hy ltac:(done)) as (l' & s & l1 & l2 & -> & [Ho|[? _]] & He & He'); [|done]. cbn [obind].
    destruct (at_left_ok top c l x r n l' s Hs Hc Ho) as (t' & s' & Hat & Ho'). exists t', s', l1, (l2 ++ x :: elements r). split; [done|]. split.
    + left. intros k Hk. by rewrite <- (shape_fun _ _ _ Hs Hk).
    + apply at_left_elements in Hat; [|intros ->; by destruct (Ho m Hl) as (_ & -> & _)]. rewrite Hat, He'. cbn. rewrite He. by rewrite <- !app_assoc.
  - rewrite Hsame. cbn [check obind]. destruct r as [|rc rl ry rr].
    + destruct l as [|lc ll ly lr].
      * exists (if top then (Nil, Returned) else prune c).1, (if top then (Nil, Returned) else prune c).2, [], []. split; [by destruct top, c|]. split; [|by destruct top, c].
        destruct top; [by right|]. left. intros k Hk. by apply prune_ok in Hk as [? _].
      * assert (c = Black /\ lc = Red) as [-> ->] by (inversion Hr; subst; inversion Hs; subst; inversion Hl; subst; cbn in *; congruence || done).
        eexists _, _, (elements (Node Red ll ly lr)), []. split; [reflexivity|]. rewrite app_nil_r. split; [|done]. left. intros k Hk. cbn.
        inversion Hr; subst. inv_shape. split; [|done]. eauto.
    + set (r := Node rc rl ry rr) in *. destruct (take_first_ok r m Hr ltac:(done)) as (y & r' & s & Ht & Ho). rewrite Ht. cbn [obind].
      destruct (at_right_ok top c l x r n r' s y Hs Hc Ho) as (t' & s' & Hat & Ho'). exists t', s', (elements l), (elements r). split; [done|]. split.
      * left. intros k Hk. by rewrite <- (shape_fun _ _ _ Hs Hk).
      * apply at_right_elements in Hat. split; [done|]. by rewrite Hat, (take_first_elements _ _ _ _ _ Hr Ht).
  - destruct (IHr m false node Hr Sr Hy ltac:(done)) as (r' & s & l1 & l2 & -> & [Ho|[? _]] & He & He'); [|done]. cbn [obind].
    destruct (at_right_ok top c l x r n r' s x Hs Hc Ho) as (t' & s' & Hat & Ho'). exists t', s', (elements l ++ x :: l1), l2. split; [done|]. split.
    + left. intros k Hk. by rewrite <- (shape_fun _ _ _ Hs Hk).
    + apply at_right_elements in Hat. rewrite Hat, He'. cbn. rewrite He. by rewrite <- !app_assoc.
Qed.

Lemma rb_remove_run t node : balanced t -> sorted key t -> node ∈ elements t ->
  exists t' l1 l2, rb_remove cmp same t node = Ret t' /\ balanced t' /\ sorted key t' /\ elements t = l1 ++ node :: l2 /\ elements t' = l1 ++ l2.
Proof.
  intros [Hc [n Hs]] Hso Hin. destruct (rb_rem_ok t n true node Hs Hso Hin ltac:(done)) as (t' & s & l1 & l2 & Hr & Ho & He & He'). exists t', l1, l2.
  unfold rb_remove. rewrite Hr. cbn [obind].
  assert (Hso' : sorted key t').
  { unfold sorted in *. rewrite He in Hso. rewrite He'. apply StronglySorted_app_iff in Hso as (H1 & H2 & H3). apply StronglySorted_inv in H2 as [H2 _].
    apply StronglySorted_app_iff. split; [done|]. split; [done|]. intros a b Ha Hb. apply H3; [done|by right]. }
  destruct Ho as [Ho|(_ & -> & ->)].
  - specialize (Ho n Hs). destruct s; cbn in Ho.
    + destruct Ho as (_ & Hb & m & -> & Hm). rewrite Hb. split; [done|]. split; [split; eauto|done].
    + destruct Ho as [Hm Hb]. split; [done|]. split; [split; eauto|done].
    + destruct Ho as [? _]. congruence.
  - split; [done|]. split; [split; [done|by exists 0%nat]|done].
Qed.
End Keyed.
End Remove.
(** * Iteration *)

Section Iter.
Context {N S : Type} (cb : N -> S -> option N * S).

(** The function is called on the nodes in order until it answers one. *)
Fixpoint rb_iter_recurse (t : rbt N) (s : S) : option N * S :=
  match t with
  | Nil => (None, s)
  | Node _ l x r =>
      match rb_iter_recurse l s with
      | (Some y, s) => (Some y, s)
      | (None, s) => match cb x s with (Some y, s) => (Some y, s) | (None, s) => rb_iter_recurse r s end
      end
  end.

Fixpoint visit (l : list N) (s : S) : option N * S :=
  match l with
  | [] => (None, s)
  | x :: l => match cb x s with (Some y, s) => (Some y, s) | (None, s) => visit l s end
  end.

Lemma visit_app l1 l2 s : visit (l1 ++ l2) s = match visit l1 s with (Some y, s) => (Some y, s) | (None, s) => visit l2 s end.
Proof. revert s. induction l1 as [|x l1 IH]; intros s; cbn; [done|]. destruct (cb x s) as [[y|] s']; [done|apply IH]. Qed.

(** The iteration visits each node once, in order, up to the one that stops
    it. *)
Theorem iter_visits_in_order t s : rb_iter_recurse t s = visit (elements t) s.
Proof.
  revert s. induction t as [|c l IHl x r IHr]; intros s; cbn; [done|]. rewrite visit_app, IHl. destruct (visit (elements l) s) as [[y|] s']; [done|].
  cbn. destruct (cb x s') as [[y|] s'']; [done|apply IHr].
Qed.
End Iter.

(** * The trees of the file system process *)

(** A node is its key and its address. *)
#[local] Notation node := (Z * Z)%type.
(** The comparison of [filelock_tree_cmp], [jobid_tree_cmp] and
    [jobmap_tree_cmp] on valid nodes. *)
Definition key_cmp (a b : node) : Z := if b.1 <? a.1 then 1 else if a.1 <? b.1 then -1 else 0.
Definition same_node (a b : node) : bool := bool_decide (a.2 = b.2).

Lemma key_cmp_compares : compares_key fst key_cmp.
Proof. intros a b. unfold key_cmp. destruct (Z.ltb_spec b.1 a.1), (Z.ltb_spec a.1 b.1); lia. Qed.
Lemma same_node_refl x : same_node x x = true.
Proof. by apply bool_decide_eq_true_2. Qed.

(** A node has its address once in a tree; the search node of a search is on
    the stack. *)
#[export] Instance rb_tree : KeyTree (rbt node) := {
  kt_new := rb_new;
  kt_search t k := snd <$> rb_search key_cmp t (k, 0);
  kt_insert t k a := rb_insert key_cmp t (k, a);
  kt_remove t k a := rb_remove key_cmp same_node t (k, a);
  kt_ok t := balanced t /\ sorted fst t;
  kt_map t := list_to_map (elements t)
}.

Lemma sorted_keys (t : rbt node) : sorted fst t -> NoDup (elements t).*1.
Proof.
  unfold sorted. generalize (elements t). intros l. induction 1 as [|x l' Hs IH Hf]; cbn; constructor; [|done].
  intros ([k a] & Hk & Hin)%list_elem_of_fmap. rewrite list.Forall_forall in Hf. specialize (Hf _ Hin). lia.
Qed.

Lemma rb_map_lookup (t : rbt node) k a : sorted fst t -> (list_to_map (elements t) : gmap Z Z) !! k = Some a <-> (k, a) ∈ elements t.
Proof. intros Hs. by rewrite <- elem_of_list_to_map by (by apply sorted_keys). Qed.

Lemma rb_insert_run (t : rbt node) k a : balanced t -> sorted fst t ->
  match rb_insert key_cmp t (k, a) with
  | Ret t' => balanced t' /\ sorted fst t' /\ elements t' ≡ₚ (k, a) :: elements t /\ (forall y, y ∈ elements t -> y.1 <> k)
  | Fault f => f = AssertFail /\ exists y, y ∈ elements t /\ y.1 = k
  end.
Proof.
  intros Hb Hs. pose proof (rb_ins_spec fst key_cmp key_cmp_compares t (k, a) Hs) as Hi. pose proof (rb_insert_balanced key_cmp t (k, a)) as Hbal.
  unfold rb_insert in *. destruct (rb_ins key_cmp (k, a) t) as [[u []]|f]; [| |exact Hi]; destruct Hi as (H1 & H2 & H3); (split; [by apply Hbal|]); unfold sorted in *; rewrite ?elements_color_set; split_and!; try done.
Qed.

(** C11. The trees that rb.h generates, with the insertion and the removal as they
    are written, are finite maps from keys to nodes: a search answers as the
    map does, the insertion of a new key adds it, the insertion of a key that
    is there fails its assertion, and the removal of a node of the tree takes
    it out; the tree stays balanced and in order. *)
Theorem rb_tree_laws : KeyTreeLaws (rbt node).
Proof.
  split.
  - split; [split; [done|by exists 0%nat; constructor]|constructor].
  - done.
  - intros t k [Hb Hs]. cbn. pose proof (rb_search_spec fst key_cmp key_cmp_compares t (k, 0) Hs) as Hk. cbn in Hk. symmetry.
    destruct (rb_search key_cmp t (k, 0)) as [[k' a]|]; cbn in *; [destruct Hk as [Hin ->]; by apply rb_map_lookup|].
    apply not_elem_of_list_to_map_1. intros ([k' a] & -> & Hin)%list_elem_of_fmap. by apply (Hk _ Hin).
  - intros t k a [Hb Hs] Hk. cbn in *. pose proof (rb_insert_run t k a Hb Hs) as Hi. destruct (rb_insert key_cmp t (k, a)) as [t'|f].
    + destruct Hi as (H1 & H2 & H3 & _). exists t'. split; [done|]. split; [done|]. rewrite (list_to_map_proper _ ((k, a) :: elements t)); [done|by apply sorted_keys|done].
    + destruct Hi as (_ & [k' b] & Hin & Heq). cbn in Heq. subst k'. apply (rb_map_lookup t k b Hs) in Hin. congruence.
  - intros t k a [Hb Hs] [b Hk]. cbn in *. pose proof (rb_insert_run t k a Hb Hs) as Hi. apply (rb_map_lookup t k b Hs) in Hk.
    destruct (rb_insert key_cmp t (k, a)) as [t'|f]; [|by destruct Hi as [-> _]]. destruct Hi as (_ & _ & _ & Hn). by specialize (Hn _ Hk).
  - intros t k a [Hb Hs] Hk. cbn in *. apply (rb_map_lookup t k a Hs) in Hk.
    destruct (rb_remove_run fst key_cmp same_node key_cmp_compares same_node_refl t (k, a) Hb Hs Hk) as (t' & l1 & l2 & Hr & H1 & H2 & He & He').
    exists t'. split; [done|]. split; [done|]. pose proof (sorted_keys t Hs) as Hnd. rewrite He in Hnd |- *. rewrite He'.
    rewrite (list_to_map_proper (l1 ++ (k, a) :: l2) ((k, a) :: l1 ++ l2)); [|done|by rewrite Permutation_middle]. cbn.
    rewrite delete_insert_id; [done|]. apply not_elem_of_list_to_map_1. rewrite fmap_app in Hnd |- *. cbn in Hnd. rewrite <- Permutation_middle in Hnd.
    by apply list.NoDup_cons in Hnd as [? _].
Qed.
End RbRemove.
