(* ===== verification/LockTree.v ===== *)
(** File locks: sfs/include/sfs_lock_tree.h.

    The lock nodes live in a store by address; the tree maps an inode number
    to the address of its node. *)
From stdpp Require Import base gmap list numbers.
From S2P Require Import Prelude KeyTree.

Module LockTree.

Definition RDLOCKED : Z := 1.
Definition WRLOCKED : Z := 2.
Definition UNLOCKED : Z := 3.
Definition LOCKNODE_MAGIC : Z := 0x28071937.

(** [sstack_file_lock_t]; the tree link is part of the tree. *)
Record sstack_file_lock : Type := mkLock {
  magic : Z;
  inode_num : Z;
  lstate : Z;
  lock : bool   (* spin lock, held *)
}.

(** [filelock_tree_cmp] *)
Definition filelock_tree_cmp (node1 node2 : option sstack_file_lock) : Z :=
  match node1, node2 with
  | Some n1, Some n2 =>
      if negb (magic n1 =? LOCKNODE_MAGIC) || negb (magic n2 =? LOCKNODE_MAGIC) then EFAULT
      else Z.b2z (inode_num n2 <? inode_num n1) - Z.b2z (inode_num n1 <? inode_num n2)
  | _, _ => EINVAL
  end.

Section LockTree.
Context {T : Type} `{KeyTree T}.

Record state : Type := mkState {
  tree : T;                               (* filelock_tree *)
  locks : gmap Z sstack_file_lock;        (* the nodes, by address *)
  filelock_lock : bool;                   (* spin lock, held *)
  errno : Z
}.

Definition set_tree (t : T) (s : state) : state := mkState t (locks s) (filelock_lock s) (errno s).
Definition set_locks (l : gmap Z sstack_file_lock) (s : state) : state :=
  mkState (tree s) l (filelock_lock s) (errno s).
Definition set_errno (e : Z) : cprog state unit :=
  cmod (fun s => mkState (tree s) (locks s) (filelock_lock s) e).

Definition tree_lock : cprog state unit := fun s =>
  if filelock_lock s then Fault Deadlock else Ret (tt, mkState (tree s) (locks s) true (errno s)).
Definition tree_unlock : cprog state unit :=
  cmod (fun s => mkState (tree s) (locks s) false (errno s)).

Definition load (a : Z) : cprog state sstack_file_lock := fun s =>
  match locks s !! a with Some n => Ret (n, s) | None => Fault OutOfBounds end.
Definition store (a : Z) (n : sstack_file_lock) : cprog state unit :=
  cmod (fun s => set_locks (<[a := n]> (locks s)) s).

Definition node_lock (a : Z) : cprog state unit :=
  (let! n := load a in
   if lock n then cfault Deadlock else store a (mkLock (magic n) (inode_num n) (lstate n) true))%cprog.
Definition node_unlock (a : Z) : cprog state unit :=
  (let! n := load a in store a (mkLock (magic n) (inode_num n) (lstate n) false))%cprog.
Definition set_lstate (a st : Z) : cprog state unit :=
  (let! n := load a in store a (mkLock (magic n) (inode_num n) st (lock n)))%cprog.
Definition set_inode_num (a i : Z) : cprog state unit :=
  (let! n := load a in store a (mkLock (magic n) i (lstate n) (lock n)))%cprog.

(** [filelock_tree_search(filelock_tree, &node)] *)
Definition filelock_tree_search (inode : Z) : cprog state (option Z) := fun s =>
  Ret (kt_search (tree s) inode, s).
(** [filelock_tree_insert(filelock_tree, node)] and
    [filelock_tree_remove(filelock_tree, node)] *)
Definition filelock_tree_insert (a : Z) : cprog state unit :=
  (let! n := load a in let! s := cget in
   let! t := of_outcome (kt_insert (tree s) (inode_num n) a) in cmod (set_tree t))%cprog.
Definition filelock_tree_remove (a : Z) : cprog state unit :=
  (let! n := load a in let! s := cget in
   let! t := of_outcome (kt_remove (tree s) (inode_num n) a) in cmod (set_tree t))%cprog.

(** [mem] is what [malloc] returns; 0 is NULL. [inode_num] is not set. *)
Definition create_filelocktree_node (mem junk : Z) : cprog state (option Z) :=
  if mem =? 0 then cret None
  else (store mem (mkLock LOCKNODE_MAGIC junk UNLOCKED false) ;;; cret (Some mem))%cprog.

Definition sfs_filelock_context_insert (mem junk inode : Z) : cprog state Z :=
  if inode <? 0 then (set_errno EINVAL ;;; cret (-1))%cprog
  else
    (let! node := create_filelocktree_node mem junk in
     match node with
     | None => cret (-1)
     | Some a =>
         set_inode_num a inode ;;;
         tree_lock ;;; filelock_tree_insert a ;;; tree_unlock ;;; cret 0
     end)%cprog.

Definition sfs_filelock_context_remove (inode : Z) : cprog state unit :=
  if inode <? 0 then set_errno EINVAL
  else
    (tree_lock ;;;
     let! node := filelock_tree_search inode in
     match node with
     | None => set_errno EFAULT ;;; tree_unlock
     | Some a => filelock_tree_remove a ;;; tree_unlock ;;; set_errno 0
     end)%cprog.

(** A new node in the given state, inserted: the branch of [sfs_rdlock] and
    [sfs_wrlock] for an inode without a node. [filelock_lock] is held. *)
Definition lock_new (mem junk inode st : Z) : cprog state Z :=
  (let! node := create_filelocktree_node mem junk in
   match node with
   | None => set_errno ENOMEM ;;; tree_unlock ;;; cret (-1)
   | Some a =>
       set_inode_num a inode ;;;
       node_lock a ;;; set_lstate a st ;;; node_unlock a ;;;
       filelock_tree_insert a ;;; tree_unlock ;;; cret 0
   end)%cprog.

Definition sfs_rdlock (mem junk inode : Z) : cprog state Z :=
  if inode <? 0 then (set_errno EINVAL ;;; cret (-1))%cprog
  else
    (tree_lock ;;;
     let! file_lock := filelock_tree_search inode in
     match file_lock with
     | None => lock_new mem junk inode RDLOCKED
     | Some a =>
         node_lock a ;;;
         let! n := load a in
         if lstate n =? RDLOCKED then node_unlock a ;;; tree_unlock ;;; cret 0
         else if lstate n =? WRLOCKED then
           set_errno EAGAIN ;;; node_unlock a ;;; tree_unlock ;;; cret (-1)
         else if lstate n =? UNLOCKED then
           set_lstate a RDLOCKED ;;; node_unlock a ;;;
           filelock_tree_insert a ;;; tree_unlock ;;; cret 0
         else (* default: locks the node a second time *)
           node_lock a ;;; tree_unlock ;;; cret (-1)
     end)%cprog.

(** The part of [sfs_wrlock] that runs after [filelock_lock] was released. *)
Definition wrlock_found (a : Z) : cprog state Z :=
  (node_lock a ;;;
   let! n := load a in
   if lstate n =? RDLOCKED then set_errno EAGAIN ;;; node_unlock a ;;; cret (-1)
   else if lstate n =? WRLOCKED then set_errno EAGAIN ;;; node_unlock a ;;; cret (-1)
   else if lstate n =? UNLOCKED then
     set_lstate a WRLOCKED ;;; node_unlock a ;;; filelock_tree_insert a ;;; cret 0
   else node_lock a ;;; cret (-1))%cprog.

(** The part before: a result, or the node found. *)
Definition wrlock_search (mem junk inode : Z) : cprog state (Z + Z) :=
  (tree_lock ;;;
   let! file_lock := filelock_tree_search inode in
   match file_lock with
   | None => let! r := lock_new mem junk inode WRLOCKED in cret (inl r)
   | Some a => tree_unlock ;;; cret (inr a)
   end)%cprog.

Definition sfs_wrlock (mem junk inode : Z) : cprog state Z :=
  if inode <? 0 then (set_errno EINVAL ;;; cret (-1))%cprog
  else (let! f := wrlock_search mem junk inode in
        match f with inl r => cret r | inr a => wrlock_found a end)%cprog.

Definition sfs_unlock (inode : Z) : cprog state Z :=
  if inode <? 0 then (set_errno EINVAL ;;; cret (-1))%cprog
  else
    (tree_lock ;;;
     let! file_lock := filelock_tree_search inode in
     match file_lock with
     | None => set_errno ENOENT ;;; tree_unlock ;;; cret (-1)
     | Some a =>
         node_lock a ;;; set_lstate a UNLOCKED ;;; node_unlock a ;;;
         filelock_tree_remove a ;;; tree_unlock ;;; cret 0
     end)%cprog.

(** * The abstract locks

    What a client sees: an inode is free, locked for reading or locked for
    writing. *)

Inductive mode : Set := Rd | Wr.
Definition code (m : mode) : Z := match m with Rd => RDLOCKED | Wr => WRLOCKED end.

Inductive lop : Set :=
  | RdLock (mem inode : Z)
  | WrLock (mem inode : Z)
  | Unlock (inode : Z).

Definition run_lop (o : lop) : cprog state Z :=
  match o with
  | RdLock mem i => sfs_rdlock mem 0 i
  | WrLock mem i => sfs_wrlock mem 0 i
  | Unlock i => sfs_unlock i
  end.

Fixpoint run_lops (os : list lop) : cprog state (list Z) :=
  match os with
  | [] => cret []
  | o :: os' => (let! r := run_lop o in let! rs := run_lops os' in cret (r :: rs))%cprog
  end.

(** The return value, errno after the call, and the locks after it. *)
Definition spec_take (w : mode) (mem i e : Z) (m : gmap Z mode) : Z * Z * gmap Z mode :=
  match m !! i, w with
  | None, _ => if mem =? 0 then (-1, ENOMEM, m) else (0, e, <[i := w]> m)
  | Some Rd, Rd => (0, e, m)
  | Some _, _ => (-1, EAGAIN, m)
  end.

Definition spec_lop (o : lop) (e : Z) (m : gmap Z mode) : Z * Z * gmap Z mode :=
  match o with
  | RdLock mem i => spec_take Rd mem i e m
  | WrLock mem i => spec_take Wr mem i e m
  | Unlock i => match m !! i with
                | None => (-1, ENOENT, m)
                | Some _ => (0, e, delete i m)
                end
  end.

Fixpoint spec_lops (os : list lop) (e : Z) (m : gmap Z mode) : list Z * gmap Z mode :=
  match os with
  | [] => ([], m)
  | o :: os' => let '(r, e', m') := spec_lop o e m in
                let '(rs, m'') := spec_lops os' e' m' in (r :: rs, m'')
  end.

(** The tree holds a node for every locked inode and for no other one. *)
Record rep (s : state) (m : gmap Z mode) : Prop := {
  rep_ok : kt_ok (tree s);
  rep_free : filelock_lock s = false;
  rep_locked i md : m !! i = Some md ->
    exists a, kt_map (tree s) !! i = Some a /\
      locks s !! a = Some (mkLock LOCKNODE_MAGIC i (code md) false);
  rep_unlocked i : m !! i = None -> kt_map (tree s) !! i = None
}.

(** Inode numbers are unsigned, and [malloc] returns fresh memory or NULL. *)
Definition lop_inode (o : lop) : Z :=
  match o with RdLock _ i => i | WrLock _ i => i | Unlock i => i end.
Definition lop_mem (o : lop) : Z :=
  match o with RdLock mem _ => mem | WrLock mem _ => mem | Unlock _ => 0 end.
Definition legal_lop (s : state) (o : lop) : Prop :=
  0 <= lop_inode o /\ (lop_mem o = 0 \/ locks s !! lop_mem o = None).

Context {L : KeyTreeLaws T}.

Lemma rep_distinct s m i j a md md' :
  rep s m -> kt_map (tree s) !! i = Some a -> kt_map (tree s) !! j = Some a ->
  m !! i = Some md -> m !! j = Some md' -> i = j.
Proof.
  intros Hr Hi Hj Hmi Hmj.
  destruct (rep_locked _ _ Hr _ _ Hmi) as (b & Hb1 & Hb2).
  destruct (rep_locked _ _ Hr _ _ Hmj) as (c & Hc1 & Hc2). by simplify_eq.
Qed.

(** The branch for an inode without a node. *)
Lemma lock_new_run s m mem junk i md :
  rep s m -> m !! i = None -> (mem = 0 \/ locks s !! mem = None) ->
  exists s', lock_new mem junk i (code md) (mkState (tree s) (locks s) true (errno s))
      = Ret ((if mem =? 0 then -1 else 0), s') /\
    errno s' = (if mem =? 0 then ENOMEM else errno s) /\
    rep s' (if mem =? 0 then m else <[i := md]> m) /\
    (forall a, a <> mem -> locks s' !! a = locks s !! a).
Proof.
  intros Hr Hi Hmem. unfold lock_new, create_filelocktree_node.
  destruct (Z.eqb_spec mem 0) as [->|Hne].
  { eexists. split; [reflexivity|]. simpl. split_and!; [done| |done]. by destruct Hr. }
  destruct Hmem as [?|Hmem]; [done|].
  destruct (kt_insert_new (tree s) i mem (rep_ok _ _ Hr) (rep_unlocked _ _ Hr _ Hi)) as (t' & Ht & Hok & Hmap).
  unfold set_inode_num, node_lock, set_lstate, node_unlock, filelock_tree_insert, store, load, cget, cmod,
    of_outcome, cbind, cret.
  repeat (simpl; rewrite ?lookup_insert_eq, ?Ht).
  eexists. split; [reflexivity|]. simpl. split_and!; [done| |].
  - split; simpl; [done|done| |].
    + intros j md'. rewrite Hmap. destruct (decide (i = j)) as [<-|Hij].
      * rewrite !lookup_insert_eq. intros [= <-]. exists mem. split; [done|]. by rewrite lookup_insert_eq.
      * rewrite !lookup_insert_ne by done. intros Hj. destruct (rep_locked _ _ Hr _ _ Hj) as (b & Hb1 & Hb2).
        exists b. split; [done|]. assert (mem <> b) by congruence. by rewrite !lookup_insert_ne.
    + intros j. rewrite Hmap. destruct (decide (i = j)) as [<-|Hij]; [by rewrite lookup_insert_eq|].
      rewrite !lookup_insert_ne by done. apply (rep_unlocked _ _ Hr).
  - intros a Ha. by rewrite !lookup_insert_ne.
Qed.

(** Rewriting a node with what it already says. *)
Lemma rep_touch s m i a md e :
  rep s m -> m !! i = Some md -> kt_map (tree s) !! i = Some a ->
  rep (mkState (tree s) (<[a := mkLock LOCKNODE_MAGIC i (code md) false]> (locks s)) false e) m.
Proof.
  intros Hr Hm Ha. split; simpl; [by destruct Hr|done| |by destruct Hr].
  intros j md' Hj. destruct (rep_locked _ _ Hr _ _ Hj) as (b & Hb1 & Hb2).
  exists b. split; [done|]. destruct (decide (a = b)) as [->|].
  - rewrite lookup_insert_eq. assert (i = j) as <- by (by eapply rep_distinct). congruence.
  - by rewrite lookup_insert_ne.
Qed.

Lemma insert_dom_iff {A} (l : gmap Z A) a n b x :
  l !! a = Some n -> <[a := x]> l !! b = None <-> l !! b = None.
Proof.
  intros Ha. destruct (decide (a = b)) as [<-|]; [|by rewrite lookup_insert_ne].
  rewrite lookup_insert_eq, Ha. done.
Qed.

Ltac run_locks :=
  unfold filelock_tree_search, set_lstate, node_lock, node_unlock, filelock_tree_insert,
    filelock_tree_remove, tree_lock, tree_unlock, set_errno, store, load, cget, cmod, of_outcome, cbind, cret;
  repeat (simpl; rewrite ?lookup_insert_eq, ?insert_insert_eq).

Definition take_op (w : mode) (mem i : Z) : lop :=
  match w with Rd => RdLock mem i | Wr => WrLock mem i end.

(** Taking a lock on a free inode. *)
Lemma take_new s m mem i w :
  rep s m -> 0 <= i -> m !! i = None -> (mem = 0 \/ locks s !! mem = None) ->
  exists s', run_lop (take_op w mem i) s = Ret ((if mem =? 0 then -1 else 0), s') /\
    errno s' = (if mem =? 0 then ENOMEM else errno s) /\
    rep s' (if mem =? 0 then m else <[i := w]> m) /\
    (forall a, a <> mem -> locks s' !! a = locks s !! a).
Proof.
  intros Hr Hi Hm Hmem.
  assert (Hneg : (i <? 0) = false) by (apply Z.ltb_ge; lia).
  assert (Hs : kt_search (tree s) i = None)
    by (rewrite kt_search_map by (by destruct Hr); by apply (rep_unlocked _ _ Hr)).
  destruct (lock_new_run s m mem 0 i w Hr Hm Hmem) as (s' & Hrun & He & Hr' & Hd).
  exists s'. split_and!; [|done..].
  destruct w; cbn [run_lop take_op]; unfold sfs_rdlock, sfs_wrlock, wrlock_search; rewrite Hneg;
    unfold cbind, tree_lock, filelock_tree_search; rewrite (rep_free _ _ Hr); simpl; rewrite Hs;
    simpl in Hrun; unfold cbind; rewrite Hrun; done.
Qed.

(** Unlocking a locked inode takes its node out of the tree; the node stays
    allocated. *)
Lemma unlock_run s m i a md :
  rep s m -> 0 <= i -> m !! i = Some md -> kt_map (tree s) !! i = Some a ->
  exists s', sfs_unlock i s = Ret (0, s') /\ errno s' = errno s /\ rep s' (delete i m) /\
    locks s' = <[a := mkLock LOCKNODE_MAGIC i UNLOCKED false]> (locks s).
Proof.
  intros Hr Hi Hm Ha1. destruct (rep_locked _ _ Hr _ _ Hm) as (a' & Ha' & Ha2).
  rewrite Ha1 in Ha'. injection Ha' as <-.
  assert (Hneg : (i <? 0) = false) by (apply Z.ltb_ge; lia).
  unfold sfs_unlock. rewrite Hneg. unfold cbind at 1, tree_lock. rewrite (rep_free _ _ Hr).
  unfold cbind at 1, filelock_tree_search. cbn [tree].
  rewrite kt_search_map by (by destruct Hr). rewrite Ha1. run_locks. rewrite Ha2. run_locks.
  destruct (kt_remove_map _ _ _ (rep_ok _ _ Hr) Ha1) as (t' & -> & Hok & Hmap). run_locks.
  eexists. split; [reflexivity|]. simpl. split_and!; [done| |done].
  split; simpl; [done|done| |].
  - intros j md'. rewrite Hmap. destruct (decide (i = j)) as [->|Hij]; [by rewrite lookup_delete_eq|].
    rewrite !lookup_delete_ne by done. intros Hj. destruct (rep_locked _ _ Hr _ _ Hj) as (b & Hb1 & Hb2).
    exists b. split; [done|]. rewrite lookup_insert_ne; [done|]. intros ->.
    apply Hij. by eapply rep_distinct.
  - intros j. rewrite Hmap. destruct (decide (i = j)) as [->|Hij]; [by rewrite !lookup_delete_eq|].
    rewrite !lookup_delete_ne by done. apply (rep_unlocked _ _ Hr).
Qed.

(** Taking a lock follows its specification. *)
Lemma take_refines s m mem i w :
  rep s m -> 0 <= i -> (mem = 0 \/ locks s !! mem = None) ->
  let '(r, e, m') := spec_take w mem i (errno s) m in
  exists s', run_lop (take_op w mem i) s = Ret (r, s') /\
    errno s' = e /\ rep s' m' /\ (forall a, a <> mem -> locks s' !! a = None <-> locks s !! a = None).
Proof.
  intros Hr Hi Hmem.
  assert (Hneg : (i <? 0) = false) by (apply Z.ltb_ge; lia).
  destruct (m !! i) as [md|] eqn:Hm; unfold spec_take; rewrite Hm.
  - destruct (rep_locked _ _ Hr _ _ Hm) as (a & Ha1 & Ha2).
    assert (Hs : kt_search (tree s) i = Some a) by (rewrite kt_search_map by (by destruct Hr); done).
    assert (Hd : forall x b, <[a := x]> (locks s) !! b = None <-> locks s !! b = None)
      by (intros; by eapply insert_dom_iff).
    destruct w, md; cbn [run_lop take_op]; unfold sfs_rdlock, sfs_wrlock, wrlock_search, wrlock_found; rewrite Hneg;
      run_locks; rewrite (rep_free _ _ Hr); simpl; rewrite Hs; run_locks; rewrite Ha2; run_locks;
      (eexists; split; [reflexivity|]; split_and!; [done| |intros; apply Hd]);
      exact (rep_touch s m i a _ _ Hr Hm Ha1).
  - destruct (take_new s m mem i w Hr Hi Hm Hmem) as (s' & Hrun & He & Hr' & Hd).
    assert (Hgo : exists s', run_lop (take_op w mem i) s = Ret ((if mem =? 0 then -1 else 0), s') /\
      errno s' = (if mem =? 0 then ENOMEM else errno s) /\
      rep s' (if mem =? 0 then m else <[i := w]> m) /\
      (forall a, a <> mem -> locks s' !! a = None <-> locks s !! a = None)).
    { exists s'. split_and!; [done..|]. intros a Ha. by rewrite Hd. }
    destruct (mem =? 0), w; exact Hgo.
Qed.

Lemma lop_refines s m o :
  rep s m -> legal_lop s o ->
  let '(r, e, m') := spec_lop o (errno s) m in
  exists s', run_lop o s = Ret (r, s') /\ errno s' = e /\ rep s' m' /\
    (forall a, a <> lop_mem o -> locks s' !! a = None <-> locks s !! a = None).
Proof.
  intros Hr [Hi Hmem]. destruct o as [mem i|mem i|i]; simpl in *.
  - by apply (take_refines s m mem i Rd).
  - by apply (take_refines s m mem i Wr).
  - destruct (m !! i) as [md|] eqn:Hm.
    + destruct (rep_locked _ _ Hr _ _ Hm) as (a & Ha1 & Ha2).
      destruct (unlock_run s m i a md Hr Hi Hm Ha1) as (s' & Hrun & He & Hr' & Hl).
      exists s'. split_and!; [done..|]. intros b _. rewrite Hl. exact (insert_dom_iff _ _ _ _ _ Ha2).
    + assert (Hneg : (i <? 0) = false) by (apply Z.ltb_ge; lia).
      unfold sfs_unlock. rewrite Hneg. unfold cbind at 1, tree_lock. rewrite (rep_free _ _ Hr).
      unfold cbind at 1, filelock_tree_search. cbn [tree]. rewrite kt_search_map by (by destruct Hr).
      rewrite (rep_unlocked _ _ Hr _ Hm). run_locks. eexists. split; [reflexivity|].
      split_and!; [done| |done]. by destruct Hr.
Qed.

(** A sequence of calls may run: each one gets memory that no node uses. *)
Definition legal_lops (s : state) (os : list lop) : Prop :=
  Forall (fun o => 0 <= lop_inode o) os /\
  NoDup (List.filter (fun a => negb (a =? 0)) (lop_mem <$> os)) /\
  Forall (fun o => lop_mem o = 0 \/ locks s !! lop_mem o = None) os.

Lemma legal_lops_cons s o os :
  legal_lops s (o :: os) ->
  legal_lop s o /\
  forall s', (forall a, a <> lop_mem o -> locks s' !! a = None <-> locks s !! a = None) ->
    legal_lops s' os.
Proof.
  intros ([H1 H1']%list.Forall_cons & H2 & [H3 H3']%list.Forall_cons). split; [done|].
  intros s' Hs'. rewrite fmap_cons in H2. simpl in H2. split_and!; [done| |].
  - destruct (negb (lop_mem o =? 0)); [by apply list.NoDup_cons in H2 as [_ ?]|done].
  - rewrite list.Forall_forall in H3' |- *. intros o' Ho'. destruct (H3' o' Ho') as [|Hn]; [by left|].
    destruct (decide (lop_mem o' = 0)) as [|Hnz]; [by left|]. right. apply Hs'; [|done]. intros He.
    rewrite <- He in H2. rewrite (proj2 (Z.eqb_neq _ _) Hnz) in H2. simpl in H2.
    apply list.NoDup_cons in H2 as [H2 _]. apply H2, list_elem_of_In, filter_In. split.
    + apply list_elem_of_In. by apply list_elem_of_fmap_2.
    + by rewrite (proj2 (Z.eqb_neq _ _) Hnz).
Qed.

Lemma lops_refine s m os :
  rep s m -> legal_lops s os ->
  exists s', run_lops os s = Ret ((spec_lops os (errno s) m).1, s') /\
    rep s' (spec_lops os (errno s) m).2.
Proof.
  revert s m. induction os as [|o os IH]; intros s m Hr Hl; [simpl; eauto|].
  destruct (legal_lops_cons _ _ _ Hl) as [Ho Hos]. pose proof (lop_refines s m o Hr Ho) as Hstep.
  cbn [spec_lops run_lops]. destruct (spec_lop o (errno s) m) as [[r e] m'].
  destruct Hstep as (s1 & Hrun & <- & Hr1 & Hd).
  destruct (IH s1 m' Hr1 (Hos s1 Hd)) as (s2 & Hrun2 & Hr2).
  destruct (spec_lops os (errno s1) m') as [rs m'']; simpl in *.
  exists s2. split; [|done]. unfold cbind. by rewrite Hrun, Hrun2.
Qed.

(** Nothing but its own unlock takes a write lock away. *)
Lemma spec_keeps_wr os i e m :
  m !! i = Some Wr -> Unlock i ∉ os -> (spec_lops os e m).2 !! i = Some Wr.
Proof.
  revert e m. induction os as [|o os IH]; intros e m Hm Hn; simpl; [done|].
  destruct (spec_lop o e m) as [[r e'] m'] eqn:E.
  assert (Hm' : m' !! i = Some Wr).
  { destruct o as [mem j|mem j|j]; simpl in E; unfold spec_take in E;
      destruct (m !! j) as [[]|] eqn:Hj; try (destruct (mem =? 0)); simplify_eq; try done;
      try (rewrite lookup_insert_ne by (intros ->; congruence); done);
      rewrite lookup_delete_ne by (intros ->; apply Hn; constructor); done. }
  pose proof (IH e' m' Hm') as Hrest. destruct (spec_lops os e' m'); simpl in *. apply Hrest. set_solver.
Qed.

Lemma spec_lops_app os os' e m :
  exists e', (spec_lops (os ++ os') e m).2 = (spec_lops os' e' (spec_lops os e m).2).2 /\
    (spec_lops (os ++ os') e m).1
      = (spec_lops os e m).1 ++ (spec_lops os' e' (spec_lops os e m).2).1.
Proof.
  revert e m. induction os as [|o os IH]; intros e m; simpl.
  - exists e. by destruct (spec_lops os' e m).
  - destruct (spec_lop o e m) as [[r e1] m1]. destruct (IH e1 m1) as (e' & H1 & H2).
    exists e'. destruct (spec_lops (os ++ os') e1 m1), (spec_lops os e1 m1). simpl in *. by subst.
Qed.

(** C2. Every sequence of lock, and unlock calls that runs to the end of each call
    before the next one starts returns what the abstract locks return, and
    leaves a node in the tree exactly for the locked inodes: a free inode can
    be locked, a read lock can be taken again, everything else is refused with
    EAGAIN, and an unlock frees the inode or is refused with ENOENT. *)
Theorem locks_refine s m os :
  rep s m -> legal_lops s os ->
  exists s', run_lops os s = Ret ((spec_lops os (errno s) m).1, s') /\
    rep s' (spec_lops os (errno s) m).2.
Proof. apply lops_refine. Qed.

(** C8. While an inode is locked for writing and nobody unlocks it, whatever else
    is called, a read lock and a write lock on it are refused. *)
Theorem wrlock_excludes s m i os mem o :
  rep s m -> m !! i = Some Wr -> Unlock i ∉ os -> legal_lops s (os ++ [o]) ->
  o = RdLock mem i \/ o = WrLock mem i ->
  exists rs s', run_lops (os ++ [o]) s = Ret (rs ++ [-1], s').
Proof.
  intros Hr Hm Hn Hl Ho. destruct (lops_refine s m _ Hr Hl) as (s' & Hrun & _).
  destruct (spec_lops_app os [o] (errno s) m) as (e' & _ & Hres).
  pose proof (spec_keeps_wr os i (errno s) m Hm Hn) as Hwr.
  exists (spec_lops os (errno s) m).1, s'. rewrite Hrun, Hres. do 3 f_equal.
  destruct Ho as [-> | ->]; simpl; unfold spec_take; rewrite Hwr; done.
Qed.

(** Read locks are not counted: with two readers inside, the unlock of the
    first one frees the inode and a writer gets in beside the second. *)
Theorem unlock_drops_all_readers s m i mem mem' :
  rep s m -> m !! i = None -> mem <> 0 -> mem' <> 0 ->
  legal_lops s [RdLock mem i; RdLock 0 i; Unlock i; WrLock mem' i] ->
  exists s', run_lops [RdLock mem i; RdLock 0 i; Unlock i; WrLock mem' i] s = Ret ([0; 0; 0; 0], s') /\
    rep s' (<[i := Wr]> m).
Proof.
  intros Hr Hm Hne Hne' Hl. destruct (lops_refine s m _ Hr Hl) as (s' & Hrun & Hr').
  exists s'. cbn [spec_lops spec_lop] in Hrun, Hr'. unfold spec_take in Hrun, Hr'.
  rewrite (proj2 (Z.eqb_neq _ _) Hne), (proj2 (Z.eqb_neq _ _) Hne'), Hm in Hrun, Hr'.
  repeat (rewrite ?lookup_insert_eq, ?lookup_delete_eq in Hrun, Hr'; simpl in Hrun, Hr').
  split; [exact Hrun|]. by rewrite delete_insert_eq, delete_id in Hr'.
Qed.

(** [sfs_wrlock] lets go of the tree before it looks at the node it found. If
    in between the reader unlocks and another reader locks the inode again,
    the call finds its node UNLOCKED, marks it WRLOCKED and inserts it into a
    tree that holds a node for the inode: the assertion of the insertion
    fails. *)
Theorem wrlock_race s m i mem :
  rep s m -> 0 <= i -> m !! i = Some Rd -> mem <> 0 -> locks s !! mem = None ->
  exists a s1 s2, wrlock_search 0 0 i s = Ret (inr a, s1) /\
    run_lops [Unlock i; RdLock mem i] s1 = Ret ([0; 0], s2) /\
    wrlock_found a s2 = Fault AssertFail.
Proof.
  intros Hr Hi Hm Hne Hmem. destruct (rep_locked _ _ Hr _ _ Hm) as (a & Ha1 & Ha2).
  destruct (unlock_run s m i a Rd Hr Hi Hm Ha1) as (s1 & Hrun1 & _ & Hr1 & Hl1).
  assert (Ham : a <> mem) by congruence.
  destruct (take_new s1 (delete i m) mem i Rd Hr1 Hi (lookup_delete_eq _ _)) as (s2 & Hrun2 & _ & Hr2 & Hl2).
  { right. rewrite Hl1. by rewrite lookup_insert_ne. }
  rewrite (proj2 (Z.eqb_neq _ _) Hne) in Hrun2, Hr2. simpl in Hrun2.
  exists a, s, s2. split_and!.
  - unfold wrlock_search, cbind, tree_lock, filelock_tree_search, tree_unlock, cmod.
    rewrite (rep_free _ _ Hr). simpl. rewrite kt_search_map by (by destruct Hr). rewrite Ha1.
    destruct Hr as [_ Hf _ _]. destruct s; simpl in *; by subst.
  - cbn [run_lops run_lop]. unfold cbind. by rewrite Hrun1, Hrun2.
  - assert (Ha3 : locks s2 !! a = Some (mkLock LOCKNODE_MAGIC i UNLOCKED false))
      by (rewrite Hl2, Hl1 by done; by rewrite lookup_insert_eq).
    unfold wrlock_found. run_locks. rewrite Ha3. run_locks.
    destruct (rep_locked _ _ Hr2 i Rd (lookup_insert_eq _ _ _)) as (b & Hb & _).
    rewrite kt_insert_dup by (first [by destruct Hr2 | eauto]). done.
Qed.

End LockTree.

(** The nodes the functions create are compared by inode number. *)
Lemma filelock_tree_cmp_key a b :
  magic a = LOCKNODE_MAGIC -> magic b = LOCKNODE_MAGIC ->
  (filelock_tree_cmp (Some a) (Some b) = 0 <-> inode_num a = inode_num b) /\
  (filelock_tree_cmp (Some a) (Some b) < 0 <-> inode_num a < inode_num b).
Proof.
  intros Ha Hb. unfold filelock_tree_cmp. rewrite Ha, Hb, Z.eqb_refl. simpl.
  destruct (Z.ltb_spec (inode_num b) (inode_num a)), (Z.ltb_spec (inode_num a) (inode_num b)); simpl; lia.
Qed.

(** * Examples *)

Definition start : @state (gmap Z Z) := mkState kt_new ∅ false 0.

Lemma start_rep : rep start ∅.
Proof. split; try done; simpl; intros; by rewrite lookup_empty in *. Qed.

Ltac legal_start :=
  split_and!; [apply (bool_decide_unpack _); vm_compute; exact I
              |apply (bool_decide_unpack _); vm_compute; exact I
              |repeat constructor; first [left; reflexivity | right; reflexivity]].

Lemma locks_refine_witness :
  exists s', run_lops [WrLock 100 7; RdLock 101 7; Unlock 7; Unlock 7] start = Ret ([0; -1; 0; -1], s') /\
    rep s' ∅.
Proof.
  apply (locks_refine start ∅ [WrLock 100 7; RdLock 101 7; Unlock 7; Unlock 7] start_rep).
  legal_start.
Defined.

(** One inode locked for writing. *)
Definition locked7 : @state (gmap Z Z) :=
  mkState {[7 := 100]} {[100 := mkLock LOCKNODE_MAGIC 7 WRLOCKED false]} false 0.

Lemma locked7_rep : rep locked7 {[7 := Wr]}.
Proof.
  split; [done|done| |].
  - intros i md [<- <-]%lookup_singleton_Some. exists 100. done.
  - intros i Hi. exact (proj2 (lookup_singleton_None _ _ _) (proj1 (lookup_singleton_None _ _ _) Hi)).
Qed.

Lemma wrlock_excludes_witness :
  exists rs s', run_lops ([RdLock 101 8; Unlock 8] ++ [RdLock 102 7]) locked7 = Ret (rs ++ [-1], s').
Proof.
  apply (wrlock_excludes locked7 {[7 := Wr]} 7 [RdLock 101 8; Unlock 8] 102 (RdLock 102 7) locked7_rep).
  - reflexivity.
  - intros Hin. repeat (apply elem_of_cons in Hin as [|Hin]; [discriminate|]). by apply elem_of_nil in Hin.
  - legal_start.
  - left. reflexivity.
Defined.

Lemma unlock_drops_all_readers_witness :
  exists s', run_lops [RdLock 100 7; RdLock 0 7; Unlock 7; WrLock 101 7] start = Ret ([0; 0; 0; 0], s') /\
    rep s' {[7 := Wr]}.
Proof.
  apply (unlock_drops_all_readers start ∅ 7 100 101 start_rep); [reflexivity|discriminate|discriminate|].
  legal_start.
Defined.

Definition reading7 : @state (gmap Z Z) :=
  mkState {[7 := 100]} {[100 := mkLock LOCKNODE_MAGIC 7 RDLOCKED false]} false 0.

Lemma reading7_rep : rep reading7 {[7 := Rd]}.
Proof.
  split; [done|done| |].
  - intros i md [<- <-]%lookup_singleton_Some. exists 100. done.
  - intros i Hi. exact (proj2 (lookup_singleton_None _ _ _) (proj1 (lookup_singleton_None _ _ _) Hi)).
Qed.

Lemma wrlock_race_witness :
  exists a s1 s2, wrlock_search 0 0 7 reading7 = Ret (inr a, s1) /\
    run_lops [Unlock 7; RdLock 101 7] s1 = Ret ([0; 0], s2) /\ wrlock_found a s2 = Fault AssertFail.
Proof.
  apply (wrlock_race reading7 {[7 := Rd]} 7 101 reading7_rep); [lia|reflexivity|discriminate|reflexivity].
Defined.

End LockTree.
