(* ===== verification/JobTrees.v ===== *)
(** What the file system process knows of the jobs in flight:
    sfs/include/sfs_jobid_tree.h maps a job id to the thread that waits for it
    and to the job, sfs/include/sfs_jobmap_tree.h maps a thread to its job
    map; [create_job_map], [free_job_map] and [sfs_wait_for_completion] are
    from sfs/src/sfs_job.c. *)
From stdpp Require Import base gmap list numbers.
From S2P Require Import Prelude KeyTree BdsList JobId JobQueue.

Module JobTrees.
Import JobQueue.

Definition JTNODE_MAGIC : Z := 0xa5a5a5a5.
Definition JMNODE_MAGIC : Z := 0x5a5a5a5a.

(** [struct job2thread_tree] and [struct jobmap_tree_node] less their links. *)
Record sstack_jt : Type := mkJt { jt_magic : Z; jt_job_id : Z; jt_thread_id : Z; jt_job : Z }.
Record sstack_jm : Type := mkJm { jm_magic : Z; jm_thread_id : Z; jm_job_map : Z }.

(** [sstack_job_map_t]; [signals] counts the signals of its condition
    variable. *)
Record job_map : Type := mkMap {
  thread_id : Z;
  err_no : Z;
  num_jobs : Z;
  num_jobs_left : Z;
  lock : bool;
  job_ids : list Z;
  map_job_status : list Z;
  map_num_clients : Z;
  op_status : list Z;
  signals : nat
}.

Definition jobid_tree_cmp (node1 node2 : option sstack_jt) : Z :=
  match node1, node2 with
  | Some n1, Some n2 =>
      if negb (jt_magic n1 =? JTNODE_MAGIC) || negb (jt_magic n2 =? JTNODE_MAGIC) then EFAULT
      else Z.b2z (jt_job_id n2 <? jt_job_id n1) - Z.b2z (jt_job_id n1 <? jt_job_id n2)
  | _, _ => EINVAL
  end.

Definition jobmap_tree_cmp (node1 node2 : option sstack_jm) : Z :=
  match node1, node2 with
  | Some n1, Some n2 =>
      if negb (jm_magic n1 =? JMNODE_MAGIC) || negb (jm_magic n2 =? JMNODE_MAGIC) then EFAULT
      else Z.b2z (jm_thread_id n2 <? jm_thread_id n1) - Z.b2z (jm_thread_id n1 <? jm_thread_id n2)
  | _, _ => EINVAL
  end.

Section JobTrees.
Context {T : Type} `{KeyTree T}.

Record state : Type := mkState {
  st : store;                     (* jobs, queues and errno *)
  jobid_tree : T;
  jobmap_tree : T;
  jts : gmap Z sstack_jt;
  jms : gmap Z sstack_jm;
  maps : gmap Z job_map;
  jobid_lock : bool;
  jobmap_lock : bool
}.

Definition set_st (x : store) (s : state) : state :=
  mkState x (jobid_tree s) (jobmap_tree s) (jts s) (jms s) (maps s) (jobid_lock s) (jobmap_lock s).
Definition set_jobid (t : T) (n : gmap Z sstack_jt) (l : bool) (s : state) : state :=
  mkState (st s) t (jobmap_tree s) n (jms s) (maps s) l (jobmap_lock s).
Definition set_jobmap (t : T) (n : gmap Z sstack_jm) (l : bool) (s : state) : state :=
  mkState (st s) (jobid_tree s) t (jts s) n (maps s) (jobid_lock s) l.
Definition set_maps (m : gmap Z job_map) (s : state) : state :=
  mkState (st s) (jobid_tree s) (jobmap_tree s) (jts s) (jms s) m (jobid_lock s) (jobmap_lock s).

Definition on_store {A} (c : cprog store A) : cprog state A := fun s =>
  match c (st s) with
  | Ret (a, x) => Ret (a, set_st x s)
  | Fault f => Fault f
  end.

Definition put_errno (e : Z) : cprog state unit := cmod (fun s => set_st (set_errno e (st s)) s).

(** [jobid_lock] and [jobmap_lock] *)
Definition jobid_spin_lock : cprog state unit := fun s =>
  if jobid_lock s then Fault Deadlock else Ret (tt, set_jobid (jobid_tree s) (jts s) true s).
Definition jobid_spin_unlock : cprog state unit := cmod (fun s => set_jobid (jobid_tree s) (jts s) false s).
Definition jobmap_spin_lock : cprog state unit := fun s =>
  if jobmap_lock s then Fault Deadlock else Ret (tt, set_jobmap (jobmap_tree s) (jms s) true s).
Definition jobmap_spin_unlock : cprog state unit := cmod (fun s => set_jobmap (jobmap_tree s) (jms s) false s).

(** [mem] is what [malloc] returns. *)
Definition sfs_job2thread_map_insert (mem thread job_id job : Z) : cprog state Z :=
  if (thread <? 0) || (job_id <? 0) then (put_errno EINVAL ;;; cret (-1))%cprog
  else if mem =? NULL then cret (-1)
  else
    (cmod (fun s => set_jobid (jobid_tree s) (<[mem := mkJt JTNODE_MAGIC job_id thread job]> (jts s))
                              (jobid_lock s) s) ;;;
     jobid_spin_lock ;;;
     let! s := cget in
     let! t := of_outcome (kt_insert (jobid_tree s) job_id mem) in
     cmod (fun s => set_jobid t (jts s) (jobid_lock s) s) ;;;
     jobid_spin_unlock ;;;
     cret 0)%cprog.

Definition sfs_job2thread_map_remove (job_id : Z) : cprog state unit :=
  if job_id <? 0 then put_errno EINVAL
  else
    (jobid_spin_lock ;;;
     let! s := cget in
     match kt_search (jobid_tree s) job_id with
     | None => put_errno EFAULT ;;; jobid_spin_unlock
     | Some node =>
         let! t := of_outcome (kt_remove (jobid_tree s) job_id node) in
         cmod (fun s => set_jobid t (jts s) (jobid_lock s) s) ;;;
         jobid_spin_unlock ;;;
         put_errno 0
     end)%cprog.

Definition sfs_job_context_insert (mem thread jmap : Z) : cprog state Z :=
  if (thread <? 0) || (NULL =? jmap) then (put_errno EINVAL ;;; cret (-1))%cprog
  else if mem =? NULL then cret (-1)
  else
    (cmod (fun s => set_jobmap (jobmap_tree s) (<[mem := mkJm JMNODE_MAGIC thread jmap]> (jms s))
                               (jobmap_lock s) s) ;;;
     jobmap_spin_lock ;;;
     let! s := cget in
     let! t := of_outcome (kt_insert (jobmap_tree s) thread mem) in
     cmod (fun s => set_jobmap t (jms s) (jobmap_lock s) s) ;;;
     jobmap_spin_unlock ;;;
     cret 0)%cprog.

Definition sfs_job_context_remove (thread : Z) : cprog state unit :=
  if thread <? 0 then put_errno EINVAL
  else
    (jobmap_spin_lock ;;;
     let! s := cget in
     match kt_search (jobmap_tree s) thread with
     | None => put_errno EFAULT ;;; jobmap_spin_unlock
     | Some node =>
         let! t := of_outcome (kt_remove (jobmap_tree s) thread node) in
         cmod (fun s => set_jobmap t (jms s) (jobmap_lock s) s) ;;;
         jobmap_spin_unlock ;;;
         put_errno 0
     end)%cprog.

(** The fields [create_job_map] does not set keep what [malloc] left. *)
Definition create_job_map (mem self : Z) (junk : job_map) : cprog state (option Z) :=
  if mem =? NULL then cret None
  else
    (cmod (fun s => set_maps (<[mem := mkMap self (err_no junk) 0 (num_jobs_left junk) false [] []
       (map_num_clients junk) (op_status junk) 0]> (maps s)) s) ;;;
     cret (Some mem))%cprog.

Definition free_job_map (m : Z) : cprog state unit :=
  if m =? NULL then cret tt else cmod (fun s => set_maps (delete m (maps s)) s).

(** * Lookups *)

Definition load_jt (a : Z) : cprog state sstack_jt := fun s =>
  match jts s !! a with Some n => Ret (n, s) | None => Fault OutOfBounds end.
Definition load_jm (a : Z) : cprog state sstack_jm := fun s =>
  match jms s !! a with Some n => Ret (n, s) | None => Fault OutOfBounds end.
Definition load_map (a : Z) : cprog state job_map := fun s =>
  match maps s !! a with Some m => Ret (m, s) | None => Fault OutOfBounds end.
Definition store_map (a : Z) (m : job_map) : cprog state unit :=
  cmod (fun s => set_maps (<[a := m]> (maps s)) s).

Definition map_lock (a : Z) : cprog state unit :=
  (let! m := load_map a in
   if lock m then cfault Deadlock
   else store_map a (mkMap (thread_id m) (err_no m) (num_jobs m) (num_jobs_left m) true (job_ids m)
                       (map_job_status m) (map_num_clients m) (op_status m) (signals m)))%cprog.
Definition map_unlock (a : Z) : cprog state unit :=
  (let! m := load_map a in
   store_map a (mkMap (thread_id m) (err_no m) (num_jobs m) (num_jobs_left m) false (job_ids m)
                  (map_job_status m) (map_num_clients m) (op_status m) (signals m)))%cprog.
Definition set_left (a : Z) (v : Z) : cprog state unit :=
  (let! m := load_map a in
   store_map a (mkMap (thread_id m) (err_no m) (num_jobs m) v (lock m) (job_ids m)
                  (map_job_status m) (map_num_clients m) (op_status m) (signals m)))%cprog.
Definition set_err_no (a : Z) (v : Z) : cprog state unit :=
  (let! m := load_map a in
   store_map a (mkMap (thread_id m) v (num_jobs m) (num_jobs_left m) (lock m) (job_ids m)
                  (map_job_status m) (map_num_clients m) (op_status m) (signals m)))%cprog.
(** [pthread_cond_signal(&job_map->condition)] *)
Definition cond_signal (a : Z) : cprog state unit :=
  (let! m := load_map a in
   store_map a (mkMap (thread_id m) (err_no m) (num_jobs m) (num_jobs_left m) (lock m) (job_ids m)
                  (map_job_status m) (map_num_clients m) (op_status m) (S (signals m))))%cprog.

(** * The abstract maps *)

(** The trees hold well-formed nodes: [js] maps a job id to its thread and
    job, [ts] a thread to its job map. *)
Record rep (s : state) (js : gmap Z (Z * Z)) (ts : gmap Z Z) : Prop := {
  rep_jobid_ok : kt_ok (jobid_tree s);
  rep_jobmap_ok : kt_ok (jobmap_tree s);
  rep_jobid_free : jobid_lock s = false;
  rep_jobmap_free : jobmap_lock s = false;
  rep_jobid i : match js !! i with
                | Some (t, j) => exists a, kt_map (jobid_tree s) !! i = Some a /\
                                   jts s !! a = Some (mkJt JTNODE_MAGIC i t j)
                | None => kt_map (jobid_tree s) !! i = None
                end;
  rep_jobmap t : match ts !! t with
                 | Some m => exists a, kt_map (jobmap_tree s) !! t = Some a /\
                                jms s !! a = Some (mkJm JMNODE_MAGIC t m)
                 | None => kt_map (jobmap_tree s) !! t = None
                 end
}.

Inductive top : Set :=
  | JtInsert (mem thread job_id job : Z)
  | JtRemove (job_id : Z)
  | JmInsert (mem thread jmap : Z)
  | JmRemove (thread : Z).

Definition run_top (o : top) : cprog state Z :=
  match o with
  | JtInsert mem t i j => sfs_job2thread_map_insert mem t i j
  | JtRemove i => (sfs_job2thread_map_remove i ;;; cret 0)%cprog
  | JmInsert mem t m => sfs_job_context_insert mem t m
  | JmRemove t => (sfs_job_context_remove t ;;; cret 0)%cprog
  end.

(** The result, errno and the two maps after an operation. *)
Definition spec_top (o : top) (e : Z) (js : gmap Z (Z * Z)) (ts : gmap Z Z)
  : outcome (Z * Z * gmap Z (Z * Z) * gmap Z Z) :=
  match o with
  | JtInsert mem t i j =>
      if (t <? 0) || (i <? 0) then Ret (-1, EINVAL, js, ts)
      else if mem =? NULL then Ret (-1, e, js, ts)
      else if js !! i then Fault AssertFail
      else Ret (0, e, <[i := (t, j)]> js, ts)
  | JtRemove i =>
      if i <? 0 then Ret (0, EINVAL, js, ts)
      else if js !! i then Ret (0, 0, delete i js, ts) else Ret (0, EFAULT, js, ts)
  | JmInsert mem t m =>
      if (t <? 0) || (NULL =? m) then Ret (-1, EINVAL, js, ts)
      else if mem =? NULL then Ret (-1, e, js, ts)
      else if ts !! t then Fault AssertFail
      else Ret (0, e, js, <[t := m]> ts)
  | JmRemove t =>
      if t <? 0 then Ret (0, EINVAL, js, ts)
      else if ts !! t then Ret (0, 0, js, delete t ts) else Ret (0, EFAULT, js, ts)
  end.

(** [malloc] returns memory that no node uses. *)
Definition fresh_top (s : state) (o : top) : Prop :=
  match o with
  | JtInsert mem _ _ _ => jts s !! mem = None
  | JmInsert mem _ _ => jms s !! mem = None
  | _ => True
  end.

Context {L : KeyTreeLaws T}.

Ltac run_trees :=
  unfold jobid_spin_lock, jobid_spin_unlock, jobmap_spin_lock, jobmap_spin_unlock, put_errno,
    cget, cmod, of_outcome, cbind, cret; simpl.

Lemma jt_insert_refines s js ts mem t i j :
  rep s js ts -> jts s !! mem = None ->
  match spec_top (JtInsert mem t i j) (errno (st s)) js ts with
  | Ret (r, e, js', ts') => exists s', run_top (JtInsert mem t i j) s = Ret (r, s') /\
      errno (st s') = e /\ rep s' js' ts'
  | Fault f => run_top (JtInsert mem t i j) s = Fault f
  end.
Proof.
  intros Hr Hm. simpl. unfold sfs_job2thread_map_insert.
  destruct (_ || _). { eexists. split; [reflexivity|]. split; [done|]. by destruct Hr. }
  destruct (mem =? NULL). { eexists. by split. }
  run_trees. rewrite (rep_jobid_free _ _ _ Hr). simpl.
  pose proof (rep_jobid _ _ _ Hr i) as Hi. destruct (js !! i) as [[t' j']|] eqn:Hj.
  { destruct Hi as (a & Ha & _). rewrite kt_insert_dup; [done|by destruct Hr|eauto]. }
  destruct (kt_insert_new _ i mem (rep_jobid_ok _ _ _ Hr) Hi) as (t' & -> & Hok & Hmap).
  eexists. split; [reflexivity|]. simpl. split; [done|]. destruct Hr as [G1 G2 G3 G4 G5 G6].
  split; simpl; try done. intros k. rewrite Hmap. destruct (decide (i = k)) as [<-|Hik].
  - rewrite !lookup_insert_eq. exists mem. by rewrite lookup_insert_eq.
  - rewrite !lookup_insert_ne by done. specialize (G5 k). destruct (js !! k) as [[]|]; [|done].
    destruct G5 as (b & ? & ?). exists b. split; [done|]. rewrite lookup_insert_ne by congruence. done.
Qed.

Lemma jm_insert_refines s js ts mem t m :
  rep s js ts -> jms s !! mem = None ->
  match spec_top (JmInsert mem t m) (errno (st s)) js ts with
  | Ret (r, e, js', ts') => exists s', run_top (JmInsert mem t m) s = Ret (r, s') /\
      errno (st s') = e /\ rep s' js' ts'
  | Fault f => run_top (JmInsert mem t m) s = Fault f
  end.
Proof.
  intros Hr Hm. simpl. unfold sfs_job_context_insert.
  destruct (_ || _). { eexists. split; [reflexivity|]. split; [done|]. by destruct Hr. }
  destruct (mem =? NULL). { eexists. by split. }
  run_trees. rewrite (rep_jobmap_free _ _ _ Hr). simpl.
  pose proof (rep_jobmap _ _ _ Hr t) as Hi. destruct (ts !! t) as [m'|] eqn:Hj.
  { destruct Hi as (a & Ha & _). rewrite kt_insert_dup; [done|by destruct Hr|eauto]. }
  destruct (kt_insert_new _ t mem (rep_jobmap_ok _ _ _ Hr) Hi) as (t' & -> & Hok & Hmap).
  eexists. split; [reflexivity|]. simpl. split; [done|]. destruct Hr as [G1 G2 G3 G4 G5 G6].
  split; simpl; try done. intros k. rewrite Hmap. destruct (decide (t = k)) as [<-|Hik].
  - rewrite !lookup_insert_eq. exists mem. by rewrite lookup_insert_eq.
  - rewrite !lookup_insert_ne by done. specialize (G6 k). destruct (ts !! k); [|done].
    destruct G6 as (b & ? & ?). exists b. split; [done|]. rewrite lookup_insert_ne by congruence. done.
Qed.

Lemma remove_refines s js ts o :
  rep s js ts -> (exists k, o = JtRemove k \/ o = JmRemove k) ->
  match spec_top o (errno (st s)) js ts with
  | Ret (r, e, js', ts') => exists s', run_top o s = Ret (r, s') /\ errno (st s') = e /\ rep s' js' ts'
  | Fault f => run_top o s = Fault f
  end.
Proof.
  intros Hr [k Ho]. destruct Hr as [G1 G2 G3 G4 G5 G6].
  destruct Ho as [-> | ->]; simpl; unfold sfs_job2thread_map_remove, sfs_job_context_remove;
    (destruct (k <? 0); [eexists; split; [reflexivity|]; split; [done|]; by split|]).
  - pose proof (G5 k) as Hk. run_trees. rewrite G3. simpl. rewrite kt_search_map by done.
    destruct (js !! k) as [[t j]|] eqn:Hj.
    + destruct Hk as (a & Ha & _). rewrite Ha.
      destruct (kt_remove_map _ _ _ G1 Ha) as (t' & -> & Hok & Hmap).
      eexists. split; [reflexivity|]. split; [done|]. split; simpl; try done.
      intros i. rewrite Hmap. destruct (decide (k = i)) as [<-|]; [by rewrite !lookup_delete_eq|].
      rewrite !lookup_delete_ne by done. apply G5.
    + rewrite Hk. eexists. split; [reflexivity|]. split; [done|]. by split.
  - pose proof (G6 k) as Hk. run_trees. rewrite G4. simpl. rewrite kt_search_map by done.
    destruct (ts !! k) as [m|] eqn:Hj.
    + destruct Hk as (a & Ha & _). rewrite Ha.
      destruct (kt_remove_map _ _ _ G2 Ha) as (t' & -> & Hok & Hmap).
      eexists. split; [reflexivity|]. split; [done|]. split; simpl; try done.
      intros i. rewrite Hmap. destruct (decide (k = i)) as [<-|]; [by rewrite !lookup_delete_eq|].
      rewrite !lookup_delete_ne by done. apply G6.
    + rewrite Hk. eexists. split; [reflexivity|]. split; [done|]. by split.
Qed.

Lemma top_refines s js ts o :
  rep s js ts -> fresh_top s o ->
  match spec_top o (errno (st s)) js ts with
  | Ret (r, e, js', ts') => exists s', run_top o s = Ret (r, s') /\ errno (st s') = e /\ rep s' js' ts'
  | Fault f => run_top o s = Fault f
  end.
Proof.
  intros Hr Hf. destruct o; [by apply jt_insert_refines| |by apply jm_insert_refines|];
    apply remove_refines; eauto.
Qed.

(** The same with the state that is reached. *)
Lemma jt_insert_run s js ts mem t i j :
  rep s js ts -> jts s !! mem = None -> 0 <= t -> 0 <= i -> mem <> NULL -> js !! i = None ->
  exists T', let s' := set_jobid T' (<[mem := mkJt JTNODE_MAGIC i t j]> (jts s)) false s in
    sfs_job2thread_map_insert mem t i j s = Ret (0, s') /\ rep s' (<[i := (t, j)]> js) ts.
Proof.
  intros Hr Hm Ht Hi Hn Hj. pose proof (jt_insert_refines s js ts mem t i j Hr Hm) as Hs. simpl in Hs.
  rewrite (proj2 (Z.ltb_ge t 0)), (proj2 (Z.ltb_ge i 0)), (proj2 (Z.eqb_neq mem NULL)), Hj in Hs by done.
  simpl in Hs. destruct Hs as (s' & Hrun & _ & Hrep).
  assert (Hu : kt_map (jobid_tree s) !! i = None) by (pose proof (rep_jobid _ _ _ Hr i) as G; by rewrite Hj in G).
  destruct (kt_insert_new _ i mem (rep_jobid_ok _ _ _ Hr) Hu) as (T' & Hins & _). exists T'. cbv zeta.
  enough (s' = set_jobid T' (<[mem := mkJt JTNODE_MAGIC i t j]> (jts s)) false s) as <- by done.
  revert Hrun. unfold sfs_job2thread_map_insert.
  rewrite (proj2 (Z.ltb_ge t 0)), (proj2 (Z.ltb_ge i 0)), (proj2 (Z.eqb_neq mem NULL)) by done. simpl.
  run_trees. rewrite (rep_jobid_free _ _ _ Hr). simpl. rewrite Hins. by intros [= <-].
Qed.

Lemma jm_insert_run s js ts mem t m :
  rep s js ts -> jms s !! mem = None -> 0 <= t -> m <> NULL -> mem <> NULL -> ts !! t = None ->
  exists T', let s' := set_jobmap T' (<[mem := mkJm JMNODE_MAGIC t m]> (jms s)) false s in
    sfs_job_context_insert mem t m s = Ret (0, s') /\ rep s' js (<[t := m]> ts).
Proof.
  intros Hr Hm Ht Hi Hn Hj. pose proof (jm_insert_refines s js ts mem t m Hr Hm) as Hs. cbn [spec_top] in Hs.
  rewrite (proj2 (Z.ltb_ge t 0)), (proj2 (Z.eqb_neq NULL m)), (proj2 (Z.eqb_neq mem NULL)), Hj in Hs by done.
  cbn [orb run_top] in Hs. destruct Hs as (s' & Hrun & _ & Hrep).
  assert (Hu : kt_map (jobmap_tree s) !! t = None) by (pose proof (rep_jobmap _ _ _ Hr t) as G; by rewrite Hj in G).
  destruct (kt_insert_new _ t mem (rep_jobmap_ok _ _ _ Hr) Hu) as (T' & Hins & _). exists T'. cbv zeta.
  enough (s' = set_jobmap T' (<[mem := mkJm JMNODE_MAGIC t m]> (jms s)) false s) as <- by done.
  revert Hrun. unfold sfs_job_context_insert.
  rewrite (proj2 (Z.ltb_ge t 0)), (proj2 (Z.eqb_neq NULL m)), (proj2 (Z.eqb_neq mem NULL)) by done. simpl.
  run_trees. rewrite (rep_jobmap_free _ _ _ Hr). simpl. rewrite Hins. by intros [= <-].
Qed.

Lemma jt_remove_run s js ts i t j :
  rep s js ts -> 0 <= i -> js !! i = Some (t, j) ->
  exists T', let s' := set_st (set_errno 0 (st s)) (set_jobid T' (jts s) false s) in
    sfs_job2thread_map_remove i s = Ret (tt, s') /\ rep s' (delete i js) ts.
Proof.
  intros Hr Hi Hj. pose proof (remove_refines s js ts (JtRemove i) Hr) as Hs. simpl in Hs.
  rewrite (proj2 (Z.ltb_ge i 0)), Hj in Hs by done. destruct Hs as (s' & Hrun & _ & Hrep); [by exists i; left|].
  pose proof (rep_jobid _ _ _ Hr i) as G. rewrite Hj in G. destruct G as (a & Ha & _).
  destruct (kt_remove_map _ _ _ (rep_jobid_ok _ _ _ Hr) Ha) as (T' & Hrem & _). exists T'. cbv zeta.
  assert (Hgo : sfs_job2thread_map_remove i s = Ret (tt, set_st (set_errno 0 (st s)) (set_jobid T' (jts s) false s))).
  { unfold sfs_job2thread_map_remove. rewrite (proj2 (Z.ltb_ge i 0)) by done. run_trees.
    rewrite (rep_jobid_free _ _ _ Hr). simpl. rewrite kt_search_map by (by destruct Hr). rewrite Ha, Hrem. done. }
  split; [exact Hgo|]. unfold cbind in Hrun. rewrite Hgo in Hrun. by injection Hrun as <-.
Qed.

Lemma jm_remove_run s js ts t m :
  rep s js ts -> 0 <= t -> ts !! t = Some m ->
  exists T', let s' := set_st (set_errno 0 (st s)) (set_jobmap T' (jms s) false s) in
    sfs_job_context_remove t s = Ret (tt, s') /\ rep s' js (delete t ts).
Proof.
  intros Hr Hi Hj. pose proof (remove_refines s js ts (JmRemove t) Hr) as Hs. simpl in Hs.
  rewrite (proj2 (Z.ltb_ge t 0)), Hj in Hs by done. destruct Hs as (s' & Hrun & _ & Hrep); [by exists t; right|].
  pose proof (rep_jobmap _ _ _ Hr t) as G. rewrite Hj in G. destruct G as (a & Ha & _).
  destruct (kt_remove_map _ _ _ (rep_jobmap_ok _ _ _ Hr) Ha) as (T' & Hrem & _). exists T'. cbv zeta.
  assert (Hgo : sfs_job_context_remove t s = Ret (tt, set_st (set_errno 0 (st s)) (set_jobmap T' (jms s) false s))).
  { unfold sfs_job_context_remove. rewrite (proj2 (Z.ltb_ge t 0)) by done. run_trees.
    rewrite (rep_jobmap_free _ _ _ Hr). simpl. rewrite kt_search_map by (by destruct Hr). rewrite Ha, Hrem. done. }
  split; [exact Hgo|]. unfold cbind in Hrun. rewrite Hgo in Hrun. by injection Hrun as <-.
Qed.

(** The represented maps do not depend on the jobs, the queues and the job
    maps. *)
Lemma rep_st s js ts x : rep s js ts -> rep (set_st x s) js ts.
Proof. intros []. by split. Qed.
Lemma rep_maps s js ts x : rep s js ts -> rep (set_maps x s) js ts.
Proof. intros []. by split. Qed.

(** C20. The two trees behave as finite maps, from job ids to the waiting thread
    and its job and from threads to job maps: insertion of a new key, failed
    allocation, removal with errno 0, removal of an absent key with EFAULT;
    inserting a key twice fails the assertion of the tree. *)
Theorem job_trees_refine s js ts o :
  rep s js ts -> fresh_top s o ->
  match spec_top o (errno (st s)) js ts with
  | Ret (r, e, js', ts') => exists s', run_top o s = Ret (r, s') /\ errno (st s') = e /\ rep s' js' ts'
  | Fault f => run_top o s = Fault f
  end.
Proof. apply top_refines. Qed.

(** The error paths of the file operations (sfs_entry.c 614, 866, 1898 and
    2328, sfs_sfscli.c 357 and 365) clean up with the id of the thread where
    the id of the job is meant: the entry of the job stays, errno is EFAULT,
    and registering the same job id again fails the assertion of the tree. *)
Theorem cleanup_keeps_job s js ts mem mem' job_id thread job job' :
  rep s js ts -> js !! job_id = None -> js !! thread = None -> thread <> job_id ->
  0 <= thread -> 0 <= job_id -> mem <> NULL -> mem' <> NULL -> jts s !! mem = None ->
  exists s1 s2, run_top (JtInsert mem thread job_id job) s = Ret (0, s1) /\
    run_top (JtRemove thread) s1 = Ret (0, s2) /\ errno (st s2) = EFAULT /\
    rep s2 (<[job_id := (thread, job)]> js) ts /\
    (jts s2 !! mem' = None -> run_top (JtInsert mem' thread job_id job') s2 = Fault AssertFail).
Proof.
  intros Hr Hj Ht Hne Ht0 Hj0 Hm Hm' Hfresh.
  assert (Hlt : (thread <? 0) = false) by (apply Z.ltb_ge; lia).
  assert (Hlj : (job_id <? 0) = false) by (apply Z.ltb_ge; lia).
  pose proof (top_refines s js ts (JtInsert mem thread job_id job) Hr Hfresh) as H1. cbn [spec_top] in H1.
  rewrite Hlt, Hlj, (proj2 (Z.eqb_neq _ _) Hm), Hj in H1. destruct H1 as (s1 & Hrun1 & _ & Hr1).
  pose proof (top_refines s1 _ ts (JtRemove thread) Hr1 I) as H2. cbn [spec_top] in H2.
  rewrite Hlt, lookup_insert_ne, Ht in H2 by done. destruct H2 as (s2 & Hrun2 & He & Hr2).
  exists s1, s2. split_and!; try done. intros Hf2.
  pose proof (top_refines s2 _ ts (JtInsert mem' thread job_id job') Hr2 Hf2) as H3. cbn [spec_top] in H3.
  by rewrite Hlt, Hlj, (proj2 (Z.eqb_neq _ _) Hm'), lookup_insert_eq in H3.
Qed.

End JobTrees.

Definition empty_store : store := mkStore ∅ ∅ ∅ 0.
Definition start : @state (gmap Z Z) := mkState empty_store kt_new kt_new ∅ ∅ ∅ false false.

Lemma trees_start_rep : rep start ∅ ∅.
Proof. split; try done; intros k; by rewrite !lookup_empty. Qed.

Lemma job_trees_refine_witness :
  exists s', run_top (JtInsert 100 7 3 5000) start = Ret (0, s') /\ errno (st s') = 0 /\
    rep s' {[3 := (7, 5000)]} ∅.
Proof. exact (job_trees_refine start ∅ ∅ (JtInsert 100 7 3 5000) trees_start_rep eq_refl). Defined.

Lemma cleanup_keeps_job_witness :
  exists s1 s2, run_top (JtInsert 100 7 3 5000) start = Ret (0, s1) /\
    run_top (JtRemove 7) s1 = Ret (0, s2) /\ errno (st s2) = EFAULT /\ rep s2 {[3 := (7, 5000)]} ∅.
Proof.
  destruct (cleanup_keeps_job start ∅ ∅ 100 101 3 7 5000 6000 trees_start_rep) as (s1 & s2 & H1 & H2 & H3 & H4 & _);
    [reflexivity|reflexivity|discriminate|lia|lia|discriminate|discriminate|reflexivity|].
  exists s1, s2. split_and!; assumption.
Defined.

End JobTrees.
