(* ===== verification/StorageTree.v ===== *)
(** The storage devices the file system process knows:
    sfs/include/sfs_storage_tree.h, on the search and the insertion of
    [RbTree]. *)
From stdpp Require Import base gmap list numbers.
From S2P Require Import Prelude RbTree.

Module StorageTree.

Definition STNODE_MAGIC : Z := 0xb3b3b3b3.
Definition PATH_MAX : Z := 4096.

(** [sfs_st_t] less its link: the address as the bytes [memcmp] reads, the
    path as the characters before its NUL. *)
Record sfs_st : Type := mkSt {
  magic : Z;
  address : list Z;
  rpath : list Z;
  access_protocol : Z;
  stype : Z;
  size : Z
}.

(** [memcmp] and [strcmp]: the sign of the first difference; a string that
    ends first is less. *)
Fixpoint memcmp (a b : list Z) : Z :=
  match a, b with
  | [], [] => 0
  | [], _ => -1
  | _, [] => 1
  | x :: a', y :: b' => if x =? y then memcmp a' b' else if x <? y then -1 else 1
  end.

Definition storage_tree_cmp (node1 node2 : option sfs_st) : Z :=
  match node1, node2 with
  | Some n1, Some n2 =>
      if negb (magic n1 =? STNODE_MAGIC) || negb (magic n2 =? STNODE_MAGIC) then EFAULT
      else
        let ret := -1 in
        let cmp := memcmp (address n1) (address n2) in
        let ret := if 0 <? cmp then 1 else if cmp <? 0 then -1 else ret in
        if ret =? 0 then
          let cmp := memcmp (rpath n1) (rpath n2) in
          if 0 <? cmp then 1 else if cmp <? 0 then -1 else ret
        else ret
  | _, _ => EINVAL
  end.

Section StorageTree.
(** [storage_tree_remove] of [rb_gen]. *)
Context (storage_tree_remove : rbt sfs_st -> sfs_st -> outcome (rbt sfs_st)).

Record state : Type := mkState { storage_tree : rbt sfs_st; errno : Z }.

Definition cmp (a b : sfs_st) : Z := storage_tree_cmp (Some a) (Some b).

(** [strcpy] into an array of PATH_MAX characters. *)
Definition strcpy (path : list Z) : cprog state (list Z) :=
  if Z.of_nat (length path) <? PATH_MAX then cret path else cfault OutOfBounds.

Definition put_tree (o : outcome (rbt sfs_st)) : cprog state unit := fun s =>
  match o with Ret t => Ret (tt, mkState t (errno s)) | Fault f => Fault f end.
Definition put_errno (e : Z) : cprog state unit := cmod (fun s => mkState (storage_tree s) e).

Definition sfs_storage_node_insert (malloc_ok : bool) (addr path : list Z) (proto ty sz : Z) : cprog state Z :=
  if negb malloc_ok then cret (-1)
  else (let! p := strcpy path in
        let! s := cget in
        put_tree (rb_insert cmp (storage_tree s) (mkSt STNODE_MAGIC addr p proto ty sz)) ;;;
        cret 0)%cprog.

(** The search key on the stack; its other fields are not set. *)
Definition search_key (addr path : list Z) (junk : sfs_st) : sfs_st :=
  mkSt STNODE_MAGIC addr path (access_protocol junk) (stype junk) (size junk).

Definition sfs_storage_node_remove (addr path : list Z) (junk : sfs_st) : cprog state unit :=
  (let! p := strcpy path in
   let! s := cget in
   match rb_search cmp (storage_tree s) (search_key addr p junk) with
   | None => put_errno EFAULT
   | Some node => put_tree (storage_tree_remove (storage_tree s) node)
   end)%cprog.

Definition sfs_storage_node_update (addr path : list Z) (sz : Z) (junk : sfs_st) : cprog state unit :=
  (let! p := strcpy path in
   let! s := cget in
   match rb_search cmp (storage_tree s) (search_key addr p junk) with
   | None => put_errno EFAULT
   | Some node =>
       put_tree (storage_tree_remove (storage_tree s) node) ;;;
       let! s := cget in
       put_tree (rb_insert cmp (storage_tree s)
         (mkSt (magic node) (address node) (rpath node) (access_protocol node) (stype node) sz))
   end)%cprog.

(** The comparison never says equal: [ret] starts at -1 and is left alone
    when the addresses are equal. *)
Lemma storage_tree_cmp_nonzero a b : storage_tree_cmp a b <> 0.
Proof.
  unfold storage_tree_cmp. destruct a as [n1|], b as [n2|]; try done. case_if; [done|]. cbv zeta.
  destruct (Z.ltb_spec 0 (memcmp (address n1) (address n2))); [done|].
  destruct (Z.ltb_spec (memcmp (address n1) (address n2)) 0); done.
Qed.

Lemma cmp_nonzero a b : (cmp a b =? 0) = false.
Proof. apply Z.eqb_neq, storage_tree_cmp_nonzero. Qed.

Lemma search_nothing t k : rb_search cmp t k = None.
Proof.
  induction t as [|c l IHl x r IHr]; simpl; [done|].
  rewrite cmp_nonzero. by destruct (_ <? 0).
Qed.

Lemma insert_total t x : exists t', rb_insert cmp t x = Ret t' /\ length (elements t') = S (length (elements t)).
Proof.
  assert (exists u b, rb_ins cmp x t = Ret (u, b)) as (u & b & E).
  { induction t as [|c l IHl y r IHr]; simpl; [eauto|].
    rewrite cmp_nonzero.
    destruct IHl as (l' & bl & ->), IHr as (r' & br & ->).
    destruct (_ <? 0), bl, br; eauto;
      try (destruct (fix_left c l' y r); by eauto); destruct (fix_right c l y r'); by eauto. }
  pose proof (rb_ins_length _ _ _ _ _ E) as Hl. unfold rb_insert. rewrite E.
  destruct b; eexists; (split; [done|]); by rewrite ?elements_color_set.
Qed.

(** What the tree can do: a device is added, and again if it is added twice;
    the removal and the update of a device, also one that was added before,
    leave the tree as it is and set errno to EFAULT. *)
Theorem storage_only_grows s addr path proto ty sz junk :
  Z.of_nat (length path) < PATH_MAX ->
  (exists t', sfs_storage_node_insert true addr path proto ty sz s = Ret (0, mkState t' (errno s)) /\
     length (elements t') = S (length (elements (storage_tree s)))) /\
  sfs_storage_node_remove addr path junk s = Ret (tt, mkState (storage_tree s) EFAULT) /\
  sfs_storage_node_update addr path sz junk s = Ret (tt, mkState (storage_tree s) EFAULT).
Proof.
  intros Hp. assert (Hc : strcpy path s = Ret (path, s)).
  { unfold strcpy. by rewrite (proj2 (Z.ltb_lt _ _) Hp). }
  split_and!.
  - destruct (insert_total (storage_tree s) (mkSt STNODE_MAGIC addr path proto ty sz)) as (t' & Ht & Hl).
    exists t'. split; [|done]. unfold sfs_storage_node_insert. simpl. unfold cbind at 1. rewrite Hc.
    unfold cbind, cget, put_tree. by rewrite Ht.
  - unfold sfs_storage_node_remove, cbind. rewrite Hc. unfold cget. by rewrite search_nothing.
  - unfold sfs_storage_node_update, cbind. rewrite Hc. unfold cget. by rewrite search_nothing.
Qed.

End StorageTree.

(** A device is added and then looked for under its own address and path. *)
Lemma storage_only_grows_witness :
  match sfs_storage_node_insert true [10; 0; 0; 1] [47] 1 1 100 (mkState rb_new 0) with
  | Ret (_, s) => sfs_storage_node_remove (fun t _ => Ret t) [10; 0; 0; 1] [47] (mkSt 0 [] [] 0 0 0) s
                  = Ret (tt, mkState (storage_tree s) EFAULT)
  | Fault _ => False
  end.
Proof.
  destruct (sfs_storage_node_insert true [10; 0; 0; 1] [47] 1 1 100 (mkState rb_new 0)) as [[r s]|] eqn:E;
    [|vm_compute in E; discriminate].
  apply (storage_only_grows (fun t _ => Ret t) s [10; 0; 0; 1] [47] 1 1 100 (mkSt 0 [] [] 0 0 0)). reflexivity.
Defined.

End StorageTree.
