(* ===== verification/Completion.v ===== *)
(** What happens when a storage daemon answers: [sfs_process_payload],
    [sfs_process_read_response] and [sfs_process_write_response] of
    sfs/src/sfs.c, on the trees of [JobTrees] and the queues of [JobQueue]. *)
From stdpp Require Import base gmap list numbers.
From S2P Require Import Prelude KeyTree BdsList JobId JobQueue JobTrees.

Module Completion.
Import JobQueue JobTrees.

Definition SSTACK_SUCCESS : Z := 100.
Definition SSTACK_ECKSUM : Z := 102.
Definition SSTACK_NOMEM : Z := 103.
Definition SSTACK_CRIT_FAILURE : Z := 104.
Definition JOB_STARTED : Z := 0.
Definition JOB_COMPLETE : Z := 1.
Definition JOB_FAILED : Z := 3.

Definition SSTACK_ADD_STORAGE_RSP : Z := 4.
Definition SSTACK_REMOVE_STORAGE_RSP : Z := 5.
Definition SSTACK_UPDATE_STORAGE_RSP : Z := 6.
Definition NFS_READ_RSP : Z := 33.
Definition NFS_WRITE_RSP : Z := 34.
Definition NFS_ESURE_CODE_RSP : Z := 36.

(** The fields of [sstack_payload_t] the read and write paths use.
    [command_struct] and [response_struct] share their memory, so in an answer
    the fields of the command are whatever the bytes of the response say, and
    the other way round in a request. [read_cmd] and [write_cmd] begin with
    the same three fields. A data buffer is given by its bytes; [None] is
    NULL. *)
Record sstack_payload : Type := mkPayload {
  hdr_job_id : Z;
  hdr_priority : Z;
  hdr_arg : Z;
  command : Z;
  read_inode_no : Z;              (* command_struct *)
  cmd_offset : Z;
  cmd_count : Z;
  read_ecode : Z;
  extent_handle : list Z;
  write_len : Z;
  write_buf : option (list Z);
  command_ok : Z;                 (* response_struct *)
  resp_len : Z;
  resp_buf : option (list Z);
  file_wc : Z
}.

(** The fields of [sstack_inode_t] the retry of a read uses; the sfsds are
    addresses. *)
Record inode : Type := mkInode {
  i_numreplicas : Z;
  i_sfsds : list Z;
  i_primary_sfsd : Z;
  i_enable_dr : Z
}.

Section Completion.
Context {T : Type} `{KeyTree T}.

(** [handle] reads [sfsd->handle]; [get_inode] is the lookup in the metadata
    data base; [jobs_list] is the global [jobs]. *)
Context (handle : Z -> Z) (get_inode : Z -> option inode) (jobs_list : Z).

Record cstate : Type := mkC { js : @JobTrees.state T; payloads : gmap Z sstack_payload }.

Definition lift {A} (c : cprog (@JobTrees.state T) A) : cprog cstate A := fun s =>
  match c (js s) with
  | Ret (a, x) => Ret (a, mkC x (payloads s))
  | Fault f => Fault f
  end.

Definition load_payload (p : Z) : cprog cstate sstack_payload := fun s =>
  match payloads s !! p with Some x => Ret (x, s) | None => Fault OutOfBounds end.
Definition store_payload (p : Z) (x : sstack_payload) : cprog cstate unit :=
  cmod (fun s => mkC (js s) (<[p := x]> (payloads s))).

Definition get_job (j : Z) : cprog cstate JobId.sfs_job := lift (on_store (load_job j)).
Definition put_job (j : Z) (r : JobId.sfs_job) : cprog cstate unit :=
  lift (on_store (cmod (fun s => mkStore (heap s) (queues s) (<[j := r]> (jobs s)) (errno s)))).

Definition with_payload (r : JobId.sfs_job) (p : Z) : JobId.sfs_job :=
  JobId.mkJob (JobId.version r) (JobId.job_type r) (JobId.id r) (JobId.num_clients r) (JobId.sfsds r)
    (JobId.job_status r) (JobId.payload_len r) (JobId.priority r) p.
Definition with_status (r : JobId.sfs_job) (l : list Z) : JobId.sfs_job :=
  JobId.mkJob (JobId.version r) (JobId.job_type r) (JobId.id r) (JobId.num_clients r) (JobId.sfsds r)
    l (JobId.payload_len r) (JobId.priority r) (JobId.payload r).
Definition with_sfsd0 (r : JobId.sfs_job) (a : Z) : JobId.sfs_job :=
  JobId.mkJob (JobId.version r) (JobId.job_type r) (JobId.id r) (JobId.num_clients r)
    (<[0%nat := a]> (JobId.sfsds r)) (JobId.job_status r) (JobId.payload_len r) (JobId.priority r)
    (JobId.payload r).

Definition set_payload (j p : Z) : cprog cstate unit :=
  (let! r := get_job j in put_job j (with_payload r p))%cprog.
Definition set_status (j : Z) (i : nat) (v : Z) : cprog cstate unit :=
  (let! r := get_job j in
   if (i <? length (JobId.job_status r))%nat
   then put_job j (with_status r (<[i := v]> (JobId.job_status r)))
   else cfault OutOfBounds)%cprog.
Definition set_sfsd0 (j a : Z) : cprog cstate unit :=
  (let! r := get_job j in put_job j (with_sfsd0 r a))%cprog.
Definition set_read_ecode (p v : Z) : cprog cstate unit :=
  (let! x := load_payload p in
   store_payload p (mkPayload (hdr_job_id x) (hdr_priority x) (hdr_arg x) (command x) (read_inode_no x)
     (cmd_offset x) (cmd_count x) v (extent_handle x) (write_len x) (write_buf x) (command_ok x)
     (resp_len x) (resp_buf x) (file_wc x)))%cprog.

(** [jobid_tree_search] and [jobmap_tree_search] on a search key; the callers
    hold no lock. *)
Definition find_jt (job_id : Z) : cprog cstate (option Z) := fun s =>
  Ret (kt_search (jobid_tree (js s)) job_id, s).
Definition find_jm (thread : Z) : cprog cstate (option Z) := fun s =>
  Ret (kt_search (jobmap_tree (js s)) thread, s).

(** The loop over the replicas: [for (i = 0; i < inode.i_numreplicas; i++)],
    [n] passes left. *)
Fixpoint retry_replicas (ino : inode) (p job : Z) (n : nat) (i : Z) : cprog cstate unit :=
  match n with
  | O => cret tt
  | S n' =>
      (let! r := get_job job in
       let! cur := cexpect OutOfBounds (i_sfsds ino !! Z.to_nat i) in
       let! first := cexpect OutOfBounds (JobId.sfsds r !! 0%nat) in
       (if handle cur =? handle first then
          let! sfsd := cexpect OutOfBounds (i_sfsds ino !! Z.to_nat ((i + 1) mod i_numreplicas ino)) in
          if handle sfsd =? handle (i_primary_sfsd ino) then
            set_read_ecode p 1 ;;; set_payload job p ;;; set_sfsd0 job sfsd
          else set_sfsd0 job sfsd
        else cret tt) ;;;
       retry_replicas ino p job n' (i + 1))%cprog
  end.

(** The head of the read handler: the job and its job map, found by the id
    the answer carries. Without them the handler returns, here with [stop];
    otherwise it goes on with [k]. *)
Definition read_lookup {A} (p : Z) (stop : A) (k : sstack_payload -> Z -> Z -> cprog cstate A) : cprog cstate A :=
  (let! pay := load_payload p in
   let! jt := find_jt (hdr_job_id pay) in
   match jt with
   | None => lift (put_errno SSTACK_CRIT_FAILURE) ;;; cret stop
   | Some a =>
       let! jt_node := lift (load_jt a) in
       let! jm := find_jm (jt_thread_id jt_node) in
       match jm with
       | None => cret stop
       | Some b =>
           let! jm_node := lift (load_jm b) in
           k pay (jt_job jt_node) (jm_job_map jm_node)
       end
   end)%cprog.

(** The test [job_map->num_jobs_left == 0] before the signal, made without the
    lock. *)
Definition read_test (m : Z) : cprog cstate bool :=
  (let! x := lift (load_map m) in cret (num_jobs_left x =? 0))%cprog.

(** The branches for an answer that is not a success. *)
Definition read_refused (p : Z) (pay : sstack_payload) (job m : Z) : cprog cstate unit :=
  (if (command_ok pay =? - SSTACK_ECKSUM) || (command_ok pay =? - SSTACK_NOMEM) then
     match get_inode (read_inode_no pay) with
     | None => lift (put_errno SSTACK_CRIT_FAILURE)
     | Some ino =>
         if negb (read_ecode pay =? 0) then cret tt
         else
           retry_replicas ino p job (Z.to_nat (i_numreplicas ino)) 0 ;;;
           let! r := get_job job in
           let! ret := lift (on_store (sfs_submit_job (JobId.priority r) jobs_list job)) in
           if ret =? -1 then lift (put_errno SSTACK_CRIT_FAILURE) else cret tt
     end
   else
     lift (map_lock m) ;;;
     lift (set_err_no m (command_ok pay)) ;;;
     lift (map_unlock m) ;;;
     lift (cond_signal m))%cprog.

Definition sfs_process_read_response (p : Z) : cprog cstate unit :=
  read_lookup p tt (fun pay job m =>
    if command_ok pay =? SSTACK_SUCCESS then
      lift (map_lock m) ;;;
      let! x := lift (load_map m) in
      lift (set_left m (num_jobs_left x - 1)) ;;;
      lift (map_unlock m) ;;;
      set_payload job p ;;;
      set_status job 0 JOB_COMPLETE ;;;
      let! none_left := read_test m in
      if none_left then lift (cond_signal m) else cret tt
    else read_refused p pay job m)%cprog.

(** Where a worker that handles a successful answer is: between two
    of its reads and writes of memory that it shares with the other workers. *)
Inductive rpc : Type :=
  | RStart                        (* nothing done *)
  | RFound (job m : Z)            (* before the lock *)
  | RLocked (job m : Z)           (* holding it *)
  | RLoaded (job m k : Z)         (* has read [num_jobs_left] *)
  | RLeft (job m : Z)             (* has written it back, one less *)
  | RFree (job m : Z)             (* has unlocked *)
  | RPaid (job m : Z)             (* [job->payload] is set *)
  | RMarked (job m : Z)           (* [job->job_status[0]] is set *)
  | RSignal (m : Z)               (* has seen that no job is left *)
  | RDone.

(** One step of such a worker. *)
Definition read_step (p : Z) (pc : rpc) : cprog cstate rpc :=
  match pc with
  | RStart =>
      read_lookup p RDone (fun pay job m =>
        if command_ok pay =? SSTACK_SUCCESS then cret (RFound job m)
        else read_refused p pay job m ;;; cret RDone)
  | RFound job m => lift (map_lock m) ;;; cret (RLocked job m)
  | RLocked job m => let! x := lift (load_map m) in cret (RLoaded job m (num_jobs_left x))
  | RLoaded job m k => lift (set_left m (k - 1)) ;;; cret (RLeft job m)
  | RLeft job m => lift (map_unlock m) ;;; cret (RFree job m)
  | RFree job m => set_payload job p ;;; cret (RPaid job m)
  | RPaid job m => set_status job 0 JOB_COMPLETE ;;; cret (RMarked job m)
  | RMarked _ m =>
      let! none_left := read_test m in
      cret (if none_left then RSignal m else RDone)
  | RSignal m => lift (cond_signal m) ;;; cret RDone
  | RDone => cret RDone
  end%cprog.

(** [n] steps of one worker, nothing in between. *)
Fixpoint read_steps (n : nat) (p : Z) (pc : rpc) : cprog cstate unit :=
  match n with
  | O => cret tt
  | S n' => (let! pc := read_step p pc in read_steps n' p pc)%cprog
  end.

(** The first loop of the write handler, from client [i] on with [n] clients
    left: the test of the sfsd's handle is commented out. *)
Fixpoint mark_client (ok : bool) (p job : Z) (n i : nat) : cprog cstate unit :=
  match n with
  | O => cret tt
  | S n' =>
      if ok then (set_payload job p ;;; set_status job i JOB_COMPLETE)%cprog
      else mark_client ok p job n' (S i)
  end.

(** The second loop: how many of the first [n] clients have not completed and
    how many have failed. *)
Definition count_status (v : Z) (n : nat) (l : list Z) : Z :=
  Z.of_nat (length (List.filter (fun x => x =? v) (take n l))).

Definition sfs_process_write_response (p : Z) : cprog cstate unit :=
  (let! pay := load_payload p in
   let! jt := find_jt (hdr_job_id pay) in
   match jt with
   | None => lift (put_errno SSTACK_CRIT_FAILURE)
   | Some a =>
       let! jt_node := lift (load_jt a) in
       let job := jt_job jt_node in
       let! jm := find_jm (jt_thread_id jt_node) in
       match jm with
       | None => lift (put_errno SSTACK_CRIT_FAILURE)
       | Some b =>
           let! jm_node := lift (load_jm b) in
           let m := jm_job_map jm_node in
           let! r := get_job job in
           let n := Z.to_nat (JobId.num_clients r) in
           mark_client (command_ok pay =? SSTACK_SUCCESS) p job n 0 ;;;
           let! r := get_job job in
           let! x := lift (load_map m) in
           (if (length (JobId.job_status r) <? n)%nat || (length (op_status x) <? n)%nat
            then cfault OutOfBounds else cret tt) ;;;
           let incmp := count_status JOB_STARTED n (JobId.job_status r) in
           let fail := count_status JOB_FAILED n (op_status x) in
           (if incmp =? 0 then
              lift (map_lock m) ;;; lift (set_left m (num_jobs_left x - 1)) ;;; lift (map_unlock m)
            else cret tt) ;;;
           let! x := lift (load_map m) in
           (if num_jobs_left x =? 0 then
              lift (map_lock m) ;;;
              lift (set_err_no m (if Z.quot (JobId.num_clients r) 2 <? fail then EIO else command_ok pay)) ;;;
              lift (map_unlock m) ;;;
              lift (cond_signal m)
            else cret tt) ;;;
           lift (cond_signal m)
       end
   end)%cprog.

(** The answer to a storage command. *)
Definition storage_response (p : Z) : cprog cstate unit :=
  (let! pay := load_payload p in
   let! jt := find_jt (hdr_job_id pay) in
   match jt with
   | None => lift (put_errno SSTACK_CRIT_FAILURE)
   | Some a =>
       let! jt_node := lift (load_jt a) in
       let! jm := find_jm (jt_thread_id jt_node) in
       match jm with
       | None => lift (put_errno SSTACK_CRIT_FAILURE)
       | Some b =>
           let! jm_node := lift (load_jm b) in
           lift (set_err_no (jm_job_map jm_node) (command_ok pay)) ;;;
           lift (cond_signal (jm_job_map jm_node))
       end
   end)%cprog.

Definition sfs_process_payload (p : Z) : cprog cstate unit :=
  (let! pay := load_payload p in
   if command pay =? NFS_READ_RSP then sfs_process_read_response p
   else if command pay =? NFS_WRITE_RSP then sfs_process_write_response p
   else if command pay =? NFS_ESURE_CODE_RSP then cret tt
   else if (command pay =? SSTACK_ADD_STORAGE_RSP) || (command pay =? SSTACK_REMOVE_STORAGE_RSP) ||
           (command pay =? SSTACK_UPDATE_STORAGE_RSP) then storage_response p
   else cret tt)%cprog.

(** * Lemmas *)

(** The job [job_id] is in flight: thread, job and job map are registered. *)
Record in_flight (s : cstate) (p : Z) (pay : sstack_payload) (job : Z) (r : JobId.sfs_job)
    (m : Z) (x : job_map) : Prop := {
  fl_payload : payloads s !! p = Some pay;
  fl_jt : exists a t, kt_search (jobid_tree (js s)) (hdr_job_id pay) = Some a /\
    jts (js s) !! a = Some (mkJt JTNODE_MAGIC (hdr_job_id pay) t job) /\
    exists b, kt_search (jobmap_tree (js s)) t = Some b /\
      jms (js s) !! b = Some (mkJm JMNODE_MAGIC t m);
  fl_map : maps (js s) !! m = Some x;
  fl_free : lock x = false;
  fl_job : jobs (st (js s)) !! job = Some r;
  fl_status : length (JobId.job_status r) = JobId.MAX_SFSD_CLIENTS;
  fl_op : length (op_status x) = JobId.MAX_SFSD_CLIENTS
}.

(** The state with another job and another job map. *)
Definition update (s : cstate) (job : Z) (r : JobId.sfs_job) (m : Z) (x : job_map) : cstate :=
  mkC (set_maps (<[m := x]> (maps (js s)))
        (set_st (mkStore (heap (st (js s))) (queues (st (js s))) (<[job := r]> (jobs (st (js s))))
                         (errno (st (js s)))) (js s))) (payloads s).

Lemma update_id s p pay job r m x : in_flight s p pay job r m x -> update s job r m x = s.
Proof.
  intros Hf. destruct s as [[[? ? ? ?] ? ? ? ? ? ? ?] ?]. unfold update, set_maps, set_st. simpl.
  rewrite !insert_id; [done|apply (fl_map _ _ _ _ _ _ _ Hf)|apply (fl_job _ _ _ _ _ _ _ Hf)].
Qed.

Lemma update_update s job r m x r' x' : update (update s job r m x) job r' m x' = update s job r' m x'.
Proof. unfold update, set_maps, set_st. simpl. by rewrite !insert_insert_eq. Qed.

Lemma update_in_flight s p pay job r m x r' x' :
  in_flight s p pay job r m x -> lock x' = false ->
  length (JobId.job_status r') = JobId.MAX_SFSD_CLIENTS ->
  length (op_status x') = JobId.MAX_SFSD_CLIENTS ->
  in_flight (update s job r' m x') p pay job r' m x'.
Proof.
  intros [H1 H2 H3 H4 H5 H6 H7] Hl Hs Ho. split; simpl; try done; by rewrite lookup_insert_eq.
Qed.

Ltac run_response :=
  unfold get_job, put_job, set_payload, set_status, get_job, put_job, lift, on_store, load_job,
    map_lock, map_unlock, set_left, set_err_no, cond_signal, load_map, store_map, load_jt, load_jm,
    find_jt, find_jm, load_payload, put_errno, cbind, cmod, cret;
  repeat (simpl; rewrite ?lookup_insert_eq, ?insert_insert_eq).

(** Signalling a map [k] times, and its counters. *)
Definition map_done (x : job_map) (left e : Z) (k : nat) : job_map :=
  mkMap (thread_id x) e (num_jobs x) left false (job_ids x) (map_job_status x) (map_num_clients x)
    (op_status x) (k + signals x).

Definition read_done (r : JobId.sfs_job) (p : Z) : JobId.sfs_job :=
  with_status (with_payload r p) (<[0%nat := JOB_COMPLETE]> (JobId.job_status r)).

Lemma status_bound (r : JobId.sfs_job) i :
  length (JobId.job_status r) = JobId.MAX_SFSD_CLIENTS -> (i < 8)%nat ->
  (i <? length (JobId.job_status r))%nat = true.
Proof. intros -> Hi. apply Nat.ltb_lt. exact Hi. Qed.

(** An answer to a read that succeeded. *)
Lemma read_success_run s p pay job r m x :
  in_flight s p pay job r m x -> command_ok pay = SSTACK_SUCCESS ->
  sfs_process_read_response p s
  = Ret (tt, update s job (read_done r p) m
               (map_done x (num_jobs_left x - 1) (err_no x) (if num_jobs_left x - 1 =? 0 then 1 else 0))).
Proof.
  intros [H1 (a & t & H2 & H3 & b & H4 & H5) H6 H7 H8 H9 H10] Hok.
  pose proof (status_bound r 0 H9 ltac:(lia)) as Hb.
  unfold sfs_process_read_response, read_lookup, read_test, read_refused. run_response. rewrite H1. run_response.
  rewrite H2. run_response. rewrite H3. run_response. rewrite H4. run_response. rewrite H5. run_response.
  rewrite Hok, Z.eqb_refl. run_response. rewrite H6. run_response. rewrite H7. run_response. rewrite H8. run_response.
  rewrite Hb. run_response.
  unfold update, read_done, map_done, set_maps, set_st. simpl.
  destruct (num_jobs_left x - 1 =? 0); run_response; done.
Qed.

(** An answer to a read that failed for good. *)
Lemma read_error_run s p pay job r m x :
  in_flight s p pay job r m x ->
  command_ok pay <> SSTACK_SUCCESS -> command_ok pay <> - SSTACK_ECKSUM ->
  command_ok pay <> - SSTACK_NOMEM ->
  sfs_process_read_response p s
  = Ret (tt, update s job r m (map_done x (num_jobs_left x) (command_ok pay) 1)).
Proof.
  intros Hf Hn1%Z.eqb_neq Hn2%Z.eqb_neq Hn3%Z.eqb_neq.
  destruct Hf as [H1 (a & t & H2 & H3 & b & H4 & H5) H6 H7 H8 H9 H10].
  unfold sfs_process_read_response, read_lookup, read_test, read_refused. run_response. rewrite H1. run_response.
  rewrite H2. run_response. rewrite H3. run_response. rewrite H4. run_response. rewrite H5. run_response.
  rewrite Hn1, Hn2, Hn3. run_response. rewrite H6. run_response. rewrite H7. run_response.
  unfold update, map_done, set_maps, set_st. simpl. rewrite (insert_id _ _ _ H8).
  destruct s as [[[] ? ? ? ? ? ? ?] ?]; done.
Qed.

(** Steps on one job map. *)
Definition with_map (s : cstate) (m : Z) (x : job_map) : cstate :=
  mkC (set_maps (<[m := x]> (maps (js s))) (js s)) (payloads s).

Lemma with_map_lookup s m x : maps (js (with_map s m x)) !! m = Some x.
Proof. apply lookup_insert_eq. Qed.

Lemma with_map_twice s m x y : with_map (with_map s m x) m y = with_map s m y.
Proof. unfold with_map, set_maps. simpl. by rewrite insert_insert_eq. Qed.

Lemma with_map_update s job r m x y : with_map (update s job r m x) m y = update s job r m y.
Proof. unfold with_map, update, set_maps, set_st. simpl. by rewrite insert_insert_eq. Qed.

Lemma with_map_id s m x : maps (js s) !! m = Some x -> with_map s m x = s.
Proof. intros Hm. destruct s as [[] ?]. unfold with_map, set_maps. simpl in *. by rewrite insert_id. Qed.

Definition map_lk (x : job_map) (b : bool) : job_map :=
  mkMap (thread_id x) (err_no x) (num_jobs x) (num_jobs_left x) b (job_ids x) (map_job_status x)
    (map_num_clients x) (op_status x) (signals x).

Lemma map_steps s m x :
  maps (js s) !! m = Some x ->
  lift (load_map m) s = Ret (x, s) /\
  (lock x = false -> lift (map_lock m) s = Ret (tt, with_map s m (map_lk x true))) /\
  lift (map_unlock m) s = Ret (tt, with_map s m (map_lk x false)) /\
  (forall v, lift (set_left m v) s = Ret (tt, with_map s m (mkMap (thread_id x) (err_no x) (num_jobs x) v
     (lock x) (job_ids x) (map_job_status x) (map_num_clients x) (op_status x) (signals x)))) /\
  (forall v, lift (set_err_no m v) s = Ret (tt, with_map s m (mkMap (thread_id x) v (num_jobs x)
     (num_jobs_left x) (lock x) (job_ids x) (map_job_status x) (map_num_clients x) (op_status x) (signals x)))) /\
  lift (cond_signal m) s = Ret (tt, with_map s m (mkMap (thread_id x) (err_no x) (num_jobs x)
     (num_jobs_left x) (lock x) (job_ids x) (map_job_status x) (map_num_clients x) (op_status x) (S (signals x)))).
Proof.
  intros Hm. unfold lift, map_lock, map_unlock, set_left, set_err_no, cond_signal, cbind, load_map.
  rewrite Hm. split_and!; try done; [by destruct s|]. by intros ->.
Qed.

(** The three critical sections of the handlers. *)
Lemma locked_left s m x v :
  maps (js s) !! m = Some x -> lock x = false ->
  (lift (map_lock m) ;;; lift (set_left m v) ;;; lift (map_unlock m))%cprog s
  = Ret (tt, with_map s m (map_done x v (err_no x) 0)).
Proof.
  intros Hm Hl. unfold cbind. rewrite (proj1 (proj2 (map_steps _ _ _ Hm)) Hl).
  rewrite (proj1 (proj2 (proj2 (proj2 (map_steps _ _ _ (with_map_lookup _ _ _)))))).
  rewrite (proj1 (proj2 (proj2 (map_steps _ _ _ (with_map_lookup _ _ _))))). by rewrite !with_map_twice.
Qed.

Lemma locked_err s m x v :
  maps (js s) !! m = Some x -> lock x = false ->
  (lift (map_lock m) ;;; lift (set_err_no m v) ;;; lift (map_unlock m) ;;; lift (cond_signal m))%cprog s
  = Ret (tt, with_map s m (map_done x (num_jobs_left x) v 1)).
Proof.
  intros Hm Hl. unfold cbind. rewrite (proj1 (proj2 (map_steps _ _ _ Hm)) Hl).
  rewrite (proj1 (proj2 (proj2 (proj2 (proj2 (map_steps _ _ _ (with_map_lookup _ _ _))))))).
  rewrite (proj1 (proj2 (proj2 (map_steps _ _ _ (with_map_lookup _ _ _))))).
  rewrite (proj2 (proj2 (proj2 (proj2 (proj2 (map_steps _ _ _ (with_map_lookup _ _ _))))))).
  by rewrite !with_map_twice.
Qed.

Lemma signal_run s m x :
  maps (js s) !! m = Some x -> lock x = false ->
  lift (cond_signal m) s = Ret (tt, with_map s m (map_done x (num_jobs_left x) (err_no x) 1)).
Proof.
  intros Hm Hl. rewrite (proj2 (proj2 (proj2 (proj2 (proj2 (map_steps _ _ _ Hm)))))).
  unfold map_done. by rewrite Hl.
Qed.

(** An answer to a write. *)
Definition write_marked (ok : Z) (r : JobId.sfs_job) (p : Z) : JobId.sfs_job :=
  if (ok =? SSTACK_SUCCESS) && (0 <? JobId.num_clients r)
  then with_status (with_payload r p) (<[0%nat := JOB_COMPLETE]> (JobId.job_status r)) else r.

Definition write_counted (ok : Z) (r : JobId.sfs_job) (x : job_map) : job_map :=
  let n := Z.to_nat (JobId.num_clients r) in
  let left := if count_status JOB_STARTED n (JobId.job_status r) =? 0
              then num_jobs_left x - 1 else num_jobs_left x in
  if left =? 0
  then map_done x left (if Z.quot (JobId.num_clients r) 2 <? count_status JOB_FAILED n (op_status x)
                        then EIO else ok) 2
  else map_done x left (err_no x) 1.

Lemma mark_client_run s p pay job r m x n :
  in_flight s p pay job r m x -> n = Z.to_nat (JobId.num_clients r) ->
  mark_client (command_ok pay =? SSTACK_SUCCESS) p job n 0 s
  = Ret (tt, update s job (write_marked (command_ok pay) r p) m x).
Proof.
  intros Hf ->. unfold write_marked.
  destruct (command_ok pay =? SSTACK_SUCCESS) eqn:Hok; simpl.
  - destruct (Z.ltb_spec 0 (JobId.num_clients r)) as [Hn|Hn].
    + destruct (Z.to_nat (JobId.num_clients r)) eqn:Hz; [lia|]. cbn [mark_client].
      destruct Hf as [H1 _ H6 H7 H8 H9 H10]. pose proof (status_bound r 0 H9 ltac:(lia)) as Hb.
      run_response. rewrite H8. run_response. rewrite Hb. run_response.
      unfold update, set_maps, set_st. simpl. rewrite (insert_id _ _ _ H6). done.
    + replace (Z.to_nat (JobId.num_clients r)) with 0%nat by lia. simpl. by rewrite (update_id _ _ _ _ _ _ _ Hf).
  - rewrite (update_id _ _ _ _ _ _ _ Hf). generalize 0%nat.
    induction (Z.to_nat (JobId.num_clients r)) as [|n IH]; intros i; simpl; [done|apply IH].
Qed.

Lemma write_marked_clients ok r p : JobId.num_clients (write_marked ok r p) = JobId.num_clients r.
Proof. unfold write_marked. by destruct (_ && _). Qed.

Lemma write_marked_length ok r p :
  length (JobId.job_status (write_marked ok r p)) = length (JobId.job_status r).
Proof. unfold write_marked. destruct (_ && _); [|done]. simpl. by rewrite length_insert. Qed.

(** What the write handler does once the answer is marked. *)
Lemma write_tail s job r m x ok n :
  maps (js (update s job r m x)) !! m = Some x -> lock x = false -> n = Z.to_nat (JobId.num_clients r) ->
  (cret tt ;;;
   (if count_status JOB_STARTED n (JobId.job_status r) =? 0 then
      lift (map_lock m) ;;; lift (set_left m (num_jobs_left x - 1)) ;;; lift (map_unlock m)
    else cret tt) ;;;
   let! y := lift (load_map m) in
   (if num_jobs_left y =? 0 then
      lift (map_lock m) ;;;
      lift (set_err_no m (if Z.quot (JobId.num_clients r) 2 <? count_status JOB_FAILED n (op_status x)
                          then EIO else ok)) ;;;
      lift (map_unlock m) ;;;
      lift (cond_signal m)
    else cret tt) ;;;
   lift (cond_signal m))%cprog (update s job r m x)
  = Ret (tt, update s job r m (write_counted ok r x)).
Proof.
  intros Hm Hl ->. unfold write_counted. set (fin := if _ <? _ then EIO else ok). cbv zeta.
  set (left := if _ =? 0 then num_jobs_left x - 1 else _).
  unfold cbind at 1, cret at 1. unfold cbind at 1.
  assert (Hfirst : (if count_status JOB_STARTED (Z.to_nat (JobId.num_clients r)) (JobId.job_status r) =? 0 then
      (lift (map_lock m) ;;; lift (set_left m (num_jobs_left x - 1)) ;;; lift (map_unlock m))%cprog
    else cret tt) (update s job r m x) = Ret (tt, update s job r m (map_done x left (err_no x) 0))).
  { unfold left. destruct (_ =? 0).
    - rewrite (locked_left _ _ _ _ Hm Hl). by rewrite with_map_update.
    - unfold cret. do 2 f_equal. unfold map_done. rewrite <- Hl. by destruct x. }
  rewrite Hfirst.
  assert (Hm' : forall y, maps (js (update s job r m y)) !! m = Some y) by (intros; simpl; by rewrite lookup_insert_eq).
  unfold cbind at 1. rewrite (proj1 (map_steps _ _ _ (Hm' _))). cbn [num_jobs_left map_done].
  unfold cbind at 1. destruct (left =? 0).
  - erewrite locked_err by (first [apply Hm' | reflexivity]). rewrite with_map_update.
    erewrite signal_run by (first [apply Hm' | reflexivity]). by rewrite with_map_update.
  - unfold cret. erewrite signal_run by (first [apply Hm' | reflexivity]). by rewrite with_map_update.
Qed.

Lemma write_response_run s p pay job r m x :
  in_flight s p pay job r m x -> (Z.to_nat (JobId.num_clients r) <= JobId.MAX_SFSD_CLIENTS)%nat ->
  sfs_process_write_response p s
  = Ret (tt, let r' := write_marked (command_ok pay) r p in
             update s job r' m (write_counted (command_ok pay) r' x)).
Proof.
  intros Hf Hn. pose proof (mark_client_run _ _ _ _ _ _ _ _ Hf eq_refl) as Hmark.
  set (r' := write_marked (command_ok pay) r p) in *.
  assert (Hf' : in_flight (update s job r' m x) p pay job r' m x).
  { eapply update_in_flight; [exact Hf|by destruct Hf| |by destruct Hf].
    unfold r'. rewrite write_marked_length. by destruct Hf. }
  assert (Hc : JobId.num_clients r' = JobId.num_clients r) by apply write_marked_clients.
  destruct Hf as [H1 (a & t & H2 & H3 & b & H4 & H5) H6 H7 H8 H9 H10].
  destruct Hf' as [_ _ G6 _ G8 G9 _].
  unfold sfs_process_write_response.
  unfold cbind at 1, load_payload at 1. rewrite H1.
  unfold cbind at 1, find_jt. rewrite H2.
  unfold cbind at 1, lift, load_jt. rewrite H3. cbv zeta. cbn [jt_thread_id jt_job].
  unfold cbind at 1, find_jm. cbn [js]. rewrite H4.
  unfold cbind at 1, lift, load_jm. cbn [js]. rewrite H5. cbn [jm_job_map payloads].
  replace (mkC (js s) (payloads s)) with s by (by destruct s).
  unfold cbind at 1, get_job at 1, lift, on_store, load_job. rewrite H8.
  replace (mkC (set_st (st (js s)) (js s)) (payloads s)) with s by (by destruct s as [[] ?]).
  unfold cbind at 1. rewrite Hmark.
  unfold cbind at 1, get_job at 1, lift, on_store, load_job. rewrite G8.
  unfold cbind at 1, lift, load_map at 1. cbn [js maps set_st].
  rewrite G6. rewrite G9, H10.
  rewrite (proj2 (Nat.ltb_ge _ _) Hn). cbn [orb].
  match goal with |- context [mkC ?a ?b] => replace (mkC a b) with (update s job r' m x) by reflexivity end.
  apply write_tail; [done|done|by rewrite Hc].
Qed.

(** * Answers to reads *)

Fixpoint process_all (ps : list Z) : cprog cstate unit :=
  match ps with
  | [] => cret tt
  | p :: ps' => (sfs_process_payload p ;;; process_all ps')%cprog
  end.

Lemma in_flight_other s p pay job r m x p' pay' job' r' x' r2 :
  in_flight s p pay job r m x -> in_flight s p' pay' job' r' m x -> job <> job' ->
  lock x' = false -> length (op_status x') = JobId.MAX_SFSD_CLIENTS ->
  in_flight (update s job r2 m x') p' pay' job' r' m x'.
Proof.
  intros _ [H1 H2 H3 H4 H5 H6 H7] Hne Hl Ho. split; simpl; try done.
  - by rewrite lookup_insert_eq.
  - by rewrite lookup_insert_ne.
Qed.

(** One read of a request: its answer, payload, job. *)
Record answer : Type := mkAns { a_p : Z; a_pay : sstack_payload; a_job : Z; a_r : JobId.sfs_job }.

Definition read_answered (s : cstate) (m : Z) (x : job_map) (a : answer) : Prop :=
  in_flight s (a_p a) (a_pay a) (a_job a) (a_r a) m x /\
  command (a_pay a) = NFS_READ_RSP /\ command_ok (a_pay a) = SSTACK_SUCCESS.

Lemma read_payload_run s m x a :
  read_answered s m x a ->
  sfs_process_payload (a_p a) s
  = Ret (tt, update s (a_job a) (read_done (a_r a) (a_p a)) m
      (map_done x (num_jobs_left x - 1) (err_no x) (if num_jobs_left x - 1 =? 0 then 1 else 0))).
Proof.
  intros (Hf & Hc & Hok). unfold sfs_process_payload, cbind, load_payload.
  rewrite (fl_payload _ _ _ _ _ _ _ Hf), Hc. cbn [Z.eqb NFS_READ_RSP Pos.eqb].
  by apply read_success_run with (pay := a_pay a).
Qed.

Lemma reads_run s m x l :
  l <> [] -> NoDup (a_job <$> l) -> Forall (read_answered s m x) l ->
  num_jobs_left x = Z.of_nat (length l) ->
  exists s', process_all (a_p <$> l) s = Ret (tt, s') /\
    maps (js s') !! m = Some (map_done x 0 (err_no x) 1) /\
    (forall a, a ∈ l -> jobs (st (js s')) !! a_job a = Some (read_done (a_r a) (a_p a))) /\
    (forall j, j ∉ a_job <$> l -> jobs (st (js s')) !! j = jobs (st (js s)) !! j).
Proof.
  revert s x. induction l as [|a l IH]; intros s x Hne Hnd Hall Hleft; [done|].
  rewrite fmap_cons in Hnd. apply list.NoDup_cons in Hnd as [Hna Hnd].
  apply list.Forall_cons in Hall as [Ha Hall].
  cbn [fmap list_fmap process_all]. unfold cbind. rewrite (read_payload_run _ _ _ _ Ha).
  destruct l as [|b l].
  - simpl in Hleft. rewrite Hleft. simpl. eexists. split; [reflexivity|]. simpl. split_and!.
    + by rewrite lookup_insert_eq.
    + intros c Hc. apply list_elem_of_singleton in Hc as ->. by rewrite lookup_insert_eq.
    + intros j Hj. rewrite lookup_insert_ne; [done|]. set_solver.
  - assert (Hnz : (num_jobs_left x - 1 =? 0) = false) by (apply Z.eqb_neq; rewrite Hleft; simpl length; lia).
    rewrite Hnz.
    destruct (IH (update s (a_job a) (read_done (a_r a) (a_p a)) m (map_done x (num_jobs_left x - 1) (err_no x) 0))
      (map_done x (num_jobs_left x - 1) (err_no x) 0)) as (s' & Hrun & Hm & Hj & Hrest); [done|done| | |].
    + apply list.Forall_forall. intros c Hc. rewrite list.Forall_forall in Hall.
      destruct (Hall c Hc) as (Hfc & ? & ?). split; [|done]. destruct Ha as (Hfa & _).
      eapply in_flight_other; [exact Hfa|exact Hfc| |done|by destruct Hfa].
      intros He. apply Hna. rewrite He. by apply list_elem_of_fmap_2.
    + rewrite Hleft. simpl length. cbn [num_jobs_left map_done]. lia.
    + exists s'. split_and!; [exact Hrun|rewrite Hm; done| |].
      * intros c [->|Hc]%elem_of_cons; [|by apply Hj]. rewrite Hrest by exact Hna. simpl.
        by rewrite lookup_insert_eq.
      * intros j Hj'. rewrite Hrest by set_solver. simpl. rewrite lookup_insert_ne; [done|]. set_solver.
Qed.

(** * The retry of a read *)

(** Moving the job to another sfsd, with or without the erasure flag. *)
Lemma move_run p job d s r pay a (b : bool) :
  jobs (st (js s)) !! job = Some r -> payloads s !! p = Some pay -> JobId.sfsds r !! 0%nat = Some a ->
  exists s2 r2 pay2,
    (if b then set_read_ecode p 1 ;;; set_payload job p ;;; set_sfsd0 job d else set_sfsd0 job d)%cprog s
      = Ret (tt, s2) /\
    jobs (st (js s2)) !! job = Some r2 /\ payloads s2 !! p = Some pay2 /\ JobId.sfsds r2 !! 0%nat = Some d.
Proof.
  intros Hr Hp Ha. apply lookup_lt_Some in Ha.
  destruct b; unfold set_read_ecode, set_sfsd0, store_payload; run_response; rewrite ?Hp; run_response;
    rewrite Hr; run_response; do 3 eexists; (split; [reflexivity|]); simpl; rewrite ?lookup_insert_eq;
    split_and!; try reflexivity; try exact Hp; simpl; by rewrite list_lookup_insert_eq.
Qed.

Lemma retry_run ino p job n i s r k a pay :
  jobs (st (js s)) !! job = Some r -> payloads s !! p = Some pay ->
  JobId.sfsds r !! 0%nat = Some a -> i_sfsds ino !! k = Some a ->
  i + Z.of_nat n = i_numreplicas ino -> 0 <= i <= Z.of_nat k -> Z.of_nat k < i_numreplicas ino ->
  Z.of_nat (length (i_sfsds ino)) = i_numreplicas ino -> NoDup (handle <$> i_sfsds ino) ->
  exists s' r', retry_replicas ino p job n i s = Ret (tt, s') /\
    jobs (st (js s')) !! job = Some r' /\ JobId.sfsds r' !! 0%nat = i_sfsds ino !! 0%nat.
Proof.
  intros Hr Hp Ha Hk Hn Hik HkN Hlen Hnd. revert i s r k a pay Hr Hp Ha Hk Hn Hik HkN.
  induction n as [|n IH]; intros i s r k a pay Hr Hp Ha Hk Hn Hik HkN; [lia|].
  assert (exists c, i_sfsds ino !! Z.to_nat i = Some c) as [c Hc] by (apply lookup_lt_is_Some; lia).
  cbn [retry_replicas]. unfold cbind at 1, get_job, lift, on_store, load_job. rewrite Hr.
  replace (mkC (set_st (st (js s)) (js s)) (payloads s)) with s by (by destruct s as [[] ?]).
  unfold cbind at 1. rewrite Hc. cbn [cexpect]. unfold cret at 1. unfold cbind at 1. rewrite Ha. cbn [cexpect].
  unfold cret at 1. unfold cbind at 1.
  destruct (Z.eqb_spec (handle c) (handle a)) as [E|E].
  - assert (Hki : Z.to_nat i = k).
    { eapply NoDup_lookup; [exact Hnd|rewrite list_lookup_fmap, Hc; done|rewrite list_lookup_fmap, Hk; simpl; by rewrite E]. }
    assert (exists d, i_sfsds ino !! Z.to_nat ((i + 1) mod i_numreplicas ino) = Some d) as [d Hd].
    { apply lookup_lt_is_Some. pose proof (Z.mod_pos_bound (i + 1) (i_numreplicas ino)). lia. }
    unfold cbind at 1. rewrite Hd. cbn [cexpect]. unfold cret at 1.
    destruct (move_run p job d s r pay a (handle d =? handle (i_primary_sfsd ino)) Hr Hp Ha)
      as (s2 & r2 & pay2 & Hmove & Hr2 & Hp2 & Hd2).
    rewrite Hmove. destruct (decide (i + 1 = i_numreplicas ino)) as [He|He].
    + assert (n = 0%nat) as -> by lia. exists s2, r2. split_and!; [done|done|].
      rewrite Hd2, <- Hd, He, Z.mod_same by lia. done.
    + rewrite Z.mod_small in Hd by lia.
      apply (IH (i + 1) s2 r2 (S k) d pay2); try done; try lia.
      rewrite <- Hd. f_equal. lia.
  - unfold cret at 1. apply (IH (i + 1) s r k a pay); try done; try lia.
    assert (Z.to_nat i <> k) by (intros <-; congruence). lia.
Qed.

(** * Answers to writes *)

(** [k] successful answers to one write. *)
Fixpoint writes (k : nat) (p : Z) : cprog cstate unit :=
  match k with
  | O => cret tt
  | S k' => (sfs_process_payload p ;;; writes k' p)%cprog
  end.

Lemma write_payload_run s p pay job r m x :
  in_flight s p pay job r m x -> (Z.to_nat (JobId.num_clients r) <= JobId.MAX_SFSD_CLIENTS)%nat ->
  command pay = NFS_WRITE_RSP ->
  sfs_process_payload p s
  = Ret (tt, let r' := write_marked (command_ok pay) r p in
             update s job r' m (write_counted (command_ok pay) r' x)).
Proof.
  intros Hf Hn Hc. unfold sfs_process_payload, cbind, load_payload.
  rewrite (fl_payload _ _ _ _ _ _ _ Hf), Hc. cbn [Z.eqb NFS_READ_RSP NFS_WRITE_RSP Pos.eqb].
  by apply write_response_run.
Qed.

(** A client that has not answered keeps the job incomplete. *)
Lemma count_started_pos n l i :
  (i < n)%nat -> l !! i = Some JOB_STARTED -> count_status JOB_STARTED n l =? 0 = false.
Proof.
  intros Hi Hl. apply Z.eqb_neq. unfold count_status. intros Hz.
  assert (Hin : In JOB_STARTED (List.filter (fun y => y =? JOB_STARTED) (take n l))).
  { apply filter_In. split; [|apply Z.eqb_refl]. apply list_elem_of_In.
    apply list_elem_of_lookup. exists i. by rewrite lookup_take, decide_True. }
  destruct (List.filter _ _); [done|]. simpl in Hz. lia.
Qed.

Lemma write_one_run s p pay job r m x :
  in_flight s p pay job r m x -> 2 <= JobId.num_clients r <= 8 -> command pay = NFS_WRITE_RSP ->
  command_ok pay = SSTACK_SUCCESS -> JobId.job_status r !! 1%nat = Some JOB_STARTED ->
  num_jobs_left x <> 0 ->
  exists r', sfs_process_payload p s
      = Ret (tt, update s job r' m (map_done x (num_jobs_left x) (err_no x) 1)) /\
    in_flight (update s job r' m (map_done x (num_jobs_left x) (err_no x) 1)) p pay job r' m
      (map_done x (num_jobs_left x) (err_no x) 1) /\
    JobId.num_clients r' = JobId.num_clients r /\ JobId.job_status r' !! 1%nat = Some JOB_STARTED.
Proof.
  intros Hf Hn Hc Hok Hst Hleft%Z.eqb_neq. exists (write_marked (command_ok pay) r p).
  assert (Hn' : (Z.to_nat (JobId.num_clients r) <= JobId.MAX_SFSD_CLIENTS)%nat) by (unfold JobId.MAX_SFSD_CLIENTS; lia).
  assert (Hst' : JobId.job_status (write_marked (command_ok pay) r p) !! 1%nat = Some JOB_STARTED).
  { unfold write_marked. destruct (_ && _); [|done]. simpl. by rewrite list_lookup_insert_ne. }
  split_and!.
  - rewrite (write_payload_run _ _ _ _ _ _ _ Hf Hn' Hc). cbv zeta. unfold write_counted.
    rewrite write_marked_clients, (count_started_pos _ _ 1%nat), Hleft by (done || lia). done.
  - eapply update_in_flight; [exact Hf|done| |by destruct Hf]. rewrite write_marked_length. by destruct Hf.
  - apply write_marked_clients.
  - done.
Qed.

Lemma writes_run k s p pay job r m x :
  in_flight s p pay job r m x -> 2 <= JobId.num_clients r <= 8 -> command pay = NFS_WRITE_RSP ->
  command_ok pay = SSTACK_SUCCESS -> JobId.job_status r !! 1%nat = Some JOB_STARTED ->
  num_jobs_left x <> 0 ->
  exists s', writes k p s = Ret (tt, s') /\
    exists x', maps (js s') !! m = Some x' /\ num_jobs_left x' = num_jobs_left x /\
      signals x' = (k + signals x)%nat.
Proof.
  revert s r x. induction k as [|k IH]; intros s r x Hf Hn Hc Hok Hst Hleft; cbn [writes].
  - exists s. split; [done|]. exists x. by destruct Hf.
  - destruct (write_one_run _ _ _ _ _ _ _ Hf Hn Hc Hok Hst Hleft) as (r' & Hrun & Hf' & Hn2 & Hst2).
    rewrite <- Hn2 in Hn. unfold cbind. rewrite Hrun.
    destruct (IH _ _ _ Hf' Hn Hc Hok Hst2 Hleft) as (s' & Hrun' & x' & H1 & H2 & H3).
    exists s'. split; [done|]. exists x'. split_and!; [done|done|]. rewrite H3. simpl. lia.
Qed.

End Completion.

(** The answers to the reads of a request handled one after the other, in any
    order, each one a success:
    after the last one every job is complete and carries its payload, no job
    is left, and the waiting thread has been signalled exactly once. *)
Theorem reads_signal_once {T} `{KeyTree T} handle get_inode jobs_list (s : @cstate T) m x l :
  l <> [] -> NoDup (a_job <$> l) -> Forall (read_answered s m x) l ->
  num_jobs_left x = Z.of_nat (length l) ->
  exists s', process_all handle get_inode jobs_list (a_p <$> l) s = Ret (tt, s') /\
    maps (js s') !! m = Some (map_done x 0 (err_no x) 1) /\
    (forall a, a ∈ l -> jobs (st (js s')) !! a_job a = Some (read_done (a_r a) (a_p a))).
Proof.
  intros H1 H2 H3 H4.
  destruct (reads_run handle get_inode jobs_list s m x l H1 H2 H3 H4) as (s' & G1 & G2 & G3 & _). eauto.
Qed.

(** The retry of a read whose checksum failed is meant to go to the next
    replica. The loop runs on after the job was moved and moves it again, from
    replica to replica, so the retry always goes to the first replica, also
    when that is the one that has just failed. *)
Theorem retry_goes_to_first {T} `{KeyTree T} handle (s : @cstate T) ino p job r k a pay :
  jobs (st (js s)) !! job = Some r -> payloads s !! p = Some pay ->
  JobId.sfsds r !! 0%nat = Some a -> i_sfsds ino !! k = Some a ->
  Z.of_nat (length (i_sfsds ino)) = i_numreplicas ino -> NoDup (handle <$> i_sfsds ino) ->
  exists s' r', retry_replicas handle ino p job (Z.to_nat (i_numreplicas ino)) 0 s = Ret (tt, s') /\
    jobs (st (js s')) !! job = Some r' /\ JobId.sfsds r' !! 0%nat = i_sfsds ino !! 0%nat.
Proof.
  intros Hr Hp Ha Hk Hlen Hnd. pose proof (lookup_lt_Some _ _ _ Hk) as Hlt.
  apply (retry_run handle ino p job (Z.to_nat (i_numreplicas ino)) 0 s r k a pay); try done; lia.
Qed.

(** A write sent to two or more storage daemons never completes: an answer is
    always booked on the first client, since the comparison of the handles is
    commented out. However many answers arrive, the number of jobs left stays
    what it was, yet every answer, the first one included, signals the waiting
    thread. *)
Theorem write_never_completes {T} `{KeyTree T} handle get_inode jobs_list (s : @cstate T) k p pay job r m x :
  in_flight s p pay job r m x -> 2 <= JobId.num_clients r <= 8 -> command pay = NFS_WRITE_RSP ->
  command_ok pay = SSTACK_SUCCESS -> JobId.job_status r !! 1%nat = Some JOB_STARTED ->
  num_jobs_left x <> 0 ->
  exists s', writes handle get_inode jobs_list k p s = Ret (tt, s') /\
    exists x', maps (js s') !! m = Some x' /\ num_jobs_left x' = num_jobs_left x /\
      signals x' = (k + signals x)%nat.
Proof. apply writes_run. Qed.

(** A successful answer to the job 3. *)
Definition demo_answer (cmd : Z) : sstack_payload :=
  mkPayload 3 0 0 cmd 0 0 0 0 [] 0 None SSTACK_SUCCESS 0 None 0.

(** A thread 7 with one job, id 3, for the given number of clients; the
    payload at 400 is an answer to it. *)
Definition demo_job (clients : Z) : JobId.sfs_job :=
  JobId.mkJob 1 1 3 clients [21; 22; 0; 0; 0; 0; 0; 0] (replicate 8 0) 0 0 0.
Definition demo_map : job_map := mkMap 7 0 1 1 false [3] [0] 0 (replicate 8 0) 0.
Definition demo (clients cmd : Z) : @cstate (gmap Z Z) :=
  mkC (mkState (mkStore ∅ ∅ {[5000 := demo_job clients]} 0) {[3 := 100]} {[7 := 200]}
         {[100 := mkJt JTNODE_MAGIC 3 7 5000]} {[200 := mkJm JMNODE_MAGIC 7 300]}
         {[300 := demo_map]} false false)
      {[400 := demo_answer cmd]}.

Lemma demo_in_flight clients cmd :
  in_flight (demo clients cmd) 400 (demo_answer cmd) 5000 (demo_job clients) 300 demo_map.
Proof.
  split; try reflexivity. exists 100, 7. split_and!; try reflexivity. exists 200. split; reflexivity.
Qed.

Lemma reads_signal_once_witness :
  exists s', process_all (fun a => a) (fun _ => None) 1000 [400] (demo 1 33) = Ret (tt, s') /\
    maps (js s') !! 300 = Some (map_done demo_map 0 0 1).
Proof.
  destruct (reads_signal_once (fun a => a) (fun _ => None) 1000 (demo 1 33) 300 demo_map
    [mkAns 400 (demo_answer 33) 5000 (demo_job 1)]) as (s' & H1 & H2 & _).
  - discriminate.
  - apply NoDup_singleton.
  - repeat constructor; apply demo_in_flight.
  - reflexivity.
  - exists s'. split; [exact H1|exact H2].
Defined.

(** The first of two replicas fails, and the retry goes to it again. *)
Lemma retry_goes_to_first_witness :
  exists s' r', retry_replicas (fun a => a) (mkInode 2 [21; 22] 21 0) 400 5000 2 0 (demo 1 33) = Ret (tt, s') /\
    jobs (st (js s')) !! 5000 = Some r' /\ JobId.sfsds r' !! 0%nat = Some 21.
Proof.
  apply (retry_goes_to_first (fun a => a) (demo 1 33) (mkInode 2 [21; 22] 21 0) 400 5000 (demo_job 1) 0%nat 21
    (demo_answer 33)); try reflexivity.
  apply (bool_decide_unpack _). vm_compute. exact I.
Defined.

Lemma write_never_completes_witness :
  exists s', writes (fun a => a) (fun _ => None) 1000 5 400 (demo 2 34) = Ret (tt, s') /\
    exists x', maps (js s') !! 300 = Some x' /\ num_jobs_left x' = 1 /\ signals x' = 5%nat.
Proof.
  apply (write_never_completes (fun a => a) (fun _ => None) 1000 (demo 2 34) 5 400 (demo_answer 34)
    5000 (demo_job 2) 300 demo_map); try reflexivity; [apply demo_in_flight|simpl; lia|discriminate].
Defined.

End Completion.
