(* ===== verification/ReadRace.v ===== *)
(** The answers to the reads of one request, handled by the workers of the
    thread pool side by side: [sfs_process_read_response] of sfs/src/sfs.c, cut
    into its single reads and writes of shared memory ([read_step] of
    [Completion]), as a step relation on the state and the workers. *)
From stdpp Require Import base gmap list numbers relations.
From S2P Require Import Prelude KeyTree BdsList JobId JobQueue JobTrees Completion.

Module ReadRace.
Import JobQueue JobTrees Completion.

Section ReadRace.
Context {T : Type} `{KeyTree T}.
Context (handle : Z -> Z) (get_inode : Z -> option inode) (jobs_list : Z).
Notation step := (read_step handle get_inode jobs_list).
Notation steps := (read_steps handle get_inode jobs_list).
Notation handler := (sfs_process_read_response handle get_inode jobs_list).

Lemma steps_are_handler p (s : @cstate T) : steps 9 p RStart s = handler p s.
Proof.
  unfold sfs_process_read_response. cbn [read_steps read_step]. unfold read_lookup, cbind, cret.
  repeat (cbn [read_step] in *; unfold cbind, cret in *; case_match; simplify_eq; try done).
  all: repeat match goal with u : unit |- _ => destruct u end; done.
Qed.

(** * Workers side by side *)

(** The payload each worker was given and where it is. *)
Notation workers := (list (Z * rpc)).

(** A worker that is not done takes its next step. A step that faults is not
    one of the relation: the lock of the job map is a spin lock, and a worker
    that finds it taken has no step until it is released. *)
Inductive istep : @cstate T * workers -> @cstate T * workers -> Prop :=
  | istep_worker s ws i p pc pc' s' :
      ws !! i = Some (p, pc) -> pc <> RDone -> step p pc s = Ret (pc', s') ->
      istep (s, ws) (s', <[i := (p, pc')]> ws).

Definition uncounted (pc : rpc) : bool :=
  match pc with RStart | RFound _ _ | RLocked _ _ | RLoaded _ _ _ => true | _ => false end.
Definition holding (pc : rpc) : bool :=
  match pc with RLocked _ _ | RLoaded _ _ _ | RLeft _ _ => true | _ => false end.
Definition pending (pc : rpc) : bool :=
  match pc with RLeft _ _ | RFree _ _ | RPaid _ _ | RMarked _ _ | RSignal _ => true | _ => false end.
Definition done (pc : rpc) : bool := match pc with RDone => true | _ => false end.

(** How many workers are in a phase. *)
Fixpoint count (f : rpc -> bool) (ws : workers) : Z :=
  match ws with [] => 0 | w :: ws' => Z.b2z (f w.2) + count f ws' end.

Lemma phase_insert f ws i w w' :
  ws !! i = Some w -> count f (<[i := w']> ws) = count f ws - Z.b2z (f w.2) + Z.b2z (f w'.2).
Proof.
  revert i. induction ws as [|v ws IH]; intros [|i] Hi; cbn in Hi; simplify_eq; [simpl; lia|].
  change (<[S i := w']> (v :: ws)) with (v :: <[i := w']> ws). cbn [count]. rewrite (IH i Hi). lia.
Qed.

Lemma phase_nonneg f ws : 0 <= count f ws.
Proof. induction ws as [|w ws IH]; simpl; [lia|]. destruct (f w.2); simpl; lia. Qed.

Lemma phase_pos f ws : 0 < count f ws <-> exists i w, ws !! i = Some w /\ f w.2 = true.
Proof.
  induction ws as [|v ws IH]; simpl.
  - split; [lia|]. intros (i & w & Hi & _). by rewrite lookup_nil in Hi.
  - pose proof (phase_nonneg f ws). destruct (f v.2) eqn:Hv; simpl.
    + split; [|lia]. intros _. by exists 0%nat, v.
    + rewrite Z.add_0_l, IH. split.
      * intros (i & w & Hi & Hw). by exists (S i), w.
      * intros ([|i] & w & Hi & Hw); simpl in Hi; [congruence|eauto].
Qed.

Lemma phase_all f ws : count f ws = Z.of_nat (length ws) <-> forall i w, ws !! i = Some w -> f w.2 = true.
Proof.
  induction ws as [|v ws IH]; simpl.
  - split; [|done]. intros _ i w Hi. by rewrite lookup_nil in Hi.
  - assert (count f ws <= Z.of_nat (length ws)).
    { clear. induction ws as [|w ws IH]; simpl; [lia|]. destruct (f w.2); simpl; lia. }
    split.
    + intros Hc. destruct (f v.2) eqn:Hv; simpl in Hc; [|lia].
      intros [|i] w Hi; simpl in Hi; [congruence|]. apply (proj1 IH ltac:(lia) i w Hi).
    + intros Hall. rewrite (Hall 0%nat v eq_refl). simpl.
      rewrite (proj2 IH (fun i w Hi => Hall (S i) w Hi)). lia.
Qed.

(** * The shared memory *)

(** Of the state [s0] in which the answers arrive, with the job map [x] at
    [m], the workers change the jobs, and of the job map the count of the jobs
    left, the lock and the signals. *)
Record view : Type := mkView { v_jobs : gmap Z JobId.sfs_job; v_left : Z; v_lock : bool; v_signals : nat }.

Definition map_at (x : job_map) (v : view) : job_map :=
  mkMap (thread_id x) (err_no x) (num_jobs x) (v_left v) (v_lock v) (job_ids x) (map_job_status x)
    (map_num_clients x) (op_status x) (v_signals v).

Definition shared (s0 : @cstate T) (m : Z) (x : job_map) (v : view) : @cstate T :=
  mkC (set_maps (<[m := map_at x v]> (maps (js s0)))
        (set_st (mkStore (heap (st (js s0))) (queues (st (js s0))) (v_jobs v) (errno (st (js s0)))) (js s0)))
      (payloads s0).

Definition with_jobs (v : view) (jb : gmap Z JobId.sfs_job) : view := mkView jb (v_left v) (v_lock v) (v_signals v).
Definition with_left (v : view) (k : Z) : view := mkView (v_jobs v) k (v_lock v) (v_signals v).
Definition with_lock (v : view) (b : bool) : view := mkView (v_jobs v) (v_left v) b (v_signals v).
Definition signalled (v : view) : view := mkView (v_jobs v) (v_left v) (v_lock v) (S (v_signals v)).

(** The job a worker answers, by where the worker is. *)
Definition job_at (pc : rpc) (a : answer) : JobId.sfs_job :=
  match pc with
  | RPaid _ _ => with_payload (a_r a) (a_p a)
  | RMarked _ _ | RSignal _ | RDone => read_done (a_r a) (a_p a)
  | _ => a_r a
  end.

(** What a worker knows. *)
Definition pc_ok (a : answer) (m : Z) (v : view) (pc : rpc) : Prop :=
  match pc with
  | RStart | RDone => True
  | RLoaded job m' k => job = a_job a /\ m' = m /\ k = v_left v
  | RSignal m' => m' = m /\ v_left v = 0
  | RFound job m' | RLocked job m' | RLeft job m' | RFree job m' | RPaid job m' | RMarked job m' =>
      job = a_job a /\ m' = m
  end.

(** What a step does to the view. *)
Definition move (a : answer) (m : Z) (v : view) (pc : rpc) : rpc * view :=
  match pc with
  | RStart => (RFound (a_job a) m, v)
  | RFound job m => (RLocked job m, with_lock v true)
  | RLocked job m => (RLoaded job m (v_left v), v)
  | RLoaded job m k => (RLeft job m, with_left v (k - 1))
  | RLeft job m => (RFree job m, with_lock v false)
  | RFree job m => (RPaid job m, with_jobs v (<[a_job a := with_payload (a_r a) (a_p a)]> (v_jobs v)))
  | RPaid job m => (RMarked job m, with_jobs v (<[a_job a := read_done (a_r a) (a_p a)]> (v_jobs v)))
  | RMarked _ m => (if v_left v =? 0 then RSignal m else RDone, v)
  | RSignal m => (RDone, signalled v)
  | RDone => (RDone, v)
  end.

Ltac run_step :=
  unfold read_step, read_lookup, read_test, get_job, put_job, set_payload, set_status, get_job, put_job, lift,
    on_store, load_job, map_lock, map_unlock, set_left, cond_signal, load_map, store_map, load_jt, load_jm,
    find_jt, find_jm, load_payload, put_errno, cbind, cmod, cret;
  repeat (simpl; rewrite ?lookup_insert_eq, ?insert_insert_eq).

Lemma step_moves s0 m x v a pc :
  read_answered s0 m x a -> pc_ok a m v pc -> v_jobs v !! a_job a = Some (job_at pc a) ->
  step (a_p a) pc (shared s0 m x v)
  = (if (match pc with RFound _ _ => v_lock v | _ => false end) then Fault Deadlock
     else Ret ((move a m v pc).1, shared s0 m x (move a m v pc).2)).
Proof.
  intros ([H1 (n & t & H2 & H3 & b & H4 & H5) H6 H7 H8 H9 H10] & _ & Hok) Hpc Hj.
  pose proof (status_bound (a_r a) 0 H9 ltac:(lia)) as Hb.
  destruct pc; simpl in Hpc; destruct_and?; subst; simpl in Hj |- *; try done; run_step.
  - rewrite H1. run_step. rewrite H2. run_step. rewrite H3. run_step. rewrite H4. run_step. rewrite H5. run_step.
    by rewrite Hok, Z.eqb_refl.
  - destruct (v_lock v); run_step; unfold shared, set_maps; simpl; by rewrite ?insert_insert_eq.
  - done.
  - unfold shared, set_maps; simpl; by rewrite ?insert_insert_eq.
  - unfold shared, set_maps; simpl; by rewrite ?insert_insert_eq.
  - rewrite Hj. run_step. done.
  - rewrite Hj. run_step. rewrite Hb. run_step. done.
  - by destruct (v_left v =? 0).
  - unfold shared, set_maps; simpl; by rewrite ?insert_insert_eq.
Qed.

(** * The invariant *)

Definition worker_ok (m : Z) (v : view) (a : answer) (w : Z * rpc) : Prop :=
  w.1 = a_p a /\ pc_ok a m v w.2 /\ v_jobs v !! a_job a = Some (job_at w.2 a).

(** The counter and the lock of the job map say where the workers are; nobody
    is signalled while a job is left, and once none is, the signal has been
    given or a worker is on its way to give it. *)
Record counts (x : job_map) (v : view) (ws : workers) : Prop := {
  c_left : v_left v = count uncounted ws;
  c_lock : count holding ws = Z.b2z (v_lock v);
  c_more : (signals x <= v_signals v)%nat;
  c_sig : Z.of_nat (v_signals v) <= Z.of_nat (signals x) + count done ws;
  c_early : (signals x < v_signals v)%nat -> v_left v = 0;
  c_some : v_left v = 0 -> (signals x < v_signals v)%nat \/ 0 < count pending ws
}.

Record inv (m : Z) (x : job_map) (l : list answer) (v : view) (ws : workers) : Prop := {
  inv_length : length ws = length l;
  inv_worker i a w : l !! i = Some a -> ws !! i = Some w -> worker_ok m v a w;
  inv_counts : counts x v ws
}.

Lemma phase_two f ws i j w w' :
  ws !! i = Some w -> ws !! j = Some w' -> i <> j -> f w.2 = true -> f w'.2 = true -> f RDone = false ->
  2 <= count f ws.
Proof.
  intros Hi Hj Hne Hw Hw' Hd. pose proof (phase_insert f ws i w (0, RDone) Hi) as Hc.
  assert (0 < count f (<[i := (0, RDone)]> ws)).
  { apply phase_pos. exists j, w'. by rewrite list_lookup_insert_ne. }
  rewrite Hw in Hc. simpl in Hc. rewrite Hd in Hc. simpl in Hc. lia.
Qed.

Lemma move_self a m v pc :
  pc_ok a m v pc -> v_jobs v !! a_job a = Some (job_at pc a) ->
  pc_ok a m (move a m v pc).2 (move a m v pc).1 /\
  v_jobs (move a m v pc).2 !! a_job a = Some (job_at (move a m v pc).1 a).
Proof.
  intros Hpc Hj. destruct pc; simpl in *; destruct_and?; subst; rewrite ?lookup_insert_eq; try done.
  destruct (Z.eqb_spec (v_left v) 0); done.
Qed.

(** A worker that is about to write the counter back holds the lock, so no
    other one has read it, and none has seen that no job is left. *)
Lemma move_other m x l v ws i a pc k b w :
  inv m x l v ws -> l !! i = Some a -> ws !! i = Some (a_p a, pc) ->
  l !! k = Some b -> ws !! k = Some w -> i <> k -> NoDup (a_job <$> l) ->
  worker_ok m (move a m v pc).2 b w.
Proof.
  intros [_ Hw Hc] Hla Hwi Hlb Hwk Hne Hnd. destruct (Hw k b w Hlb Hwk) as (Hp & Hpc & Hj).
  assert (Hjob : a_job a <> a_job b).
  { intros He. apply Hne. eapply NoDup_lookup; [exact Hnd|by rewrite list_lookup_fmap, Hla|].
    rewrite list_lookup_fmap, Hlb. simpl. by rewrite He. }
  split; [done|]. split; [|by destruct pc; simpl; rewrite ?lookup_insert_ne].
  destruct pc; try done. destruct w as [p' pc']; simpl in *. destruct pc'; try done.
  - pose proof (phase_two holding ws i k _ _ Hwi Hwk Hne eq_refl eq_refl eq_refl).
    destruct Hc as [_ Hl _ _ _ _]. destruct (v_lock v); simpl in Hl; lia.
  - assert (0 < count uncounted ws) by (apply phase_pos; eauto). destruct Hc as [Hl _ _ _ _ _]. destruct Hpc. lia.
Qed.

Lemma move_counts m x l v ws i a pc :
  inv m x l v ws -> l !! i = Some a -> ws !! i = Some (a_p a, pc) -> pc <> RDone ->
  (match pc with RFound _ _ => v_lock v | _ => false end) = false ->
  counts x (move a m v pc).2 (<[i := (a_p a, (move a m v pc).1)]> ws).
Proof.
  intros [_ Hw [H1 H2 H3 H4 H5 H6]] Hla Hwi Hnd Hlk. destruct (Hw i a _ Hla Hwi) as (_ & Hpc & _).
  pose proof (fun f => phase_insert f ws i _ (a_p a, (move a m v pc).1) Hwi) as Hci.
  pose proof (phase_nonneg uncounted ws). pose proof (phase_nonneg pending ws).
  assert (Hu : uncounted pc = true -> 0 < count uncounted ws) by (intros; apply phase_pos; eauto).
  assert (Hh : holding pc = true -> 0 < count holding ws) by (intros; apply phase_pos; eauto).
  destruct pc; simpl in *; destruct_and?; subst; try done.
  all: split; rewrite ?Hci; simpl; try (destruct (Z.eqb_spec (v_left v) 0)); simpl; try lia.
  all: destruct (v_lock v); simpl in *; try done; try (specialize (Hh eq_refl)); lia.
Qed.

Lemma inv_step s0 m x l v ws c' :
  Forall (read_answered s0 m x) l -> NoDup (a_job <$> l) -> inv m x l v ws ->
  istep (shared s0 m x v, ws) c' ->
  exists v', inv m x l v' c'.2 /\ c'.1 = shared s0 m x v'.
Proof.
  intros Hall Hnd Hi Hs. remember (shared s0 m x v, ws) as c eqn:Hc. destruct Hs as [s ws0 i p pc pc' s' Hwi Hpc Hs].
  injection Hc as -> ->. pose proof Hi as [Hlen Hw Hcn].
  assert (exists a, l !! i = Some a) as [a Hla].
  { apply lookup_lt_is_Some. rewrite <- Hlen. by eapply lookup_lt_Some. }
  destruct (Hw i a _ Hla Hwi) as (Hp & Hok & Hj). simpl in Hp, Hok, Hj. subst p.
  assert (Ha : read_answered s0 m x a) by (rewrite list.Forall_forall in Hall; apply Hall; by eapply list_elem_of_lookup_2).
  rewrite (step_moves _ _ _ _ _ _ Ha Hok Hj) in Hs.
  destruct (match pc with RFound _ _ => v_lock v | _ => false end) eqn:Hlk; [done|]. injection Hs as <- <-.
  exists (move a m v pc).2. split; [|done]. split.
  - cbn [snd]. by rewrite length_insert.
  - intros k b w Hlb Hwk. simpl in Hwk. destruct (decide (i = k)) as [->|Hne].
    + rewrite list_lookup_insert_eq in Hwk by (by eapply lookup_lt_Some). simplify_eq.
      split; [done|]. by apply move_self.
    + rewrite list_lookup_insert_ne in Hwk by done. by eapply move_other.
  - by eapply move_counts.
Qed.

(** The answers have arrived and no worker has begun. *)
Definition started (l : list answer) : workers := (fun a => (a_p a, RStart)) <$> l.

Lemma phase_started f l : count f (started l) = if f RStart then Z.of_nat (length l) else 0.
Proof. induction l as [|a l IH]; simpl; [by destruct (f RStart)|]. rewrite IH. destruct (f RStart); simpl; lia. Qed.

Lemma inv_started s0 m x l :
  Forall (read_answered s0 m x) l -> num_jobs_left x = Z.of_nat (length l) -> l <> [] ->
  inv m x l (mkView (jobs (st (js s0))) (num_jobs_left x) false (signals x)) (started l).
Proof.
  intros Hall Hleft Hne. rewrite list.Forall_forall in Hall. split.
  - apply length_fmap.
  - intros i a w Hla Hw. unfold started in Hw. rewrite list_lookup_fmap, Hla in Hw. simplify_eq/=.
    split; [done|]. split; [done|]. destruct (Hall a ltac:(by eapply list_elem_of_lookup_2)) as ([] & _). done.
  - split; rewrite ?phase_started; simpl; try lia. rewrite Hleft. destruct l; [done|simpl; lia].
Qed.

Lemma shared_start s0 m x l a :
  a ∈ l -> Forall (read_answered s0 m x) l ->
  shared s0 m x (mkView (jobs (st (js s0))) (num_jobs_left x) false (signals x)) = s0.
Proof.
  intros Hin Hall. rewrite list.Forall_forall in Hall. destruct (Hall a Hin) as ([_ _ H1 H2 _ _ _] & _).
  destruct s0 as [[[? ? ? ?] ? ? ? ? ? ? ?] ?]. unfold shared, map_at, set_maps, set_st. simpl in *.
  rewrite insert_id; [done|]. rewrite H1. f_equal. rewrite <- H2. by destruct x.
Qed.

Lemma inv_reach s0 m x l c :
  Forall (read_answered s0 m x) l -> NoDup (a_job <$> l) -> num_jobs_left x = Z.of_nat (length l) -> l <> [] ->
  rtc istep (s0, started l) c ->
  exists v, inv m x l v c.2 /\ c.1 = shared s0 m x v.
Proof.
  intros Hall Hnd Hleft Hne Hr. pose proof (inv_started s0 m x l Hall Hleft Hne) as Hi.
  assert (Hs : s0 = shared s0 m x (mkView (jobs (st (js s0))) (num_jobs_left x) false (signals x))).
  { destruct l as [|a l]; [done|]. symmetry. eapply (shared_start _ _ _ (a :: l) a); [by left|done]. }
  assert (exists v, inv m x l v (s0, started l).2 /\ (s0, started l).1 = shared s0 m x v) as Hex by (by eexists).
  clear Hi Hs. induction Hr as [c|c1 c2 c3 Hs Hr IH]; [done|]. apply IH.
  destruct Hex as (v & Hi & Hv). destruct c1 as [s ws]. simpl in *. subst s. by eapply inv_step.
Qed.

(** * Progress and termination *)

(** A worker with the lock free, or past it, can take its step. *)
Lemma can_step s0 m x l v ws i w :
  Forall (read_answered s0 m x) l -> inv m x l v ws -> ws !! i = Some w -> done w.2 = false ->
  (match w.2 with RFound _ _ => v_lock v | _ => false end) = false ->
  exists c', istep (shared s0 m x v, ws) c'.
Proof.
  intros Hall [Hlen Hw _] Hwi Hnd Hlk. destruct w as [p pc].
  assert (exists a, l !! i = Some a) as [a Hla].
  { apply lookup_lt_is_Some. rewrite <- Hlen. by eapply lookup_lt_Some. }
  destruct (Hw i a _ Hla Hwi) as (Hp & Hok & Hj). simpl in Hp, Hok, Hj, Hlk. subst p.
  assert (Ha : read_answered s0 m x a) by (rewrite list.Forall_forall in Hall; apply Hall; by eapply list_elem_of_lookup_2).
  eexists. eapply istep_worker; [exact Hwi|by intros ->|].
  rewrite (step_moves _ _ _ _ _ _ Ha Hok Hj), Hlk. reflexivity.
Qed.

(** A state without a step is one in which every worker is done. *)
Lemma stuck_done s0 m x l v ws :
  Forall (read_answered s0 m x) l -> inv m x l v ws ->
  (forall c', ~ istep (shared s0 m x v, ws) c') -> forall i w, ws !! i = Some w -> w.2 = RDone.
Proof.
  intros Hall Hi Hstuck i w Hwi. destruct (done w.2) eqn:Hd; [by destruct w.2|].
  destruct (v_lock v) eqn:Hl.
  - destruct (proj1 (phase_pos holding ws)) as (k & w' & Hk & Hh).
    { rewrite (c_lock _ _ _ (inv_counts _ _ _ _ _ Hi)), Hl. done. }
    destruct (can_step s0 m x l v ws k w' Hall Hi Hk) as [c' Hc].
    + by destruct w'.2.
    + by destruct w'.2.
    + by destruct (Hstuck c').
  - destruct (can_step s0 m x l v ws i w Hall Hi Hwi Hd) as [c' Hc].
    + by destruct w.2.
    + by destruct (Hstuck c').
Qed.

(** The steps a worker still has to take, at most. *)
Definition remaining (pc : rpc) : nat :=
  match pc with
  | RStart => 9 | RFound _ _ => 8 | RLocked _ _ => 7 | RLoaded _ _ _ => 6 | RLeft _ _ => 5 | RFree _ _ => 4
  | RPaid _ _ => 3 | RMarked _ _ => 2 | RSignal _ => 1 | RDone => 0
  end.

Fixpoint to_do (ws : workers) : nat :=
  match ws with [] => 0 | w :: ws' => remaining w.2 + to_do ws' end.

Lemma to_do_insert ws i w w' :
  ws !! i = Some w -> (to_do (<[i := w']> ws) + remaining w.2 = to_do ws + remaining w'.2)%nat.
Proof.
  revert i. induction ws as [|v ws IH]; intros [|i] Hi; cbn in Hi; simplify_eq; [simpl; lia|].
  change (<[S i := w']> (v :: ws)) with (v :: <[i := w']> ws). cbn [to_do]. specialize (IH i Hi). lia.
Qed.

Lemma read_step_remaining p pc pc' (s s' : @cstate T) :
  pc <> RDone -> step p pc s = Ret (pc', s') -> (remaining pc' < remaining pc)%nat.
Proof.
  intros Hpc Hs. destruct pc; try done; cbn [read_step] in Hs; unfold read_lookup, cbind, cret in Hs;
    repeat (case_match; simplify_eq; simpl; try lia).
Qed.

Lemma nsteps_to_do n c c' : nsteps istep n c c' -> (n + to_do c'.2 <= to_do c.2)%nat.
Proof.
  induction 1 as [c|n c1 c2 c3 Hs Hn IH]; [lia|]. destruct Hs as [s ws i p pc pc' s' Hwi Hpc Hs].
  pose proof (to_do_insert ws i (p, pc) (p, pc') Hwi) as Hi. simpl in *.
  pose proof (read_step_remaining _ _ _ _ _ Hpc Hs). lia.
Qed.

Lemma to_do_started l : to_do (started l) = (9 * length l)%nat.
Proof. induction l as [|a l IH]; [done|]. cbn [started fmap list_fmap to_do]. fold (started l). rewrite IH. simpl. lia. Qed.

(** * Schedules *)

(** The workers take their steps in the order the schedule names them. *)
Fixpoint sched (sc : list nat) (c : @cstate T * workers) : option (@cstate T * workers) :=
  match sc with
  | [] => Some c
  | i :: ks =>
      match c.2 !! i with
      | Some (p, pc) =>
          if done pc then None else
          match step p pc c.1 with
          | Ret (pc', s') => sched ks (s', <[i := (p, pc')]> c.2)
          | Fault _ => None
          end
      | None => None
      end
  end.

Lemma sched_reach sc c c' : sched sc c = Some c' -> rtc istep c c'.
Proof.
  revert c. induction sc as [|i sc IH]; intros [s ws] Hs; simpl in Hs; [by simplify_eq|].
  destruct (ws !! i) as [[p pc]|] eqn:Hw; [|done]. destruct (done pc) eqn:Hd; [done|].
  destruct (step p pc s) as [[pc' s']|] eqn:He; [|done].
  eapply rtc_l; [|by apply IH]. apply (istep_worker s ws i p pc pc' s'); [done|by intros ->|done].
Qed.

(** What the invariant gives of a state that is reached. *)
Lemma reads_reached s0 m x l s ws :
  l <> [] -> NoDup (a_job <$> l) -> Forall (read_answered s0 m x) l -> num_jobs_left x = Z.of_nat (length l) ->
  rtc istep (s0, started l) (s, ws) ->
  exists y, maps (js s) !! m = Some y /\ num_jobs_left y = count uncounted ws /\
    ((signals x < signals y)%nat -> num_jobs_left y = 0) /\
    ((forall c, ~ istep (s, ws) c) ->
       lock y = false /\ num_jobs_left y = 0 /\ (signals x < signals y <= signals x + length l)%nat /\
       forall a, a ∈ l -> jobs (st (js s)) !! a_job a = Some (read_done (a_r a) (a_p a))).
Proof.
  intros Hne Hnd Hall Hleft Hr. destruct (inv_reach _ _ _ _ _ Hall Hnd Hleft Hne Hr) as (v & Hi & Hv).
  simpl in *. subst s. exists (map_at x v). pose proof Hi as [Hlen Hw [H1 H2 H3 H4 H5 H6]].
  split; [apply lookup_insert_eq|]. split_and!; [done|done|]. intros Hstuck.
  pose proof (stuck_done _ _ _ _ _ _ Hall Hi Hstuck) as Hd.
  assert (Hz : forall f, f RDone = false -> count f ws = 0).
  { intros f Hf. pose proof (phase_nonneg f ws). destruct (Z.eq_dec (count f ws) 0) as [|Hn]; [done|].
    destruct (proj1 (phase_pos f ws) ltac:(lia)) as (i & w & Hwi & Hfw). rewrite (Hd i w Hwi) in Hfw. congruence. }
  assert (Ha : count done ws = Z.of_nat (length ws)) by (apply phase_all; intros i w Hwi; by rewrite (Hd i w Hwi)).
  rewrite (Hz _ eq_refl) in H1. rewrite (Hz _ eq_refl) in H2. rewrite (Hz _ eq_refl) in H6. split_and!; simpl; [by destruct (v_lock v)|done|lia|lia|].
  intros a Hin. apply list_elem_of_lookup in Hin as [i Hla].
  destruct (ws !! i) as [w|] eqn:Hwi; [|apply lookup_ge_None in Hwi; apply lookup_lt_Some in Hla; lia].
  destruct (Hw i a w Hla Hwi) as (_ & _ & Hj). by rewrite (Hd i w Hwi) in Hj.
Qed.

End ReadRace.
End ReadRace.

Import JobQueue JobTrees Completion ReadRace.

(** The steps of a worker one after the other are the handler. *)
Theorem handler_is_its_steps {T} `{KeyTree T} handle get_inode jobs_list p (s : @cstate T) :
  read_steps handle get_inode jobs_list 9 p RStart s = sfs_process_read_response handle get_inode jobs_list p s.
Proof. apply steps_are_handler. Qed.

(** C15. The successful answers to the reads of one request, one worker of the
    thread pool for each, their steps (lock, load and store of the counter,
    unlock, payload, status, test, signal) interleaved in any way. No run is
    longer than nine steps a worker. In every state that is reached the
    counter of the job map is the number of the answers not yet counted, and
    the waiting thread has been signalled only when that is 0. When no worker
    can move any more, the lock is free, every job is complete and carries its
    payload, no job is left, and the thread has been signalled at least once
    and at most once for each answer. *)
Theorem reads_interleaved {T} `{KeyTree T} handle get_inode jobs_list (s0 : @cstate T) m x l n s ws :
  l <> [] -> NoDup (a_job <$> l) -> Forall (read_answered s0 m x) l ->
  num_jobs_left x = Z.of_nat (length l) ->
  nsteps (istep handle get_inode jobs_list) n (s0, started l) (s, ws) ->
  (n <= 9 * length l)%nat /\
  exists y, maps (js s) !! m = Some y /\ num_jobs_left y = count uncounted ws /\
    ((signals x < signals y)%nat -> num_jobs_left y = 0) /\
    ((forall c, ~ istep handle get_inode jobs_list (s, ws) c) ->
       lock y = false /\ num_jobs_left y = 0 /\ (signals x < signals y <= signals x + length l)%nat /\
       forall a, a ∈ l -> jobs (st (js s)) !! a_job a = Some (read_done (a_r a) (a_p a))).
Proof.
  intros Hne Hnd Hall Hleft Hn. split.
  - apply nsteps_to_do in Hn. simpl in Hn. rewrite to_do_started in Hn. lia.
  - by eapply reads_reached, rtc_nsteps_2.
Qed.

(** A thread 7 with two reads, jobs 3 and 4, both answered. *)
Definition two_answer (id : Z) : sstack_payload :=
  mkPayload id 0 0 NFS_READ_RSP 0 0 0 0 [] 0 None SSTACK_SUCCESS 0 None 0.
Definition two_job (id : Z) : JobId.sfs_job :=
  JobId.mkJob 1 1 id 1 [21; 0; 0; 0; 0; 0; 0; 0] (replicate 8 0) 0 0 0.
Definition two_map : job_map := mkMap 7 0 2 2 false [3; 4] [0; 0] 0 (replicate 8 0) 0.
Definition two : @cstate (gmap Z Z) :=
  mkC (mkState (mkStore ∅ ∅ {[5000 := two_job 3; 6000 := two_job 4]} 0) {[3 := 100; 4 := 101]} {[7 := 200]}
         {[100 := mkJt JTNODE_MAGIC 3 7 5000; 101 := mkJt JTNODE_MAGIC 4 7 6000]} {[200 := mkJm JMNODE_MAGIC 7 300]}
         {[300 := two_map]} false false)
      {[400 := two_answer 3; 401 := two_answer 4]}.
Definition two_answers : list answer :=
  [mkAns 400 (two_answer 3) 5000 (two_job 3); mkAns 401 (two_answer 4) 6000 (two_job 4)].

Lemma two_answered : Forall (read_answered two 300 two_map) two_answers.
Proof.
  repeat constructor; try reflexivity.
  - exists 100, 7. split_and!; try reflexivity. exists 200. split; reflexivity.
  - exists 101, 7. split_and!; try reflexivity. exists 200. split; reflexivity.
Qed.

(** A run of the two workers in which the first stops before it stores its
    payload and the second goes on to the end. *)
Definition early_run : list nat := [0; 0; 0; 0; 0; 1; 1; 1; 1; 1; 1; 1; 1; 1]%nat.
(** One in which both have counted before either of them tests. *)
Definition twice_run : list nat := [0; 0; 0; 0; 0; 1; 1; 1; 1; 1; 0; 0; 0; 0; 1; 1; 1; 1]%nat.

(** The counter is tested outside the lock and before every payload is in
    place: the waiting thread can be signalled while a job has neither its
    payload nor its status, and it can be signalled twice. *)
Theorem signalled_early_and_twice :
  (exists s ws y, rtc (istep (fun a => a) (fun _ => None) 1000) (two, started two_answers) (s, ws) /\
     maps (js s) !! 300 = Some y /\ signals y = 1%nat /\ jobs (st (js s)) !! 5000 = Some (two_job 3)) /\
  (exists s ws y, rtc (istep (fun a => a) (fun _ => None) 1000) (two, started two_answers) (s, ws) /\
     maps (js s) !! 300 = Some y /\ signals y = 2%nat).
Proof.
  split.
  - do 3 eexists. split_and!; [apply (sched_reach _ _ _ early_run); vm_compute; reflexivity|reflexivity..].
  - do 3 eexists. split_and!; [apply (sched_reach _ _ _ twice_run); vm_compute; reflexivity|reflexivity..].
Qed.

Lemma reads_interleaved_witness :
  exists s y, rtc (istep (fun a => a) (fun _ => None) 1000) (two, started two_answers) (s, [(400, RDone); (401, RDone)]) /\
     maps (js s) !! 300 = Some y /\ num_jobs_left y = 0 /\ (0 < signals y <= 2)%nat /\
     jobs (st (js s)) !! 5000 = Some (read_done (two_job 3) 400).
Proof.
  assert (Hr : exists s, sched (fun a => a) (fun _ => None) 1000 twice_run (two, started two_answers)
                         = Some (s, [(400, RDone); (401, RDone)])) by (eexists; vm_compute; reflexivity).
  destruct Hr as [s Hr%sched_reach]. destruct (rtc_nsteps_1 _ _ Hr) as [n Hn].
  destruct (reads_interleaved (fun a => a) (fun _ => None) 1000 two 300 two_map two_answers n s
    [(400, RDone); (401, RDone)]) as (_ & y & H1 & _ & _ & H2); [discriminate| |apply two_answered|reflexivity|exact Hn|].
  - apply (bool_decide_unpack _). vm_compute. exact I.
  - destruct H2 as (_ & H2 & H3 & H4).
    + intros c Hc. inversion Hc as [? ? i p pc ? ? Hi Hpc _]; subst. apply Hpc.
      destruct i as [|[|i]]; [cbn in Hi; congruence|cbn in Hi; congruence|apply lookup_lt_Some in Hi; simpl in Hi; lia].
    + exists s, y. split_and!; [exact Hr|exact H1|exact H2|apply H3|apply H3|].
      apply (H4 (mkAns 400 (two_answer 3) 5000 (two_job 3))). by left.
Defined.
