(* ===== verification/InodeStore.v ===== *)
(** The inode records of the database (common/src/sstack_helper.c): how an
    inode is flattened into a record and filled from one.

    An inode in memory is its fixed part, byte by byte in the layout of an
    LP64 machine, and the blocks its pointers refer to. *)
From Stdlib Require Import ZArith Lia.
From stdpp Require Import base gmap list numbers.
From S2P Require Import Prelude.

Module InodeStore.

Definition INODE_NUM_START : Z := 2.
(** [get_inode_fixed_fields_len], [get_extent_fixed_fields_len] and the sizes
    of the structures. *)
Definition INODE_FIXED : Z := 4272.
Definition EXTENT_FIXED : Z := 32.
Definition SIZEOF_EXTENT : Z := 40.
Definition SIZEOF_HANDLE : Z := 4152.
Definition SIZEOF_CKSUM : Z := 4.
Definition SIZEOF_PTR : Z := 8.

(** [len] bytes at [off] of a block. *)
Definition sub (off len : Z) (b : list Z) : list Z := take (Z.to_nat len) (drop (Z.to_nat off) b).
Definition size (b : list Z) : Z := Z.of_nat (length b).

(** Reading and writing inside a block. *)
Definition read_at {S} (off len : Z) (b : list Z) : cprog S (list Z) :=
  if (0 <=? off) && (0 <=? len) && (off + len <=? size b) then cret (sub off len b) else cfault OutOfBounds.
Definition write_at {S} (off : Z) (x b : list Z) : cprog S (list Z) :=
  if (0 <=? off) && (off + size x <=? size b)
  then cret (take (Z.to_nat off) b ++ x ++ drop (Z.to_nat (off + size x)) b)
  else cfault OutOfBounds.
(** Copying from a pointer, which may be NULL. *)
Definition read_ptr {S} (p : option (list Z)) (len : Z) : cprog S (list Z) :=
  match p with
  | Some b => read_at 0 len b
  | None => if len =? 0 then cret [] else cfault NullDeref
  end.

Fixpoint le (bs : list Z) : Z :=
  match bs with
  | [] => 0
  | b :: bs' => b + 256 * le bs'
  end.

(** An extent: its 40 bytes, the last 8 of which are the pointer [e_path],
    and the block that pointer refers to. *)
Record sstack_extent : Type := mkExtent { e_raw : list Z; e_path : option (list Z) }.
Definition e_offset (e : sstack_extent) : Z := le (sub 0 8 (e_raw e)).
Definition e_size (e : sstack_extent) : Z := le (sub 8 8 (e_raw e)).
Definition e_sizeondisk (e : sstack_extent) : Z := le (sub 16 8 (e_raw e)).
Definition e_numreplicas (e : sstack_extent) : Z := le (sub 28 4 (e_raw e)).

(** An inode. The arrays of extents are given by what lies at each byte
    offset of their block. *)
Record sstack_inode : Type := mkInode {
  i_fixed : list Z;
  i_xattr : option (list Z);
  i_erasure : gmap Z sstack_extent;
  i_extent : gmap Z sstack_extent;
  i_sfsds : option (list Z)
}.
Definition i_numclients (f : list Z) : Z := swrap 32 (le (sub 4236 4 f)).
Definition i_numerasure (f : list Z) : Z := le (sub 4240 4 f).
Definition i_numextents (f : list Z) : Z := swrap 32 (le (sub 4248 4 f)).
Definition i_xattrlen (f : list Z) : Z := swrap 32 (le (sub 4252 4 f)).
Definition i_num (f : list Z) : Z := le (sub 4256 8 f).

(** The state is what the allocator answers to the calls to come. *)
Definition alloc : cprog (list bool) bool := fun l =>
  match l with
  | [] => Ret (true, [])
  | b :: l' => Ret (b, l')
  end.

(** [memcpy(data + *len, x, size x)] in a record whose block has [cap]
    bytes; the bytes below [*len] are the ones written so far. *)
Definition put {S} (data : list Z) (cap : Z) (x : list Z) : cprog S (list Z) :=
  if size data + size x <=? cap then cret (data ++ x) else cfault OutOfBounds.

Section Store.
(** Whether [realloc] moves the record, and the bytes of a pointer to a new
    block. *)
Context (moves : bool) (ptr : list Z).

(** The block that [realloc] returns is not assigned to [data]. *)
Definition flatten_xattr (ino : sstack_inode) (data : list Z) : cprog (list bool) (option (list Z)) :=
  (if 0 <? i_xattrlen (i_fixed ino) then
     let! ok := alloc in
     if negb ok then cret None
     else if moves then cfault UseAfterFree
     else
       let! x := read_ptr (i_xattr ino) (i_xattrlen (i_fixed ino)) in
       let! data := put data (size data + i_xattrlen (i_fixed ino)) x in
       cret (Some data)
   else cret (Some data))%cprog.

(** The checksum is copied with the size of an extent. *)
Fixpoint flatten_erasure (ino : sstack_inode) (n : nat) (i : Z) (data : list Z)
  : cprog (list bool) (option (list Z)) :=
  match n with
  | O => cret (Some data)
  | S n' =>
      (let! ok := alloc in
       if negb ok then cret None
       else
         let cap := size data + SIZEOF_HANDLE + SIZEOF_CKSUM in
         let! er := cexpect Uninit (i_erasure ino !! (SIZEOF_EXTENT * i)) in
         let! h := read_ptr (e_path er) SIZEOF_HANDLE in
         let! data := put data cap h in
         let next := default [] (e_raw <$> i_erasure ino !! (SIZEOF_EXTENT * (i + 1))) in
         let! x := read_at 24 SIZEOF_EXTENT (e_raw er ++ next) in
         let! data := put data cap x in
         flatten_erasure ino n' (i + 1) data)%cprog
  end.

Fixpoint flatten_extents (ino : sstack_inode) (n : nat) (i : Z) (data : list Z)
  : cprog (list bool) (option (list Z)) :=
  match n with
  | O => cret (Some data)
  | S n' =>
      (let! ex := cexpect Uninit (i_extent ino !! (SIZEOF_EXTENT * i)) in
       let! ok := alloc in
       if negb ok then cret None
       else
         let! x := read_at 0 EXTENT_FIXED (e_raw ex) in
         let! data := put data (size data + EXTENT_FIXED) x in
         let len := e_numreplicas ex * SIZEOF_HANDLE in
         let! ok := alloc in
         if negb ok then cret None
         else
           let! x := read_ptr (e_path ex) len in
           let! data := put data (size data + len) x in
           flatten_extents ino n' (i + 1) data)%cprog
  end.

(** The length counts one pointer more than the record has. *)
Definition flatten_sfsds (ino : sstack_inode) (data : list Z) : cprog (list bool) (option (list Z * Z)) :=
  let n := i_numclients (i_fixed ino) in
  (if n =? 0 then cret (Some (data, size data))
   else
     let! ok := alloc in
     if negb ok then cret None
     else
       let len := uwrap 64 (SIZEOF_PTR * (n - 1)) in
       let! x := read_ptr (i_sfsds ino) len in
       let! data' := put data (size data + len) x in
       cret (Some (data', size data + uwrap 64 (SIZEOF_PTR * n))))%cprog.

(** An [int] bound compared with an [int] counter. *)
Definition count (n : Z) : nat := Z.to_nat n.

Definition flatten_inode (ino : sstack_inode) : cprog (list bool) (option (list Z * Z)) :=
  (let! ok := alloc in
   if negb ok then cret None
   else
     let! data := read_at 0 INODE_FIXED (i_fixed ino) in
     let! r := flatten_xattr ino data in
     match r with
     | None => cret None
     | Some data =>
         let! r := flatten_erasure ino (count (i_numerasure (i_fixed ino))) 0 data in
         match r with
         | None => cret None
         | Some data =>
             let! r := flatten_extents ino (count (i_numextents (i_fixed ino))) 0 data in
             match r with
             | None => cret None
             | Some data => flatten_sfsds ino data
             end
         end
     end)%cprog.

(** The erasure segments of a record: [er] always refers to the first extent
    of [data], which is written to. *)
Fixpoint fill_erasure (n : nat) (cur covered : Z) (data : list Z) (er : gmap Z sstack_extent)
  : cprog (list bool) (option (Z * list Z * gmap Z sstack_extent)) :=
  match n with
  | O => cret (Some (covered, data, er))
  | S n' =>
      (let! ok := alloc in
       if negb ok then cret None
       else
         let! h := read_at (cur + covered) SIZEOF_HANDLE data in
         let! data := write_at (INODE_FIXED + EXTENT_FIXED) ptr data in
         let covered := covered + SIZEOF_HANDLE in
         let! ck := read_at (cur + covered) SIZEOF_CKSUM data in
         let! data := write_at (INODE_FIXED + 24) ck data in
         let covered := covered + SIZEOF_CKSUM in
         let! ok := alloc in
         if negb ok then cret None
         else
           let! raw := read_at INODE_FIXED SIZEOF_EXTENT data in
           let er := <[covered := mkExtent raw (Some h)]> er in
           fill_erasure n' cur (covered + 4) data er)%cprog
  end.

(** The extents of a record: the one that is read lies [covered] bytes from
    [cur], and so does its copy in the new block. *)
Fixpoint fill_extents (n : nat) (cur covered : Z) (data : list Z) (exs : gmap Z sstack_extent)
  : cprog (list bool) (option (Z * list Z * gmap Z sstack_extent)) :=
  match n with
  | O => cret (Some (covered, data, exs))
  | S n' =>
      (let! nr := read_at (cur + covered + 28) 4 data in
       let len := le nr * SIZEOF_HANDLE in
       let! ok := alloc in
       if negb ok then cret None
       else
         let! path := read_at (cur + EXTENT_FIXED + covered) len data in
         let! data := write_at (cur + covered + EXTENT_FIXED) ptr data in
         let! ok := alloc in
         (* the answer is not looked at: a copy to NULL *)
         if negb ok then cfault NullDeref
         else
           let! raw := read_at (cur + covered) SIZEOF_EXTENT data in
           let exs := <[covered := mkExtent raw (Some path)]> exs in
           fill_extents n' cur (covered + SIZEOF_EXTENT + len) data exs)%cprog
  end.

(** The block made for the extended attributes is not assigned to the
    inode. *)
Definition fill_inode (mem : sstack_inode) (data : list Z) : cprog (list bool) (Z * sstack_inode) :=
  (let! fixed := read_at 0 INODE_FIXED data in
   let ino := mkInode fixed (i_xattr mem) (i_erasure mem) (i_extent mem) (i_sfsds mem) in
   let cur := INODE_FIXED in
   let! xs :=
     (if 0 <? i_xattrlen fixed then
        let! ok := alloc in
        if negb ok then cret None
        else let! _ := read_at cur (i_xattrlen fixed) data in cret (Some (i_xattrlen fixed))
      else cret (Some 0)) in
   match xs with
   | None => cret (- ENOMEM, ino)
   | Some xlen =>
       let! r := fill_erasure (count (i_numerasure fixed)) (cur + xlen) 0 data ∅ in
       match r with
       | None => cret (- ENOMEM, ino)
       | Some (covered, data, er) =>
           let ino := mkInode fixed (i_xattr mem) er (i_extent mem) (i_sfsds mem) in
           let cur := INODE_FIXED + covered in
           let! r := fill_extents (count (i_numextents fixed)) cur 0 data ∅ in
           match r with
           | None => cret (- ENOMEM, ino)
           | Some (covered, data, exs) =>
               let ino := mkInode fixed (i_xattr mem) er exs (i_sfsds mem) in
               let cur := INODE_FIXED + covered in
               let! ok := alloc in
               if negb ok then cret (- ENOMEM, mkInode fixed (i_xattr mem) er exs None)
               else
                 let! x :=
                   (if 1 <? i_numclients fixed
                    then read_at cur (SIZEOF_PTR * (i_numclients fixed - 1)) data
                    else cret []) in
                 cret (0, mkInode fixed (i_xattr mem) er exs (Some x))
           end
       end
   end)%cprog.
End Store.

(** * The database

    What a plugin of the database does with the records of inodes. A key is
    the number printed with [%lld], which is different for different 64-bit
    numbers. *)
Class InodeDb (D : Type) := {
  db_get : D -> Z -> option (list Z);
  db_insert : D -> Z -> list Z -> Z * D;
  db_update : D -> Z -> list Z -> Z * D
}.

(** A record that was accepted is the one that is read. *)
Class InodeDbLaws (D : Type) `{InodeDb D} : Prop := {
  db_insert_get d k x d' : db_insert d k x = (1, d') -> db_get d' k = Some x;
  db_update_get d k x r d' : 0 < r -> db_update d k x = (r, d') -> db_get d' k = Some x
}.

#[export] Instance map_db : InodeDb (gmap Z (list Z)) := {
  db_get d k := d !! k;
  db_insert d k x := if d !! k then (0, d) else (1, <[k := x]> d);
  db_update d k x := if d !! k then (1, <[k := x]> d) else (0, d)
}.

#[export] Instance map_db_laws : InodeDbLaws (gmap Z (list Z)).
Proof.
  split; simpl.
  - intros d k x d'. destruct (d !! k); intros [= <-]. by rewrite lookup_insert_eq.
  - intros d k x r d' Hr. destruct (d !! k); intros [= <- <-]; [|done]. by rewrite lookup_insert_eq.
Qed.

(** A new record is inserted, a record that is there is updated, and no call
    touches another record. *)
Class DbUp (D : Type) `{InodeDb D} : Prop := {
  insert_up d k x : db_get d k = None -> (db_insert d k x).1 = 1;
  update_up d k x : is_Some (db_get d k) -> 0 < (db_update d k x).1;
  insert_other d k x r d' k' : db_insert d k x = (r, d') -> k' <> k -> db_get d' k' = db_get d k';
  update_other d k x r d' k' : db_update d k x = (r, d') -> k' <> k -> db_get d' k' = db_get d k'
}.

#[export] Instance map_db_up : DbUp (gmap Z (list Z)).
Proof.
  split; cbn.
  - intros d k x ->. done.
  - intros d k x [y ->]. done.
  - intros d k x r d' k'. destruct (d !! k); intros [= <- <-] Hk; [done|]. by rewrite lookup_insert_ne.
  - intros d k x r d' k'. destruct (d !! k); intros [= <- <-] Hk; [|done]. by rewrite lookup_insert_ne.
Qed.


Section Db.
Context {D : Type} `{InodeDb D} (moves : bool) (ptr : list Z).

Record db_state : Type := mkDb { allocs : list bool; db : D }.

Definition with_allocs {A} (c : cprog (list bool) A) : cprog db_state A := fun s =>
  match c (allocs s) with
  | Ret (a, l) => Ret (a, mkDb l (db s))
  | Fault f => Fault f
  end.

Definition get_inode (inode_num : Z) (mem : sstack_inode) : cprog db_state (Z * sstack_inode) :=
  if inode_num <? INODE_NUM_START then cret (- EINVAL, mem)
  else
    (let! s := cget in
     match db_get (db s) inode_num with
     | Some data => with_allocs (fill_inode ptr mem data)
     | None => cret (-1, mem)
     end)%cprog.

(** [after] is what lies behind the record in memory: the database copies
    [len] bytes. *)
Definition put_inode (ino : sstack_inode) (after : list Z) (update : Z) : cprog db_state Z :=
  if (update <? 0) || (1 <? update) then cret (- EINVAL)
  else if i_num (i_fixed ino) <? INODE_NUM_START then cret (- EINVAL)
  else
    (let! r := with_allocs (flatten_inode moves ino) in
     match r with
     | None => cret (-1)
     | Some (data, len) =>
         let! record := read_at 0 len (data ++ after) in
         let! s := cget in
         let '(ret, d') := (if update =? 0 then db_insert else db_update) (db s) (i_num (i_fixed ino)) record in
         cput (mkDb (allocs s) d') ;;;
         cret (if (if update =? 0 then ret =? 1 else 0 <? ret) then 0 else -2)
     end)%cprog.
End Db.

(** * Blocks *)

Lemma size_nonneg b : 0 <= size b.
Proof. unfold size. lia. Qed.

Lemma size_app a b : size (a ++ b) = size a + size b.
Proof. unfold size. rewrite length_app. lia. Qed.

Lemma size_sub off len b : 0 <= off -> 0 <= len -> off + len <= size b -> size (sub off len b) = len.
Proof. unfold size, sub. rewrite length_take, length_drop. lia. Qed.

Lemma sub_app_l off len a b : 0 <= off -> 0 <= len -> off + len <= size a -> sub off len (a ++ b) = sub off len a.
Proof.
  unfold sub, size. intros. rewrite drop_app_le by lia. rewrite take_app_le; [done|]. rewrite length_drop. lia.
Qed.

Lemma sub_app_r off len a b : size a <= off -> sub off len (a ++ b) = sub (off - size a) len b.
Proof. unfold sub, size. intros. rewrite drop_app_ge by lia. do 2 f_equal. lia. Qed.

Lemma sub_all a : sub 0 (size a) a = a.
Proof. unfold sub, size. rewrite Nat2Z.id. change (Z.to_nat 0) with 0%nat. rewrite drop_0. by rewrite firstn_all. Qed.

Lemma read_at_run {S} off len b (s : S) :
  0 <= off -> 0 <= len -> off + len <= size b -> read_at off len b s = Ret (sub off len b, s).
Proof.
  intros. unfold read_at.
  by rewrite (proj2 (Z.leb_le 0 off)), (proj2 (Z.leb_le 0 len)), (proj2 (Z.leb_le (off + len) _)) by lia.
Qed.

Lemma read_at_out {S} off len b (s : S) : 0 <= len -> size b < off + len -> read_at off len b s = Fault OutOfBounds.
Proof. intros. unfold read_at. rewrite (proj2 (Z.leb_gt (off + len) _)) by lia. by rewrite andb_false_r. Qed.

Lemma put_run {S} data cap x (s : S) : size data + size x <= cap -> put data cap x s = Ret (data ++ x, s).
Proof. intros. unfold put. by rewrite (proj2 (Z.leb_le _ cap)) by lia. Qed.

(** A write changes nothing before it, and is read back. *)
Lemma write_at_run {S} off x b (s : S) :
  0 <= off -> off + size x <= size b ->
  exists b', write_at off x b s = Ret (b', s) /\ size b' = size b /\
    (forall o l, 0 <= o -> 0 <= l -> o + l <= off -> sub o l b' = sub o l b) /\
    (forall o l, off + size x <= o -> sub o l b' = sub o l b).
Proof.
  intros Ho Hs. unfold write_at.
  rewrite (proj2 (Z.leb_le 0 off)), (proj2 (Z.leb_le (off + size x) _)) by lia. simpl. eexists. split; [done|].
  pose proof (size_nonneg x). unfold size in *.
  assert (Ht : length (take (Z.to_nat off) b) = Z.to_nat off) by (rewrite length_take; lia).
  split_and!.
  - rewrite !length_app, length_take, length_drop. lia.
  - intros o l H0 H1 H2. rewrite sub_app_l by (unfold size; lia). unfold sub.
    rewrite <- (take_drop (Z.to_nat off) b) at 2. rewrite drop_app_le by lia. rewrite take_app_le; [done|].
    rewrite length_drop. lia.
  - intros o l H0. rewrite !sub_app_r by (unfold size; lia). unfold sub, size. f_equal.
    rewrite drop_drop. f_equal. lia.
Qed.

(** None of this waits. *)
Lemma quiet_read_at {S} off len b : quiet (read_at off len b : cprog S _).
Proof. unfold read_at. eauto with quiet. Qed.
Lemma quiet_write_at {S} off x b : quiet (write_at off x b : cprog S _).
Proof. unfold write_at. eauto with quiet. Qed.
Lemma quiet_put_bytes {S} data cap x : quiet (put data cap x : cprog S _).
Proof. unfold put. eauto with quiet. Qed.
Lemma quiet_alloc : quiet alloc.
Proof. by intros [|]. Qed.
#[local] Hint Resolve quiet_read_at quiet_write_at quiet_put_bytes quiet_alloc : quiet.
Lemma quiet_read_ptr {S} p len : quiet (read_ptr p len : cprog S _).
Proof. unfold read_ptr. eauto with quiet. Qed.
#[local] Hint Resolve quiet_read_ptr : quiet.

Lemma flatten_quiet moves ino : quiet (flatten_inode moves ino).
Proof.
  assert (forall n i data, quiet (flatten_erasure ino n i data)) by (induction n; simpl; eauto 20 with quiet).
  assert (forall n i data, quiet (flatten_extents ino n i data)) by (induction n; simpl; eauto 20 with quiet).
  unfold flatten_inode, flatten_xattr, flatten_sfsds. eauto 30 with quiet.
Qed.

Lemma fill_quiet ptr mem data : quiet (fill_inode ptr mem data).
Proof.
  assert (forall n cur cov data er, quiet (fill_erasure ptr n cur cov data er))
    by (induction n; simpl; eauto 20 with quiet).
  assert (forall n cur cov data exs, quiet (fill_extents ptr n cur cov data exs))
    by (induction n; simpl; eauto 20 with quiet).
  unfold fill_inode. eauto 40 with quiet.
Qed.

(** * Records *)

(** An extent whose replicas' handles are there. *)
Record ext_ok (ex : sstack_extent) (h : list Z) : Prop := {
  ext_raw : size (e_raw ex) = SIZEOF_EXTENT;
  ext_path : e_path ex = Some h;
  ext_replicas : 0 < e_numreplicas ex;
  ext_handles : size h = e_numreplicas ex * SIZEOF_HANDLE
}.

Definition ext_bytes (ex : sstack_extent) (h : list Z) : list Z := sub 0 EXTENT_FIXED (e_raw ex) ++ h.

(** The array of extents from index [i] on. *)
Fixpoint exts_at (ino : sstack_inode) (i : Z) (l : list (sstack_extent * list Z)) : Prop :=
  match l with
  | [] => True
  | (ex, h) :: l' => i_extent ino !! (SIZEOF_EXTENT * i) = Some ex /\ ext_ok ex h /\ exts_at ino (i + 1) l'
  end.

Definition body (l : list (sstack_extent * list Z)) : list Z := concat ((fun p => ext_bytes p.1 p.2) <$> l).

(** An inode without extended attributes and erasure segments, kept by at
    most one sfsd, the way [sfs_create] and [sfs_write] make them. *)
Record plain (ino : sstack_inode) (l : list (sstack_extent * list Z)) : Prop := {
  plain_fixed : size (i_fixed ino) = INODE_FIXED;
  plain_xattr : i_xattrlen (i_fixed ino) = 0;
  plain_erasure : i_numerasure (i_fixed ino) = 0;
  plain_extents : i_numextents (i_fixed ino) = Z.of_nat (length l);
  plain_at : exts_at ino 0 l;
  plain_clients : 0 <= i_numclients (i_fixed ino) <= 1
}.

Lemma ext_bytes_size ex h : ext_ok ex h -> size (ext_bytes ex h) = EXTENT_FIXED + e_numreplicas ex * SIZEOF_HANDLE.
Proof.
  intros [H1 _ _ H4]. unfold ext_bytes. rewrite size_app, H4, size_sub; [done|..]; unfold EXTENT_FIXED, SIZEOF_EXTENT in *; lia.
Qed.

Lemma flatten_extents_run ino l i data :
  exts_at ino i l -> flatten_extents ino (length l) i data [] = Ret (Some (data ++ body l), []).
Proof.
  revert i data. induction l as [|[ex h] l IH]; intros i data Hl.
  { unfold body. cbn. by rewrite app_nil_r. }
  destruct Hl as (Hi & He & Hl). cbn [length flatten_extents]. unfold cbind at 1, cexpect. rewrite Hi.
  destruct He as [H1 H2 H3 H4]. unfold cbind at 1, cret, alloc at 1. cbn [negb].
  unfold cbind at 1. rewrite read_at_run by (rewrite ?H1; done).
  unfold cbind at 1. rewrite put_run by (rewrite size_sub; rewrite ?H1; done).
  unfold cbind at 1, alloc at 1. cbn [negb]. unfold cbind at 1. rewrite H2. unfold read_ptr.
  unfold SIZEOF_HANDLE in *. rewrite read_at_run by lia. rewrite <- H4, sub_all.
  unfold cbind at 1. rewrite put_run by lia. rewrite (IH (i + 1)) by done. unfold body, ext_bytes. simpl.
  by rewrite <- !app_assoc.
Qed.

Lemma flatten_run moves ino l :
  plain ino l ->
  flatten_inode moves ino []
  = Ret (Some (i_fixed ino ++ body l,
               size (i_fixed ino ++ body l) + SIZEOF_PTR * i_numclients (i_fixed ino)), []).
Proof.
  intros [H1 H2 H3 H4 H5 H6]. unfold flatten_inode. unfold cbind at 1, alloc at 1. cbn [negb].
  unfold cbind at 1. rewrite read_at_run by (unfold INODE_FIXED in *; lia). rewrite <- H1, sub_all.
  unfold cbind at 1, flatten_xattr. rewrite H2. cbn [Z.ltb Z.compare cret].
  unfold cbind at 1. rewrite H3, H4. unfold count. change (Z.to_nat 0) with 0%nat. cbn [flatten_erasure cret].
  unfold cbind at 1. rewrite Nat2Z.id, flatten_extents_run by done.
  unfold flatten_sfsds. destruct (Z.eqb_spec (i_numclients (i_fixed ino)) 0) as [Hn|Hn].
  { rewrite Hn, Z.mul_0_r, Z.add_0_r. done. }
  assert (i_numclients (i_fixed ino) = 1) as -> by lia. unfold cbind at 1, alloc. cbn [negb].
  change (uwrap 64 (SIZEOF_PTR * (1 - 1))) with 0. change (uwrap 64 (SIZEOF_PTR * 1)) with 8. unfold cbind at 1.
  assert (read_ptr (i_sfsds ino) 0 ([] : list bool) = Ret ([], [])) as ->.
  { unfold read_ptr. destruct (i_sfsds ino) as [b|]; [|done]. pose proof (size_nonneg b).
    rewrite read_at_run by lia. done. }
  unfold cbind. rewrite put_run by (change (size []) with 0; lia). by rewrite app_nil_r.
Qed.

(** Reading one extent of a record. *)
Lemma fill_extents_step ptr n cur cov data exs :
  let nr := le (sub (cur + cov + 28) 4 data) in
  size ptr = SIZEOF_PTR -> 0 <= cur -> 0 <= cov -> 0 <= nr ->
  cur + cov + SIZEOF_EXTENT <= size data ->
  cur + cov + EXTENT_FIXED + nr * SIZEOF_HANDLE <= size data ->
  exists raw data', size raw = SIZEOF_EXTENT /\ size data' = size data /\
    sub 0 EXTENT_FIXED raw = sub (cur + cov) EXTENT_FIXED data /\
    (forall o l, cur + cov + SIZEOF_EXTENT <= o -> sub o l data' = sub o l data) /\
    fill_extents ptr (S n) cur cov data exs []
    = fill_extents ptr n cur (cov + SIZEOF_EXTENT + nr * SIZEOF_HANDLE) data'
        (<[cov := mkExtent raw (Some (sub (cur + EXTENT_FIXED + cov) (nr * SIZEOF_HANDLE) data))]> exs) [].
Proof.
  intros nr Hp Hc Hv Hn H1 H2. unfold SIZEOF_EXTENT, EXTENT_FIXED, SIZEOF_PTR, SIZEOF_HANDLE in *.
  destruct (write_at_run (S := list bool) (cur + cov + 32) ptr data []) as (data' & Hw & Hs & Hlo & Hhi); [lia..|].
  exists (sub (cur + cov) 40 data'), data'. split_and!; [apply size_sub; lia|done| |intros; apply Hhi; lia|].
  - rewrite <- (Hlo (cur + cov) 32) by lia. unfold sub.
    change (Z.to_nat 0) with 0%nat. rewrite drop_0, take_take. f_equal.
  - cbn [fill_extents]. unfold cbind at 1. rewrite read_at_run by lia. fold nr.
    unfold cbind at 1, alloc at 1. cbn [negb]. unfold cbind at 1, EXTENT_FIXED, SIZEOF_HANDLE.
    rewrite read_at_run by lia. unfold cbind at 1. rewrite Hw. unfold cbind at 1, alloc at 1. cbn [negb].
    unfold cbind at 1, SIZEOF_EXTENT. rewrite read_at_run by lia. done.
Qed.

(** The rest of [fill_inode] for a plain record. *)
Lemma fill_run ptr mem fixed rest n cov data' exs :
  size fixed = INODE_FIXED -> i_xattrlen fixed = 0 -> i_numerasure fixed = 0 ->
  0 <= i_numclients fixed <= 1 -> i_numextents fixed = Z.of_nat n ->
  fill_extents ptr n INODE_FIXED 0 (fixed ++ rest) ∅ [] = Ret (Some (cov, data', exs), []) ->
  fill_inode ptr mem (fixed ++ rest) [] = Ret ((0, mkInode fixed (i_xattr mem) ∅ exs (Some [])), []).
Proof.
  intros H1 H2 H3 H4 H5 Hf. pose proof (size_nonneg rest). unfold fill_inode.
  unfold cbind at 1. rewrite read_at_run by (rewrite ?size_app; unfold INODE_FIXED in *; lia).
  rewrite sub_app_l, <- H1, sub_all by (unfold INODE_FIXED in *; lia).
  unfold cbind at 1. rewrite H2. cbn [Z.ltb Z.compare cret].
  unfold cbind at 1. rewrite H3. unfold count. change (Z.to_nat 0) with 0%nat. cbn [fill_erasure cret].
  unfold cbind at 1. rewrite H1, H5, Nat2Z.id, Z.add_0_r, Hf.
  unfold cbind at 1, alloc. cbn [negb]. unfold cbind at 1.
  by rewrite (proj2 (Z.ltb_ge 1 (i_numclients fixed))) by lia.
Qed.

(** The first extent of a record is read as it was written. *)
Lemma fill_first ptr fixed ex h rest n :
  size ptr = SIZEOF_PTR -> size fixed = INODE_FIXED -> ext_ok ex h ->
  exists raw data', size raw = SIZEOF_EXTENT /\ size data' = size (fixed ++ ext_bytes ex h ++ rest) /\
    sub 0 EXTENT_FIXED raw = sub 0 EXTENT_FIXED (e_raw ex) /\
    (forall o l, INODE_FIXED + SIZEOF_EXTENT <= o -> sub o l data' = sub o l (fixed ++ ext_bytes ex h ++ rest)) /\
    fill_extents ptr (S n) INODE_FIXED 0 (fixed ++ ext_bytes ex h ++ rest) ∅ []
    = fill_extents ptr n INODE_FIXED (SIZEOF_EXTENT + e_numreplicas ex * SIZEOF_HANDLE) data'
        {[0 := mkExtent raw (Some h)]} [].
Proof.
  intros Hp Hf He. pose proof (ext_bytes_size _ _ He) as Hs. destruct He as [H1 H2 H3 H4].
  pose proof (size_nonneg rest).
  assert (Hb : sub 0 EXTENT_FIXED (ext_bytes ex h) = sub 0 EXTENT_FIXED (e_raw ex)).
  { unfold ext_bytes. unfold SIZEOF_EXTENT, EXTENT_FIXED in *.
    rewrite sub_app_l by (rewrite ?size_sub; lia). unfold sub at 1. change (Z.to_nat 0) with 0%nat.
    rewrite drop_0. unfold sub. rewrite take_take. f_equal. }
  assert (Hnr : le (sub (INODE_FIXED + 0 + 28) 4 (fixed ++ ext_bytes ex h ++ rest)) = e_numreplicas ex).
  { unfold e_numreplicas. f_equal. unfold SIZEOF_EXTENT, EXTENT_FIXED, SIZEOF_HANDLE in *.
    rewrite sub_app_r by lia. rewrite sub_app_l by lia. unfold ext_bytes. unfold EXTENT_FIXED.
    rewrite sub_app_l by (rewrite ?size_sub; lia).
    rewrite Hf. unfold sub. rewrite skipn_firstn_comm, take_take. change (Z.to_nat 0) with 0%nat.
    by rewrite drop_0. }
  destruct (fill_extents_step ptr n INODE_FIXED 0 (fixed ++ ext_bytes ex h ++ rest) ∅)
    as (raw & data' & Hsz & Hd & Hr & Hhi & Hrun); rewrite ?Hnr; try done; try lia;
    try (rewrite !size_app, Hs, Hf; unfold SIZEOF_EXTENT, EXTENT_FIXED, SIZEOF_HANDLE in *; lia).
  exists raw, data'. split_and!; [done|done| | |].
  - rewrite Hr, sub_app_r by lia. rewrite sub_app_l by (rewrite ?Hs; unfold EXTENT_FIXED, SIZEOF_HANDLE in *; lia).
    rewrite Hf, Z.add_0_r, Z.sub_diag. done.
  - intros o l Ho. apply Hhi. lia.
  - rewrite Hrun, Hnr. rewrite Z.add_0_l. f_equal. rewrite insert_empty. do 3 f_equal.
    rewrite sub_app_r by (unfold EXTENT_FIXED; lia). unfold ext_bytes.
    rewrite <- app_assoc, sub_app_r by (rewrite size_sub; unfold EXTENT_FIXED, SIZEOF_EXTENT in *; lia).
    rewrite size_sub, Hf by (unfold EXTENT_FIXED, SIZEOF_EXTENT in *; lia).
    rewrite sub_app_l by (unfold SIZEOF_HANDLE in *; lia).
    rewrite <- H4. replace (INODE_FIXED + EXTENT_FIXED + 0 - INODE_FIXED - EXTENT_FIXED) with 0 by lia. apply sub_all.
Qed.

(** The extents an inode is left with after it was stored with [l]. *)
Definition same_extents (l : list (sstack_extent * list Z)) (exs : gmap Z sstack_extent) : Prop :=
  match l with
  | [] => exs = ∅
  | [(ex, h)] => exists raw, exs = {[0 := mkExtent raw (Some h)]} /\
      sub 0 EXTENT_FIXED raw = sub 0 EXTENT_FIXED (e_raw ex)
  | _ => False
  end.

(** The record of a plain inode of at most one extent. *)
Record record_ok (fixed : list Z) (l : list (sstack_extent * list Z)) : Prop := {
  rec_fixed : size fixed = INODE_FIXED;
  rec_xattr : i_xattrlen fixed = 0;
  rec_erasure : i_numerasure fixed = 0;
  rec_extents : i_numextents fixed = Z.of_nat (length l);
  rec_exts : Forall (fun p => ext_ok p.1 p.2) l;
  rec_clients : 0 <= i_numclients fixed <= 1;
  rec_short : (length l <= 1)%nat
}.

Lemma plain_record ino l : plain ino l -> (length l <= 1)%nat -> record_ok (i_fixed ino) l.
Proof.
  intros [H1 H2 H3 H4 H5 H6] Hl. split; try done. destruct l as [|[ex h] [|]]; [constructor| |simpl in Hl; lia].
  destruct H5 as (_ & He & _). by apply Forall_singleton.
Qed.

Section DbProofs.
Context {D : Type} `{InodeDb D}.

(** Storing a plain inode: the record has the bytes behind it when there is
    a client. *)
Lemma put_inode_run moves (ino : sstack_inode) l after u (s : @db_state D) :
  plain ino l -> INODE_NUM_START <= i_num (i_fixed ino) -> 0 <= u <= 1 -> allocs s = [] ->
  SIZEOF_PTR * i_numclients (i_fixed ino) <= size after ->
  put_inode moves ino after u s
  = let record := i_fixed ino ++ body l ++ sub 0 (SIZEOF_PTR * i_numclients (i_fixed ino)) after in
    let '(ret, d') := (if u =? 0 then db_insert else db_update) (db s) (i_num (i_fixed ino)) record in
    Ret (if (if u =? 0 then ret =? 1 else 0 <? ret) then 0 else -2, mkDb [] d').
Proof.
  intros Hp Hn Hu Ha Hs. pose proof (plain_clients _ _ Hp). unfold SIZEOF_PTR in *. unfold put_inode.
  rewrite (proj2 (Z.ltb_ge u 0)), (proj2 (Z.ltb_ge 1 u)), (proj2 (Z.ltb_ge _ INODE_NUM_START)) by lia. cbn [orb].
  unfold cbind at 1, with_allocs. rewrite Ha, (flatten_run _ _ _ Hp). unfold SIZEOF_PTR.
  pose proof (size_nonneg (i_fixed ino ++ body l)).
  unfold cbind at 1. rewrite read_at_run by (rewrite ?size_app in *; lia).
  assert (Hsub : sub 0 (size (i_fixed ino ++ body l) + 8 * i_numclients (i_fixed ino)) ((i_fixed ino ++ body l) ++ after)
    = i_fixed ino ++ body l ++ sub 0 (8 * i_numclients (i_fixed ino)) after).
  { unfold sub, size. change (Z.to_nat 0) with 0%nat. rewrite !drop_0, take_app, !app_assoc. f_equal.
    - rewrite take_ge; [done|lia].
    - f_equal. lia. }
  rewrite Hsub. unfold cbind at 1, cget. cbn [db allocs]. cbn zeta.
  by destruct ((if u =? 0 then db_insert else db_update) (db s) (i_num (i_fixed ino)) _) as [ret d'].
Qed.

(** What the database holds once [put_inode] answers 0. *)
Lemma put_inode_stored `{!InodeDbLaws D} moves (ino : sstack_inode) l after u (s : @db_state D) :
  plain ino l -> INODE_NUM_START <= i_num (i_fixed ino) -> 0 <= u <= 1 -> allocs s = [] ->
  SIZEOF_PTR * i_numclients (i_fixed ino) <= size after ->
  exists r s' tail, put_inode moves ino after u s = Ret (r, s') /\ allocs s' = [] /\
    (r = 0 -> db_get (db s') (i_num (i_fixed ino)) = Some (i_fixed ino ++ body l ++ tail)).
Proof.
  intros Hp Hn Hu Ha Hs. rewrite (put_inode_run moves ino l after u s) by done. cbn zeta.
  destruct ((if u =? 0 then db_insert else db_update) _ _ _) as [ret d'] eqn:E.
  eexists _, (mkDb [] d'), _. split_and!; [done|done|]. cbn [db].
  destruct (u =? 0); destruct (_ : bool) eqn:Ht in |- *; intros Hr; try discriminate; bool_to_Z.
  - subst ret. by apply db_insert_get in E.
  - by apply db_update_get in E.
Qed.

(** A database at work takes a new record and one that is there. *)
Definition can_store (u num : Z) (s : @db_state D) : Prop :=
  if u =? 0 then db_get (db s) num = None else is_Some (db_get (db s) num).

Lemma put_inode_up `{!InodeDbLaws D} `{!DbUp D} moves (ino : sstack_inode) l after u (s : @db_state D) :
  plain ino l -> INODE_NUM_START <= i_num (i_fixed ino) -> 0 <= u <= 1 -> allocs s = [] ->
  SIZEOF_PTR * i_numclients (i_fixed ino) <= size after -> can_store u (i_num (i_fixed ino)) s ->
  exists s' tail, put_inode moves ino after u s = Ret (0, s') /\ allocs s' = [] /\
    db_get (db s') (i_num (i_fixed ino)) = Some (i_fixed ino ++ body l ++ tail).
Proof.
  intros Hp Hn Hu Ha Hs Hst. destruct (put_inode_stored moves ino l after u s) as (r & s' & tail & Hput & Ha' & Hg); [done..|].
  assert (r = 0) as ->; [|exists s', tail; split_and!; [done|done|by apply Hg]].
  rewrite (put_inode_run moves ino l after u s) in Hput by done. cbn zeta in Hput. unfold can_store in Hst.
  set (rec := i_fixed ino ++ _) in Hput. destruct (u =? 0).
  - pose proof (insert_up _ _ rec Hst) as Hi. destruct (db_insert _ _ rec) as [k d']. cbn in Hi. rewrite Hi in Hput. by injection Hput as <- _.
  - pose proof (update_up _ _ rec Hst) as Hi. destruct (db_update _ _ rec) as [k d']. cbn in Hi.
    rewrite (proj2 (Z.ltb_lt 0 k) Hi) in Hput. by injection Hput as <- _.
Qed.

Lemma get_inode_run ptr num mem data r ino' (s : @db_state D) :
  INODE_NUM_START <= num -> allocs s = [] -> db_get (db s) num = Some data ->
  fill_inode ptr mem data [] = Ret ((r, ino'), []) -> get_inode ptr num mem s = Ret ((r, ino'), s).
Proof.
  intros Hn Ha Hg Hf. unfold get_inode. rewrite (proj2 (Z.ltb_ge num _)) by lia.
  unfold cbind, cget, with_allocs. rewrite Hg, Ha, Hf. destruct s; simpl in *; by subst.
Qed.

(** Reading the record of a plain inode. *)
Lemma get_plain_all ptr num mem fixed l tail (s : @db_state D) :
  record_ok fixed l -> INODE_NUM_START <= num -> allocs s = [] -> size ptr = SIZEOF_PTR ->
  db_get (db s) num = Some (fixed ++ body l ++ tail) ->
  exists ino l', get_inode ptr num mem s = Ret ((0, ino), s) /\ i_fixed ino = fixed /\ plain ino l' /\
    (length l' <= 1)%nat /\ body l' = body l /\ same_extents l (i_extent ino) /\
    i_xattr ino = i_xattr mem /\ i_erasure ino = ∅ /\ i_sfsds ino = Some [].
Proof.
  intros [H1 H2 H3 H4 H5 H6 Hl] Hn Ha Hptr Hg. destruct l as [|[ex h] [|]]; [| |simpl in Hl; lia].
  - exists (mkInode fixed (i_xattr mem) ∅ ∅ (Some [])), []. split; [|split; [reflexivity|split_and!; [|done..]]].
    + eapply get_inode_run; [exact Hn|exact Ha|exact Hg|].
      eapply (fill_run ptr mem fixed _ 0 _ _ _ H1 H2 H3 H6 H4). reflexivity.
    + by split.
  - apply (proj1 (Forall_singleton _ _)) in H5. cbn [fst snd] in H5. unfold body in Hg. cbn [fmap list_fmap concat fst snd] in Hg.
    rewrite app_nil_r in Hg.
    destruct (fill_first ptr fixed ex h tail 0) as (raw & data' & Hsz & _ & Hraw & _ & Hrun); [exact Hptr|exact H1|exact H5|].
    assert (Hnr : e_numreplicas (mkExtent raw (Some h)) = e_numreplicas ex).
    { pose proof (ext_raw _ _ H5) as Hre. unfold e_numreplicas, SIZEOF_EXTENT in *. cbn [e_raw].
      assert (Hs : forall r, size r = 40 -> sub 28 4 r = drop 28 (sub 0 EXTENT_FIXED r)).
      { intros r Hr. unfold sub, EXTENT_FIXED. change (Z.to_nat 0) with 0%nat. change (Z.to_nat 28) with 28%nat. change (Z.to_nat 32) with 32%nat.
        rewrite drop_0, skipn_firstn_comm. done. }
      by rewrite (Hs raw), (Hs (e_raw ex)), Hraw. }
    exists (mkInode fixed (i_xattr mem) ∅ {[0 := mkExtent raw (Some h)]} (Some [])), [(mkExtent raw (Some h), h)]. split; [|split; [reflexivity|split_and!; [|done| |by exists raw|done..]]].
    + eapply get_inode_run; [exact Hn|exact Ha|exact Hg|].
      eapply (fill_run ptr mem fixed _ 1 _ _ _ H1 H2 H3 H6 H4). rewrite Hrun. reflexivity.
    + split; try done. cbn [exts_at i_extent]. split_and!; [by rewrite lookup_singleton_eq| |done].
      destruct H5 as [E1 E2 E3 E4]. split; [done|done|by rewrite Hnr|by rewrite Hnr].
    + unfold body, ext_bytes. cbn [fmap list_fmap concat fst snd e_raw]. by rewrite Hraw.
Qed.

Lemma get_plain ptr num mem fixed l tail (s : @db_state D) :
  record_ok fixed l -> INODE_NUM_START <= num -> allocs s = [] -> size ptr = SIZEOF_PTR ->
  db_get (db s) num = Some (fixed ++ body l ++ tail) ->
  exists ino l', get_inode ptr num mem s = Ret ((0, ino), s) /\ i_fixed ino = fixed /\ plain ino l' /\
    (length l' <= 1)%nat /\ body l' = body l /\ same_extents l (i_extent ino).
Proof.
  intros Hr Hn Ha Hptr Hg. destruct (get_plain_all ptr num mem fixed l tail s Hr Hn Ha Hptr Hg) as (ino & l' & H1 & H2 & H3 & H4 & H5 & H6 & _).
  by exists ino, l'.
Qed.

Lemma with_allocs_quiet {A} (c : cprog (list bool) A) : quiet c -> quiet (with_allocs (D := D) c).
Proof. intros Hc s. unfold with_allocs. specialize (Hc (allocs s)). destruct (c (allocs s)) as [[? ?]|]; [done|congruence]. Qed.

Lemma get_inode_quiet ptr num mem : quiet (get_inode (D := D) ptr num mem).
Proof.
  pose proof (fun data => with_allocs_quiet _ (fill_quiet ptr mem data)). unfold get_inode. eauto 10 with quiet.
Qed.

Lemma put_inode_quiet moves ino after u : quiet (put_inode (D := D) moves ino after u).
Proof.
  pose proof (with_allocs_quiet _ (flatten_quiet moves ino)). unfold put_inode.
  do 2 (case_if; [eauto with quiet|]). apply quiet_bind; [done|]. intros [[data len]|]; [|eauto with quiet].
  apply quiet_bind; [eauto with quiet|]. intros r. apply quiet_bind; [eauto with quiet|]. intros d.
  destruct (_ : Z * D). eauto with quiet.
Qed.
End DbProofs.

(** * Properties *)

(** C12. With a database at work, [put_inode] stores an inode with at most one
    extent, no extended attributes and no erasure segments, kept by at most one
    sfsd, provided the bytes that it reads behind its block can be read: it
    answers 0, and [get_inode] answers 0 and gives back every fixed field, the
    fixed fields of the extent and the handles of its replicas. The array of
    sfsds is not restored: it comes back empty, whatever it was, and the pointer
    to the attributes keeps the value it had before the call. *)
Theorem inode_roundtrip {D} `{InodeDbLaws D} `{!DbUp D} moves ptr ino l after u (s : @db_state D) mem :
  plain ino l -> (length l <= 1)%nat -> INODE_NUM_START <= i_num (i_fixed ino) -> 0 <= u <= 1 ->
  allocs s = [] -> SIZEOF_PTR * i_numclients (i_fixed ino) <= size after -> size ptr = SIZEOF_PTR ->
  can_store u (i_num (i_fixed ino)) s ->
  exists s' ino', put_inode moves ino after u s = Ret (0, s') /\
    get_inode ptr (i_num (i_fixed ino)) mem s' = Ret ((0, ino'), s') /\
    i_fixed ino' = i_fixed ino /\ same_extents l (i_extent ino') /\
    i_sfsds ino' = Some [] /\ i_erasure ino' = ∅ /\ i_xattr ino' = i_xattr mem.
Proof.
  intros Hp Hl Hn Hu Ha Hs Hptr Hst.
  destruct (put_inode_up moves ino l after u s) as (s' & tail & Hput & Ha' & Hg); [done..|].
  destruct (get_plain_all ptr _ mem (i_fixed ino) l tail s' (plain_record _ _ Hp Hl) Hn Ha' Hptr Hg)
    as (ino' & l' & H1' & H2 & _ & _ & _ & H3 & H4 & H5 & H6).
  by exists s', ino'.
Qed.

(** The record of an inode of two extents is read with a stride that is not
    the one it was written with: [get_inode] answers 0, but the second element
    of the array of extents was never written. *)
Theorem second_extent_lost {D} `{InodeDbLaws D} `{!DbUp D} moves ptr ino ex0 h0 ex1 h1 after u (s : @db_state D) mem :
  plain ino [(ex0, h0); (ex1, h1)] -> le (sub 4 4 h1) = 0 ->
  INODE_NUM_START <= i_num (i_fixed ino) -> 0 <= u <= 1 ->
  allocs s = [] -> SIZEOF_PTR * i_numclients (i_fixed ino) <= size after -> size ptr = SIZEOF_PTR ->
  can_store u (i_num (i_fixed ino)) s ->
  exists s' ino', put_inode moves ino after u s = Ret (0, s') /\
    get_inode ptr (i_num (i_fixed ino)) mem s' = Ret ((0, ino'), s') /\
    i_numextents (i_fixed ino') = 2 /\ i_extent ino' !! SIZEOF_EXTENT = None.
Proof.
  intros Hp Hname Hn Hu Ha Hs Hptr Hst.
  destruct (put_inode_up moves ino [(ex0, h0); (ex1, h1)] after u s) as (s' & tail & Hput & Ha' & Hg); [done..|].
  exists s'. destruct Hp as [H1 H2 H3 H4 (_ & He0 & _ & He1 & _) H6].
  unfold body in Hg. cbn [fmap list_fmap concat fst snd] in Hg. rewrite app_nil_r, <- !app_assoc in Hg.
  destruct (fill_first ptr (i_fixed ino) ex0 h0 (ext_bytes ex1 h1 ++ tail) 1) as (raw & data' & _ & Hd & _ & Hhi & Hrun); [done..|].
  pose proof (ext_bytes_size _ _ He0) as Hb0. pose proof (ext_bytes_size _ _ He1) as Hb1.
  pose proof (size_nonneg tail). pose proof (ext_replicas _ _ He0). pose proof (ext_replicas _ _ He1).
  rewrite !size_app, H1, Hb0, Hb1 in Hd.
  unfold SIZEOF_EXTENT, EXTENT_FIXED, SIZEOF_HANDLE in *.
  assert (Hnr : le (sub (INODE_FIXED + (40 + e_numreplicas ex0 * 4152) + 28) 4 data') = 0).
  { rewrite Hhi by lia. rewrite sub_app_r by lia. rewrite sub_app_r by lia.
    rewrite sub_app_l by lia. rewrite H1, Hb0. unfold ext_bytes, EXTENT_FIXED.
    pose proof (ext_raw _ _ He1) as Hr1. unfold SIZEOF_EXTENT in Hr1. rewrite sub_app_r by (rewrite size_sub; lia).
    rewrite <- Hname. f_equal. f_equal. rewrite size_sub by lia. lia. }
  destruct (fill_extents_step ptr 0 INODE_FIXED (40 + e_numreplicas ex0 * 4152) data' {[0 := mkExtent raw (Some h0)]})
    as (raw' & data'' & _ & _ & _ & _ & Hrun'); rewrite ?Hnr;
    unfold SIZEOF_EXTENT, EXTENT_FIXED, SIZEOF_HANDLE, INODE_FIXED in *; try assumption; try lia.
  eexists. split; [exact Hput|]. split.
  { eapply get_inode_run; [exact Hn|exact Ha'|exact Hg|].
    eapply (fill_run ptr mem (i_fixed ino) _ 2 _ _ _ H1 H2 H3 H6 H4).
    unfold INODE_FIXED. rewrite Hrun, Hrun'. reflexivity. }
  split; [exact H4|]. cbn [i_extent]. unfold SIZEOF_EXTENT. rewrite lookup_insert_ne by lia.
  by rewrite lookup_singleton_ne.
Qed.

(** [get_inode] never gives an inode its extended attributes: whatever the
    record holds, the pointer keeps the value it had before the call. *)
Theorem xattr_not_loaded {D} `{InodeDb D} ptr num mem (s : @db_state D) r ino' s' :
  get_inode ptr num mem s = Ret ((r, ino'), s') -> i_xattr ino' = i_xattr mem.
Proof.
  unfold get_inode. case_if; [by intros [= _ <- _]|]. intros Hg.
  apply cbind_Ret in Hg as (d & s1 & [= <- <-] & Hg). destruct (db_get (db s) num) as [data|]; [|by injection Hg as _ <- _].
  unfold with_allocs in Hg. destruct (fill_inode ptr mem data (allocs s)) as [[[r0 i0] l0]|] eqn:Hf; [|done].
  injection Hg as -> -> _. unfold fill_inode in Hf.
  apply cbind_Ret in Hf as (fixed & l1 & _ & Hf). apply cbind_Ret in Hf as ([xl|] & l2 & _ & Hf); [|by injection Hf as _ <- _].
  apply cbind_Ret in Hf as ([[[cov dat] er]|] & l3 & _ & Hf); [|by injection Hf as _ <- _].
  apply cbind_Ret in Hf as ([[[cov' dat'] exs]|] & l4 & _ & Hf); [|by injection Hf as _ <- _].
  apply cbind_Ret in Hf as ([|] & l5 & _ & Hf); [|by injection Hf as _ <- _].
  apply cbind_Ret in Hf as (x & l6 & _ & Hf). by injection Hf as _ <- _.
Qed.

(** The record handed to the database is one pointer longer than its block
    for every inode that a client keeps: its last 8 bytes are read behind the
    block. *)
Theorem record_overread {D} `{InodeDb D} moves ino l u (s : @db_state D) :
  plain ino l -> i_numclients (i_fixed ino) = 1 -> INODE_NUM_START <= i_num (i_fixed ino) -> 0 <= u <= 1 ->
  allocs s = [] -> put_inode moves ino [] u s = Fault OutOfBounds.
Proof.
  intros Hp Hc Hn Hu Ha. unfold put_inode.
  rewrite (proj2 (Z.ltb_ge u 0)), (proj2 (Z.ltb_ge 1 u)), (proj2 (Z.ltb_ge _ INODE_NUM_START)) by lia. cbn [orb].
  unfold cbind at 1, with_allocs. rewrite Ha, (flatten_run _ _ _ Hp), Hc. unfold cbind at 1.
  rewrite app_nil_r, read_at_out; [done|..]; unfold SIZEOF_PTR; pose proof (size_nonneg (i_fixed ino ++ body l)); lia.
Qed.

(** * Examples *)

Definition zeros (n : Z) : list Z := replicate (Z.to_nat n) 0.
Definition four (n : Z) : list Z := [n; 0; 0; 0].

(** Inode 7 with [n] extents and one client. *)
Definition demo_fixed (n xlen : Z) : list Z :=
  zeros 4236 ++ four 1 ++ zeros 8 ++ four n ++ four xlen ++ (four 7 ++ zeros 4) ++ zeros 8.
Definition demo_handle : list Z := 3 :: zeros 4151.
Definition demo_extent (off : Z) : sstack_extent :=
  mkExtent ((off :: zeros 27) ++ four 1 ++ zeros 8) (Some demo_handle).
Definition one_extent : sstack_inode := mkInode (demo_fixed 1 0) None ∅ {[0 := demo_extent 0]} (Some []).
Definition two_extents : sstack_inode :=
  mkInode (demo_fixed 2 0) None ∅ {[0 := demo_extent 0; 40 := demo_extent 9]} (Some []).
Definition empty_db : @db_state (gmap Z (list Z)) := mkDb [] ∅.

Lemma demo_ext_ok off : ext_ok (demo_extent off) demo_handle.
Proof. split; vm_compute; reflexivity. Qed.

Lemma one_extent_plain : plain one_extent [(demo_extent 0, demo_handle)].
Proof.
  split; [by vm_compute..| |by vm_compute]. split; [reflexivity|]. split; [apply demo_ext_ok|done].
Qed.

Lemma two_extents_plain : plain two_extents [(demo_extent 0, demo_handle); (demo_extent 9, demo_handle)].
Proof.
  split; [by vm_compute..| |by vm_compute]. split; [reflexivity|]. split; [apply demo_ext_ok|].
  split; [reflexivity|]. split; [apply demo_ext_ok|done].
Qed.

Lemma inode_roundtrip_witness :
  exists s' ino', put_inode false one_extent (zeros 8) 0 empty_db = Ret (0, s') /\
    get_inode (zeros 8) (i_num (i_fixed one_extent)) two_extents s' = Ret ((0, ino'), s') /\
    i_fixed ino' = i_fixed one_extent /\ same_extents [(demo_extent 0, demo_handle)] (i_extent ino') /\
    i_sfsds ino' = Some [] /\ i_erasure ino' = ∅ /\ i_xattr ino' = None.
Proof.
  apply (inode_roundtrip false (zeros 8) one_extent [(demo_extent 0, demo_handle)] (zeros 8) 0 empty_db two_extents one_extent_plain);
    [simpl; lia| |lia|reflexivity| | |reflexivity]; vm_compute; discriminate || reflexivity.
Defined.

Lemma second_extent_lost_witness :
  exists s' ino', put_inode true two_extents (zeros 8) 0 empty_db = Ret (0, s') /\
    get_inode (zeros 8) (i_num (i_fixed two_extents)) one_extent s' = Ret ((0, ino'), s') /\
    i_numextents (i_fixed ino') = 2 /\ i_extent ino' !! SIZEOF_EXTENT = None.
Proof.
  apply (second_extent_lost true (zeros 8) two_extents _ _ _ _ (zeros 8) 0 empty_db one_extent two_extents_plain);
    [| |lia|reflexivity| | |reflexivity]; vm_compute; discriminate || reflexivity.
Defined.

Lemma xattr_not_loaded_witness :
  exists ino', get_inode (zeros 8) 7 one_extent (mkDb [] {[7 := demo_fixed 0 2 ++ [61; 0]]}) =
      Ret ((0, ino'), mkDb [] {[7 := demo_fixed 0 2 ++ [61; 0]]}) /\ i_xattr ino' = None.
Proof.
  eexists. assert (Hg : get_inode (zeros 8) 7 one_extent (mkDb [] {[7 := demo_fixed 0 2 ++ [61; 0]]}) =
      Ret ((0, mkInode (demo_fixed 0 2) None ∅ ∅ (Some [])), mkDb [] {[7 := demo_fixed 0 2 ++ [61; 0]]}))
    by (vm_compute; reflexivity).
  split; [exact Hg|]. apply (xattr_not_loaded _ _ _ _ _ _ _ Hg).
Defined.

Lemma record_overread_witness : put_inode false one_extent [] 1 empty_db = Fault OutOfBounds.
Proof.
  apply (record_overread false one_extent _ 1 empty_db one_extent_plain); [|vm_compute; discriminate|lia|reflexivity].
  vm_compute. reflexivity.
Defined.

End InodeStore.
