(* ===== verification/InodeFields.v ===== *)
(** The fixed fields of an inode (common/include/sstack_md.h): reading and
    setting a field of the 4272 bytes that [InodeStore] keeps of them. *)
From Stdlib Require Import ZArith Lia.
From stdpp Require Import base gmap list numbers.
From S2P Require Import Prelude CString InodeStore.

Module InodeFields.
Import InodeStore.

(** The bytes of a number, least significant first. *)
Fixpoint le_bytes (k : nat) (n : Z) : list Z :=
  match k with
  | O => []
  | S k' => n mod 256 :: le_bytes k' (n / 256)
  end.
(** Overwriting the bytes from [off] on. *)
Definition patch (off : Z) (x f : list Z) : list Z :=
  take (Z.to_nat off) f ++ x ++ drop (Z.to_nat (off + size x)) f.

Definition get32 (off : Z) (f : list Z) : Z := le (sub off 4 f).
Definition get64 (off : Z) (f : list Z) : Z := le (sub off 8 f).
Definition set32 (off n : Z) (f : list Z) : list Z := patch off (le_bytes 4 n) f.
Definition set64 (off n : Z) (f : list Z) : list Z := patch off (le_bytes 8 n) f.

(** * The fields *)

Definition PATH_MAX : Z := 4096.
(** [i_name] as a C string. *)
Definition i_name (f : list Z) : list Z := cstr (sub 40 PATH_MAX f).
Definition i_uid (f : list Z) : Z := get32 4136 f.
Definition i_gid (f : list Z) : Z := get32 4140 f.
Definition i_mode (f : list Z) : Z := get32 4144 f.
Definition i_type (f : list Z) : Z := get32 4148 f.
Definition i_size (f : list Z) : Z := get64 4200 f.
Definition i_primary_sfsd (f : list Z) : Z := get64 4216 f.

Definition set_name (s f : list Z) : list Z := patch 40 (s ++ [0]) f.
Definition set_uid : Z -> list Z -> list Z := set32 4136.
Definition set_gid : Z -> list Z -> list Z := set32 4140.
Definition set_mode : Z -> list Z -> list Z := set32 4144.
Definition set_type : Z -> list Z -> list Z := set32 4148.
(** [i_atime], [i_ctime] and [i_mtime]: a [struct timespec] has 16 bytes. *)
Definition set_atime : list Z -> list Z -> list Z := patch 4152.
Definition set_ctime : list Z -> list Z -> list Z := patch 4168.
Definition set_mtime : list Z -> list Z -> list Z := patch 4184.
Definition set_size : Z -> list Z -> list Z := set64 4200.
Definition set_ondisksize : Z -> list Z -> list Z := set64 4208.
Definition set_primary_sfsd : Z -> list Z -> list Z := set64 4216.
Definition set_links : Z -> list Z -> list Z := set32 4224.
Definition set_numreplicas : Z -> list Z -> list Z := set32 4228.
Definition set_numclients : Z -> list Z -> list Z := set32 4236.
Definition set_numerasure : Z -> list Z -> list Z := set32 4240.
Definition set_numextents : Z -> list Z -> list Z := set32 4248.
Definition set_xattrlen : Z -> list Z -> list Z := set32 4252.
Definition set_num : Z -> list Z -> list Z := set64 4256.

(** The inode with other fixed fields. *)
Definition with_fixed (f : list Z) (ino : sstack_inode) : sstack_inode :=
  mkInode f (i_xattr ino) (i_erasure ino) (i_extent ino) (i_sfsds ino).
(** A fresh inode, cleared by [memset]. *)
Definition zero_inode : sstack_inode := mkInode (zeros INODE_FIXED) None ∅ ∅ None.

(** * Lemmas *)

Lemma patch_before off x f o len :
  0 <= o -> 0 <= len -> o + len <= off -> off <= size f -> sub o len (patch off x f) = sub o len f.
Proof.
  intros. unfold patch. unfold size in *.
  assert (Ht : length (take (Z.to_nat off) f) = Z.to_nat off) by (rewrite length_take; lia).
  rewrite sub_app_l by (unfold size; rewrite ?Ht; lia).
  unfold sub. rewrite skipn_firstn_comm, take_take. f_equal. lia.
Qed.

Lemma patch_at off x f : 0 <= off <= size f -> sub off (size x) (patch off x f) = x.
Proof.
  intros. unfold patch.
  assert (Ht : size (take (Z.to_nat off) f) = off) by (unfold size in *; rewrite length_take; lia).
  rewrite sub_app_r by lia. rewrite Ht, Z.sub_diag, sub_app_l by (unfold size; lia). apply sub_all.
Qed.

Lemma patch_behind off x f o len :
  0 <= off -> off + size x <= o -> off + size x <= size f -> sub o len (patch off x f) = sub o len f.
Proof.
  intros. unfold patch. pose proof (size_nonneg x).
  assert (Ht : size (take (Z.to_nat off) f) = off) by (unfold size in *; rewrite length_take; lia).
  rewrite !sub_app_r, Ht by lia. unfold sub. rewrite drop_drop. do 2 f_equal. lia.
Qed.

Lemma patch_size off x f : 0 <= off -> off + size x <= size f -> size (patch off x f) = size f.
Proof. intros. unfold patch, size in *. rewrite !length_app, length_take, length_drop. lia. Qed.

Lemma le_bytes_size k n : size (le_bytes k n) = Z.of_nat k.
Proof. revert n. unfold size. induction k as [|k IH]; intros n; cbn [le_bytes length]; [done|]. specialize (IH (n / 256)). lia. Qed.
Lemma le_le_bytes k n : le (le_bytes k n) = n mod 2 ^ (8 * Z.of_nat k).
Proof.
  revert n. induction k as [|k IH]; intros n; cbn [le_bytes le]; [by rewrite Z.mod_1_r|]. rewrite IH.
  replace (8 * Z.of_nat (S k)) with (8 + 8 * Z.of_nat k) by lia. rewrite Z.pow_add_r by lia. change (2 ^ 8) with 256.
  rewrite Z.rem_mul_r by lia. lia.
Qed.

(** A range of bytes that a patch does not touch. *)
Lemma sub_patch_ne o len off x f : 0 <= o -> 0 <= len -> 0 <= off -> off + size x <= size f ->
  o + len <= off \/ off + size x <= o -> sub o len (patch off x f) = sub o len f.
Proof.
  intros H1 H2 H3 H4 [H5|H5]; [|by apply patch_behind]. pose proof (size_nonneg x). apply patch_before; lia.
Qed.

Lemma get32_set32 off n f : 0 <= off -> off + 4 <= size f -> get32 off (set32 off n f) = uwrap 32 n.
Proof.
  intros H1 H2. unfold get32, set32. pose proof (le_bytes_size 4 n) as Hs. change (Z.of_nat 4) with 4 in Hs. rewrite <- Hs at 1.
  rewrite patch_at by lia. apply le_le_bytes.
Qed.
Lemma get64_set64 off n f : 0 <= off -> off + 8 <= size f -> get64 off (set64 off n f) = uwrap 64 n.
Proof.
  intros H1 H2. unfold get64, set64. pose proof (le_bytes_size 8 n) as Hs. change (Z.of_nat 8) with 8 in Hs. rewrite <- Hs at 1.
  rewrite patch_at by lia. apply le_le_bytes.
Qed.
Lemma size_set32 off n f : 0 <= off -> off + 4 <= size f -> size (set32 off n f) = size f.
Proof. intros. apply patch_size; [done|]. by rewrite le_bytes_size. Qed.
Lemma size_set64 off n f : 0 <= off -> off + 8 <= size f -> size (set64 off n f) = size f.
Proof. intros. apply patch_size; [done|]. by rewrite le_bytes_size. Qed.
Lemma sub_set32_ne o len off n f : 0 <= o -> 0 <= len -> 0 <= off -> off + 4 <= size f ->
  o + len <= off \/ off + 4 <= o -> sub o len (set32 off n f) = sub o len f.
Proof. intros. apply sub_patch_ne; rewrite ?le_bytes_size; done. Qed.
Lemma sub_set64_ne o len off n f : 0 <= o -> 0 <= len -> 0 <= off -> off + 8 <= size f ->
  o + len <= off \/ off + 8 <= o -> sub o len (set64 off n f) = sub o len f.
Proof. intros. apply sub_patch_ne; rewrite ?le_bytes_size; done. Qed.

(** A string that was copied into an array. *)
Lemma cstr_sub_patch off len s f : 0 <= off -> off + len <= size f -> Forall (fun c => c <> 0) s -> size s < len ->
  cstr (sub off len (patch off (s ++ [0]) f)) = s.
Proof.
  intros Ho Hf Hs Hl. pose proof (size_nonneg s).
  assert (Hsub : sub off len (patch off (s ++ [0]) f) = s ++ 0 :: sub (off + size s + 1) (len - size s - 1) f).
  { unfold sub, patch, size in *. rewrite length_app. cbn [length].
    rewrite drop_app_length' by (rewrite length_take; lia).
    rewrite <- app_assoc. cbn [app]. rewrite take_app_ge by lia. f_equal.
    replace (Z.to_nat len - length s)%nat with (S (Z.to_nat (len - Z.of_nat (length s) - 1))) by lia. cbn [take]. do 3 f_equal. lia. }
  rewrite Hsub. clear Hsub. revert Hs. generalize (sub (off + size s + 1) (len - size s - 1) f). clear. intros t Hs.
  induction Hs as [|c s Hc _ IH]; [done|]. cbn [app cstr]. by rewrite (proj2 (Z.eqb_neq _ _) Hc), IH.
Qed.

(** The name that was copied into an inode. *)
Lemma i_name_set s f : size f = INODE_FIXED -> Forall (fun c => c <> 0) s -> size s < PATH_MAX -> i_name (set_name s f) = s.
Proof. unfold INODE_FIXED, PATH_MAX. intros. apply cstr_sub_patch; unfold PATH_MAX; [lia|lia|done|done]. Qed.

Lemma sub_sub o l o' l' f : 0 <= o -> 0 <= o' -> 0 <= l -> 0 <= l' -> o' + l' <= l -> sub o' l' (sub o l f) = sub (o + o') l' f.
Proof.
  intros. unfold sub. rewrite skipn_firstn_comm, take_take, drop_drop. f_equal; [lia|]. f_equal. lia.
Qed.

(** Reading a field of an inode whose other fields were set. *)
Section Fields.
Context (f : list Z) (Hf : size f = INODE_FIXED).
Lemma sz_set32 off n : 0 <= off -> off + 4 <= INODE_FIXED -> size (set32 off n f) = INODE_FIXED.
Proof using Hf. intros. rewrite size_set32; lia. Qed.
Lemma sz_set64 off n : 0 <= off -> off + 8 <= INODE_FIXED -> size (set64 off n f) = INODE_FIXED.
Proof using Hf. intros. rewrite size_set64; lia. Qed.
Lemma sz_patch off x : 0 <= off -> off + size x <= INODE_FIXED -> size (patch off x f) = INODE_FIXED.
Proof using Hf. intros. rewrite patch_size; lia. Qed.
Lemma g32_same off n : 0 <= off -> off + 4 <= INODE_FIXED -> get32 off (set32 off n f) = uwrap 32 n.
Proof using Hf. intros. apply get32_set32; lia. Qed.
Lemma g64_same off n : 0 <= off -> off + 8 <= INODE_FIXED -> get64 off (set64 off n f) = uwrap 64 n.
Proof using Hf. intros. apply get64_set64; lia. Qed.
Lemma g32_set32 o off n : 0 <= o -> 0 <= off -> off + 4 <= INODE_FIXED -> o + 4 <= off \/ off + 4 <= o ->
  get32 o (set32 off n f) = get32 o f.
Proof using Hf. intros. unfold get32. by rewrite sub_set32_ne by lia. Qed.
Lemma g32_set64 o off n : 0 <= o -> 0 <= off -> off + 8 <= INODE_FIXED -> o + 4 <= off \/ off + 8 <= o ->
  get32 o (set64 off n f) = get32 o f.
Proof using Hf. intros. unfold get32. by rewrite sub_set64_ne by lia. Qed.
Lemma g32_patch o off x : 0 <= o -> 0 <= off -> off + size x <= INODE_FIXED -> o + 4 <= off \/ off + size x <= o ->
  get32 o (patch off x f) = get32 o f.
Proof using Hf. intros. unfold get32. by rewrite sub_patch_ne by lia. Qed.
Lemma g64_set32 o off n : 0 <= o -> 0 <= off -> off + 4 <= INODE_FIXED -> o + 8 <= off \/ off + 4 <= o ->
  get64 o (set32 off n f) = get64 o f.
Proof using Hf. intros. unfold get64. by rewrite sub_set32_ne by lia. Qed.
Lemma g64_set64 o off n : 0 <= o -> 0 <= off -> off + 8 <= INODE_FIXED -> o + 8 <= off \/ off + 8 <= o ->
  get64 o (set64 off n f) = get64 o f.
Proof using Hf. intros. unfold get64. by rewrite sub_set64_ne by lia. Qed.
Lemma g64_patch o off x : 0 <= o -> 0 <= off -> off + size x <= INODE_FIXED -> o + 8 <= off \/ off + size x <= o ->
  get64 o (patch off x f) = get64 o f.
Proof using Hf. intros. unfold get64. by rewrite sub_patch_ne by lia. Qed.
Lemma name_set32 off n : 4136 <= off -> off + 4 <= INODE_FIXED -> i_name (set32 off n f) = i_name f.
Proof using Hf. intros. unfold i_name, PATH_MAX. by rewrite sub_set32_ne by lia. Qed.
Lemma name_set64 off n : 4136 <= off -> off + 8 <= INODE_FIXED -> i_name (set64 off n f) = i_name f.
Proof using Hf. intros. unfold i_name, PATH_MAX. by rewrite sub_set64_ne by lia. Qed.
Lemma name_patch off x : 4136 <= off -> off + size x <= INODE_FIXED -> i_name (patch off x f) = i_name f.
Proof using Hf. intros. unfold i_name, PATH_MAX. by rewrite sub_patch_ne by lia. Qed.
End Fields.

Create HintDb fields.
#[export] Hint Resolve sz_set32 sz_set64 sz_patch : fields.
#[export] Hint Extern 3 (_ <= _) => (unfold INODE_FIXED in *; lia) : fields.
#[export] Hint Extern 3 (_ \/ _) => (unfold INODE_FIXED in *; lia) : fields.

Lemma numextents_get f : i_numextents f = swrap 32 (get32 4248 f).
Proof. reflexivity. Qed.

Ltac field_step :=
  first
    [ rewrite g32_same by eauto 30 with fields | rewrite g64_same by eauto 30 with fields
    | rewrite g32_set32 by eauto 30 with fields | rewrite g32_set64 by eauto 30 with fields
    | rewrite g32_patch by eauto 30 with fields | rewrite g64_set32 by eauto 30 with fields
    | rewrite g64_set64 by eauto 30 with fields | rewrite g64_patch by eauto 30 with fields
    | rewrite name_set32 by eauto 30 with fields | rewrite name_set64 by eauto 30 with fields
    | rewrite name_patch by eauto 30 with fields ].
(** The fields of an inode that was built by setting fields of another. *)
Ltac field_norm :=
  unfold i_uid, i_gid, i_mode, i_type, i_size,
    set_uid, set_gid, set_mode, set_type, set_atime, set_ctime, set_mtime, set_size, set_ondisksize, set_links,
    set_numreplicas, set_numerasure, set_numextents, InodeFields.set_xattrlen, set_num;
  rewrite ?numextents_get; repeat field_step.

End InodeFields.
