(* ===== verification/Xattr.v ===== *)
(** Extended attributes (sfs/src/sfs_entry.c, the xattr handlers and their
    helpers): the attributes of a file are one array of [name=value] strings,
    kept in its inode. The handlers take the lock of the inode ([LockTree])
    and read and write the inode records ([InodeStore]). *)
From Stdlib Require Import ZArith Lia.
From stdpp Require Import base gmap list numbers.
From S2P Require Import Prelude CString KeyTree LockTree InodeStore.
Import InodeStore.

Module Xattr.

Definition MAX_KEY_LEN : Z := 128.
Definition XATTR_CREATE : Z := 1.
Definition XATTR_REPLACE : Z := 2.
Definition EEXIST : Z := 17.
Definition ENOATTR : Z := 61.
(** '=' *)
Definition EQ : Z := 61.

(** * The array *)

Definition byte (p : list Z) (i : Z) : outcome Z :=
  match p !! Z.to_nat i with
  | Some c => Ret c
  | None => Fault OutOfBounds
  end.

(** [while ( *(p + i) != '=') { key[..] = *(p + i); i++; j++; }] on the bytes
    from [p + i] on. [xattr_remove] fills [key] from its start ([key + j]); the
    other functions use the position in the array ([key + i]). *)
Fixpoint copy_key (by_pos : bool) (rest : list Z) (i j : Z) (key : list Z) : outcome (Z * Z * list Z) :=
  match rest with
  | [] => Fault OutOfBounds
  | c :: rest' =>
      if c =? EQ then Ret (i, j, key)
      else
        let k := if by_pos then i else j in
        if k <? MAX_KEY_LEN then copy_key by_pos rest' (i + 1) (j + 1) (<[Z.to_nat k := c]> key)
        else Fault OutOfBounds
  end.

(** [while ( *(p + i) != '\0') i++;] *)
Fixpoint skip_value (rest : list Z) (i : Z) : outcome Z :=
  match rest with
  | [] => Fault OutOfBounds
  | c :: rest' => if c =? 0 then Ret i else skip_value rest' (i + 1)
  end.

Definition from (p : list Z) (i : Z) : list Z := drop (Z.to_nat i) p.

(** [key] after its [memset]. *)
Definition zero_key : list Z := replicate (Z.to_nat MAX_KEY_LEN) 0.

(** One attribute of the walk: its key is read, compared and, if it is not
    the one looked for, the walk goes on behind its value. *)
Inductive stop : Type :=
  | Match (i pos : Z) (key : list Z)
  | Next (i : Z).

Definition next_attr (by_pos : bool) (p name : list Z) (i : Z) : outcome stop :=
  match copy_key by_pos (from p i) i 0 zero_key with
  | Fault f => Fault f
  | Ret (i', j, key) =>
      if MAX_KEY_LEN <=? j + 1 then Fault OutOfBounds
      else
        let key := <[Z.to_nat (j + 1) := 0]> key in
        if decide (cstr key = name) then Ret (Match i' i key)
        else
          let i' := i' + (if by_pos then j else size (cstr key)) in
          match skip_value (from p i') i' with
          | Fault f => Fault f
          | Ret i' => Ret (Next i')
          end
  end.

(** The loop over the attributes; [None] when the fuel runs out. *)
Fixpoint walk (fuel : nat) (by_pos : bool) (p name : list Z) (len i : Z) : outcome (option stop) :=
  match fuel with
  | O => Ret None
  | S fuel' =>
      if i <? len then
        match byte p i with
        | Fault f => Fault f
        | Ret c =>
            if c =? 0 then walk fuel' by_pos p name len (i + 1)
            else
              match next_attr by_pos p name i with
              | Fault f => Fault f
              | Ret (Match i' pos key) => Ret (Some (Match i' pos key))
              | Ret (Next i') => walk fuel' by_pos p name len i'
              end
        end
      else Ret (Some (Next i))
  end.

Definition walk_fuel (len : Z) : nat := S (Z.to_nat len).

(** The array and its length, as an inode holds them. *)
Record xattrs : Type := mkX { x_ptr : option (list Z); x_len : Z }.

Definition lookup_attr (by_pos : bool) (x : xattrs) (name : list Z) : outcome (option stop) :=
  match x_ptr x with
  | Some p => walk (walk_fuel (x_len x)) by_pos p name (x_len x) 0
  | None => if x_len x <=? 0 then Ret (Some (Next 0)) else Fault NullDeref
  end.

(** [realloc]: the new bytes are unspecified, and all written before they are
    read. *)
Definition grow (p : list Z) (n : Z) : list Z :=
  take (Z.to_nat n) p ++ replicate (Z.to_nat n - length p) 0.

Definition obind {A B} (o : outcome A) (k : A -> outcome B) : outcome B :=
  match o with
  | Ret a => k a
  | Fault f => Fault f
  end.
Definition opure {A} (c : cprog unit A) : outcome A :=
  match c tt with
  | Ret (a, _) => Ret a
  | Fault f => Fault f
  end.

(** [memmove(p + dst, p + src, n)] and [memmove(p + dst, x, size x)]. *)
Definition move (dst src n : Z) (p : list Z) : outcome (list Z) :=
  opure (let! x := read_at src n p in write_at dst x p)%cprog.
Definition store (dst : Z) (x p : list Z) : outcome (list Z) := opure (write_at dst x p).

(** The part of [replace_xattr] that changes the array: [i] is where the walk
    stopped. [None] is a failed [realloc]. *)
Definition replace_at (x : xattrs) (p : list Z) (i : Z) (value : list Z) (len : Z) (realloc_ok : bool)
  : outcome (option xattrs) :=
  let i := i + 1 in
  obind (skip_value (from p i) i) (fun e =>
  let j := e - i in
  obind (opure (read_at 0 len value)) (fun v =>
  if len <? j then
    obind (store i v p) (fun p =>
    let i := i + len in
    obind (move i (i + j - len) (uwrap 64 (x_len x - (j - len))) p) (fun p =>
    Ret (Some (mkX (Some p) (x_len x - j + len)))))
  else if len =? j then
    obind (store i v p) (fun p => Ret (Some (mkX (Some p) (x_len x))))
  else if negb realloc_ok then Ret None
  else
    let temp := grow p (x_len x + (len - j)) in
    obind (move (i + len) (i + j) (uwrap 64 (x_len x - (j - len))) temp) (fun temp =>
    obind (store i v temp) (fun temp =>
    Ret (Some (mkX (Some temp) (x_len x + (len - j))))))))
  .

(** The part of [append_xattr] that changes the array. [key_len] is only set
    for names that are too long. *)
Definition append_at (x : xattrs) (name value : list Z) (len : Z) (realloc_ok : bool) : outcome (option xattrs) :=
  let key_len := if MAX_KEY_LEN <? size name then MAX_KEY_LEN else 0 in
  if negb realloc_ok then Ret None
  else
    let p := grow (default [] (x_ptr x)) (x_len x + key_len + len + 1 + 1) in
    let cur_len := x_len x in
    obind (store cur_len (take (Z.to_nat key_len) name) p) (fun p =>
    let cur_len := cur_len + key_len in
    obind (store cur_len [EQ] p) (fun p =>
    let cur_len := cur_len + 1 in
    match strlen value with
    | None => Fault OutOfBounds
    | Some _ =>
        obind (store cur_len (cstr value ++ [0]) p) (fun p =>
        let cur_len := cur_len + len in
        Ret (Some (mkX (Some p) cur_len)))
    end)).

(** [xattr_remove]: the new length, and the changed array; the length in the
    inode stays. [inl] is the error number of a refusal. *)
Definition security_ima : list Z := [115; 101; 99; 117; 114; 105; 116; 121; 46; 105; 109; 97].

Definition xattr_remove (x : xattrs) (name : list Z) : outcome (option (Z + Z * xattrs)) :=
  if negb (bool_decide (name = security_ima)) && ((if x_ptr x then false else true) || (x_len x <=? 0))
  then Ret (Some (inl EINVAL))
  else
    obind (lookup_attr false x name) (fun r =>
    match r with
    | None => Ret None
    | Some (Next _) => Ret (Some (inl ENOATTR))
    | Some (Match i pos key) =>
        let p := default [] (x_ptr x) in
        let len := x_len x in
        let key_size := size (cstr key) in
        let i := i + 1 in
        obind (skip_value (from p i) i) (fun e =>
        let value_size := e - i in
        let pair_len := key_size + 1 + value_size + 1 in
        let n := uwrap 64 (len - pair_len) in
        if e =? len - 1 then Ret (Some (inr (len - pair_len, x)))
        else
          obind (byte p 0) (fun c =>
          let at_pos := if default 0 (key !! 0%nat) =? c then 0 else pos in
          obind (move at_pos (at_pos + pair_len) n p) (fun p =>
          Ret (Some (inr (len - pair_len, mkX (Some p) len))))))
    end).

(** The value that [sfs_getxattr] copies, from where the walk stopped. *)
Fixpoint copy_value (rest : list Z) (room : nat) : outcome (list Z) :=
  match rest with
  | [] => Fault OutOfBounds
  | c :: rest' =>
      if c =? 0 then Ret []
      else match room with
           | O => Ret []
           | S room' => obind (copy_value rest' room') (fun v => Ret (c :: v))
           end
  end.

(** The loop of [sfs_listxattr]: the bytes copied so far and the caller's
    array. *)
Fixpoint list_walk (fuel : nat) (p : list Z) (len i : Z) (copied : Z) (out : list Z)
  : outcome (option (Z * list Z)) :=
  match fuel with
  | O => Ret None
  | S fuel' =>
      if i <? len then
        obind (byte p i) (fun c =>
        if c =? 0 then list_walk fuel' p len (i + 1) copied out
        else
          obind (copy_key true (from p i) i 0 zero_key) (fun '(i', j, key) =>
          if MAX_KEY_LEN <=? j + 1 then Fault OutOfBounds
          else
            let key := <[Z.to_nat (j + 1) := 0]> key in
            if (copied <? size out) && (copied + (j + 1) <? size out) then
              obind (store copied (cstr key ++ [0]) out) (fun out =>
              let i' := i' + j in
              obind (skip_value (from p i') i') (fun i' =>
              list_walk fuel' p len i' (copied + (j + 1)) out))
            else Ret (Some (copied, out))))
      else Ret (Some (copied, out))
  end.

(** * The handlers *)

(** The length is one of the fixed fields of the inode. *)
Definition bytes4 (n : Z) : list Z := [n mod 256; n / 256 mod 256; n / 65536 mod 256; n / 16777216 mod 256].
Definition set_xattrlen (f : list Z) (n : Z) : list Z := take (Z.to_nat 4252) f ++ bytes4 n ++ drop (Z.to_nat 4256) f.
Definition get_xattrs (ino : sstack_inode) : xattrs := mkX (i_xattr ino) (i_xattrlen (i_fixed ino)).
Definition put_xattrs (ino : sstack_inode) (x : xattrs) : sstack_inode :=
  mkInode (set_xattrlen (i_fixed ino) (x_len x)) (x_ptr x) (i_erasure ino) (i_extent ino) (i_sfsds ino).

Section Handlers.
Context {T : Type} `{KeyTree T} {D : Type} `{InodeDb D} (moves : bool) (ptr after : list Z).

Record xstate : Type := mkXs { lt : @LockTree.state T; ds : @db_state D }.

Definition on_locks {A} (c : cprog (@LockTree.state T) A) : cprog xstate A := fun s =>
  match c (lt s) with
  | Ret (a, l) => Ret (a, mkXs l (ds s))
  | Fault f => Fault f
  end.
Definition on_db {A} (c : cprog (@db_state D) A) : cprog xstate A := fun s =>
  match c (ds s) with
  | Ret (a, d) => Ret (a, mkXs (lt s) d)
  | Fault f => Fault f
  end.
Definition put_errno (e : Z) : cprog xstate unit := on_locks (LockTree.set_errno e).
Definition of_out {A} (o : outcome A) : cprog xstate A :=
  match o with
  | Ret a => cret a
  | Fault f => cfault f
  end.
(** A loop that does not end is a thread that waits for ever; [walk_total]
    and [list_walk_total] exclude it. *)
Definition of_loop {A} (o : outcome (option A)) : cprog xstate A :=
  match o with
  | Ret (Some a) => cret a
  | Ret None => cfault Deadlock
  | Fault f => cfault f
  end.

Definition xattr_exists (ino : sstack_inode) (name : list Z) : cprog xstate Z :=
  let x := get_xattrs ino in
  (if (if x_ptr x then false else true) || (x_len x =? 0) then put_errno EINVAL ;;; cret (-1)
   else
     let! r := of_loop (lookup_attr true x name) in
     cret (match r with Match _ _ _ => 1 | Next _ => -1 end))%cprog.

(** The stored inode, when the array was changed. *)
Definition store_xattrs (ino : sstack_inode) (x : option xattrs) : cprog xstate Z :=
  (match x with
   | None => put_errno ENOMEM ;;; cret (-1)
   | Some x =>
       let! ret := on_db (put_inode moves (put_xattrs ino x) after 1) in
       cret (if ret =? 0 then 0 else -1)
   end)%cprog.

Definition replace_xattr (ino : sstack_inode) (name value : list Z) (len : Z) (realloc_ok : bool) : cprog xstate Z :=
  let x := get_xattrs ino in
  (if len =? 0 then put_errno EINVAL ;;; cret (-1)
   else
     let! r := of_loop (lookup_attr true x name) in
     let i := match r with Match i _ _ => i | Next i => i end in
     let! p := cexpect NullDeref (x_ptr x) in
     let! x' := of_out (replace_at x p i value len realloc_ok) in
     store_xattrs ino x')%cprog.

Definition append_xattr (ino : sstack_inode) (name value : list Z) (len : Z) (realloc_ok : bool) : cprog xstate Z :=
  (if len =? 0 then put_errno EINVAL ;;; cret (-1)
   else
     let! x' := of_out (append_at (get_xattrs ino) name value len realloc_ok) in
     store_xattrs ino x')%cprog.

(** What surrounds a call: the answer of the reverse lookup of the path, the
    memory for a lock, the inode on the stack before it is filled, and the
    answer of [realloc]. *)
Record call : Type := mkCall {
  inodestr : option Z;
  lock_mem : Z;
  stack : sstack_inode;
  realloc_ok : bool
}.

(** The beginning of every handler: the lookup, the lock, the inode. *)
Definition with_inode {A} (fail : A) (c : call) (take_lock : Z -> cprog (@LockTree.state T) Z)
    (body : Z -> sstack_inode -> cprog xstate A) : cprog xstate A :=
  (match inodestr c with
   | None => put_errno ENOENT ;;; cret fail
   | Some inode_num =>
       let! ret := on_locks (take_lock inode_num) in
       if ret =? -1 then put_errno EAGAIN ;;; cret fail
       else
         let! r := on_db (get_inode ptr inode_num (stack c)) in
         if r.1 =? 0 then body inode_num r.2
         else put_errno r.1 ;;; on_locks (LockTree.sfs_unlock inode_num) ;;; cret fail
   end)%cprog.

(** [sfs_unlock] and the return. *)
Definition finish {A} (inode_num : Z) (r : A) : cprog xstate A :=
  (on_locks (LockTree.sfs_unlock inode_num) ;;; cret r)%cprog.

Definition null {A} (o : option A) : bool := match o with None => true | Some _ => false end.

(** [size], which is tested for 0, was not set. *)
Definition sfs_setxattr (c : call) (path_ok : bool) (name value : option (list Z)) (len flags junk_size : Z)
  : cprog xstate Z :=
  (if negb path_ok || null name || null value || (junk_size =? 0) then put_errno EINVAL ;;; cret (-1)
   else
     let name := default [] name in
     let value := default [] value in
     with_inode (-1) c (LockTree.sfs_rdlock (lock_mem c) 0) (fun n ino =>
       let replace :=
         (let! ret := replace_xattr ino name value len (realloc_ok c) in
          finish n (if ret =? -1 then -1 else 0)) in
       let append :=
         (let! ret := append_xattr ino name value len (realloc_ok c) in
          finish n (if ret =? -1 then -1 else 0)) in
       if flags =? XATTR_CREATE then
         let! e := xattr_exists ino name in
         if e =? 1 then put_errno EEXIST ;;; finish n (-1) else append
       else if flags =? XATTR_REPLACE then
         let! e := xattr_exists ino name in
         if e =? 1 then replace else put_errno ENOATTR ;;; finish n (-1)
       else if flags =? 0 then
         let! e := xattr_exists ino name in
         if e =? 1 then replace else append
       else put_errno EINVAL ;;; finish n (-1)))%cprog.

(** [is_dot]: the path is "." or "..". The answer has the bytes written to
    [value]. *)
Definition sfs_getxattr (c : call) (path_ok is_dot : bool) (name : option (list Z)) (value_ok : bool) (size : Z)
  : cprog xstate (Z * list Z) :=
  (match name with
   | None => cfault NullDeref (* strcmp *)
   | Some name =>
       if bool_decide (name = security_ima) then cret (-1, [])
       else if negb path_ok || negb value_ok || (size =? 0) then put_errno EINVAL ;;; cret (-1, [])
       else if is_dot then cret (0, [])
       else
         with_inode (-1, []) c (LockTree.sfs_rdlock (lock_mem c) 0) (fun n ino =>
           let x := get_xattrs ino in
           let! r := of_loop (lookup_attr true x name) in
           match r with
           | Match i _ _ =>
               let! v := of_out (copy_value (from (default [] (x_ptr x)) i) (Z.to_nat size)) in
               finish n (Z.of_nat (length v), v)
           | Next _ => put_errno EINVAL ;;; finish n (-1, [])
           end)
   end)%cprog.

(** [list] has [size] bytes. *)
Definition sfs_listxattr (c : call) (path_ok : bool) (list : option (list Z)) : cprog xstate (Z * Datatypes.list Z) :=
  (match list with
   | None => put_errno EINVAL ;;; cret (-1, [])
   | Some out =>
       if negb path_ok || (size out =? 0) then put_errno EINVAL ;;; cret (-1, out)
       else
         with_inode (-1, out) c (LockTree.sfs_rdlock (lock_mem c) 0) (fun n ino =>
           let x := get_xattrs ino in
           let! r := of_loop
             (match x_ptr x with
              | Some p => list_walk (walk_fuel (x_len x)) p (x_len x) 0 0 out
              | None => if x_len x <=? 0 then Ret (Some (0, out)) else Fault NullDeref
              end) in
           finish n r)
   end)%cprog.

(** The new length is not stored in the inode. *)
Definition sfs_removexattr (c : call) (path_ok : bool) (name : option (list Z)) : cprog xstate Z :=
  (match name with
   | None => cfault NullDeref (* strcmp *)
   | Some name =>
       if bool_decide (name = security_ima) then cret (-1)
       else if negb path_ok then put_errno EINVAL ;;; cret (-1)
       else
         with_inode (-1) c (LockTree.sfs_wrlock (lock_mem c) 0) (fun n ino =>
           let! r := of_loop (xattr_remove (get_xattrs ino) name) in
           match r with
           | inl _ => put_errno ENOATTR ;;; finish n (-1)
           | inr (ret, x) =>
               if ret =? -1 then put_errno ENOATTR ;;; finish n (-1)
               else
                 let ino' := mkInode (i_fixed ino) (x_ptr x) (i_erasure ino) (i_extent ino) (i_sfsds ino) in
                 let! ret := on_db (put_inode moves ino' after 1) in
                 finish n (if ret =? 0 then 0 else -1)
           end)
   end)%cprog.

End Handlers.

(** * Arrays of attributes *)

Definition pair (kv : list Z * list Z) : list Z := kv.1 ++ EQ :: kv.2 ++ [0].
Definition enc (kvs : list (list Z * list Z)) : list Z := concat (pair <$> kvs).

(** An attribute the walk can step over: the walk skips as many bytes of the
    value as the name has. *)
Record attr_ok (kv : list Z * list Z) : Prop := {
  attr_name : kv.1 <> [];
  attr_chars : Forall (fun c => c <> 0 /\ c <> EQ) kv.1;
  attr_value : Forall (fun c => c <> 0) kv.2;
  attr_short : size kv.1 <= size kv.2 + 1;
  attr_fits : size kv.1 + 1 < MAX_KEY_LEN
}.

Lemma size_cons (c : Z) l : size (c :: l) = 1 + size l.
Proof. unfold size. simpl. lia. Qed.

Lemma from_app (a b : list Z) n : 0 <= n -> from (a ++ b) (size a + n) = from b n.
Proof. intros. unfold from, size. rewrite drop_app_ge by lia. f_equal. lia. Qed.

Lemma from_size (a b : list Z) : from (a ++ b) (size a) = b.
Proof. unfold from, size. rewrite Nat2Z.id. apply drop_app_length. Qed.

Lemma skip_value_run a rest i : Forall (fun c => c <> 0) a -> skip_value (a ++ 0 :: rest) i = Ret (i + size a).
Proof.
  intros Ha. revert i. induction Ha as [|c a Hc _ IH]; intros i; simpl; [by rewrite Z.add_0_r|].
  rewrite (proj2 (Z.eqb_neq c 0) Hc), IH, size_cons. f_equal. lia.
Qed.

(** The key ends up where the walk puts it. *)
Lemma copy_key_run (b : bool) k rest i j key :
  Forall (fun c => c <> 0 /\ c <> EQ) k ->
  let at_ := if b then i else j in
  0 <= at_ -> at_ + size k <= MAX_KEY_LEN -> size key = MAX_KEY_LEN ->
  copy_key b (k ++ EQ :: rest) i j key
  = Ret (i + size k, j + size k, take (Z.to_nat at_) key ++ k ++ drop (Z.to_nat (at_ + size k)) key).
Proof.
  intros Hk. revert i j key. induction Hk as [|c k [_ Hc] _ IH]; intros i j key at_ H0 H1 H2; simpl.
  - rewrite !Z.add_0_r. by rewrite take_drop.
  - rewrite (proj2 (Z.eqb_neq c EQ) Hc). rewrite size_cons in *. pose proof (size_nonneg k).
    fold at_. rewrite (proj2 (Z.ltb_lt at_ MAX_KEY_LEN)) by lia.
    assert (Hat : (if b then i + 1 else j + 1) = at_ + 1) by (unfold at_; by destruct b).
    specialize (IH (i + 1) (j + 1) (<[Z.to_nat at_ := c]> key)). cbv zeta in IH. rewrite Hat in IH.
    rewrite IH; [|lia|lia|unfold size in *; rewrite length_insert; lia].
    f_equal. f_equal; [f_equal; lia|]. unfold size in *.
    rewrite insert_take_drop by lia.
    assert (Hl : length (take (Z.to_nat at_) key) = Z.to_nat at_) by (rewrite length_take; lia).
    replace (Z.to_nat (at_ + 1)) with (S (length (take (Z.to_nat at_) key))) by lia.
    rewrite take_app_ge by lia. rewrite drop_app_ge by lia.
    rewrite Nat.sub_succ_l, Nat.sub_diag by lia. simpl. rewrite take_0, <- app_assoc. simpl. do 3 f_equal.
    replace (Z.to_nat (at_ + 1 + Z.of_nat (length k)) - length (take (Z.to_nat at_) key))%nat with (S (length k)) by lia.
    simpl. rewrite drop_drop. f_equal. lia.
Qed.

Lemma zeros_insert n i : <[i := 0]> (replicate n 0) = replicate n 0.
Proof. revert i. induction n as [|n IH]; intros [|i]; simpl; [done..|]. by rewrite IH. Qed.

(** The key that is compared: the name for a key filled from its start, and
    the empty string for a key that is filled at the position of an attribute
    that is not the first. *)
Lemma key_at_start k :
  Forall (fun c => c <> 0 /\ c <> EQ) k -> size k + 1 < MAX_KEY_LEN ->
  let key := <[Z.to_nat (size k + 1) := 0]> (take (Z.to_nat 0) zero_key ++ k ++ drop (Z.to_nat (0 + size k)) zero_key) in
  cstr key = k /\ key !! 0%nat = (k ++ [0]) !! 0%nat.
Proof.
  intros Hk Hs key. pose proof (size_nonneg k).
  assert (Hkey : key = k ++ replicate (Z.to_nat MAX_KEY_LEN - length k) 0).
  { unfold key, zero_key, size in *. change (Z.to_nat 0) with 0%nat. rewrite take_0, app_nil_l.
    rewrite insert_app_r_alt by lia. rewrite drop_replicate, zeros_insert.
    do 2 f_equal. lia. }
  rewrite Hkey. split.
  - apply cstr_app_zeros. eapply list.Forall_impl; [exact Hk|]. by intros ? [? _].
  - destruct k; [|done]. by vm_compute.
Qed.

Lemma key_behind k at_ :
  0 < at_ -> at_ + size k <= MAX_KEY_LEN ->
  cstr (<[Z.to_nat (size k + 1) := 0]> (take (Z.to_nat at_) zero_key ++ k ++ drop (Z.to_nat (at_ + size k)) zero_key)) = [].
Proof.
  intros H1 H2. pose proof (size_nonneg k). unfold zero_key.
  replace (Z.to_nat at_) with (S (Z.to_nat (at_ - 1))) by lia.
  replace (Z.to_nat (size k + 1)) with (S (Z.to_nat (size k))) by lia.
  replace (Z.to_nat MAX_KEY_LEN) with (S (Z.to_nat (MAX_KEY_LEN - 1))) by done. done.
Qed.

(** What [strcmp] sees of the name of the attribute behind [pre]. *)
Definition seen (by_pos : bool) (pre k : list Z) : list Z :=
  if by_pos && negb (bool_decide (pre = [])) then [] else k.

Lemma next_attr_run b pre k v rest name :
  attr_ok (k, v) -> (b = true -> size pre + size k <= MAX_KEY_LEN) ->
  if decide (seen b pre k = name) then
    exists key, next_attr b (pre ++ pair (k, v) ++ rest) name (size pre) = Ret (Match (size pre + size k) (size pre) key) /\
      cstr key = name /\ (b = false -> key !! 0%nat = (k ++ [0]) !! 0%nat)
  else next_attr b (pre ++ pair (k, v) ++ rest) name (size pre) = Ret (Next (size pre + size k + 1 + size v)).
Proof.
  intros [H1 H2 H3 H4 H5] Hb. simpl in *. unfold next_attr. rewrite from_size.
  assert (Hsplit : pair (k, v) ++ rest = k ++ EQ :: v ++ 0 :: rest).
  { unfold pair. simpl. by rewrite <- app_assoc, <- app_comm_cons, <- app_assoc. }
  rewrite Hsplit. pose proof (size_nonneg pre). pose proof (size_nonneg k).
  rewrite (copy_key_run b k (v ++ 0 :: rest) (size pre) 0) by (try done; try (destruct b; lia)). rewrite Z.add_0_l.
  rewrite (proj2 (Z.leb_gt MAX_KEY_LEN (size k + 1))) by lia.
  set (key := <[_ := 0]> _).
  assert (Hkey : cstr key = seen b pre k /\ (b = false -> key !! 0%nat = (k ++ [0]) !! 0%nat)).
  { unfold key, seen. destruct b; cbn [andb]; [|by destruct (key_at_start k)].
    split; [|done]. case_bool_decide as Hp; cbn [negb].
    - subst pre. by destruct (key_at_start k).
    - apply key_behind; [|auto]. unfold size. destruct pre; [done|simpl; lia]. }
  destruct Hkey as [Hkey Hhead]. rewrite Hkey. case_decide as Hd.
  { exists key. split_and!; [done| |done]. congruence. }
  assert (Hskip : forall n, 0 <= n <= size v + 1 ->
    skip_value (from (pre ++ k ++ EQ :: v ++ 0 :: rest) (size pre + size k + n)) (size pre + size k + n)
    = Ret (size pre + size k + 1 + size v)).
  { intros n Hn. rewrite <- Z.add_assoc, from_app, from_app by lia. unfold from.
    rewrite app_comm_cons, drop_app_le by (simpl; unfold size in *; lia).
    rewrite skip_value_run.
    - f_equal. unfold size in *. rewrite length_drop. simpl. lia.
    - apply Forall_drop. constructor; [done|]. done. }
  assert (Hj : 0 <= (if b then size k else size (cstr key)) <= size v + 1).
  { destruct b; [lia|]. rewrite Hkey. unfold seen. simpl. lia. }
  rewrite Hkey in Hj. rewrite Hskip by done. done.
Qed.

Lemma size_pair k v : size (pair (k, v)) = size k + 1 + size v + 1.
Proof. unfold pair. simpl. rewrite size_app, size_cons, size_app. unfold size at 3. simpl. lia. Qed.

Lemma enc_cons kv kvs : enc (kv :: kvs) = pair kv ++ enc kvs.
Proof. done. Qed.

Lemma enc_app kvs kvs' : enc (kvs ++ kvs') = enc kvs ++ enc kvs'.
Proof. unfold enc. by rewrite fmap_app, concat_app. Qed.

Lemma byte_at a c b : byte (a ++ c :: b) (size a) = Ret c.
Proof. unfold byte, size. rewrite Nat2Z.id, list_lookup_middle by done. done. Qed.

(** No attribute of [kvs], which lies behind [pre], is seen as [name]. *)
Fixpoint all_miss (b : bool) (pre : list Z) (kvs : list (list Z * list Z)) (name : list Z) : Prop :=
  match kvs with
  | [] => True
  | (k, v) :: kvs' => seen b pre k <> name /\ all_miss b (pre ++ pair (k, v)) kvs' name
  end.

Lemma walk_skip b kvs pre rest name len fuel :
  Forall attr_ok kvs -> (b = true -> size pre + size (enc kvs) <= MAX_KEY_LEN) ->
  all_miss b pre kvs name -> size pre + size (enc kvs) <= len ->
  walk (2 * length kvs + fuel) b (pre ++ enc kvs ++ rest) name len (size pre)
  = walk fuel b (pre ++ enc kvs ++ rest) name len (size pre + size (enc kvs)).
Proof.
  revert pre. induction kvs as [|[k v] kvs IH]; intros pre Hok Hb Hm Hlen.
  { by rewrite Z.add_0_r. }
  apply list.Forall_cons in Hok as [Hkv Hok]. destruct Hm as [Hseen Hm].
  rewrite enc_cons, size_app, size_pair in *.
  pose proof (size_nonneg k). pose proof (size_nonneg v). pose proof (size_nonneg (enc kvs)).
  pose proof (next_attr_run b pre k v (enc kvs ++ rest) name Hkv) as Hn.
  rewrite decide_False in Hn by done. rewrite <- app_assoc.
  replace (2 * length ((k, v) :: kvs) + fuel)%nat with (S (S (2 * length kvs + fuel))) by (simpl; lia).
  cbn [walk]. rewrite (proj2 (Z.ltb_lt (size pre) len)) by lia.
  assert (Hc : exists c, byte (pre ++ pair (k, v) ++ enc kvs ++ rest) (size pre) = Ret c /\ (c =? 0) = false).
  { destruct Hkv as [Hk1 Hk2 _ _ _]. simpl in *. destruct k as [|c k]; [done|].
    apply list.Forall_cons in Hk2 as [[Hk2 _] _]. exists c. split; [apply byte_at|by apply Z.eqb_neq]. }
  destruct Hc as (c & -> & ->). rewrite Hn by (intros ->; specialize (Hb eq_refl); lia).
  rewrite (proj2 (Z.ltb_lt _ len)) by lia.
  assert (Hz : byte (pre ++ pair (k, v) ++ enc kvs ++ rest) (size pre + size k + 1 + size v) = Ret 0).
  { replace (pre ++ pair (k, v) ++ enc kvs ++ rest) with ((pre ++ k ++ EQ :: v) ++ 0 :: enc kvs ++ rest)
      by (unfold pair; simpl; by rewrite <- !app_assoc, <- !app_comm_cons, <- !app_assoc).
    replace (size pre + size k + 1 + size v) with (size (pre ++ k ++ EQ :: v))
      by (rewrite !size_app, size_cons; lia). apply byte_at. }
  rewrite Hz. cbn [Z.eqb].
  specialize (IH (pre ++ pair (k, v)) Hok). rewrite <- app_assoc, size_app, size_pair in IH.
  replace (size pre + size k + 1 + size v + 1) with (size pre + (size k + 1 + size v + 1)) by lia.
  rewrite IH; [f_equal; lia| |done|lia]. intros ->. specialize (Hb eq_refl). lia.
Qed.

(** The fuel is enough for every array. *)
Lemma walk_fuel_enough kvs rest :
  Forall attr_ok kvs -> exists n, walk_fuel (size (enc kvs ++ rest)) = (2 * length kvs + S n)%nat.
Proof.
  intros Hok. assert (Hl : 2 * Z.of_nat (length kvs) <= size (enc kvs)).
  { clear rest. induction Hok as [|[k v] kvs _ _ IH]; [done|]. rewrite enc_cons, size_app, size_pair.
    pose proof (size_nonneg k). pose proof (size_nonneg v). simpl. lia. }
  pose proof (size_nonneg rest). rewrite size_app. unfold walk_fuel.
  exists (Z.to_nat (size (enc kvs) + size rest) - 2 * length kvs)%nat. lia.
Qed.

Lemma lookup_miss b kvs name :
  Forall attr_ok kvs -> (b = true -> size (enc kvs) <= MAX_KEY_LEN) -> all_miss b [] kvs name ->
  lookup_attr b (mkX (Some (enc kvs)) (size (enc kvs))) name = Ret (Some (Next (size (enc kvs)))).
Proof.
  intros Hok Hb Hm. destruct (walk_fuel_enough kvs [] Hok) as [n Hn]. rewrite app_nil_r in Hn.
  unfold lookup_attr. cbn [x_ptr x_len]. rewrite Hn.
  pose proof (walk_skip b kvs [] [] name (size (enc kvs)) (S n) Hok) as Hw.
  rewrite app_nil_l, app_nil_r in Hw. change (size []) with 0 in Hw. rewrite Z.add_0_l in Hw.
  rewrite Hw by (done || lia). cbn [walk]. by rewrite Z.ltb_irrefl.
Qed.

Lemma lookup_hit b kvs name v kvs' :
  let p := enc (kvs ++ (name, v) :: kvs') in
  Forall attr_ok (kvs ++ (name, v) :: kvs') -> (b = true -> size p <= MAX_KEY_LEN) ->
  all_miss b [] kvs name -> seen b (enc kvs) name = name ->
  exists key, lookup_attr b (mkX (Some p) (size p)) name
      = Ret (Some (Match (size (enc kvs) + size name) (size (enc kvs)) key)) /\
    cstr key = name /\ (b = false -> key !! 0%nat = (name ++ [0]) !! 0%nat).
Proof.
  intros p Hok Hb Hm Hs. apply Forall_app in Hok as [Hok [Hkv Hok']%list.Forall_cons].
  assert (Hp : p = enc kvs ++ pair (name, v) ++ enc kvs') by (unfold p; by rewrite enc_app, enc_cons).
  rewrite Hp in *. destruct (walk_fuel_enough kvs (pair (name, v) ++ enc kvs') Hok) as [n Hn].
  unfold lookup_attr. cbn [x_ptr x_len]. rewrite Hn. set (q := pair (name, v) ++ enc kvs') in *.
  pose proof (size_nonneg name). pose proof (size_nonneg v). pose proof (size_nonneg (enc kvs')).
  assert (Hq : size (enc kvs ++ q) = size (enc kvs) + (size name + 1 + size v + 1) + size (enc kvs'))
    by (unfold q; rewrite !size_app, size_pair; lia).
  pose proof (walk_skip b kvs [] q name (size (enc kvs ++ q)) (S n) Hok) as Hw.
  rewrite app_nil_l in Hw. change (size []) with 0 in Hw. rewrite Z.add_0_l in Hw.
  rewrite Hw; [|intros ->; specialize (Hb eq_refl); lia|done|lia].
  pose proof (next_attr_run b (enc kvs) name v (enc kvs') name Hkv) as Hnext.
  rewrite decide_True in Hnext by done. destruct Hnext as (key & Hrun & Hk & Hh).
  { intros ->. specialize (Hb eq_refl). lia. }
  exists key. split; [|done]. cbn [walk]. rewrite (proj2 (Z.ltb_lt _ (size (enc kvs ++ q)))) by lia.
  destruct Hkv as [Hk1 Hk2 _ _ _]. simpl in *. destruct name as [|c name]; [done|].
  apply list.Forall_cons in Hk2 as [[Hk2 _] _].
  assert (Hc : byte (enc kvs ++ q) (size (enc kvs)) = Ret c) by (unfold q, pair; simpl; apply byte_at).
  rewrite Hc, (proj2 (Z.eqb_neq c 0) Hk2). unfold q. rewrite Hrun. done.
Qed.

(** * The loops end *)

Lemma skip_value_ge rest i e : skip_value rest i = Ret e -> i <= e.
Proof.
  revert i. induction rest as [|c rest IH]; intros i; simpl; [done|].
  destruct (c =? 0); [by intros [= <-]|]. intros He. apply IH in He. lia.
Qed.

Lemma copy_key_ge b rest i j key i' j' key' :
  copy_key b rest i j key = Ret (i', j', key') -> i <= i' /\ j' = j + (i' - i).
Proof.
  revert i j key. induction rest as [|c rest IH]; intros i j key; simpl; [done|].
  destruct (c =? EQ); [intros [= <- <- _]; lia|]. case_if; [|done]. intros Hc. apply IH in Hc. lia.
Qed.

(** Behind the key of an attribute the walk is past its first byte. *)
Lemma behind_attr b p c i i' j key n e :
  byte p i = Ret c -> c <> 0 -> 0 <= n ->
  copy_key b (from p i) i 0 zero_key = Ret (i', j, key) ->
  skip_value (from p (i' + n)) (i' + n) = Ret e -> 0 <= i -> i < e.
Proof.
  intros Hc Hz Hn Hk Hs Hi. pose proof (copy_key_ge _ _ _ _ _ _ _ _ Hk) as [Hge Hj].
  pose proof (skip_value_ge _ _ _ Hs). destruct (decide (i < i' + n)) as [|Hlt]; [lia|].
  assert (i' + n = i) as He by lia. rewrite He in Hs. unfold byte in Hc. unfold from in Hs.
  destruct (p !! Z.to_nat i) as [c'|] eqn:Hp; [|done]. injection Hc as ->.
  rewrite (drop_S _ _ _ Hp) in Hs. simpl in Hs. rewrite (proj2 (Z.eqb_neq _ _) Hz) in Hs. apply skip_value_ge in Hs. lia.
Qed.

Lemma next_attr_gt b p name c i e :
  byte p i = Ret c -> c <> 0 -> 0 <= i -> next_attr b p name i = Ret (Next e) -> i < e.
Proof.
  intros Hc Hz Hi. unfold next_attr. destruct (copy_key _ _ _ _ _) as [[[i' j] key]|] eqn:Hk; [|done].
  case_if; [done|]. case_decide; [done|].
  destruct (skip_value _ _) as [e'|] eqn:Hs; [|done]. intros [= <-].
  pose proof (copy_key_ge _ _ _ _ _ _ _ _ Hk) as [Hge Hj]. pose proof (size_nonneg (cstr (<[Z.to_nat (j + 1) := 0]> key))).
  apply (behind_attr b p c i i' j key _ _ Hc Hz) in Hs; [done| |done..]. destruct b; lia.
Qed.

Lemma walk_total fuel b p name len i : 0 <= i -> Z.max 0 (len - i) < Z.of_nat fuel -> walk fuel b p name len i <> Ret None.
Proof.
  revert i. induction fuel as [|fuel IH]; intros i Hi Hf; cbn [walk]; [lia|].
  case_if; [|done]. destruct (byte p i) as [c|] eqn:Hc; [|done]. destruct (Z.eqb_spec c 0) as [|Hz]; [apply IH; lia|].
  destruct (next_attr b p name i) as [[i' pos key|i']|] eqn:Hn; [done| |done].
  eapply next_attr_gt in Hn; [|done..]. apply IH; lia.
Qed.

Lemma list_walk_total fuel p len i copied out :
  0 <= i -> Z.max 0 (len - i) < Z.of_nat fuel -> list_walk fuel p len i copied out <> Ret None.
Proof.
  revert i copied out. induction fuel as [|fuel IH]; intros i copied out Hi Hf; cbn [list_walk]; [lia|].
  case_if; [|done]. destruct (byte p i) as [c|] eqn:Hc; [|done]. cbn [obind].
  destruct (Z.eqb_spec c 0) as [|Hz]; [apply IH; lia|].
  destruct (copy_key true (from p i) i 0 zero_key) as [[[i' j] key]|] eqn:Hk; [|done]. cbn [obind].
  pose proof (copy_key_ge _ _ _ _ _ _ _ _ Hk) as [Hge Hj].
  case_if; [done|]. case_if; [|done]. destruct (store _ _ out) as [out'|]; [|done]. cbn [obind].
  destruct (skip_value (from p (i' + j)) (i' + j)) as [e|] eqn:Hs; [|done]. cbn [obind].
  apply (behind_attr true p c i i' j key _ _ Hc Hz) in Hs; [apply IH; lia|lia|done..].
Qed.

(** * What is found and what is changed *)

Lemma pair_not_nil pre kv : pre ++ pair kv <> [].
Proof. unfold pair. destruct pre, kv.1; done. Qed.

Lemma miss_behind pre kvs name : pre <> [] -> name <> [] -> all_miss true pre kvs name.
Proof.
  revert pre. induction kvs as [|[k v] kvs IH]; intros pre Hp Hn; simpl; [done|]. split.
  - unfold seen. by rewrite bool_decide_eq_false_2.
  - apply IH; [apply pair_not_nil|done].
Qed.

Lemma seen_first b k : seen b [] k = k.
Proof. unfold seen. rewrite bool_decide_eq_true_2 by done. by rewrite andb_false_r. Qed.

Lemma miss_by_pos kvs name : name <> [] -> fst <$> head kvs <> Some name -> all_miss true [] kvs name.
Proof.
  intros Hn Hh. destruct kvs as [|[k v] kvs]; simpl in *; [done|]. split; [rewrite seen_first; congruence|].
  apply miss_behind; [|done]. apply (pair_not_nil [] (k, v)).
Qed.

Lemma miss_by_start pre kvs name : Forall (fun kv => kv.1 <> name) kvs -> all_miss false pre kvs name.
Proof. intros Hf. revert pre. induction Hf as [|[k v] kvs Hk _ IH]; intros pre; simpl; auto. Qed.

Lemma store_run a b c x : size x = size b -> store (size a) x (a ++ b ++ c) = Ret (a ++ x ++ c).
Proof.
  intros Hx. pose proof (size_nonneg a). pose proof (size_nonneg b). pose proof (size_nonneg c).
  unfold store, opure, write_at. rewrite !size_app, Hx.
  rewrite (proj2 (Z.leb_le 0 _)), (proj2 (Z.leb_le (_ + _) _)) by lia. simpl.
  unfold size in *. rewrite Nat2Z.id, take_app_length. do 2 f_equal. rewrite app_assoc, drop_app_ge.
  - rewrite length_app. replace (Z.to_nat _ - _)%nat with 0%nat by lia. by rewrite drop_0.
  - rewrite length_app. lia.
Qed.

Lemma store_nil a c : store (size a) [] (a ++ c) = Ret (a ++ c).
Proof. exact (store_run a [] c [] eq_refl). Qed.

Lemma move_out dst src n p : 0 <= n -> size p < src + n -> move dst src n p = Fault OutOfBounds.
Proof. intros H1 H2. unfold move, opure, cbind. by rewrite read_at_out. Qed.

Lemma move_front q n p : 0 <= q -> 0 <= n -> q + n = size p -> move 0 q n p = Ret (from p q ++ from p n).
Proof.
  intros Hq Hn Hs. unfold move, opure, cbind. rewrite read_at_run by lia.
  assert (Hx : sub q n p = from p q) by (unfold sub, from, size in *; rewrite take_ge; [done|rewrite length_drop; lia]).
  assert (Hl : size (from p q) = n) by (unfold from, size in *; rewrite length_drop; lia).
  rewrite Hx. unfold write_at. rewrite Hl, (proj2 (Z.leb_le (0 + n) _)) by lia. done.
Qed.

Lemma copy_value_run a rest room :
  Forall (fun c => c <> 0) a -> copy_value (a ++ 0 :: rest) room = Ret (take room a).
Proof.
  intros Ha. revert room. induction Ha as [|c a Hc _ IH]; intros room; simpl; [by rewrite take_nil|].
  rewrite (proj2 (Z.eqb_neq c 0) Hc). destruct room as [|room]; [done|]. by rewrite IH.
Qed.

Lemma enc_split k v kvs : enc ((k, v) :: kvs) = (k ++ [EQ]) ++ v ++ 0 :: enc kvs.
Proof. rewrite enc_cons. unfold pair. simpl. by rewrite <- !app_assoc, <- app_comm_cons, <- app_assoc. Qed.

(** Replacing the value of the first attribute. *)
Lemma replace_at_run k v kvs value realloc_ok :
  let p := enc ((k, v) :: kvs) in
  attr_ok (k, v) -> size p < 2 ^ 31 -> size value < 2 ^ 31 -> realloc_ok = true ->
  replace_at (mkX (Some p) (size p)) p (size k) value (size value) realloc_ok
  = if size value =? size v then Ret (Some (mkX (Some (enc ((k, value) :: kvs))) (size p))) else Fault OutOfBounds.
Proof.
  intros p [_ _ H3 _ _] Hp Hv ->. simpl in *. unfold replace_at. cbn [x_len negb].
  pose proof (enc_split k v kvs : p = _) as Hsplit.
  assert (Hk : size k + 1 = size (k ++ [EQ])) by (rewrite size_app; done).
  rewrite Hk, Hsplit, from_size, skip_value_run by done. cbn [obind].
  replace (size (k ++ [EQ]) + size v - size (k ++ [EQ])) with (size v) by lia.
  rewrite <- Hsplit. pose proof (size_nonneg v). pose proof (size_nonneg value). pose proof (size_nonneg k).
  pose proof (size_nonneg (enc kvs)).
  assert (Hps : size p = size k + 1 + size v + 1 + size (enc kvs))
    by (rewrite Hsplit, !size_app, !size_cons; change (size []) with 0; lia).
  unfold opure at 1. rewrite read_at_run by lia. rewrite sub_all. cbn [obind].
  destruct (Z.eqb_spec (size value) (size v)) as [He|He].
  - rewrite (proj2 (Z.ltb_ge _ (size v))) by lia. rewrite Hsplit, store_run by done. cbn [obind]. by rewrite enc_split.
  - assert (Hu : uwrap 64 (size p - (size v - size value)) = size p - (size v - size value))
      by (apply uwrap_small; lia).
    destruct (Z.ltb_spec (size value) (size v)) as [Hlt|Hge].
    + assert (Hst : exists q, store (size (k ++ [EQ])) value p = Ret q /\ size q = size p).
      { set (n := Z.to_nat (size value)).
        assert (Hq : p = (k ++ [EQ]) ++ take n v ++ (drop n v ++ 0 :: enc kvs))
          by (rewrite Hsplit; f_equal; by rewrite app_assoc, take_drop).
        assert (Hn : size value = size (take n v)) by (unfold n, size in *; rewrite length_take; lia).
        rewrite Hq. eexists. split; [by apply store_run|]. rewrite !size_app. lia. }
      destruct Hst as (q & -> & Hq). cbn [obind]. rewrite Hu, move_out; [done|lia|lia].
    + assert (Hg : size (grow p (size p + (size value - size v))) = size p + (size value - size v)).
      { unfold grow. rewrite size_app. unfold size in *. rewrite length_take, length_replicate. lia. }
      rewrite Hu, move_out; [done|lia|lia].
Qed.

(** Appending: the name is not copied. *)
Lemma append_at_run p name v :
  Forall (fun c => c <> 0) v -> size name <= MAX_KEY_LEN ->
  append_at (mkX (Some p) (size p)) name (v ++ [0]) (size v + 1) true
  = Ret (Some (mkX (Some (p ++ [EQ] ++ (v ++ [0]) ++ [0])) (size p + 0 + 1 + (size v + 1)))).
Proof.
  intros Hv Hn. unfold append_at. rewrite (proj2 (Z.ltb_ge MAX_KEY_LEN _)) by lia. cbn [x_len x_ptr negb].
  change (default [] (Some p)) with p. pose proof (size_nonneg p). pose proof (size_nonneg v).
  assert (Hg : grow p (size p + 0 + (size v + 1) + 1 + 1) = p ++ [0] ++ replicate (length v + 1) 0 ++ [0]).
  { unfold grow, size in *. rewrite take_ge by lia. f_equal.
    replace (Z.to_nat _ - length p)%nat with (1 + (length v + 1) + 1)%nat by lia.
    rewrite !replicate_add. by rewrite <- app_assoc. }
  rewrite Hg. change (take (Z.to_nat 0) name) with (@nil Z).
  rewrite store_nil. cbn [obind]. rewrite Z.add_0_r.
  rewrite (store_run p [0]) by done. cbn [obind].
  assert (Hs : exists n, strlen (v ++ [0]) = Some n).
  { clear - Hv. induction Hv as [|c v Hc _ [n IH]]; simpl; [eauto|].
    rewrite (proj2 (Z.eqb_neq c 0) Hc), IH. simpl. eauto. }
  destruct Hs as [n ->].
  assert (Hc : cstr (v ++ [0]) = v) by (apply (cstr_app_zeros v 1 Hv)). rewrite Hc.
  replace (size p + 1) with (size (p ++ [EQ])) by (rewrite size_app; done). rewrite (app_assoc p [EQ]).
  rewrite (store_run (p ++ [EQ])).
  - cbn [obind]. by rewrite !app_assoc.
  - unfold size. rewrite length_app, length_replicate. simpl. lia.
Qed.

Lemma lookup_unnamed kvs v name :
  Forall attr_ok kvs -> size (enc kvs) <= MAX_KEY_LEN -> Forall (fun c => c <> 0) v ->
  name <> [] -> fst <$> head kvs <> Some name ->
  let p := enc kvs ++ [EQ] ++ (v ++ [0]) ++ [0] in
  exists i, lookup_attr true (mkX (Some p) (size (enc kvs) + 0 + 1 + (size v + 1))) name = Ret (Some (Next i)).
Proof.
  intros Hok Hs Hv Hn Hh p. pose proof (size_nonneg v). pose proof (size_nonneg (enc kvs)).
  assert (Hfuel : exists n, walk_fuel (size (enc kvs) + 0 + 1 + (size v + 1)) = (2 * length kvs + S (S (S n)))%nat).
  { destruct (walk_fuel_enough kvs [] Hok) as [n Hf]. rewrite app_nil_r in Hf. unfold walk_fuel in *.
    exists (n + Z.to_nat (size v))%nat. lia. }
  destruct Hfuel as [n Hf]. unfold lookup_attr. cbn [x_ptr x_len]. rewrite Hf.
  set (len := size (enc kvs) + 0 + 1 + (size v + 1)).
  pose proof (walk_skip true kvs [] ([EQ] ++ (v ++ [0]) ++ [0]) name len (S (S (S n))) Hok) as Hw.
  rewrite app_nil_l in Hw. change (size []) with 0 in Hw. rewrite Z.add_0_l in Hw. fold p in Hw.
  rewrite Hw; [|done|by apply miss_by_pos|unfold len; lia].
  cbn [walk]. rewrite (proj2 (Z.ltb_lt _ len)) by (unfold len; lia). unfold p at 1.
  change (enc kvs ++ [EQ] ++ (v ++ [0]) ++ [0]) with (enc kvs ++ EQ :: (v ++ [0]) ++ [0]) at 1.
  rewrite byte_at. change (EQ =? 0) with false. cbn iota.
  assert (Hnext : next_attr true p name (size (enc kvs)) = Ret (Next (size (enc kvs) + (1 + size v)))).
  { unfold next_attr, p. rewrite from_size. simpl copy_key. change (EQ =? EQ) with true. cbn iota.
    change (MAX_KEY_LEN <=? 0 + 1) with false. cbn iota.
    assert (cstr (<[Z.to_nat (0 + 1) := 0]> zero_key) = []) as -> by done.
    rewrite decide_False by congruence. rewrite Z.add_0_r, from_size.
    change ([EQ] ++ (v ++ [0]) ++ [0]) with (EQ :: (v ++ [0]) ++ [0]). rewrite <- app_assoc. simpl app.
    rewrite app_comm_cons, skip_value_run by (by constructor). by rewrite size_cons. }
  rewrite Hnext. rewrite (proj2 (Z.ltb_lt _ len)) by (unfold len; lia).
  assert (Hz : byte p (size (enc kvs) + (1 + size v)) = Ret 0).
  { unfold p. replace (enc kvs ++ [EQ] ++ (v ++ [0]) ++ [0]) with ((enc kvs ++ EQ :: v) ++ 0 :: [0])
      by (by rewrite <- !app_assoc). replace (_ + _) with (size (enc kvs ++ EQ :: v)) by (by rewrite size_app, size_cons).
    apply byte_at. }
  rewrite Hz. cbn [Z.eqb]. rewrite (proj2 (Z.ltb_ge _ len)) by (unfold len; lia). eauto.
Qed.

(** Removing: what becomes of the array. *)
Lemma xattr_remove_run kvs1 name v kvs2 :
  let p := enc (kvs1 ++ (name, v) :: kvs2) in
  let n := size p - size (pair (name, v)) in
  Forall attr_ok (kvs1 ++ (name, v) :: kvs2) -> Forall (fun kv => kv.1 <> name) kvs1 -> size p < 2 ^ 31 ->
  xattr_remove (mkX (Some p) (size p)) name
  = if bool_decide (kvs2 = []) then Ret (Some (inr (n, mkX (Some p) (size p))))
    else if bool_decide (kvs1 = [] \/ head name = head p) then
      Ret (Some (inr (n, mkX (Some (from p (size (pair (name, v))) ++ from p n)) (size p))))
    else Fault OutOfBounds.
Proof.
  intros p n Hok Hm Hp. unfold xattr_remove. cbn [x_ptr x_len orb].
  assert (Hsplit : p = (enc kvs1 ++ name ++ [EQ]) ++ v ++ 0 :: enc kvs2).
  { unfold p. rewrite enc_app, enc_split. by rewrite !app_assoc. }
  pose proof (size_nonneg (enc kvs1)). pose proof (size_nonneg (enc kvs2)).
  pose proof (size_nonneg name). pose proof (size_nonneg v).
  assert (Hps : size p = size (enc kvs1) + (size name + 1 + size v + 1) + size (enc kvs2))
    by (rewrite Hsplit, !size_app, !size_cons; change (size []) with 0; lia).
  rewrite (proj2 (Z.leb_gt (size p) 0)) by lia. rewrite andb_false_r.
  destruct (lookup_hit false kvs1 name v kvs2 Hok) as (key & Hl & Hk & Hhead);
    [done|by apply miss_by_start|done|]. fold p in Hl. rewrite Hl. cbn [obind].
  change (default [] (Some p)) with p.
  specialize (Hhead eq_refl). rewrite Hk.
  assert (Hi : size (enc kvs1) + size name + 1 = size (enc kvs1 ++ name ++ [EQ]))
    by (rewrite !size_app; change (size [EQ]) with 1; lia).
  rewrite Hi. rewrite Hsplit at 1. apply Forall_app in Hok as [Hok1 [Hkv Hok2]%list.Forall_cons].
  rewrite from_size, skip_value_run by apply Hkv. cbn [obind]. rewrite <- Hi.
  replace (size (enc kvs1) + size name + 1 + size v - (size (enc kvs1) + size name + 1)) with (size v) by lia.
  rewrite <- size_pair. fold n.
  assert (Hend : (size (enc kvs1) + size name + 1 + size v =? size p - 1) = bool_decide (kvs2 = [])).
  { case_bool_decide as He; [subst; change (size (enc [])) with 0 in *; apply Z.eqb_eq; lia|].
    apply Z.eqb_neq. destruct kvs2 as [|[k' v'] kvs2]; [done|]. rewrite enc_cons, size_app, size_pair in Hps.
    pose proof (size_nonneg k'). pose proof (size_nonneg v'). pose proof (size_nonneg (enc kvs2)). lia. }
  rewrite Hend. case_bool_decide; [done|].
  pose proof (attr_name _ Hkv) as Hne. simpl in Hne.
  destruct name as [|c0 name]; [done|]. simpl in Hhead.
  rewrite Hhead. change (default 0 (Some c0)) with c0.
  assert (Hp0 : exists c1, byte p 0 = Ret c1 /\ head p = Some c1 /\ (kvs1 = [] -> c1 = c0)).
  { unfold p. destruct kvs1 as [|[k1 v1] kvs1]; [by exists c0|].
    apply list.Forall_cons in Hok1 as [Hkv1 _]. pose proof (attr_name _ Hkv1) as Hne1.
    destruct k1 as [|c1 k1]; [done|].
    by exists c1. }
  destruct Hp0 as (c1 & -> & Hh1 & Hc1). cbn [obind].
  assert (Hcond : bool_decide (kvs1 = [] \/ head (c0 :: name) = head p) = (c0 =? c1)).
  { rewrite Hh1. destruct (Z.eqb_spec c0 c1) as [->|Hne']; [apply bool_decide_eq_true; by right|].
    apply bool_decide_eq_false. intros [He|[= He]]; [by rewrite Hc1 in Hne'|done]. }
  rewrite Hcond, size_pair in *. unfold n in *.
  assert (Hu : uwrap 64 (size p - size (pair (c0 :: name, v))) = size p - size (pair (c0 :: name, v)))
    by (apply uwrap_small; rewrite size_pair; lia).
  rewrite Hu. rewrite size_pair. destruct (Z.eqb_spec c0 c1) as [Heq|Hneq].
  - rewrite Z.add_0_l, move_front by lia. done.
  - rewrite move_out; [done|lia|].
    destruct kvs1 as [|[k1 v1] kvs1]; [by rewrite Hc1 in Hneq|].
    rewrite enc_cons, size_app, size_pair in *. pose proof (size_nonneg k1). pose proof (size_nonneg v1).
    pose proof (size_nonneg (enc kvs1)). lia.
Qed.

(** * The lock of the inode *)

(** None of the operations on the array waits. *)
Definition oquiet {A} (o : outcome A) : Prop := o <> Fault Deadlock.

Lemma oquiet_bind {A B} (o : outcome A) (k : A -> outcome B) : oquiet o -> (forall a, oquiet (k a)) -> oquiet (obind o k).
Proof. unfold oquiet. intros Ho Hk. destruct o; simpl; [apply Hk|congruence]. Qed.
Lemma oquiet_ret {A} (a : A) : oquiet (Ret a).
Proof. done. Qed.
Lemma oquiet_fault {A} f : f <> Deadlock -> oquiet (Fault f : outcome A).
Proof. intros Hf [= H]. done. Qed.
Lemma oquiet_pure {A} (c : cprog unit A) : quiet c -> oquiet (opure c).
Proof. intros Hc. unfold oquiet, opure. specialize (Hc tt). destruct (c tt) as [[? ?]|]; [done|congruence]. Qed.
#[local] Hint Resolve oquiet_bind oquiet_ret oquiet_pure quiet_read_at quiet_write_at : quiet.
#[local] Hint Extern 1 (oquiet (Fault _)) => (apply oquiet_fault; discriminate) : quiet.
#[local] Hint Extern 2 (oquiet (match ?x with _ => _ end)) => (destruct x) : quiet.

Lemma byte_quiet p i : oquiet (byte p i).
Proof. unfold byte. eauto with quiet. Qed.
Lemma skip_quiet rest i : oquiet (skip_value rest i).
Proof. revert i. induction rest; intros; simpl; eauto with quiet. Qed.
Lemma copy_key_quiet b rest i j key : oquiet (copy_key b rest i j key).
Proof. revert i j key. induction rest; intros; simpl; eauto with quiet. Qed.
Lemma store_quiet dst x p : oquiet (store dst x p).
Proof. unfold store. eauto with quiet. Qed.
Lemma move_quiet dst src n p : oquiet (move dst src n p).
Proof. unfold move. eauto with quiet. Qed.
Lemma copy_value_quiet rest room : oquiet (copy_value rest room).
Proof. revert room. induction rest; intros; simpl; eauto 6 with quiet. Qed.
#[local] Hint Resolve byte_quiet skip_quiet copy_key_quiet store_quiet move_quiet copy_value_quiet : quiet.

Lemma next_attr_quiet b p name i : oquiet (next_attr b p name i).
Proof.
  unfold next_attr. pose proof (copy_key_quiet b (from p i) i 0 zero_key) as Hk.
  destruct (copy_key _ _ _ _ _) as [[[i' j] key]|]; [|unfold oquiet in *; congruence].
  case_if; [eauto with quiet|]. case_decide; [done|].
  match goal with |- context [skip_value ?r ?i] => pose proof (skip_quiet r i) as Hs; destruct (skip_value r i) end;
    [done|unfold oquiet in *; congruence].
Qed.

Lemma walk_quiet fuel b p name len i : oquiet (walk fuel b p name len i).
Proof.
  revert i. induction fuel as [|fuel IH]; intros i; cbn [walk]; [done|]. case_if; [|done].
  pose proof (byte_quiet p i) as Hb. destruct (byte p i) as [c|]; [|unfold oquiet in *; congruence]. case_if; [done|].
  pose proof (next_attr_quiet b p name i) as Hn.
  destruct (next_attr b p name i) as [[]|]; [done|done|unfold oquiet in *; congruence].
Qed.

Lemma list_walk_quiet fuel p len i copied out : oquiet (list_walk fuel p len i copied out).
Proof.
  revert i copied out. induction fuel as [|fuel IH]; intros; cbn [list_walk]; [done|].
  case_if; [|done]. apply oquiet_bind; [eauto with quiet|]. intros c. case_if; [done|].
  apply oquiet_bind; [eauto with quiet|]. intros [[i' j] key]. case_if; [eauto with quiet|]. case_if; eauto 8 with quiet.
Qed.

Lemma lookup_attr_quiet b x name : oquiet (lookup_attr b x name) /\ lookup_attr b x name <> Ret None.
Proof.
  unfold lookup_attr, walk_fuel. destruct (x_ptr x); [split; [apply walk_quiet|apply walk_total; lia]|].
  case_if; (split; [eauto with quiet|done]).
Qed.

Lemma xattr_remove_quiet x name : oquiet (xattr_remove x name) /\ xattr_remove x name <> Ret None.
Proof.
  unfold xattr_remove. case_if; [done|]. destruct (lookup_attr_quiet false x name) as [H1 H2].
  destruct (lookup_attr false x name) as [[[i pos key|]|]|]; simpl; try done; [|unfold oquiet in *; split; congruence].
  split; [eauto 10 with quiet|].
  destruct (skip_value _ _); simpl; [|done]. case_if; [done|]. destruct (byte _ 0); simpl; [|done].
  by destruct (move _ _ _ _).
Qed.

Section Locks.
Context {T : Type} `{KeyTreeLaws T} {D : Type} `{InodeDb D} (moves : bool) (ptr after : list Z).
Abbreviation prog := (cprog (@xstate T D)).

(** From the locks [m] to the locks [m'], or a fault other than waiting. *)
Definition locks_to (m' : gmap Z LockTree.mode) {A} (o : outcome (A * @xstate T D)) : Prop :=
  match o with
  | Ret (_, s') => LockTree.rep (lt s') m'
  | Fault f => f <> Deadlock
  end.

Definition keeps {A} (c : prog A) : Prop := forall s m, LockTree.rep (lt s) m -> locks_to m (c s).
Definition releases (n : Z) {A} (c : prog A) : Prop :=
  forall s m, LockTree.rep (lt s) m -> is_Some (m !! n) -> locks_to (delete n m) (c s).

Lemma keeps_ret {A} (a : A) : keeps (cret a).
Proof. by intros s m Hr. Qed.
Lemma keeps_bind {A B} (c : prog A) (k : A -> prog B) : keeps c -> (forall a, keeps (k a)) -> keeps (cbind c k).
Proof.
  intros Hc Hk s m Hr. unfold cbind. specialize (Hc s m Hr). destruct (c s) as [[a s']|]; [|done]. by apply Hk.
Qed.
Lemma keeps_errno e : keeps (put_errno e).
Proof. intros s m []. by split. Qed.
Lemma keeps_db {A} (c : cprog (@db_state D) A) : quiet c -> keeps (on_db c).
Proof.
  intros Hc s m Hr. unfold on_db. specialize (Hc (ds s)). destruct (c (ds s)) as [[a d]|f]; [done|]. simpl. congruence.
Qed.
Lemma keeps_out {A} (o : outcome A) : oquiet o -> keeps (of_out o).
Proof. intros Ho s m Hr. unfold oquiet in Ho. destruct o; simpl; [done|congruence]. Qed.
Lemma keeps_loop {A} (o : outcome (option A)) : oquiet o -> o <> Ret None -> keeps (of_loop o).
Proof. intros Ho Hn s m Hr. unfold oquiet in Ho. destruct o as [[|]|]; simpl; [done..|congruence]. Qed.
Lemma keeps_expect {A} f (o : option A) : f <> Deadlock -> keeps (cexpect f o).
Proof. intros Hf s m Hr. by destruct o. Qed.

Create HintDb keeps.
#[local] Hint Resolve keeps_ret keeps_bind keeps_errno keeps_db keeps_out keeps_loop put_inode_quiet get_inode_quiet : keeps.
#[local] Hint Extern 1 (keeps (cexpect _ _)) => (apply keeps_expect; discriminate) : keeps.
#[local] Hint Extern 2 (keeps (match ?x with _ => _ end)) => (destruct x) : keeps.

Lemma lookup_keeps b x name : keeps (of_loop (lookup_attr b x name)).
Proof. apply keeps_loop; apply lookup_attr_quiet. Qed.
#[local] Hint Resolve lookup_keeps : keeps.

Lemma exists_keeps ino name : keeps (xattr_exists ino name).
Proof. unfold xattr_exists. eauto 10 with keeps. Qed.
Lemma store_xattrs_keeps ino x : keeps (store_xattrs moves after ino x).
Proof. unfold store_xattrs. eauto 10 with keeps. Qed.
#[local] Hint Resolve exists_keeps store_xattrs_keeps : keeps.

Lemma replace_at_quiet x p i value len ok : oquiet (replace_at x p i value len ok).
Proof. unfold replace_at. eauto 20 with quiet. Qed.
Lemma append_at_quiet x name value len ok : oquiet (append_at x name value len ok).
Proof. unfold append_at. eauto 20 with quiet. Qed.
#[local] Hint Resolve replace_at_quiet append_at_quiet : keeps.

Lemma replace_keeps ino name value len ok : keeps (replace_xattr moves after ino name value len ok).
Proof. unfold replace_xattr. eauto 10 with keeps. Qed.
Lemma append_keeps ino name value len ok : keeps (append_xattr moves after ino name value len ok).
Proof. unfold append_xattr. eauto 10 with keeps. Qed.
#[local] Hint Resolve replace_keeps append_keeps : keeps.

(** Releasing. *)
Lemma finish_releases {A} n (r : A) : 0 <= n -> releases n (finish n r).
Proof.
  intros Hn s m Hr [md Hm]. unfold finish, cbind, on_locks.
  pose proof (LockTree.lop_refines (lt s) m (LockTree.Unlock n) Hr) as Hu. simpl in Hu. rewrite Hm in Hu.
  destruct Hu as (l & -> & _ & Hr' & _); [split; [done|by left]|]. done.
Qed.
Lemma releases_bind {A B} n (c : prog A) (k : A -> prog B) :
  keeps c -> (forall a, releases n (k a)) -> releases n (cbind c k).
Proof.
  intros Hc Hk s m Hr Hm. unfold cbind. specialize (Hc s m Hr). destruct (c s) as [[a s']|]; [|done]. by apply Hk.
Qed.
#[local] Hint Resolve finish_releases releases_bind : keeps.
#[local] Hint Extern 2 (releases _ (match ?x with _ => _ end)) => (destruct x) : keeps.

(** A body that ends in [finish] on every branch. *)
Ltac release :=
  cbv zeta;
  repeat first
    [ apply finish_releases; done
    | apply releases_bind; [solve [eauto with keeps]|intros ?]
    | match goal with |- releases _ (if ?b then _ else _) => destruct b end ].

(** A lock that is free is taken or not. *)
Lemma take_lock_run w c (s : @xstate T D) m i :
  LockTree.rep (lt s) m -> 0 <= i -> m !! i = None -> (lock_mem c = 0 \/ LockTree.locks (lt s) !! lock_mem c = None) ->
  exists r l, LockTree.run_lop (LockTree.take_op w (lock_mem c) i) (lt s) = Ret (r, l) /\
    LockTree.rep l (if r =? -1 then m else <[i := w]> m).
Proof.
  intros Hr Hi Hm Hmem.
  pose proof (LockTree.lop_refines (lt s) m (LockTree.take_op w (lock_mem c) i) Hr) as Hl.
  assert (Hlegal : LockTree.legal_lop (lt s) (LockTree.take_op w (lock_mem c) i)) by (by destruct w).
  specialize (Hl Hlegal). destruct w; simpl in Hl; unfold LockTree.spec_take in Hl; rewrite Hm in Hl;
    destruct (lock_mem c =? 0); destruct Hl as (l & Hrun & _ & Hrep & _); eexists _, l; (split; [exact Hrun|exact Hrep]).
Qed.

Lemma fail_keeps {A} e (fail : A) : keeps (put_errno e ;;; cret fail)%cprog.
Proof. eauto with keeps. Qed.

Lemma with_inode_locks {A} w (fail : A) c lock body (s : @xstate T D) m :
  (forall i, lock i = LockTree.run_lop (LockTree.take_op w (lock_mem c) i)) ->
  (forall n ino, 0 <= n -> releases n (body n ino)) -> LockTree.rep (lt s) m ->
  (forall i, inodestr c = Some i -> 0 <= i /\ m !! i = None) ->
  (lock_mem c = 0 \/ LockTree.locks (lt s) !! lock_mem c = None) ->
  locks_to m (with_inode ptr fail c lock body s).
Proof.
  intros Hlock Hbody Hr Hi Hmem. unfold with_inode. destruct (inodestr c) as [i|]; [|by apply fail_keeps].
  destruct (Hi i eq_refl) as [Hi0 Hfree]. unfold cbind at 1, on_locks at 1. rewrite Hlock.
  destruct (take_lock_run w c s m i Hr Hi0 Hfree Hmem) as (r & l & -> & Hl).
  destruct (r =? -1); [by apply fail_keeps|].
  rewrite <- (delete_insert_id m i w Hfree). apply releases_bind; [eauto with keeps| |done|by rewrite lookup_insert_eq].
  intros x. case_if; [by apply Hbody|]. apply releases_bind; [eauto with keeps|]. intros _.
  exact (finish_releases i fail Hi0).
Qed.

(** The calls of the handlers. *)
Inductive xop : Type :=
  | SetX (c : call) (path_ok : bool) (name value : option (list Z)) (len flags junk_size : Z)
  | GetX (c : call) (path_ok is_dot : bool) (name : option (list Z)) (value_ok : bool) (size : Z)
  | ListX (c : call) (path_ok : bool) (out : option (list Z))
  | RemoveX (c : call) (path_ok : bool) (name : option (list Z)).

Definition xop_call (o : xop) : call :=
  match o with
  | SetX c _ _ _ _ _ _ => c
  | GetX c _ _ _ _ _ => c
  | ListX c _ _ => c
  | RemoveX c _ _ => c
  end.

Definition run_xop (o : xop) : prog Z :=
  match o with
  | SetX c path_ok name value len flags junk => sfs_setxattr moves ptr after c path_ok name value len flags junk
  | GetX c path_ok is_dot name value_ok size =>
      (let! r := sfs_getxattr ptr c path_ok is_dot name value_ok size in cret r.1)%cprog
  | ListX c path_ok out => (let! r := sfs_listxattr ptr c path_ok out in cret r.1)%cprog
  | RemoveX c path_ok name => sfs_removexattr moves ptr after c path_ok name
  end.

Lemma fst_locks {A} m (c : prog (Z * A)) s : locks_to m (c s) -> locks_to m ((let! r := c in cret r.1)%cprog s).
Proof. unfold cbind. destruct (c s) as [[a s']|]; done. Qed.

Lemma xop_locks o s m :
  LockTree.rep (lt s) m -> (forall i, inodestr (xop_call o) = Some i -> 0 <= i /\ m !! i = None) ->
  (lock_mem (xop_call o) = 0 \/ LockTree.locks (lt s) !! lock_mem (xop_call o) = None) ->
  locks_to m (run_xop o s).
Proof.
  intros Hr Hi Hm.
  destruct o as [c pok name value len flags junk|c pok dot name vok sz|c pok out|c pok name]; simpl in *;
    try apply fst_locks.
  - unfold sfs_setxattr. case_if; [by apply fail_keeps|].
    apply (with_inode_locks LockTree.Rd); [done| |done..]. intros n ino Hn. release.
  - unfold sfs_getxattr. destruct name as [name|]; [|done]. case_if; [by apply keeps_ret|].
    case_if; [by apply fail_keeps|]. case_if; [by apply keeps_ret|].
    apply (with_inode_locks LockTree.Rd); [done| |done..]. intros n ino Hn.
    apply releases_bind; [eauto with keeps|]. intros []; [|eauto with keeps].
    apply releases_bind; [apply keeps_out, copy_value_quiet|]. eauto with keeps.
  - unfold sfs_listxattr. destruct out as [out|]; [|by apply fail_keeps]. case_if; [by apply fail_keeps|].
    apply (with_inode_locks LockTree.Rd); [done| |done..]. intros n ino Hn.
    apply releases_bind; [|eauto with keeps]. apply keeps_loop.
    + destruct (x_ptr _); [apply list_walk_quiet|]. case_if; [done|eauto with quiet].
    + destruct (x_ptr _); [|by case_if]. apply list_walk_total; unfold walk_fuel; lia.
  - unfold sfs_removexattr. destruct name as [name|]; [|done]. case_if; [by apply keeps_ret|].
    case_if; [by apply fail_keeps|].
    apply (with_inode_locks LockTree.Wr); [done| |done..]. intros n ino Hn.
    apply releases_bind; [apply keeps_loop; apply xattr_remove_quiet|]. intros [|[]]; release.
Qed.
End Locks.

(** * Properties *)

(** C35. The loops over the attributes end for every array and every length: no
    name, no missing separator makes a handler run for ever. *)
Theorem xattr_loops_end :
  (forall b x name, lookup_attr b x name <> Ret None) /\
  (forall p len out, list_walk (walk_fuel len) p len 0 0 out <> Ret None).
Proof.
  split; [intros; apply lookup_attr_quiet|]. intros. apply list_walk_total; unfold walk_fuel; lia.
Qed.

(** C21. An extended attribute handler that is called for an unlocked inode leaves
    the locks of all inodes as they were, whichever way it returns, and never
    waits for ever. *)
Theorem xattr_ops_release_lock {T} `{KeyTreeLaws T} {D} `{InodeDb D} moves ptr after o (s : @xstate T D) m :
  LockTree.rep (lt s) m -> (forall i, inodestr (xop_call o) = Some i -> 0 <= i /\ m !! i = None) ->
  (lock_mem (xop_call o) = 0 \/ LockTree.locks (lt s) !! lock_mem (xop_call o) = None) ->
  match run_xop moves ptr after o s with
  | Ret (_, s') => LockTree.rep (lt s') m
  | Fault f => f <> Deadlock
  end.
Proof. apply xop_locks. Qed.

(** [xattr_exists] compares a name with the first attribute only: it answers
    1 for the name of the first attribute and -1 for every other name. *)
Theorem only_first_attr_found {T} `{KeyTree T} {D} `{InodeDb D} ino kvs name (s : @xstate T D) :
  kvs <> [] -> Forall attr_ok kvs -> size (enc kvs) <= MAX_KEY_LEN -> name <> [] ->
  get_xattrs ino = mkX (Some (enc kvs)) (size (enc kvs)) ->
  xattr_exists ino name s = Ret (if decide (fst <$> head kvs = Some name) then 1 else -1, s).
Proof.
  intros Hne Hok Hs Hn Hx. unfold xattr_exists. rewrite Hx. cbn [x_ptr x_len orb].
  destruct kvs as [|[k v] kvs]; [done|]. pose proof (enc_split k v kvs) as Hsplit.
  assert (0 < size (enc ((k, v) :: kvs))) as Hpos.
  { rewrite Hsplit, !size_app. pose proof (size_nonneg k). pose proof (size_nonneg v).
    pose proof (size_nonneg (0 :: enc kvs)). change (size [EQ]) with 1. lia. }
  rewrite (proj2 (Z.eqb_neq _ 0)) by lia. unfold cbind. case_decide as Hd.
  - simpl in Hd. injection Hd as ->.
    destruct (lookup_hit true [] name v kvs Hok) as (key & Hl & _); [done|done|apply seen_first|].
    cbn [app] in Hl. by rewrite Hl.
  - rewrite (lookup_miss true) by (done || by apply miss_by_pos). done.
Qed.

(** [append_xattr] stores the value without the name: of a name of at most
    128 bytes nothing is copied, and the new attribute is not found again. *)
Theorem append_forgets_name kvs name v :
  Forall attr_ok kvs -> size (enc kvs) <= MAX_KEY_LEN -> Forall (fun c => c <> 0) v ->
  name <> [] -> size name <= MAX_KEY_LEN -> fst <$> head kvs <> Some name ->
  exists x i, append_at (mkX (Some (enc kvs)) (size (enc kvs))) name (v ++ [0]) (size v + 1) true = Ret (Some x) /\
    x_ptr x = Some (enc kvs ++ [EQ] ++ (v ++ [0]) ++ [0]) /\
    lookup_attr true x name = Ret (Some (Next i)).
Proof.
  intros Hok Hs Hv Hn Hnl Hh. destruct (lookup_unnamed kvs v name Hok Hs Hv Hn Hh) as [i Hi].
  eexists _, i. split; [by apply append_at_run|]. done.
Qed.

(** Replacing the value of the (first) attribute works for a value of the same
    size; for a shorter or a longer one the move of the rest of the array
    leaves it. *)
Theorem replace_same_size_only k v kvs value :
  attr_ok (k, v) -> size (enc ((k, v) :: kvs)) < 2 ^ 31 -> size value < 2 ^ 31 ->
  let x := mkX (Some (enc ((k, v) :: kvs))) (size (enc ((k, v) :: kvs))) in
  replace_at x (enc ((k, v) :: kvs)) (size k) value (size value) true
  = if size value =? size v then Ret (Some (mkX (Some (enc ((k, value) :: kvs))) (x_len x))) else Fault OutOfBounds.
Proof. intros Hkv Hp Hv. by apply replace_at_run. Qed.

(** Removing the first or the last attribute answers the new length, and the
    array starts with the other attributes. *)
Theorem remove_at_ends kvs1 name v kvs2 :
  Forall attr_ok (kvs1 ++ (name, v) :: kvs2) -> Forall (fun kv => kv.1 <> name) kvs1 ->
  size (enc (kvs1 ++ (name, v) :: kvs2)) < 2 ^ 31 -> kvs1 = [] \/ kvs2 = [] ->
  exists p', xattr_remove (mkX (Some (enc (kvs1 ++ (name, v) :: kvs2))) (size (enc (kvs1 ++ (name, v) :: kvs2)))) name
      = Ret (Some (inr (size (enc (kvs1 ++ kvs2)), mkX (Some p') (size (enc (kvs1 ++ (name, v) :: kvs2)))))) /\
    take (length (enc (kvs1 ++ kvs2))) p' = enc (kvs1 ++ kvs2).
Proof.
  intros Hok Hm Hs Hends. rewrite (xattr_remove_run kvs1 name v kvs2) by done.
  assert (Hn : size (enc (kvs1 ++ (name, v) :: kvs2)) - size (pair (name, v)) = size (enc (kvs1 ++ kvs2)))
    by (rewrite !enc_app, enc_cons, !size_app; lia).
  rewrite Hn. case_bool_decide as H2.
  - subst kvs2. eexists. split; [done|]. rewrite app_nil_r, enc_app. apply take_app_length.
  - destruct Hends as [->|]; [|done]. rewrite bool_decide_eq_true_2 by (by left). eexists. split; [done|].
    cbn [app]. rewrite enc_cons, from_size. apply take_app_length.
Qed.

(** Removing an attribute between others goes wrong: either the bytes moved
    are read behind the array, or, when its name starts with the byte the
    array starts with, the beginning of the array is cut off instead. *)
Theorem remove_in_middle kvs1 name v kvs2 :
  let p := enc (kvs1 ++ (name, v) :: kvs2) in
  Forall attr_ok (kvs1 ++ (name, v) :: kvs2) -> Forall (fun kv => kv.1 <> name) kvs1 -> size p < 2 ^ 31 ->
  kvs1 <> [] -> kvs2 <> [] ->
  xattr_remove (mkX (Some p) (size p)) name = Fault OutOfBounds \/
  exists p', xattr_remove (mkX (Some p) (size p)) name
      = Ret (Some (inr (size p - size (pair (name, v)), mkX (Some p') (size p)))) /\
    from p (size (pair (name, v))) `prefix_of` p'.
Proof.
  intros p Hok Hm Hs H1 H2. rewrite (xattr_remove_run kvs1 name v kvs2 Hok Hm Hs : xattr_remove (mkX (Some p) (size p)) _ = _).
  rewrite bool_decide_eq_false_2 by done. case_bool_decide; [right|by left].
  eexists. split; [done|]. by eexists.
Qed.

(** * Examples *)

(** "a=x", "b=y" and "c=z". *)
Definition demo_attrs : list (list Z * list Z) := [([97], [120]); ([98], [121]); ([99], [122])].

Lemma demo_attr_ok a b : 97 <= a <= 122 -> 97 <= b <= 122 -> attr_ok ([a], [b]).
Proof.
  intros Ha Hb. split; simpl; [done| | | |]; unfold size; simpl; unfold MAX_KEY_LEN, EQ; try lia; repeat constructor; lia.
Qed.

Lemma demo_attrs_ok : Forall attr_ok demo_attrs.
Proof. unfold demo_attrs. rewrite !list.Forall_cons. split_and!; [apply demo_attr_ok; lia..|done]. Qed.

Definition demo_state : @xstate (gmap Z Z) (gmap Z (list Z)) :=
  mkXs LockTree.start (mkDb [] {[7 := demo_fixed 0 0]}).
Definition demo_inode : sstack_inode := mkInode (demo_fixed 0 12) (Some (enc demo_attrs)) ∅ ∅ None.

Lemma xattr_ops_release_lock_witness :
  match run_xop false (zeros 8) [] (GetX (mkCall (Some 7) 100 demo_inode true) true false (Some [97]) true 10) demo_state with
  | Ret (_, s') => LockTree.rep (lt s') ∅
  | Fault f => f <> Deadlock
  end.
Proof.
  apply (xattr_ops_release_lock false (zeros 8) []
    (GetX (mkCall (Some 7) 100 demo_inode true) true false (Some [97]) true 10) demo_state ∅ LockTree.start_rep).
  - intros i [= <-]. split; [lia|reflexivity].
  - right. reflexivity.
Defined.

Lemma only_first_attr_found_witness :
  xattr_exists demo_inode [97] demo_state = Ret (1, demo_state) /\
  xattr_exists demo_inode [98] demo_state = Ret (-1, demo_state).
Proof.
  split; [apply (only_first_attr_found demo_inode demo_attrs [97] demo_state)
         |apply (only_first_attr_found demo_inode demo_attrs [98] demo_state)];
    try discriminate; try apply demo_attrs_ok; vm_compute; try reflexivity; discriminate.
Defined.

Lemma append_forgets_name_witness :
  exists x i, append_at (mkX (Some (enc demo_attrs)) 12) [100] [121; 0] 2 true = Ret (Some x) /\
    x_ptr x = Some (enc demo_attrs ++ [61; 121; 0; 0]) /\ lookup_attr true x [100] = Ret (Some (Next i)).
Proof.
  apply (append_forgets_name demo_attrs [100] [121]); [apply demo_attrs_ok| | | | |]; try discriminate;
    try (vm_compute; discriminate). repeat constructor; discriminate.
Defined.

Lemma replace_same_size_only_witness :
  replace_at (mkX (Some (enc demo_attrs)) 12) (enc demo_attrs) 1 [122] 1 true
    = Ret (Some (mkX (Some (enc [([97], [122]); ([98], [121]); ([99], [122])])) 12)) /\
  replace_at (mkX (Some (enc demo_attrs)) 12) (enc demo_attrs) 1 [122; 122] 2 true = Fault OutOfBounds.
Proof.
  split; [apply (replace_same_size_only [97] [120] (tail demo_attrs) [122])
         |apply (replace_same_size_only [97] [120] (tail demo_attrs) [122; 122])];
    try (apply demo_attr_ok; lia); vm_compute; reflexivity.
Defined.

Lemma remove_at_ends_witness :
  exists p', xattr_remove (mkX (Some (enc demo_attrs)) 12) [97] = Ret (Some (inr (8, mkX (Some p') 12))) /\
    take 8 p' = enc (tail demo_attrs).
Proof.
  apply (remove_at_ends [] [97] [120] (tail demo_attrs)); [apply demo_attrs_ok|constructor|vm_compute; reflexivity|].
  left. reflexivity.
Defined.

Lemma remove_in_middle_witness :
  xattr_remove (mkX (Some (enc demo_attrs)) 12) [98] = Fault OutOfBounds \/
  exists p', xattr_remove (mkX (Some (enc demo_attrs)) 12) [98] = Ret (Some (inr (8, mkX (Some p') 12))) /\
    from (enc demo_attrs) 4 `prefix_of` p'.
Proof.
  apply (remove_in_middle [([97], [120])] [98] [121] [([99], [122])]); [apply demo_attrs_ok| |vm_compute; reflexivity| |];
    try discriminate. repeat constructor. discriminate.
Defined.

End Xattr.
