(* ===== verification/Memcache.v ===== *)
(** The client of memcached (lib/memcache/src/sstack_cache_api.c): the
    connection and the calls that store, read, replace and remove a value.

    libmemcached is behind two interfaces, one for the calls on keys and one
    for the list of servers. Keys and values are the bytes that are handed to
    it; the connection and the pointers are not NULL. *)
From Stdlib Require Import ZArith Lia String.
From stdpp Require Import base list numbers.
From S2P Require Import Prelude CString CFormat InodeStore.
Import InodeStore.

Module Memcache.

Definition MEMCACHED_SUCCESS : Z := 0.
Definition MEMCACHED_FAILURE : Z := 1.
Definition MEMCACHED_NOTFOUND : Z := 16.
Definition MEMCACHED_MEMORY_ALLOCATION_FAILURE : Z := 17.
Definition MEMCACHED_PORT : Z := 11211.
(** [SEPERATOR], a colon *)
Definition SEPERATOR : Z := 58.

(** * libmemcached *)

Class Memcached (M : Type) := {
  memcached_get : M -> list Z -> option (list Z);
  memcached_set : M -> list Z -> list Z -> Z * M;
  memcached_delete : M -> list Z -> Z * M
}.

(** The calls of libmemcached the file system does not reach. *)
Class MemcachedMore (M : Type) := {
  memcached_replace : M -> list Z -> list Z -> Z -> Z -> Z * M;
  memcached_mget : M -> list (list Z) -> Z * M
}.

(** A key that memcached takes is stored; what was stored is read until it is
    deleted; no call touches another key. *)
Class MemcachedUp (M : Type) `{Memcached M} (key_ok : list Z -> Prop) : Prop := {
  set_up m k v : key_ok k -> (memcached_set m k v).1 = 0;
  set_get m k v m' : memcached_set m k v = (0, m') -> memcached_get m' k = Some v;
  set_other m k v r m' k' : memcached_set m k v = (r, m') -> k' <> k -> memcached_get m' k' = memcached_get m k';
  delete_up m k : is_Some (memcached_get m k) -> (memcached_delete m k).1 = 0;
  delete_get m k m' : memcached_delete m k = (0, m') -> memcached_get m' k = None;
  delete_other m k r m' k' : memcached_delete m k = (r, m') -> k' <> k -> memcached_get m' k' = memcached_get m k'
}.

(** The connection [C] and a list of servers [L]; the empty list is NULL. *)
Class Servers (C L : Type) := {
  memcached_create : option C;
  memcached_server_list_append : option L -> list Z -> Z -> option L;
  memcached_server_push : C -> option L -> Z * C
}.

(** * The calls on keys *)

Section Client.
Context {M : Type} `{Memcached M} `{MemcachedMore M}.

Definition sstack_memcache_store (key value : list Z) : cprog M Z :=
  (if size value <=? 0 then cret (-1)
   else
     let! m := cget in
     let '(rc, m) := memcached_set m key value in
     cput m ;;;
     cret (if rc =? MEMCACHED_SUCCESS then 0 else - rc))%cprog.

Definition sstack_memcache_remove (key : list Z) : cprog M Z :=
  (let! m := cget in
   let '(rc, m) := memcached_delete m key in
   cput m ;;;
   cret (if rc =? MEMCACHED_SUCCESS then 0 else - rc))%cprog.

Definition sstack_memcache_read_one (key : list Z) : cprog M (option (list Z)) :=
  (let! m := cget in cret (if size key =? 0 then None else memcached_get m key))%cprog.

(** [keys] is the array, of [num_keys] keys. *)
Definition sstack_memcache_read_multiple (keys : list (list Z)) : cprog M Z :=
  (if Z.of_nat (length keys) <=? 0 then cret (-1)
   else
     let! m := cget in
     let '(rc, m) := memcached_mget m keys in
     cput m ;;;
     cret (if rc =? MEMCACHED_SUCCESS then 0 else - rc))%cprog.

Definition sstack_memcache_replace (key value : list Z) (expiration flags : Z) : cprog M Z :=
  (let! m := cget in
   let '(ret, m) := memcached_replace m key value expiration flags in
   cput m ;;;
   cret (if negb (ret =? MEMCACHED_SUCCESS) then - ret else 0))%cprog.
End Client.

(** * The connection *)

(** The tokens [strsep] cuts a string into. *)
Fixpoint strsep (c : Z) (s : list Z) : list (list Z) :=
  match s with
  | [] => [[]]
  | x :: s =>
      if x =? c then [] :: strsep c s
      else match strsep c s with t :: ts => (x :: t) :: ts | [] => [[x]] end
  end.

Section Connection.
Context {C L : Type} `{Servers C L}.

(** The loop over the names: the list grows and is pushed as a whole at every
    pass. *)
Fixpoint push_servers (memc : C) (servers : option L) (names : list (list Z)) : option C :=
  match names with
  | [] => Some memc
  | n :: names =>
      if size n =? 0 then push_servers memc servers names
      else
        let servers := memcached_server_list_append servers n MEMCACHED_PORT in
        let '(rc, memc) := memcached_server_push memc servers in
        if negb (rc =? MEMCACHED_SUCCESS) then None else push_servers memc servers names
  end.

Definition sstack_memcache_init (config : list Z) (num_servers : Z) : option C :=
  memc ← memcached_create;
  if 1 <? num_servers then push_servers memc None (strsep SEPERATOR config)
  else
    let servers := memcached_server_list_append None config MEMCACHED_PORT in
    let '(rc, memc) := memcached_server_push memc servers in
    if negb (rc =? MEMCACHED_SUCCESS) then None else Some memc.
End Connection.

(** * What the connection holds *)

(** The servers of a connection and of a list: a list is appended to and pushed
    in order. *)
Class ServersUp (C L : Type) `{Servers C L} (hosts : C -> list (list Z)) (listed : option L -> list (list Z)) : Prop := {
  created : exists c, memcached_create = Some c /\ hosts c = [];
  listed_none : listed None = [];
  listed_append l n p : listed (memcached_server_list_append l n p) = listed l ++ [n];
  pushed c l : exists c', memcached_server_push c l = (MEMCACHED_SUCCESS, c') /\ hosts c' = hosts c ++ listed l
}.

(** The prefixes of a list of servers, one after the other. *)
Fixpoint prefixes (acc l : list (list Z)) : list (list Z) :=
  match l with [] => [] | n :: l => (acc ++ [n]) ++ prefixes (acc ++ [n]) l end.

Definition named (n : list Z) : bool := negb (size n =? 0).

Section Connected.
Context {C L : Type} `{Servers C L} (hosts : C -> list (list Z)) (listed : option L -> list (list Z)) `{!ServersUp C L hosts listed}.

Lemma push_servers_run names : forall c l,
  exists c', push_servers c l names = Some c' /\ hosts c' = hosts c ++ prefixes (listed l) (List.filter named names).
Proof.
  induction names as [|n names IH]; intros c l; cbn [push_servers List.filter].
  - exists c. by rewrite app_nil_r.
  - unfold named at 1. destruct (size n =? 0); cbn [negb]; [apply IH|].
    destruct (pushed c (memcached_server_list_append l n MEMCACHED_PORT)) as (c1 & -> & Hc1). cbn.
    destruct (IH c1 (memcached_server_list_append l n MEMCACHED_PORT)) as (c2 & Hr & Hc2). exists c2.
    split; [exact Hr|]. by rewrite Hc2, Hc1, listed_append, <- !app_assoc.
Qed.

(** A connection to more than one server holds the first server once for every
    server, the second once less, and so on: the list of the servers so far is
    pushed at every pass. A connection to one server holds it once. *)
Theorem servers_pushed_repeatedly config n :
  exists c, sstack_memcache_init config n = Some c /\
    hosts c = if 1 <? n then prefixes [] (List.filter named (strsep SEPERATOR config)) else [config].
Proof.
  unfold sstack_memcache_init. destruct created as (c & -> & Hc). cbn. destruct (1 <? n).
  - destruct (push_servers_run (strsep SEPERATOR config) c None) as (c' & -> & Hh). exists c'. by rewrite Hh, Hc, listed_none.
  - destruct (pushed c (memcached_server_list_append None config MEMCACHED_PORT)) as (c' & -> & Hh). cbn. exists c'.
    by rewrite Hh, Hc, listed_append, listed_none.
Qed.
End Connected.

(** * Memcached as a list of entries *)

Definition cache : Type := list (list Z * list Z).
Fixpoint cache_get (m : cache) (k : list Z) : option (list Z) :=
  match m with
  | [] => None
  | (k', v) :: m' => if bool_decide (k' = k) then Some v else cache_get m' k
  end.
Fixpoint cache_drop (m : cache) (k : list Z) : cache :=
  match m with
  | [] => []
  | (k', v) :: m' => if bool_decide (k' = k) then cache_drop m' k else (k', v) :: cache_drop m' k
  end.
#[export] Instance list_cache : Memcached cache := {
  memcached_get := cache_get;
  memcached_set m k v := (0, (k, v) :: cache_drop m k);
  memcached_delete m k := if cache_get m k then (0, cache_drop m k) else (MEMCACHED_NOTFOUND, m)
}.
Lemma cache_drop_get m k k' : cache_get (cache_drop m k) k' = if bool_decide (k = k') then None else cache_get m k'.
Proof.
  induction m as [|[k1 v] m IH]; cbn [cache_drop cache_get]; [by case_bool_decide|].
  repeat case_bool_decide; subst; cbn [cache_get]; rewrite ?IH; repeat case_bool_decide; congruence.
Qed.
#[export] Instance list_cache_up : MemcachedUp cache (fun _ => True).
Proof.
  split; cbn; try done.
  - intros m k v m' [= <-]. cbn. by rewrite bool_decide_eq_true_2.
  - intros m k v r m' k' [= <- <-] Hk. cbn. rewrite bool_decide_eq_false_2 by done. rewrite cache_drop_get, bool_decide_eq_false_2; done.
  - intros m k [v ->]. done.
  - intros m k m'. destruct (cache_get m k); intros [= <-]. by rewrite cache_drop_get, bool_decide_eq_true_2.
  - intros m k r m' k'. destruct (cache_get m k); intros [= <- <-] Hk; [|done]. by rewrite cache_drop_get, bool_decide_eq_false_2.
Qed.

(** Connections as lists of servers: two servers, the first of them twice. *)
#[local] Instance list_servers : Servers (list (list Z)) (list (list Z)) := {
  memcached_create := Some [];
  memcached_server_list_append l n _ := Some (default [] l ++ [n]);
  memcached_server_push c l := (MEMCACHED_SUCCESS, c ++ default [] l)
}.
#[local] Instance list_servers_up : ServersUp (list (list Z)) (list (list Z)) id (default []).
Proof. split; eauto. Qed.
Example two_servers_three_times : sstack_memcache_init (bytes "a:b") 2 = Some [bytes "a"; bytes "a"; bytes "b"].
Proof. reflexivity. Qed.
Lemma servers_pushed_repeatedly_witness : exists c, sstack_memcache_init (bytes "a:b") 2 = Some c /\ id c = [bytes "a"; bytes "a"; bytes "b"].
Proof. destruct (servers_pushed_repeatedly id (default []) (bytes "a:b") 2) as (c & Hc & Hh). exists c. split; [exact Hc|]. exact Hh. Defined.

End Memcache.
