(* ===== verification/Cache.v ===== *)
(** The two-tier cache: [cache_init], [sstack_allocate_cache_entry],
    [sstack_cache_store], [sstack_cache_search], [sstack_cache_get],
    [sstack_cache_purge] and [sstack_memcache_evict_objects] of
    lib/cache/src/sstack_cache.c, and the tree of times with [lru_init],
    [lru_insert_entry], [leftmost_node] and the loop of [lru_demote_entries] of
    lib/cache/src/sstack_lrucache.c.

    The data are in memcached ([Memcache]) under the hash key as a C string; the
    entries are in a tree of [OssTree] under the 32 bytes of the hash key, and
    the times of their storing in another. The answers of [malloc] are the list
    [memory]; [SafeMalloc] ends the program when there is none. The calls of the
    SSD cache, which are loaded from a shared library, are an argument. *)
From Stdlib Require Import ZArith Lia.
From stdpp Require Import base gmap list numbers.
From S2P Require Import Prelude CString InodeStore OssTree Memcache.
Import InodeStore.

Module Cache.
Import OssTree Memcache.

Definition SHA256_DIGEST_LENGTH : nat := 32.
Definition NUM_EVICT : Z := 8.

(** The union of an entry: the connection to memcached, which is not NULL, or
    the place on the SSD. *)
Inductive place : Type :=
  | OnMemcached
  | OnSsd (handle entry len : Z).

Record sstack_cache : Type := mkCache {
  lock : bool;
  hashkey : list Z;
  on_ssd : bool;
  where_ : place;
  time : Z
}.
Definition set_lock (b : bool) (e : sstack_cache) : sstack_cache := mkCache b (hashkey e) (on_ssd e) (where_ e) (time e).

(** The operations of [ssd_cache_t] that are called here; NULL when the
    library does not have them. *)
Record ssd_ops : Type := mkSsd {
  ssd_cache_retrieve : option (Z -> Z -> Z -> option (list Z));
  ssd_cache_purge : option (Z -> Z -> Z)
}.

Section Cache.
Context {M : Type} `{Memcached M}.
(** [memcmp] of the C library, and [ssd_cache]. *)
Context (memcmp : list Z -> list Z -> Z) (ssd_cache : option ssd_ops).

Record state : Type := mkState {
  cache_tree : tree (list Z) Z;
  cache_lock : bool;
  lru_tree : tree Z (list Z);
  lru_lock : bool;
  entries : gmap Z sstack_cache;
  memc : M;
  errno : Z;
  now : Z;
  memory : list Z
}.

Definition set_cache (t : tree (list Z) Z) (l : bool) (s : state) : state :=
  mkState t l (lru_tree s) (lru_lock s) (entries s) (memc s) (errno s) (now s) (memory s).
Definition set_lru (t : tree Z (list Z)) (l : bool) (s : state) : state :=
  mkState (cache_tree s) (cache_lock s) t l (entries s) (memc s) (errno s) (now s) (memory s).
Definition set_entries (m : gmap Z sstack_cache) (s : state) : state :=
  mkState (cache_tree s) (cache_lock s) (lru_tree s) (lru_lock s) m (memc s) (errno s) (now s) (memory s).
Definition put_errno (e : Z) : cprog state unit :=
  cmod (fun s => mkState (cache_tree s) (cache_lock s) (lru_tree s) (lru_lock s) (entries s) (memc s) e (now s) (memory s)).

Definition on_mc {A} (c : cprog M A) : cprog state A := fun s =>
  match c (memc s) with
  | Ret (a, m) => Ret (a, mkState (cache_tree s) (cache_lock s) (lru_tree s) (lru_lock s) (entries s) m (errno s) (now s) (memory s))
  | Fault f => Fault f
  end.

(** The answer of [malloc] and [calloc]; 0 is NULL. *)
Definition malloc : cprog state Z := fun s =>
  match memory s with
  | [] => Ret (0, s)
  | a :: l => Ret (a, mkState (cache_tree s) (cache_lock s) (lru_tree s) (lru_lock s) (entries s) (memc s) (errno s) (now s) l)
  end.
Definition SafeMalloc : cprog state Z := (let! a := malloc in if a =? 0 then cfault AssertFail else cret a)%cprog.

Definition load (p : Z) : cprog state sstack_cache :=
  (if p =? 0 then cfault NullDeref else let! s := cget in cexpect UseAfterFree (entries s !! p))%cprog.
Definition store (p : Z) (e : sstack_cache) : cprog state unit :=
  (load p ;;; cmod (fun s => set_entries (<[p := e]> (entries s)) s))%cprog.

(** [pthread_spin_lock(&cache_lock)], [pthread_spin_lock(&lru_lock)] *)
Definition lock_cache : cprog state unit :=
  (let! s := cget in if cache_lock s then cfault Deadlock else cput (set_cache (cache_tree s) true s))%cprog.
Definition unlock_cache : cprog state unit := cmod (fun s => set_cache (cache_tree s) false s).
Definition lock_lru : cprog state unit :=
  (let! s := cget in if lru_lock s then cfault Deadlock else cput (set_lru (lru_tree s) true s))%cprog.
Definition unlock_lru : cprog state unit := cmod (fun s => set_lru (lru_tree s) false s).

(** [pthread_mutex_lock(&c->lock)] *)
Definition lock_entry (p : Z) : cprog state unit :=
  (let! e := load p in if lock e then cfault Deadlock else store p (set_lock true e))%cprog.
Definition unlock_entry (p : Z) : cprog state unit := (let! e := load p in store p (set_lock false e))%cprog.

(** * The trees *)

Definition compare_func (val1 val2 : list Z) : Z :=
  match memcmp (take SHA256_DIGEST_LENGTH val1) (take SHA256_DIGEST_LENGTH val2) with
  | -1 => -1
  | 1 => 1
  | _ => 0
  end.

Definition lru_comp_func (val1 val2 : Z) : Z := if val2 <? val1 then 1 else if val1 <? val2 then -1 else 0.

(** A tree operation that returns, or ends the program. *)
Definition run_tree {A} (o : outcome A) : cprog state A := match o with Ret a => cret a | Fault f => cfault f end.

Definition cache_insert (k : list Z) (p : Z) : cprog state Z :=
  (let! a := SafeMalloc in
   let! s := cget in
   let! t := run_tree (RBTreeInsert compare_func a k p (cache_tree s)) in
   cput (set_cache t (cache_lock s) s) ;;;
   cret a)%cprog.

(** [RBDelete(cache_tree, node)]: the destructor of the tree frees the entry. *)
Definition cache_delete (a : Z) : cprog state unit :=
  (let! s := cget in
   let! r := run_tree (RBDelete a (cache_tree s)) in
   cput (set_cache r.1 (cache_lock s) s) ;;;
   load (info r.2) ;;;
   cmod (fun s => set_entries (delete (info r.2) (entries s)) s))%cprog.

(** * The tree of times *)

Definition lru_init : cprog state unit := cmod (set_lru Nil false).

(** [strncpy] into the 33 zeroed bytes of an LRU entry *)
Definition lru_key (k : list Z) : list Z :=
  let c := take SHA256_DIGEST_LENGTH (cstr k) in c ++ replicate (S SHA256_DIGEST_LENGTH - length c) 0.

Definition lru_insert_entry (hashval : list Z) : cprog state Z :=
  (let! entry := malloc in
   if entry =? 0 then cret (-1)
   else
     let! s := cget in
     let t := now s in
     lock_lru ;;;
     let! a := SafeMalloc in
     let! s := cget in
     let! t := run_tree (RBTreeInsert lru_comp_func a t (lru_key hashval) (lru_tree s)) in
     cput (set_lru t (lru_lock s) s) ;;;
     unlock_lru ;;;
     cret 0)%cprog.

(** The node a pointer of [leftmost_node] is at: the sentinel root, or the top
    of a subtree. [RBTreeCreate] makes [nil] its own left child and no
    operation changes that, so no [left] is NULL. *)
Inductive cursor : Type :=
  | AtRoot
  | At (t : tree Z (list Z)).
Definition left_of (top : tree Z (list Z)) (c : cursor) : option cursor :=
  match c with
  | AtRoot => Some (At top)
  | At (N _ _ l _) => Some (At l)
  | At Nil => Some (At Nil)
  end.

(** [while (NULL != node->left) node = node->left;], for [fuel] passes *)
Fixpoint walk_left (fuel : nat) (top : tree Z (list Z)) (c : cursor) : option cursor :=
  match fuel with
  | O => None
  | S fuel => match left_of top c with None => Some c | Some c => walk_left fuel top c end
  end.

(** A walk that has not ended with the fuel counts as one that never returns,
    with [lru_lock] held. *)
Definition leftmost_node (fuel : nat) : cprog state cursor :=
  (lock_lru ;;;
   let! s := cget in
   let! c := cexpect Deadlock (walk_left fuel (lru_tree s) AtRoot) in
   unlock_lru ;;;
   cret c)%cprog.

(** The loop; [evict] is what a pass does with the leftmost node, and whether
    it leaves the function. *)
Fixpoint demote_loop (fuel : nat) (evict : cursor -> cprog state (option Z)) (num : nat) : cprog state Z :=
  match num with
  | O => cret 0
  | S num =>
      (let! node := leftmost_node fuel in
       let! r := evict node in
       match r with Some ret => cret ret | None => demote_loop fuel evict num end)%cprog
  end.
Definition lru_demote_entries (fuel : nat) (evict : cursor -> cprog state (option Z)) (num : Z) : cprog state Z :=
  if num <=? 0 then (put_errno EINVAL ;;; cret (-1))%cprog else demote_loop fuel evict (Z.to_nat num).

Definition sstack_memcache_evict_objects (fuel : nat) (evict : cursor -> cprog state (option Z)) : cprog state Z :=
  (let! ret := lru_demote_entries fuel evict NUM_EVICT in cret (if ret =? -1 then -1 else 0))%cprog.

(** * The cache *)

(** [registered] is the answer of [ssd_cache_register]. *)
Definition cache_init (registered : bool) : cprog state Z :=
  (cmod (set_cache Nil false) ;;;
   lru_init ;;;
   cret (if registered then 0 else -1))%cprog.

Definition sstack_allocate_cache_entry : cprog state Z :=
  (let! p := malloc in
   if p =? 0 then cret 0
   else cmod (fun s => set_entries (<[p := mkCache false (replicate (S SHA256_DIGEST_LENGTH) 0) false OnMemcached 0]> (entries s)) s) ;;; cret p)%cprog.

(** The key as a C string; [strlen] of an array without a NUL reads behind it. *)
Definition key_string (k : list Z) : cprog state (list Z) :=
  match strlen k with Some _ => cret (cstr k) | None => cfault OutOfBounds end.

(** [entry->memcache.mc]: the pointer is garbage when the union holds a place
    on the SSD. *)
Definition connection (e : sstack_cache) : cprog state unit :=
  match where_ e with OnMemcached => cret tt | OnSsd _ _ _ => cfault NullDeref end.

Definition sstack_cache_store (fuel : nat) (evict : cursor -> cprog state (option Z)) (data : option (list Z)) (entry : Z) : cprog state Z :=
  match data with
  | None => (put_errno EINVAL ;;; cret (-1))%cprog
  | Some data =>
      if (entry =? 0) || (size data <=? 0) then (put_errno EINVAL ;;; cret (-1))%cprog
      else
        (let! e := load entry in
         connection e ;;;
         let! key := key_string (hashkey e) in
         let! ret := on_mc (sstack_memcache_store key data) in
         let! ok :=
           if negb (ret =? 0) then
             if ret =? - MEMCACHED_MEMORY_ALLOCATION_FAILURE then
               let! ret := sstack_memcache_evict_objects fuel evict in
               if ret =? -1 then cret false
               else let! ret := on_mc (sstack_memcache_store key data) in cret (ret =? 0)
             else cret false
           else cret true in
         if negb ok then cret (-1)
         else
           let! e := load entry in
           let! s := cget in
           store entry (mkCache (lock e) (hashkey e) false (where_ e) (now s)) ;;;
           lock_cache ;;;
           let! node := cache_insert (hashkey e) entry in
           unlock_cache ;;;
           let! ret := lru_insert_entry (hashkey e) in
           if ret =? -1 then
             on_mc (sstack_memcache_remove key) ;;;
             lock_cache ;;; cache_delete node ;;; unlock_cache ;;;
             cret (-1)
           else cret 0)%cprog
  end.

(** [RBExactQuery(cache_tree, hashkey)] under [cache_lock]: the node. *)
Definition find_entry (hash : list Z) : cprog state (option (elem (list Z) Z)) :=
  (lock_cache ;;;
   let! s := cget in
   match RBExactQuery compare_func (cache_tree s) hash with
   | None => put_errno EFAULT ;;; unlock_cache ;;; cret None
   | Some node => unlock_cache ;;; cret (Some node)
   end)%cprog.

(** The address of the entry, 0 for NULL. *)
Definition sstack_cache_search (hash : option (list Z)) : cprog state Z :=
  match hash with
  | None => (put_errno EINVAL ;;; cret 0)%cprog
  | Some hash => (let! node := find_entry hash in cret (match node with None => 0 | Some n => info n end))%cprog
  end.

Definition sstack_cache_get (hash : option (list Z)) (len : Z) : cprog state (option (list Z)) :=
  match hash with
  | None => (put_errno EINVAL ;;; cret None)%cprog
  | Some hash =>
      (let! node := find_entry hash in
       match node with
       | None => cret None
       | Some node =>
           let c := info node in
           lock_entry c ;;;
           let! e := load c in
           if on_ssd e then
             match where_ e with
             | OnMemcached => cfault Uninit
             | OnSsd handle entry elen =>
                 if elen <? len then put_errno EIO ;;; unlock_entry c ;;; cret None
                 else
                   match ssd_cache ≫= ssd_cache_retrieve with
                   | None => put_errno EIO ;;; cret None
                   | Some retrieve =>
                       match retrieve handle entry len with
                       | None => put_errno EIO ;;; unlock_entry c ;;; cret None
                       | Some data => unlock_entry c ;;; cret (Some data)
                       end
                   end
             end
           else
             connection e ;;;
             let! key := key_string hash in
             let! data := on_mc (sstack_memcache_read_one key) in
             match data with
             | None => put_errno EIO ;;; unlock_entry c ;;; cret None
             | Some data => unlock_entry c ;;; cret (Some data)
             end
       end)%cprog
  end.

Definition sstack_cache_purge (hash : option (list Z)) : cprog state Z :=
  match hash with
  | None => (put_errno EINVAL ;;; cret (-1))%cprog
  | Some hash =>
      (let! node := find_entry hash in
       match node with
       | None => cret (-1)
       | Some node =>
           let entry := info node in
           lock_entry entry ;;;
           let! e := load entry in
           let! ret :=
             if on_ssd e then
               match where_ e with
               | OnMemcached => cfault Uninit
               | OnSsd handle ce _ =>
                   match ssd_cache ≫= ssd_cache_purge with
                   | None => put_errno EIO ;;; cret (-1)
                   | Some purge => cret (purge handle ce)
                   end
               end
             else
               connection e ;;;
               let! key := key_string (hashkey e) in
               on_mc (sstack_memcache_remove key) in
           if ret =? -1 then cret (-1)
           else lock_cache ;;; cache_delete (addr node) ;;; unlock_cache ;;; cret 0
       end)%cprog
  end.
End Cache.

(** * The order of the hash keys *)

(** The order of strings of bytes: that of the first bytes that differ. *)
Fixpoint lexcmp (a b : list Z) : Z :=
  match a, b with
  | [], [] => 0
  | [], _ :: _ => -1
  | _ :: _, [] => 1
  | x :: a, y :: b => if x <? y then -1 else if y <? x then 1 else lexcmp a b
  end.

(** Case on the comparisons of a goal about [lexcmp]. *)
Ltac lex_cases := repeat (case_if || match goal with H : context [if ?b then _ else _] |- _ => case_if_in H end).

Lemma lexcmp_eq a : forall b, lexcmp a b = 0 -> a = b.
Proof. induction a as [|x a IH]; intros [|y b]; cbn; try done. lex_cases; try done. intros Hl. rewrite (IH b Hl). f_equal. lia. Qed.
Lemma lexcmp_range a : forall b, lexcmp a b = -1 \/ lexcmp a b = 0 \/ lexcmp a b = 1.
Proof. induction a as [|x a IH]; intros [|y b]; cbn; auto. lex_cases; auto. Qed.
Lemma lexcmp_sym a : forall b, lexcmp b a = - lexcmp a b.
Proof. induction a as [|x a IH]; intros [|y b]; cbn; try done. lex_cases; try lia. apply IH. Qed.
Lemma lexcmp_refl a : lexcmp a a = 0.
Proof. pose proof (lexcmp_sym a a). lia. Qed.
Lemma lexcmp_trans a : forall b c, lexcmp a b <> 1 -> lexcmp b c <> 1 -> lexcmp a c <> 1.
Proof. induction a as [|x a IH]; intros [|y b] [|z c]; cbn; try done. intros H1 H2. lex_cases; try lia. by eapply IH. Qed.

Lemma compare_lex a b : compare_func lexcmp a b = lexcmp (take SHA256_DIGEST_LENGTH a) (take SHA256_DIGEST_LENGTH b).
Proof. unfold compare_func. destruct (lexcmp_range (take SHA256_DIGEST_LENGTH a) (take SHA256_DIGEST_LENGTH b)) as [->|[->| ->]]; done. Qed.

#[export] Instance compare_ordering : Ordering (compare_func lexcmp).
Proof.
  split; intros; rewrite ?compare_lex in *; [apply lexcmp_range|apply lexcmp_sym|by eapply lexcmp_trans].
Qed.
#[export] Instance lru_ordering : Ordering lru_comp_func.
Proof. exact three_way_ordering. Qed.

(** What the C library says of [memcmp]: the sign of the answer is the order of
    the bytes. Nothing is said of its size. *)
Definition byte_list : list Z -> Prop := Forall (fun c => 0 <= c < 256).
Class Memcmp (memcmp : list Z -> list Z -> Z) : Prop :=
  memcmp_sign a b : length a = length b -> byte_list a -> byte_list b -> Z.sgn (memcmp a b) = lexcmp a b.

#[export] Instance lexcmp_memcmp : Memcmp lexcmp.
Proof. intros a b _ _ _. destruct (lexcmp_range a b) as [->|[->| ->]]; done. Qed.

Lemma compare_unit memcmp a b : -1 <= memcmp (take SHA256_DIGEST_LENGTH a) (take SHA256_DIGEST_LENGTH b) <= 1 ->
  compare_func memcmp a b = memcmp (take SHA256_DIGEST_LENGTH a) (take SHA256_DIGEST_LENGTH b).
Proof.
  intros Hr. unfold compare_func. set (n := memcmp _ _) in *. assert (n = -1 \/ n = 0 \/ n = 1) as [->|[->| ->]] by lia; done.
Qed.

Lemma strlen_nul h : Forall (fun c => c <> 0) h -> strlen (h ++ [0]) = Some (length h).
Proof. induction 1 as [|c h Hc _ IH]; [done|]. cbn. by rewrite (proj2 (Z.eqb_neq c 0) Hc), IH. Qed.

(** * What the cache promises *)

Section Refinement.
Context {M : Type} `{Memcached M} (key_ok : list Z -> Prop) `{!MemcachedUp M key_ok}.
Context (memcmp : list Z -> list Z -> Z) `{!Memcmp memcmp}.
Context (ssd_cache : option ssd_ops) (fuel : nat) (evict : cursor -> cprog (@state M) (option Z)).
Notation state := (@state M).
Notation hash := (list Z).

(** The digests in use: between any two of them [memcmp] answers -1, 0 or 1. *)
Context (used : hash -> Prop) (unit_apart : forall h h', used h -> used h' -> -1 <= memcmp h h' <= 1).

(** A digest that is in use, without a NUL, as the key of memcached. *)
Record digest (h : hash) : Prop := {
  digest_len : length h = SHA256_DIGEST_LENGTH;
  digest_bytes : Forall (fun c => 0 < c < 256) h;
  digest_key : key_ok h;
  digest_used : used h
}.
Lemma digest_nonzero h : digest h -> Forall (fun c => c <> 0) h.
Proof. intros Hh. eapply Forall_impl; [|exact (digest_bytes h Hh)]. cbn. lia. Qed.
(** The array that holds it. *)
Definition array (h : hash) : list Z := h ++ [0].

Lemma array_string h : digest h -> key_string (M := M) (array h) = cret h.
Proof.
  intros Hz%digest_nonzero. unfold key_string, array. rewrite strlen_nul by done. change [0] with (replicate 1 0). by rewrite cstr_app_zeros.
Qed.
Lemma array_take h : digest h -> take SHA256_DIGEST_LENGTH (array h) = h.
Proof. intros Hh. rewrite <- (digest_len h Hh). apply take_app_length. Qed.
Lemma array_compare h h' : digest h -> digest h' -> compare_func lexcmp (array h) (array h') = 0 -> h = h'.
Proof. intros Hh Hh'. rewrite compare_lex, !array_take by done. apply lexcmp_eq. Qed.
Lemma array_agree h h' : digest h -> digest h' -> compare_func memcmp (array h) (array h') = compare_func lexcmp (array h) (array h').
Proof using unit_apart Memcmp0.
  intros Hh Hh'. pose proof (unit_apart h h' (digest_used _ Hh) (digest_used _ Hh')) as Hu.
  assert (Hb : forall x, digest x -> byte_list x) by (intros x Hx; eapply Forall_impl; [|exact (digest_bytes x Hx)]; cbn; lia).
  pose proof (memcmp_sign h h' ltac:(by rewrite !digest_len) (Hb h Hh) (Hb h' Hh')) as Hs.
  rewrite compare_unit, compare_lex, !array_take by (rewrite ?array_take; done). rewrite <- Hs. lia.
Qed.

(** The cached data by digest, against the trees as maps of nodes. *)
Record inv (s : state) (f : hash -> option (list Z)) (m : gmap Z (list Z * Z)) (lm : gmap Z (Z * list Z)) : Prop := {
  inv_locks : cache_lock s = false /\ lru_lock s = false;
  inv_tree : rep (compare_func lexcmp) (cache_tree s) m;
  inv_lru : rep lru_comp_func (lru_tree s) lm;
  inv_entry a k p : m !! a = Some (k, p) -> exists h t, k = array h /\ digest h /\ is_Some (f h) /\ p <> 0 /\ entries s !! p = Some (mkCache false k false OnMemcached t);
  inv_data h v : f h = Some v -> digest h /\ memcached_get (memc s) h = Some v /\ exists a p, m !! a = Some (array h, p);
  inv_once a k p a' k' p' : m !! a = Some (k, p) -> m !! a' = Some (k', p') -> k = k' \/ p = p' -> a = a';
  inv_fresh : NoDup (memory s) /\ 0 ∉ memory s /\ forall a, a ∈ memory s -> m !! a = None /\ lm !! a = None /\ entries s !! a = None
}.

(** The tree is searched as by the order of the bytes. *)
Lemma find_agrees s f m lm h : inv s f m lm -> digest h ->
  RBExactQuery (compare_func memcmp) (cache_tree s) (array h) = RBExactQuery (compare_func lexcmp) (cache_tree s) (array h).
Proof using unit_apart Memcmp0.
  intros Hi Hh. apply (query_agrees _ _ _ m); [apply Hi|]. intros b k j Hb.
  destruct (inv_entry _ _ _ _ Hi _ _ _ Hb) as (h' & t & -> & Hh' & _). by apply array_agree.
Qed.

Lemma find_run s f m lm h : inv s f m lm -> digest h ->
  match f h with
  | Some v => exists a p t, find_entry memcmp (array h) s = Ret (Some (mkElem a (array h) p), s) /\ m !! a = Some (array h, p) /\ p <> 0 /\
      entries s !! p = Some (mkCache false (array h) false OnMemcached t)
  | None => exists s', find_entry memcmp (array h) s = Ret (None, s') /\ inv s' f m lm /\ memory s' = memory s
  end.
Proof.
  intros Hi Hh. pose proof (query_refines _ _ _ (array h) (inv_tree _ _ _ _ Hi)) as Hq. pose proof (inv_locks _ _ _ _ Hi) as [Hc Hl].
  assert (Hrun : find_entry memcmp (array h) s = match RBExactQuery (compare_func memcmp) (cache_tree s) (array h) with
      | None => Ret (None, mkState (cache_tree s) false (lru_tree s) (lru_lock s) (entries s) (memc s) EFAULT (now s) (memory s))
      | Some n => Ret (Some n, s) end).
  { unfold find_entry, lock_cache, cbind, cget. rewrite Hc. cbn. destruct s. cbn in *. subst. by destruct (RBExactQuery (compare_func memcmp) _ _). }
  rewrite Hrun, (find_agrees s f m lm h Hi Hh). clear Hrun. destruct (RBExactQuery _ _ _) as [[a k p]|]; cbn in Hq.
  - destruct Hq as [Ha Hz]. destruct (inv_entry _ _ _ _ Hi _ _ _ Ha) as (h' & t & -> & Hh' & [v Hv] & Hp & He).
    apply array_compare in Hz as ->; [|done..]. rewrite Hv. by exists a, p, t.
  - destruct (f h) as [v|] eqn:Hv.
    + destruct (inv_data _ _ _ _ Hi _ _ Hv) as (_ & _ & a & p & Ha). exfalso. apply (Hq _ _ _ Ha). rewrite compare_lex. apply lexcmp_refl.
    + eexists. split; [reflexivity|]. split; [|done]. destruct Hi. by constructor.
Qed.
Lemma entry_load_run p e (s : state) : p <> 0 -> entries s !! p = Some e -> load p s = Ret (e, s).
Proof. intros Hp He. unfold load. rewrite (proj2 (Z.eqb_neq p 0) Hp). unfold cbind, cget. by rewrite He. Qed.
Lemma entry_store_run p e e' (s : state) : p <> 0 -> entries s !! p = Some e -> store p e' s = Ret (tt, set_entries (<[p := e']> (entries s)) s).
Proof. intros Hp He. unfold store, cbind. by rewrite (entry_load_run p e s Hp He). Qed.
Lemma lock_entry_run p e (s : state) : p <> 0 -> entries s !! p = Some e -> lock e = false ->
  lock_entry p s = Ret (tt, set_entries (<[p := set_lock true e]> (entries s)) s).
Proof. intros Hp He Hl. unfold lock_entry, cbind. rewrite (entry_load_run p e s Hp He), Hl. by apply (entry_store_run p e). Qed.
Lemma unlock_entry_run p e (s : state) : p <> 0 -> entries s !! p = Some e ->
  unlock_entry p s = Ret (tt, set_entries (<[p := set_lock false e]> (entries s)) s).
Proof. intros Hp He. unfold unlock_entry, cbind. rewrite (entry_load_run p e s Hp He). by apply (entry_store_run p e). Qed.

Lemma digest_read h m : digest h -> sstack_memcache_read_one h m = Ret (memcached_get m h, m).
Proof. intros [Hl _ _ _]. unfold sstack_memcache_read_one, cbind, cget, cret, size. by rewrite Hl. Qed.

Lemma cache_get_run s f m lm h len : inv s f m lm -> digest h ->
  exists s', sstack_cache_get memcmp ssd_cache (Some (array h)) len s = Ret (f h, s') /\ inv s' f m lm /\ memory s' = memory s.
Proof.
  intros Hi Hh. pose proof (find_run s f m lm h Hi Hh) as Hf. unfold sstack_cache_get, cbind at 1. destruct (f h) as [v|] eqn:Hv.
  - destruct Hf as (a & p & t & -> & Ha & Hp & He). exists s. split; [|done]. cbn [info].
    unfold cbind at 1. rewrite (lock_entry_run _ _ _ Hp He eq_refl). set (s1 := set_entries _ s).
    assert (He1 : entries s1 !! p = Some (mkCache true (array h) false OnMemcached t)) by apply lookup_insert_eq.
    unfold cbind at 1. rewrite (entry_load_run _ _ _ Hp He1). cbn [on_ssd connection where_]. rewrite (array_string h Hh). unfold cbind at 1 2 3, cret at 1 2.
    unfold on_mc. rewrite (digest_read _ _ Hh). cbn [memc s1 set_entries].
    destruct (inv_data _ _ _ _ Hi _ _ Hv) as (_ & -> & _). unfold cbind. erewrite unlock_entry_run; [|done|exact He1].
    unfold cret. cbn. rewrite insert_insert_eq, insert_id by done. by destruct s.
  - destruct Hf as (s' & -> & Hi' & Hm). by exists s'.
Qed.

Lemma cache_search_run s f m lm h : inv s f m lm -> digest h ->
  exists p s', sstack_cache_search memcmp (Some (array h)) s = Ret (p, s') /\ (p <> 0 <-> is_Some (f h)) /\ inv s' f m lm /\ memory s' = memory s.
Proof.
  intros Hi Hh. pose proof (find_run s f m lm h Hi Hh) as Hf. unfold sstack_cache_search, cbind. destruct (f h) as [v|] eqn:Hv.
  - destruct Hf as (a & p & t & -> & Ha & Hp & He). exists p, s. split; [done|]. split; [by eauto|done].
  - destruct Hf as (s' & -> & Hi' & Hm). exists 0, s'. split; [done|]. split; [|done]. split; [done|]. by intros [? ?].
Qed.

(** The table with another value at one digest. *)
Definition upd (f : hash -> option (list Z)) (h : hash) (o : option (list Z)) : hash -> option (list Z) :=
  fun h' => if bool_decide (h' = h) then o else f h'.

Lemma array_inj h h' : array h = array h' -> h = h'.
Proof. intros Heq. by apply app_inj_tail in Heq as [? _]. Qed.

Lemma inv_purged s f m lm h a p mc' t' : inv s f m lm -> digest h -> m !! a = Some (array h, p) -> memcached_delete (memc s) h = (0, mc') ->
  rep (compare_func lexcmp) t' (delete a m) ->
  inv (mkState t' false (lru_tree s) (lru_lock s) (delete p (entries s)) mc' (errno s) (now s) (memory s)) (upd f h None) (delete a m) lm.
Proof.
  intros [[I1 I1'] I2 I3 I4 I5 I6 (I7 & I8 & I9)] Hh Ha Hd Ht. constructor; try done.
  - intros b k q [Hb Hq]%lookup_delete_Some. destruct (I4 _ _ _ Hq) as (h' & t & -> & Hh' & Hv & Hq0 & He). exists h', t. unfold upd.
    rewrite bool_decide_eq_false_2; [|intros ->; apply Hb; eapply I6; eauto]. do 4 (split; [done|]). cbn.
    rewrite lookup_delete_ne; [done|]. intros ->. apply Hb. eapply I6; eauto.
  - intros h' v. unfold upd. case_bool_decide as Hne; [done|]. intros Hv. destruct (I5 _ _ Hv) as (Hh' & Hg & b & q & Hb). split; [done|]. cbn.
    rewrite (delete_other _ _ _ _ h' Hd Hne). split; [done|]. exists b, q. rewrite lookup_delete_ne; [done|]. intros ->. rewrite Ha in Hb. injection Hb as Hk _. by apply array_inj in Hk.
  - intros b k q b' k' q' [_ H1]%lookup_delete_Some [_ H2]%lookup_delete_Some. by eapply I6.
  - split_and!; [done|done|]. intros b Hb. destruct (I9 b Hb) as (H1 & H2 & H3). cbn. rewrite !lookup_delete_None. auto.
Qed.

Lemma cache_purge_run s f m lm h : inv s f m lm -> digest h ->
  exists s' m', sstack_cache_purge memcmp ssd_cache (Some (array h)) s = Ret (if f h then 0 else -1, s') /\ inv s' (upd f h None) m' lm /\ memory s' = memory s.
Proof.
  intros Hi Hh. pose proof (find_run s f m lm h Hi Hh) as Hf. unfold sstack_cache_purge, cbind at 1. destruct (f h) as [v|] eqn:Hv.
  - destruct Hf as (a & p & t & -> & Ha & Hp & He). cbn [info addr].
    destruct (delete_refines _ _ _ _ _ _ (inv_tree _ _ _ _ Hi) Ha) as (t' & Hdel & Ht').
    destruct (inv_data _ _ _ _ Hi _ _ Hv) as (_ & Hget & _).
    destruct (memcached_delete (memc s) h) as [rc mc'] eqn:Hd. pose proof (delete_up (memc s) h ltac:(eauto)) as Hrc. rewrite Hd in Hrc. cbn in Hrc. subst rc.
    eexists _, (delete a m). split; [|split; [exact (inv_purged s f m lm h a p mc' t' Hi Hh Ha Hd Ht')|done]].
    unfold cbind at 1. rewrite (lock_entry_run _ _ _ Hp He eq_refl). set (s1 := set_entries _ s).
    assert (He1 : entries s1 !! p = Some (mkCache true (array h) false OnMemcached t)) by apply lookup_insert_eq.
    unfold cbind at 1. rewrite (entry_load_run _ _ _ Hp He1). cbn [on_ssd connection where_ hashkey]. rewrite (array_string h Hh).
    unfold cbind, cret at 1 2, on_mc at 1, sstack_memcache_remove, cbind, cget at 1. cbn [memc s1 set_entries]. rewrite Hd. cbn.
    unfold lock_cache, cbind, cget. cbn. rewrite (proj1 (inv_locks _ _ _ _ Hi)). cbn. unfold cache_delete, cbind, cget. cbn. rewrite Hdel. cbn.
    erewrite entry_load_run; [|done|exact He1]. cbn. by rewrite delete_insert_eq.
  - destruct Hf as (s' & -> & Hi' & Hm). exists s', m. split; [done|]. split; [|done]. destruct Hi' as [I1 I2 I3 I4 I5 I6 I7]. constructor; try done.
    + intros a k p Ha. destruct (I4 _ _ _ Ha) as (h' & t & -> & Hh' & [w Hw] & Hr). exists h', t. split; [done|]. split; [done|]. split; [|done].
      unfold upd. rewrite bool_decide_eq_false_2 by congruence. eauto.
    + intros h' w. unfold upd. case_bool_decide; [done|]. apply I5.
Qed.
(** What a client does to cache new data (lib/cache/test/test_cache.c): it
    allocates an entry, fills in the key and the connection, and stores. *)
Definition store_new (h : hash) (d : list Z) : cprog state Z :=
  (let! p := sstack_allocate_cache_entry in
   if p =? 0 then cret (-1)
   else
     let! e := load p in
     store p (mkCache (lock e) (array h) (on_ssd e) OnMemcached (time e)) ;;;
     sstack_cache_store memcmp fuel evict (Some d) p)%cprog.

Lemma store_full_run t lt en mc er n h d p a x b rest t' lt' mc' : digest h -> 0 < size d -> memcached_set mc h d = (0, mc') ->
  p <> 0 -> a <> 0 -> x <> 0 -> b <> 0 ->
  RBTreeInsert (compare_func memcmp) a (array h) p t = Ret t' -> RBTreeInsert lru_comp_func b n (lru_key (array h)) lt = Ret lt' ->
  store_new h d (mkState t false lt false en mc er n (p :: a :: x :: b :: rest)) =
    Ret (0, mkState t' false lt' false (<[p := mkCache false (array h) false OnMemcached n]> en) mc' er n rest).
Proof.
  intros Hh Hd Hset Hp Ha Hx Hb Ht Hlt. unfold store_new, sstack_allocate_cache_entry, malloc, cbind. cbn [memory].
  rewrite (proj2 (Z.eqb_neq p 0) Hp). cbn -[Z.eqb RBTreeInsert lru_key]. rewrite ?(proj2 (Z.eqb_neq p 0) Hp). erewrite entry_load_run; [|done|apply lookup_insert_eq]. cbn -[Z.eqb RBTreeInsert lru_key].
  erewrite entry_store_run; [|done|apply lookup_insert_eq]. cbn -[Z.eqb RBTreeInsert lru_key]. unfold set_entries. cbn -[Z.eqb RBTreeInsert lru_key]. rewrite insert_insert_eq.
  rewrite ?(proj2 (Z.eqb_neq p 0) Hp), (proj2 (Z.leb_gt _ _) Hd). cbn [orb].
  unfold cbind at 1. erewrite entry_load_run; [|done|apply lookup_insert_eq]. cbn [connection where_ hashkey]. rewrite (array_string h Hh).
  unfold cbind at 1 2 3, cret at 1 2, on_mc at 1, sstack_memcache_store at 1. cbn [memc]. rewrite (proj2 (Z.leb_gt _ _) Hd). unfold cbind at 1 2, cget at 1. rewrite Hset.
  cbn -[load store lock_cache cache_insert lru_insert_entry]. unfold cbind at 1. erewrite entry_load_run; [|done|apply lookup_insert_eq]. unfold cbind at 1, cget at 1. unfold cbind at 1.
  erewrite entry_store_run; [|done|apply lookup_insert_eq]. cbn -[load store lock_cache cache_insert lru_insert_entry]. unfold set_entries. cbn -[load store lock_cache cache_insert lru_insert_entry]. rewrite insert_insert_eq.
  unfold lock_cache, cache_insert, SafeMalloc, malloc, cbind, cget. cbn -[Z.eqb RBTreeInsert lru_key]. rewrite (proj2 (Z.eqb_neq a 0) Ha). cbn -[Z.eqb RBTreeInsert lru_key]. rewrite Ht. cbn -[Z.eqb RBTreeInsert lru_key].
  unfold lru_insert_entry, malloc, lock_lru, SafeMalloc, malloc, cbind, cget. cbn -[Z.eqb RBTreeInsert lru_key]. rewrite (proj2 (Z.eqb_neq x 0) Hx). cbn -[Z.eqb RBTreeInsert lru_key]. rewrite (proj2 (Z.eqb_neq b 0) Hb). cbn -[Z.eqb RBTreeInsert lru_key]. rewrite Hlt. done.
Qed.

Lemma cache_store_run s f m lm h d : inv s f m lm -> digest h -> f h = None -> 0 < size d -> (4 <= length (memory s))%nat ->
  exists s' m' lm', store_new h d s = Ret (0, s') /\ inv s' (upd f h (Some d)) m' lm' /\ memory s' = drop 4 (memory s).
Proof.
  intros [[I1 I1'] I2 I3 I4 I5 I6 (I7 & I8 & I9)] Hh Hf Hd Hmem.
  destruct s as [t cl lt ll en mc er n [|p [|a [|x [|b rest]]]]]; cbn in Hmem; try lia. cbn in *. subst cl ll.
  rewrite !list.NoDup_cons in I7. destruct I7 as (Np & Na & Nx & Nb & Nr). repeat setoid_rewrite not_elem_of_cons in I8. repeat setoid_rewrite not_elem_of_cons in Np. repeat setoid_rewrite not_elem_of_cons in Na. repeat setoid_rewrite not_elem_of_cons in Nx.
  destruct I8 as (P0 & A0 & X0 & B0 & R0). destruct Np as (Pa & Px & Pb & Pr). destruct Na as (Ax & Ab & Ar). destruct Nx as (Xb & Xr).
  destruct (I9 p ltac:(set_solver)) as (Mp & Lp & Ep). destruct (I9 a ltac:(set_solver)) as (Ma & La & Ea). destruct (I9 b ltac:(set_solver)) as (Mb & Lb & Eb).
  destruct (insert_refines _ _ _ _ (array h) p I2 Ma) as (t' & Ht & Hrep). rewrite <- (insert_agrees _ (compare_func memcmp) _ _ a (array h) p I2) in Ht
    by (intros b' k' j' (h' & t0 & -> & Hh' & _)%I4; by apply array_agree). destruct (insert_refines _ _ _ _ n (lru_key (array h)) I3 Lb) as (lt' & Hlt & Hlrep).
  destruct (memcached_set mc h d) as [rc mc'] eqn:Hset. pose proof (set_up mc h d (digest_key _ Hh)) as Hrc. rewrite Hset in Hrc. cbn in Hrc. subst rc.
  eexists _, _, _. split; [exact (store_full_run t lt en mc er n h d p a x b rest t' lt' mc' Hh Hd Hset ltac:(done) ltac:(done) ltac:(done) ltac:(done) Ht Hlt)|].
  split; [|done]. constructor; cbn; try done.
  - intros a' k q. rewrite lookup_insert_Some. intros [[<- [= <- <-]]|[Hne Hq]].
    + exists h, n. split; [done|]. split; [done|]. unfold upd. rewrite bool_decide_eq_true_2 by done. split; [eauto|]. split; [done|]. apply lookup_insert_eq.
    + destruct (I4 _ _ _ Hq) as (h' & u & -> & Hh' & [v Hv] & Hq0 & He). exists h', u. unfold upd. rewrite bool_decide_eq_false_2 by congruence.
      split; [done|]. split; [done|]. split; [eauto|]. split; [done|]. rewrite lookup_insert_ne; [done|]. congruence.
  - intros h' v. unfold upd. case_bool_decide as Hne.
    + subst h'. intros [= <-]. split; [done|]. split; [by eapply set_get|]. exists a, p. apply lookup_insert_eq.
    + intros Hv. destruct (I5 _ _ Hv) as (Hh' & Hg & a' & q & Ha'). split; [done|]. rewrite (set_other _ _ _ _ _ h' Hset Hne). split; [done|].
      exists a', q. rewrite lookup_insert_ne; [done|]. congruence.
  - assert (Hnew : forall a' k' q', m !! a' = Some (k', q') -> array h = k' \/ p = q' -> False).
    { intros a' k' q' Ha' [<-|<-]; destruct (I4 _ _ _ Ha') as (h' & u & Hk & Hh' & [v Hv] & Hq0 & He); [|congruence]. apply array_inj in Hk. congruence. }
    intros a1 k1 q1 a2 k2 q2. rewrite !lookup_insert_Some. intros [[<- [= <- <-]]|[N1 H1]] [[<- [= <- <-]]|[N2 H2]] He; [done| | |by eapply I6].
    + exfalso. by eapply Hnew.
    + exfalso. eapply Hnew; [exact H1|]. destruct He; auto.
  - split; [done|]. split; [done|]. intros c Hc. destruct (I9 c ltac:(set_solver)) as (H1 & H2 & H3). rewrite !lookup_insert_ne; [done|..]; intros ->; done.
Qed.
(** * Sequences of calls *)

Inductive op : Type :=
  | Store (h : hash) (d : list Z)
  | Search (h : hash)
  | Get (h : hash) (len : Z)
  | Purge (h : hash).
Inductive answer : Type :=
  | Code (r : Z)
  | Found (b : bool)
  | Data (d : option (list Z)).

Definition run_op (o : op) : cprog state answer :=
  (match o with
   | Store h d => let! r := store_new h d in cret (Code r)
   | Search h => let! p := sstack_cache_search memcmp (Some (array h)) in cret (Found (negb (p =? 0)))
   | Get h len => let! d := sstack_cache_get memcmp ssd_cache (Some (array h)) len in cret (Data d)
   | Purge h => let! r := sstack_cache_purge memcmp ssd_cache (Some (array h)) in cret (Code r)
   end)%cprog.

(** The time goes on between the calls. *)
Definition set_now (t : Z) (s : state) : state :=
  mkState (cache_tree s) (cache_lock s) (lru_tree s) (lru_lock s) (entries s) (memc s) (errno s) t (memory s).
Fixpoint run_ops (l : list (Z * op)) : cprog state (list answer) :=
  match l with
  | [] => cret []
  | (t, o) :: l => (cmod (set_now t) ;;; let! r := run_op o in let! rs := run_ops l in cret (r :: rs))%cprog
  end.

Definition spec_op (o : op) (f : hash -> option (list Z)) : answer * (hash -> option (list Z)) :=
  match o with
  | Store h d => (Code 0, upd f h (Some d))
  | Search h => (Found (if f h then true else false), f)
  | Get h _ => (Data (f h), f)
  | Purge h => (Code (if f h then 0 else -1), upd f h None)
  end.
Fixpoint spec_ops (l : list (Z * op)) (f : hash -> option (list Z)) : list answer * (hash -> option (list Z)) :=
  match l with
  | [] => ([], f)
  | (_, o) :: l => let '(r, f) := spec_op o f in let '(rs, f) := spec_ops l f in (r :: rs, f)
  end.

(** Digests are given; what is stored is new and not empty. *)
Definition legal (o : op) (f : hash -> option (list Z)) : Prop :=
  match o with Store h d => digest h /\ f h = None /\ 0 < size d | Search h | Get h _ | Purge h => digest h end.
Fixpoint legal_ops (l : list (Z * op)) (f : hash -> option (list Z)) : Prop :=
  match l with [] => True | (_, o) :: l => legal o f /\ legal_ops l (spec_op o f).2 end.
(** The calls of [malloc] of an operation. *)
Definition needs (o : op) : nat := match o with Store _ _ => 4 | _ => 0 end.
Definition all_needs (l : list (Z * op)) : nat := list_sum ((fun x => needs x.2) <$> l).

Definition holds (s : state) (f : hash -> option (list Z)) : Prop := exists m lm, inv s f m lm.

Lemma cache_op_refines o s f : holds s f -> legal o f -> (needs o <= length (memory s))%nat ->
  exists s', run_op o s = Ret ((spec_op o f).1, s') /\ holds s' (spec_op o f).2 /\ memory s' = drop (needs o) (memory s).
Proof.
  intros (m & lm & Hi) Hl Hn. destruct o as [h d|h|h len|h]; cbn [legal needs spec_op fst snd run_op] in *; unfold cbind.
  - destruct Hl as (Hh & Hf & Hd). destruct (cache_store_run s f m lm h d Hi Hh Hf Hd Hn) as (s' & m' & lm' & -> & Hi' & Hm). exists s'. split; [done|]. split; [by exists m', lm'|done].
  - destruct (cache_search_run s f m lm h Hi Hl) as (p & s' & -> & Hp & Hi' & Hm). exists s'. split; [|split; [by exists m, lm|done]].
    unfold cret. do 3 f_equal. destruct (f h) as [v|]; destruct (Z.eqb_spec p 0) as [Hz|Hz]; try done.
    + exfalso. by apply (proj2 Hp); [eauto|].
    + exfalso. by apply Hp in Hz as [? ?].
  - destruct (cache_get_run s f m lm h len Hi Hl) as (s' & -> & Hi' & Hm). exists s'. split; [done|]. split; [by exists m, lm|done].
  - destruct (cache_purge_run s f m lm h Hi Hl) as (s' & m' & -> & Hi' & Hm). exists s'. split; [done|]. split; [by exists m', lm|done].
Qed.

Lemma holds_now s f t : holds s f -> holds (set_now t s) f.
Proof. intros (m & lm & []). exists m, lm. by constructor. Qed.

Lemma run_ops_refine l : forall s f, holds s f -> legal_ops l f -> (all_needs l <= length (memory s))%nat ->
  exists s', run_ops l s = Ret ((spec_ops l f).1, s') /\ holds s' (spec_ops l f).2.
Proof.
  induction l as [|[t o] l IH]; intros s f Hh Hl Hn; [by exists s|]. destruct Hl as [Ho Hl].
  change (needs o + all_needs l <= length (memory s))%nat in Hn.
  destruct (cache_op_refines o (set_now t s) f (holds_now s f t Hh) Ho) as (s1 & Hs1 & Hh1 & Hm); [cbn; lia|].
  destruct (IH s1 _ Hh1 Hl) as (s2 & Hs2 & Hh2); [rewrite Hm, length_drop; cbn; lia|].
  exists s2. cbn [run_ops spec_ops]. unfold cbind, cmod. rewrite Hs1, Hs2. destruct (spec_op o f) as [r f1]. cbn in *. by destruct (spec_ops l f1) as [rs f2].
Qed.

(** C5. From [cache_init] on, any sequence of stores of new keys, searches, reads
    and purges answers as a table from digests to data does, while memcached
    takes the data and [malloc] has memory, for digests without a NUL between
    which [memcmp] answers -1, 0 or 1, whatever else it answers. A read answers
    the data that was stored, whatever length it asks for. *)
Theorem cache_refines l s : legal_ops l (fun _ => None) -> (all_needs l <= length (memory s))%nat ->
  NoDup (memory s) -> 0 ∉ memory s -> (forall a, a ∈ memory s -> entries s !! a = None) ->
  exists s', cbind (cache_init true) (fun _ => run_ops l) s = Ret ((spec_ops l (fun _ => None)).1, s') /\ holds s' (spec_ops l (fun _ => None)).2.
Proof.
  intros Hl Hn Hnd H0 Hent. unfold cbind at 1, cache_init. cbn. apply run_ops_refine; [|done|done]. exists ∅, ∅. constructor; cbn; try done.
  - apply rep_empty.
  - apply rep_empty.
  - split; [done|]. split; [done|]. intros a Ha. by rewrite !lookup_empty, Hent.
Qed.
End Refinement.
(** * What goes wrong *)

Lemma walk_left_never fuel top : forall c, walk_left fuel top c = None.
Proof. induction fuel as [|fuel IH]; intros c; [done|]. destruct c as [|[|c e l r]]; apply IH. Qed.

Section Faults.
Context {M : Type} `{Memcached M} (memcmp : list Z -> list Z -> Z) (ssd_cache : option ssd_ops).

Lemma evict_never fuel evict (s : @state M) : sstack_memcache_evict_objects fuel evict s = Fault Deadlock.
Proof.
  unfold sstack_memcache_evict_objects, lru_demote_entries, cbind at 1. change (NUM_EVICT <=? 0) with false. change (Z.to_nat NUM_EVICT) with 8%nat. cbn [demote_loop].
  unfold leftmost_node, lock_lru, cbind, cget. destruct (lru_lock s); [done|]. unfold cput. by rewrite walk_left_never.
Qed.

(** C36. When memcached has no memory left, storing does not return: the search for
    the oldest entry walks on at the sentinel of the tree, whatever is to be
    done with the entry. *)
Theorem full_store_never_returns fuel evict d p e n (s : @state M) :
  p <> 0 -> 0 < size d -> entries s !! p = Some e -> where_ e = OnMemcached -> strlen (hashkey e) = Some n ->
  (memcached_set (memc s) (cstr (hashkey e)) d).1 = MEMCACHED_MEMORY_ALLOCATION_FAILURE ->
  sstack_cache_store memcmp fuel evict (Some d) p s = Fault Deadlock.
Proof.
  intros Hp Hd He Hw Hn Hset. unfold sstack_cache_store. rewrite (proj2 (Z.eqb_neq p 0) Hp), (proj2 (Z.leb_gt _ _) Hd). cbn [orb].
  unfold cbind at 1. rewrite (entry_load_run p e s Hp He). unfold connection. rewrite Hw. unfold key_string. rewrite Hn.
  unfold cbind at 1 2 3, cret at 1 2, on_mc at 1, sstack_memcache_store at 1. rewrite (proj2 (Z.leb_gt _ _) Hd). unfold cbind at 1 2, cget at 1.
  destruct (memcached_set (memc s) _ d) as [rc m]. cbn in Hset. subst rc.
  unfold cput, cret at 1. change (if MEMCACHED_MEMORY_ALLOCATION_FAILURE =? MEMCACHED_SUCCESS then 0 else - MEMCACHED_MEMORY_ALLOCATION_FAILURE) with (-17).
  change (- MEMCACHED_MEMORY_ALLOCATION_FAILURE) with (-17). cbn [negb Z.eqb Pos.eqb]. unfold cbind at 1 2. by rewrite evict_never.
Qed.

(** A purge that memcached refuses answers -1 and keeps the lock of the entry:
    the next read and the next purge of the key wait for ever. *)
Theorem failed_purge_keeps_lock hash node k t n (s : @state M) :
  cache_lock s = false -> RBExactQuery (compare_func memcmp) (cache_tree s) hash = Some node -> info node <> 0 ->
  entries s !! info node = Some (mkCache false k false OnMemcached t) -> strlen k = Some n ->
  (memcached_delete (memc s) (cstr k)).1 = MEMCACHED_FAILURE ->
  exists s', sstack_cache_purge memcmp ssd_cache (Some hash) s = Ret (-1, s') /\
    sstack_cache_purge memcmp ssd_cache (Some hash) s' = Fault Deadlock /\
    forall len, sstack_cache_get memcmp ssd_cache (Some hash) len s' = Fault Deadlock.
Proof.
  intros Hl Hq Hp He Hn Hd. destruct (memcached_delete (memc s) (cstr k)) as [rc m] eqn:Hdel. cbn in Hd. subst rc.
  assert (Hfind : forall s1 : @state M, cache_lock s1 = false -> cache_tree s1 = cache_tree s -> find_entry memcmp hash s1 = Ret (Some node, s1)).
  { intros s1 H1 H2. unfold find_entry, lock_cache, cbind, cget. rewrite H1. cbn. rewrite H2, Hq. destruct s1. cbn in *. by subst. }
  eexists. split.
  - unfold sstack_cache_purge, cbind at 1. rewrite Hfind by done. unfold cbind at 1. rewrite (lock_entry_run _ _ _ Hp He eq_refl). set (s1 := set_entries _ s).
    assert (He1 : entries s1 !! info node = Some (mkCache true k false OnMemcached t)) by apply lookup_insert_eq.
    unfold cbind at 1. rewrite (entry_load_run _ _ _ Hp He1). cbn [on_ssd connection where_ hashkey]. unfold key_string. rewrite Hn.
    unfold cbind, cret at 1 2, on_mc at 1, sstack_memcache_remove, cbind, cget at 1. subst s1. cbn [memc set_entries].
    rewrite Hdel. cbn. reflexivity.
  - split; [|intros len]; unfold sstack_cache_purge, sstack_cache_get, cbind at 1; rewrite Hfind by done; unfold cbind at 1, lock_entry, cbind;
      (erewrite entry_load_run; [|done|apply lookup_insert_eq]); done.
Qed.

(** Where [memcmp] answers other numbers than -1 and 1 for different digests,
    they are taken for equal: in a cache of one entry the purge of another
    digest answers 0, removes the data of the entry from memcached and frees
    the entry. *)
Theorem purge_takes_other_entry k k' a p t n mc' (s : @state M) :
  memcmp (take SHA256_DIGEST_LENGTH k) (take SHA256_DIGEST_LENGTH k') <> 1 -> memcmp (take SHA256_DIGEST_LENGTH k) (take SHA256_DIGEST_LENGTH k') <> -1 ->
  cache_lock s = false -> cache_tree s = N false (mkElem a k p) Nil Nil -> p <> 0 ->
  entries s !! p = Some (mkCache false k false OnMemcached t) -> strlen k = Some n -> memcached_delete (memc s) (cstr k) = (0, mc') ->
  exists s', sstack_cache_purge memcmp ssd_cache (Some k') s = Ret (0, s') /\ memc s' = mc' /\ entries s' !! p = None /\ cache_tree s' = Nil.
Proof.
  intros H1 H2 Hl Ht Hp He Hn Hd.
  assert (Hc : compare_func memcmp k k' = 0).
  { unfold compare_func. destruct (memcmp _ _) as [|[]|[]] eqn:E; try done. }
  assert (Hfind : find_entry memcmp k' s = Ret (Some (mkElem a k p), s)).
  { unfold find_entry, lock_cache, cbind, cget. rewrite Hl. cbn. rewrite Ht. cbn. rewrite Hc. cbn. destruct s. cbn in *. by subst. }
  unfold sstack_cache_purge, cbind at 1. rewrite Hfind. cbn [info addr]. unfold cbind at 1. rewrite (lock_entry_run _ _ _ Hp He eq_refl). set (s1 := set_entries _ s).
  assert (He1 : entries s1 !! p = Some (mkCache true k false OnMemcached t)) by apply lookup_insert_eq.
  unfold cbind at 1. rewrite (entry_load_run _ _ _ Hp He1). cbn [on_ssd connection where_ hashkey]. unfold key_string. rewrite Hn.
  unfold cbind, cret at 1 2, on_mc at 1, sstack_memcache_remove, cbind, cget at 1. cbn [memc s1 set_entries]. rewrite Hd. cbn.
  unfold lock_cache, cbind, cget. cbn. rewrite Hl. cbn. unfold cache_delete, cbind, cget. cbn. rewrite Ht. unfold RBDelete. cbn -[Z.eqb]. rewrite Z.eqb_refl. cbn.
  erewrite entry_load_run; [|done|exact He1]. cbn. eexists. split; [reflexivity|]. cbn. split; [done|]. split; [apply lookup_delete_eq|done].
Qed.
End Faults.
End Cache.

(** * Examples *)

Module CacheDemo.
Import OssTree Memcache Cache.

Definition ones : list Z := replicate 32 1.
Definition twos : list Z := replicate 32 2.

(** A [memcmp] that answers the difference of the first bytes that differ. *)
Fixpoint diffcmp (a b : list Z) : Z :=
  match a, b with x :: a, y :: b => if x =? y then diffcmp a b else x - y | _, _ => 0 end.
#[local] Instance diff_memcmp : Memcmp diffcmp.
Proof.
  intros a. induction a as [|x a IH]; intros [|y b] Hl Ha Hb; try done. cbn.
  apply list.Forall_cons in Ha as [Hx Ha]. apply list.Forall_cons in Hb as [Hy Hb].
  destruct (Z.eqb_spec x y) as [->|Hne].
  - rewrite Z.ltb_irrefl. apply IH; [by injection Hl|done|done].
  - destruct (Z.ltb_spec x y); [lia|]. rewrite (proj2 (Z.ltb_lt y x)) by lia. lia.
Qed.

(** Two digests whose first bytes differ by one. *)
Definition in_use (h : list Z) : Prop := h = ones \/ h = twos.
Lemma in_use_apart h h' : in_use h -> in_use h' -> -1 <= diffcmp h h' <= 1.
Proof. intros [->| ->] [->| ->]; vm_compute; split; discriminate. Qed.
Lemma ones_digest : digest (fun _ => True) in_use ones.
Proof. split; [done|by apply Forall_replicate|done|by left]. Qed.
Lemma twos_digest : digest (fun _ => True) in_use twos.
Proof. split; [done|by apply Forall_replicate|done|by right]. Qed.

Definition demo_cache : @state cache := mkState Nil false Nil false ∅ [] 0 0 [100; 101; 102; 103; 104; 105; 106; 107].
Definition demo_calls : list (Z * op) :=
  [(10, Store ones [5]); (11, Store twos [6; 7]); (12, Get ones 0); (13, Purge ones); (14, Get ones 0); (15, Search twos)].
Definition no_evict : cursor -> cprog (@state cache) (option Z) := fun _ => cret None.

Lemma demo_legal : legal_ops (fun _ => True) in_use demo_calls (fun _ => None).
Proof. pose proof ones_digest. pose proof twos_digest. by split_and!. Qed.

Lemma cache_refines_witness : exists s', cbind (cache_init true) (fun _ => run_ops diffcmp None 5 no_evict demo_calls) demo_cache =
  Ret ([Code 0; Code 0; Data (Some [5]); Code 0; Data None; Found true], s').
Proof.
  destruct (cache_refines (fun _ => True) diffcmp None 5 no_evict in_use in_use_apart demo_calls demo_cache) as (s' & Hs & _).
  - exact demo_legal.
  - cbn. lia.
  - cbn [demo_cache memory]. apply (bool_decide_eq_true_1 _). vm_compute. reflexivity.
  - cbn [demo_cache memory]. apply (bool_decide_eq_true_1 _). vm_compute. reflexivity.
  - intros a _. apply lookup_empty.
  - exists s'. exact Hs.
Defined.

(** Servers without memory, and ones that refuse to delete. *)
Definition full : Memcached unit := {| memcached_get _ _ := None; memcached_set _ _ _ := (MEMCACHED_MEMORY_ALLOCATION_FAILURE, tt); memcached_delete _ _ := (MEMCACHED_FAILURE, tt) |}.
#[local] Existing Instance full.
Definition one_entry {M} (m : M) : @state M :=
  mkState (N false (mkElem 101 (array ones) 100) Nil Nil) false Nil false {[100 := mkCache false (array ones) false OnMemcached 0]} m 0 0 [].

Lemma full_store_never_returns_witness : sstack_cache_store lexcmp 1000 (fun _ => cret None) (Some [5]) 100 (one_entry tt) = Fault Deadlock.
Proof. apply (full_store_never_returns lexcmp 1000 _ [5] 100 (mkCache false (array ones) false OnMemcached 0) 32); reflexivity || discriminate. Defined.

Lemma failed_purge_keeps_lock_witness : exists s', sstack_cache_purge lexcmp None (Some (array ones)) (one_entry tt) = Ret (-1, s') /\
  sstack_cache_purge lexcmp None (Some (array ones)) s' = Fault Deadlock /\
  forall len, sstack_cache_get lexcmp None (Some (array ones)) len s' = Fault Deadlock.
Proof. apply (failed_purge_keeps_lock lexcmp None _ (mkElem 101 (array ones) 100) (array ones) 0 32); reflexivity || discriminate. Defined.

Lemma purge_takes_other_entry_witness : exists s', sstack_cache_purge diffcmp None (Some (array (replicate 32 3))) (one_entry [(ones, [5])]) = Ret (0, s') /\
  memc s' = [] /\ entries s' !! 100 = None /\ cache_tree s' = Nil.
Proof. apply (purge_takes_other_entry diffcmp None (array ones) _ 101 100 0 32); reflexivity || discriminate. Defined.
End CacheDemo.
