(* ===== verification/FileOps.v ===== *)
(** The operations on names and attributes of files (sfs/src/sfs_entry.c):
    [sfs_getattr], [sfs_readlink], [sfs_mkdir], [sfs_symlink], [sfs_rename],
    [sfs_link], [sfs_chmod], [sfs_chown], [sfs_truncate], [sfs_open],
    [sfs_access], [sfs_create], [sfs_ftruncate].

    A path leads to the number of an inode through memcached (the reverse
    lookup), the inode is locked ([LockTree]) and is read from and written to
    the database ([InodeStore]). The file system below, memcached and the
    database are behind interfaces. *)
From Stdlib Require Import ZArith Lia String.
From stdpp Require Import base gmap list numbers.
From S2P Require Import Prelude CString CFormat KeyTree LockTree InodeStore InodeFields Xattr Memcache.
Import InodeStore.

Module FileOps.
Import Xattr InodeFields Memcache.

Definition EACCES : Z := 13.
Definition SFS_DIR : list Z := bytes "/var/sfs".
Definition REGFILE : Z := 1.
Definition DIRECTORY : Z := 2.
Definition SYMLINK : Z := 3.
Definition HARDLINK : Z := 4.
Definition BLOCKDEV : Z := 5.
Definition CHARDEV : Z := 6.
Definition SOCKET_TYPE : Z := 7.
Definition FIFO : Z := 8.
Definition UNKNOWN : Z := 9.
Definition F_OK : Z := 0.

(** * The services *)

(** The fields of a [struct stat] that the code uses; a time is the 16 bytes
    of a [struct timespec]. *)
Record stat : Type := mkStat {
  st_mode : Z;
  st_uid : Z;
  st_gid : Z;
  st_nlink : Z;
  st_size : Z;
  st_blocks : Z;
  st_atime : list Z;
  st_ctime : list Z;
  st_mtime : list Z
}.

(** The system calls; a path that could not be built is NULL. [Clock] answers
    with the time in [st_atime]. *)
Inductive syscall : Type :=
  | Lstat (path : option (list Z))
  | Stat (path : option (list Z))
  | Mkdir (path : option (list Z)) (mode : Z)
  | Rmdir (path : list Z)
  | Unlink (path : list Z)
  | Symlink (from to : list Z)
  | Link (from to : list Z)
  | Chmod (path : option (list Z)) (mode : Z)
  | Chown (path : list Z) (uid gid : Z)
  | Truncate (path : list Z) (size : Z)
  | Ftruncate (fd size : Z)
  | Open (path : option (list Z)) (flags : Z)
  | Creat (path : option (list Z)) (mode : Z)
  | Close (fd : Z)
  | Utimens (path : option (list Z)) (times : list Z)
  | Getuid
  | Getgid
  | Clock.

(** The return value, [errno] when that is -1, and the structure filled. *)
Class Posix (F : Type) := sys : F -> syscall -> (Z * Z * stat) * F.

Section FileOps.
Context {T : Type} `{KeyTree T} {D : Type} `{InodeDb D} {M : Type} `{Memcached M} {F : Type} `{Posix F}.
(** The arguments of [InodeStore]. *)
Context (moves : bool) (ptr after : list Z).

Record mstate : Type := mkMs {
  xs : @xstate T D;
  mc : M;
  fs : F;
  inode_number : Z
}.

Definition on_x {A} (c : cprog (@xstate T D) A) : cprog mstate A := fun s =>
  match c (xs s) with
  | Ret (a, x) => Ret (a, mkMs x (mc s) (fs s) (inode_number s))
  | Fault f => Fault f
  end.
Definition take_lock (c : cprog (@LockTree.state T) Z) : cprog mstate Z := on_x (on_locks c).
Definition unlock (n : Z) : cprog mstate Z := on_x (on_locks (LockTree.sfs_unlock n)).
Definition set_err (e : Z) : cprog mstate unit := on_x (put_errno e).
(** [errno = e; return r;] *)
Definition fail {A} (e : Z) (r : A) : cprog mstate A := (set_err e ;;; cret r)%cprog.

Definition syscall_stat (c : syscall) : cprog mstate (Z * stat) :=
  (let! s := cget in
   let '((r, e, st), f) := sys (fs s) c in
   cput (mkMs (xs s) (mc s) f (inode_number s)) ;;;
   (if r =? -1 then set_err e else cret tt) ;;;
   cret (r, st))%cprog.
Definition do_sys (c : syscall) : cprog mstate Z := (let! r := syscall_stat c in cret r.1)%cprog.

(** * Memcached *)

Definition on_mc {A} (c : cprog M A) : cprog mstate A := fun s =>
  match c (mc s) with
  | Ret (a, m) => Ret (a, mkMs (xs s) m (fs s) (inode_number s))
  | Fault f => Fault f
  end.
Definition mc_store (key value : list Z) : cprog mstate Z := on_mc (sstack_memcache_store key value).
Definition mc_remove (key : list Z) : cprog mstate Z := on_mc (sstack_memcache_remove key).
Definition mc_read_one (key : list Z) : cprog mstate (option (list Z)) := on_mc (sstack_memcache_read_one key).

(** [(unsigned long long) atoll(inodestr)] *)
Definition inode_of (inodestr : list Z) : Z := uwrap 64 (atoll (cstr inodestr)).
(** [sprintf(inode_str, "%lld", n)], with its NUL. *)
Definition inode_str (n : Z) : list Z := (fmt_lld n ++ [0])%list.

(** * The operations *)

(** What surrounds a call: the memory for a lock, whether a path and an inode
    can be allocated, and what is on the stack before it is filled. *)
Record call : Type := mkCall {
  lock_mem : Z;
  path_mem : bool;
  inode_mem : bool;
  stack : sstack_inode;
  junk_stat : stat
}.

Definition prepend_mntpath (mem : bool) (path : list Z) : option (list Z) :=
  if mem then Some (SFS_DIR ++ path)%list else None.

Definition get_free_inode : cprog mstate Z :=
  (cmod (fun s => mkMs (xs s) (mc s) (fs s) (uwrap 64 (inode_number s + 1))) ;;;
   let! s := cget in cret (inode_number s))%cprog.

(** [strcpy(inode.i_name, s)] *)
Definition copy_name (s f : list Z) : cprog mstate (list Z) :=
  if size s <? PATH_MAX then cret (set_name s f) else cfault OutOfBounds.

Definition rdlock (c : call) (n : Z) : cprog mstate Z := take_lock (LockTree.sfs_rdlock (lock_mem c) 0 n).
Definition wrlock (c : call) (n : Z) : cprog mstate Z := take_lock (LockTree.sfs_wrlock (lock_mem c) 0 n).

(** The beginning that most operations share: the reverse lookup, the lock and
    the inode, which is read into [mem]. *)
Definition with_found {A} (failed : A) (path : list Z) (lock : Z -> cprog mstate Z) (mem : sstack_inode)
    (body : list Z -> Z -> sstack_inode -> cprog mstate A) : cprog mstate A :=
  (let! v := mc_read_one path in
   match v with
   | None => fail ENOENT failed
   | Some v =>
       let n := inode_of v in
       let! ret := lock n in
       if ret =? -1 then fail EAGAIN failed
       else
         let! r := on_x (on_db (get_inode ptr n mem)) in
         if r.1 =? 0 then body v n r.2
         else set_err r.1 ;;; unlock n ;;; cret failed
   end)%cprog.
Definition with_file {A} (failed : A) (path : list Z) (lock : Z -> cprog mstate Z) (mem : sstack_inode)
    (body : Z -> sstack_inode -> cprog mstate A) : cprog mstate A :=
  with_found failed path lock mem (fun _ => body).

(** The answer has the structure filled. *)
Definition sfs_getattr (c : call) (path : option (list Z)) (stbuf : bool) : cprog mstate (Z * option stat) :=
  (if negb (inode_mem c) then cret (- ENOMEM, None)
   else
     match path with
     | None => fail EINVAL (-1, None)
     | Some path =>
         if negb stbuf then fail EINVAL (-1, None)
         else
           let! r := syscall_stat (Lstat (prepend_mntpath (path_mem c) path)) in
           if r.1 =? -1 then
             let! s := cget in cret (- LockTree.errno (lt (xs s)), None)
           else
             with_file (-1, None) path (rdlock c) zero_inode (fun n ino =>
               unlock n ;;;
               let st := r.2 in
               cret (0, Some (mkStat (st_mode st) (st_uid st) (st_gid st) (st_nlink st) (i_size (i_fixed ino))
                                (st_blocks st) (st_atime st) (st_ctime st) (st_mtime st))))
     end)%cprog.

(** [strncpy(buf, s, n)] from the array [s]. *)
Definition strncpy (n : Z) (s buf : list Z) : cprog mstate (list Z) :=
  let x := cstr (take (Z.to_nat n) s) in
  if (size buf <? n) || ((size s <? n) && bool_decide (strlen s = None)) then cfault OutOfBounds
  else cret (x ++ replicate (Z.to_nat n - length x) 0 ++ drop (Z.to_nat n) buf)%list.

(** The answer has the caller's buffer. *)
Definition sfs_readlink (c : call) (path : option (list Z)) (buf : option (list Z)) : cprog mstate (Z * list Z) :=
  (match path, buf with
   | Some path, Some buf =>
       if size buf =? 0 then fail EINVAL (-1, buf)
       else
         with_file (-1, buf) path (rdlock c) (stack c) (fun n ino =>
           unlock n ;;;
           if negb (i_type (i_fixed ino) =? SYMLINK) then fail EINVAL (-1, buf)
           else if i_numextents (i_fixed ino) <=? 0 then fail EFAULT (-1, buf)
           else
             let! e := cexpect OutOfBounds (i_extent ino !! 0) in
             let! p := read_ptr (e_path e) SIZEOF_HANDLE in
             let! buf := strncpy (le (sub 0 8 p)) (sub 8 PATH_MAX p) buf in
             cret (0, buf))
   | _, _ => fail EINVAL (-1, default [] buf)
   end)%cprog.

(** The end of the operations that make an inode. *)
Definition store_new (path : list Z) (ino : sstack_inode) : cprog mstate Z :=
  (let! ret := on_x (on_db (put_inode moves ino after 0)) in
   if negb (ret =? 0) then cret (-1)
   else
     let! ret := mc_store path (inode_str (i_num (i_fixed ino))) in
     cret (if ret =? 0 then 0 else -1))%cprog.

(** [rmdir] gets the path without the mount point. *)
Definition sfs_mkdir (c : call) (path : option (list Z)) (mode : Z) : cprog mstate Z :=
  (match path with
   | None => fail EINVAL (-1)
   | Some path =>
       let fullpath := prepend_mntpath (path_mem c) path in
       let! ret := do_sys (Mkdir fullpath mode) in
       if ret =? -1 then cret (-1)
       else
         let! num := get_free_inode in
         let! f := copy_name path (set_num num (i_fixed (stack c))) in
         let! uid := do_sys Getuid in
         let! gid := do_sys Getgid in
         let st := junk_stat c in
         let f := set_type DIRECTORY (set_mode mode (set_gid gid (set_uid uid f))) in
         let f := set_mtime (st_mtime st) (set_ctime (st_ctime st) (set_atime (st_atime st) f)) in
         let! r := syscall_stat (Stat fullpath) in
         if r.1 =? -1 then
           set_err EACCES ;;; do_sys (Rmdir path) ;;; cret (-1)
         else
           let st := r.2 in
           let f := set_links (st_nlink st) (set_ondisksize (st_size st) (set_size (st_size st) f)) in
           let f := set_xattrlen 0 (set_numerasure 0 (set_numextents 0 (set_numreplicas 0 f))) in
           store_new path (mkInode f None ∅ ∅ (i_sfsds (stack c)))
   end)%cprog.

(** [sfs_symlink] and [sfs_link] after the system call: [status] was never
    filled. *)
Definition new_link (c : call) (to : list Z) (type : Z) : cprog mstate Z :=
  (let! num := get_free_inode in
   let! f := copy_name to (set_num num (i_fixed (stack c))) in
   let st := junk_stat c in
   let f := set_type type (set_mode (st_mode st) (set_gid (st_gid st) (set_uid (st_uid st) f))) in
   let f := set_mtime (st_mtime st) (set_ctime (st_ctime st) (set_atime (st_atime st) f)) in
   let f := set_ondisksize (st_blocks st * 512) (set_size (st_size st) f) in
   let f := set_xattrlen 0 (set_numerasure 0 (set_numextents 0 (set_numreplicas 1 f))) in
   store_new to (mkInode (set_links (st_nlink st) f) None ∅ ∅ (i_sfsds (stack c))))%cprog.

Definition sfs_symlink (c : call) (from to : option (list Z)) : cprog mstate Z :=
  (match from, to with
   | Some from, Some to =>
       let! ret := do_sys (Symlink from to) in
       if ret =? -1 then cret (-1) else new_link c to SYMLINK
   | _, _ => fail EINVAL (-1)
   end)%cprog.
Definition sfs_link (c : call) (from to : option (list Z)) : cprog mstate Z :=
  (match from, to with
   | Some from, Some to =>
       let! ret := do_sys (Link from to) in
       if ret =? -1 then cret (-1) else new_link c to HARDLINK
   | _, _ => fail EINVAL (-1)
   end)%cprog.

(** The file below is not renamed. *)
Definition sfs_rename (c : call) (from to : list Z) : cprog mstate Z :=
  with_found (-1) from (wrlock c) (stack c) (fun v n ino =>
    (let! f := copy_name to (i_fixed ino) in
      let! ret := on_x (on_db (put_inode moves (with_fixed f ino) after 1)) in
      if ret =? -1 then unlock n ;;; cret (-1)
      else
        let! ret := mc_remove from in
        if negb (ret =? 0) then unlock n ;;; cret (-1)
        else
          let! ret := mc_store to (cstr v ++ [0])%list in
          if negb (ret =? 0) then unlock n ;;; cret (-1)
          else unlock n ;;; cret 0)%cprog).

(** The end of the operations that change an attribute: [strict] is the test
    for 0, the other one is for -1. *)
Definition store_back (strict : bool) (n : Z) (ino : sstack_inode) : cprog mstate Z :=
  (let! ret := on_x (on_db (put_inode moves ino after 1)) in
   unlock n ;;;
   cret (if (if strict then negb (ret =? 0) else ret =? -1) then -1 else 0))%cprog.

Definition sfs_chmod (c : call) (path : option (list Z)) (mode : Z) : cprog mstate Z :=
  (match path with
   | None => fail ENOENT (-1)
   | Some path =>
       let! ret := do_sys (Chmod (prepend_mntpath (path_mem c) path) mode) in
       if ret =? -1 then cret (-1)
       else with_file (-1) path (wrlock c) (stack c) (fun n ino =>
              store_back false n (with_fixed (set_mode mode (i_fixed ino)) ino))
   end)%cprog.

Definition sfs_chown (c : call) (path : option (list Z)) (uid gid : Z) : cprog mstate Z :=
  (match path with
   | None => fail ENOENT (-1)
   | Some path =>
       let! ret := do_sys (Chown path uid gid) in
       if ret =? -1 then cret (-1)
       else with_file (-1) path (wrlock c) (stack c) (fun n ino =>
              store_back false n (with_fixed (set_gid gid (set_uid uid (i_fixed ino))) ino))
   end)%cprog.

Definition set_file_size (c : call) (path : list Z) (size : Z) : cprog mstate Z :=
  with_file (-1) path (wrlock c) (stack c) (fun n ino =>
    store_back true n (with_fixed (set_size size (i_fixed ino)) ino)).

Definition sfs_truncate (c : call) (path : option (list Z)) (size : Z) : cprog mstate Z :=
  (match path with
   | None => fail ENOENT (-1)
   | Some path =>
       let! ret := do_sys (Truncate path size) in
       if ret =? -1 then cret (-1) else set_file_size c path size
   end)%cprog.

(** [fi] is the file descriptor that FUSE keeps. *)
Definition sfs_ftruncate (c : call) (path : option (list Z)) (offset : Z) (fi : option Z) : cprog mstate Z :=
  (match path, fi with
   | Some path, Some fh =>
       let! ret := do_sys (Ftruncate fh offset) in
       if ret =? -1 then cret (-1) else set_file_size c path offset
   | _, _ => fail ENOENT (-1)
   end)%cprog.

Definition sfs_access (c : call) (path : option (list Z)) (mode : Z) : cprog mstate Z :=
  (match path with
   | None => fail EINVAL (-1)
   | Some path =>
       if mode =? 0 then fail EINVAL (-1)
       else if bool_decide (path = bytes "/") then cret 0
       else
         with_file (-1) path (rdlock c) (stack c) (fun n ino =>
           if negb (Z.land mode F_OK =? 0) then unlock n ;;; cret 0
           else if negb (Z.land (i_mode (i_fixed ino)) mode =? 0) then unlock n ;;; cret 0
           else set_err EACCES ;;; unlock n ;;; cret (-1))
   end)%cprog.

(** [switch (mode & S_IFMT)] *)
Definition type_of_mode (mode : Z) : Z :=
  let t := Z.land mode 0xf000 in
  if t =? 0x4000 then DIRECTORY
  else if t =? 0x8000 then REGFILE
  else if t =? 0xa000 then SYMLINK
  else if t =? 0x6000 then BLOCKDEV
  else if t =? 0x2000 then CHARDEV
  else if t =? 0x1000 then FIFO
  else if t =? 0xc000 then SOCKET_TYPE
  else UNKNOWN.

(** The answer has the file descriptor for FUSE. *)
Definition sfs_create (c : call) (path : option (list Z)) (mode : Z) : cprog mstate (Z * option Z) :=
  (match path with
   | None => fail EINVAL (-1, None)
   | Some path =>
       let fullpath := prepend_mntpath (path_mem c) path in
       let! fd := do_sys (Creat fullpath mode) in
       if fd =? -1 then fail EACCES (-1, None)
       else if negb (inode_mem c) then cfault UseAfterFree (* unlink(fullpath) *)
       else
         let! num := get_free_inode in
         let! f := copy_name path (set_num num (i_fixed zero_inode)) in
         let! uid := do_sys Getuid in
         let! gid := do_sys Getgid in
         let f := set_type (type_of_mode mode) (set_mode mode (set_gid gid (set_uid uid f))) in
         let! t := syscall_stat Clock in
         let ts := st_atime t.2 in
         let f := set_links 1 (set_mtime ts (set_ctime ts (set_atime ts f))) in
         let! ret := store_new path (with_fixed f zero_inode) in
         if ret =? -1 then do_sys (Close fd) ;;; cret (-1, Some fd)
         else on_x (on_db (get_inode ptr 3 zero_inode)) ;;; cret (0, Some fd)
   end)%cprog.

(** No lock is taken, and [status] is never filled. *)
Definition sfs_open (c : call) (path : option (list Z)) (flags : option Z) : cprog mstate (Z * option Z) :=
  (match path, flags with
   | Some path, Some flags =>
       let! fd := do_sys (Open (prepend_mntpath (path_mem c) path) flags) in
       if fd =? -1 then cret (-1, None)
       else
         let! v := mc_read_one path in
         if negb (inode_mem c) then cret (- ENOMEM, Some fd)
         else
           let! v := cexpect NullDeref v in
           let! r := on_x (on_db (get_inode ptr (inode_of v) zero_inode)) in
           let st := junk_stat c in
           let! ino :=
             if negb (r.1 =? 0) then
               let! num := get_free_inode in
               let! f := copy_name path (set_num num (i_fixed r.2)) in
               let f := set_type (type_of_mode (st_mode st)) (set_mode (st_mode st) (set_gid (st_gid st) (set_uid (st_uid st) f))) in
               let f := set_mtime (st_mtime st) (set_ctime (st_ctime st) (set_atime (st_atime st) f)) in
               let f := set_ondisksize (st_blocks st * 512) (set_size (st_size st) f) in
               let f := set_xattrlen 0 (set_numerasure 0 (set_numextents 1 (set_numreplicas 1 f))) in
               cret (with_fixed (set_links (st_nlink st) f) r.2)
             else cret (with_fixed (set_atime (st_atime st) (i_fixed r.2)) r.2) in
           let! ret := on_x (on_db (put_inode moves ino after (if r.1 =? 0 then 1 else 0))) in
           if negb (ret =? 0) then cret (-1, Some fd)
           else
             let! ret := mc_store path (inode_str (i_num (i_fixed ino))) in
             cret (if ret =? 0 then 0 else -1, Some fd)
   | _, _ => fail ENOENT (-1, None)
   end)%cprog.

(** * The operations without an inode *)

Definition ENOSYS : Z := 38.
Definition SFS_MAGIC : Z := 0x11101974.
Definition max_inode_number : Z := 18446744073709551615.

(** An entry of a directory, and what [filler] gets for it: the name and the
    mode. *)
Record dirent : Type := mkDirent { d_ino : Z; d_type : Z; d_name : list Z }.
Definition fill_entry (de : dirent) : list Z * Z * Z := (d_name de, d_ino de, uwrap 32 (Z.shiftl (d_type de) 12)).

(** The calls of [filler], in order: it may answer that its buffer is full. *)
Fixpoint fill_dir (filler : list (list Z * Z * Z) -> bool) (seen : list (list Z * Z * Z)) (l : list dirent) : list (list Z * Z * Z) :=
  match l with
  | [] => seen
  | de :: l' =>
      let seen := (seen ++ [fill_entry de])%list in
      if filler seen then seen else fill_dir filler seen l'
  end.

(** [dir] is what [opendir] and [readdir] answer for the full path; the answer
    has the entries handed to [filler]. *)
Definition sfs_readdir (dir : list Z -> option (list dirent)) (filler : list (list Z * Z * Z) -> bool) (c : call)
    (path : option (list Z)) (buf fi : bool) : cprog mstate (Z * list (list Z * Z * Z)) :=
  match path with
  | Some path =>
      if negb buf || negb fi then fail EINVAL (-1, [])
      else
        match prepend_mntpath (path_mem c) path ≫= dir with
        | None => cret (-1, [])
        | Some l => cret (0, fill_dir filler [] l)
        end
  | None => fail EINVAL (-1, [])
  end.

Record statvfs : Type := mkStatvfs {
  f_bsize : Z;
  f_frsize : Z;
  f_blocks : Z;
  f_bfree : Z;
  f_bavail : Z;
  f_files : Z;
  f_ffree : Z;
  f_favail : Z;
  f_fsid : Z;
  f_flag : Z;
  f_namemax : Z
}.
(** The blocks are those the caller left in the structure. *)
Definition sfs_statfs (active_inodes : Z) (path : bool) (buf : option statvfs) : cprog mstate (Z * option statvfs) :=
  match buf with
  | Some b =>
      if negb path then fail (- EINVAL) (-1, Some b)
      else
        let f_bavail := uwrap 64 (f_blocks b * 95) / 100 in
        let f_bfree := uwrap 32 (max_inode_number - active_inodes) in
        cret (0, Some (mkStatvfs 4096 4096 (f_blocks b) f_bfree f_bavail active_inodes (f_ffree b)
                         (uwrap 64 (f_bfree * 95) / 100) SFS_MAGIC 0 4096))
  | None => fail (- EINVAL) (-1, None)
  end.

Definition sfs_release (path : bool) (fi : option Z) : cprog mstate Z :=
  (match fi with
   | Some fh =>
       if negb path then fail EINVAL (-1)
       else let! res := do_sys (Close fh) in cret (if res =? -1 then -1 else 0)
   | None => fail EINVAL (-1)
   end)%cprog.

Definition sfs_utimens (c : call) (path : option (list Z)) (tv : list Z) : cprog mstate Z :=
  match path with
  | None => fail EINVAL (-1)
  | Some path => do_sys (Utimens (prepend_mntpath (path_mem c) path) tv)
  end.

Definition sfs_fsync : cprog mstate Z := cret 0.
(** [sfs_bmap], [sfs_ioctl], [sfs_poll], [sfs_write_buf], [sfs_read_buf] and
    [sfs_mknod] *)
Definition not_implemented : cprog mstate Z := fail ENOSYS (-1).

End FileOps.
End FileOps.
