(* ===== verification/FileSpec.v ===== *)
(** What the operations on names and attributes promise: [FileOps] implements
    two tables, the numbers of the names and the attributes of the inodes,
    while memcached and the database work. *)
From Stdlib Require Import ZArith Lia String.
From stdpp Require Import base gmap list numbers.
From S2P Require Import Prelude CString CFormat KeyTree LockTree InodeStore InodeFields Xattr Memcache FileOps.
Import InodeStore.

Module FileSpec.
Import Xattr InodeFields Memcache FileOps.

(** * The services at work *)

Definition stat_ok (st : stat) : Prop := size (st_atime st) = 16 /\ size (st_ctime st) = 16 /\ size (st_mtime st) = 16.
Class PosixOk (F : Type) `{Posix F} : Prop := sys_stat_ok f c : stat_ok (sys f c).1.2.

(** * The tables *)

Record attrs : Type := mkAttrs {
  a_name : list Z;
  a_uid : Z;
  a_gid : Z;
  a_mode : Z;
  a_type : Z;
  a_size : Z;
  a_extents : Z
}.
Definition attrs_of (f : list Z) : attrs := mkAttrs (i_name f) (i_uid f) (i_gid f) (i_mode f) (i_type f) (i_size f) (i_numextents f).

Definition upd {K V} `{EqDecision K} (f : K -> V) (k : K) (v : V) : K -> V := fun x => if decide (x = k) then v else f x.

Section Spec.
Context {F : Type} `{Posix F}.

(** Names, inodes, locks; the file system below; the last number given. *)
Record astate : Type := mkAbs {
  names : list Z -> option Z;
  files : Z -> option attrs;
  held : gmap Z LockTree.mode;
  below : F;
  last : Z
}.
Definition set_names x (a : astate) := mkAbs x (files a) (held a) (below a) (last a).
Definition set_files x (a : astate) := mkAbs (names a) x (held a) (below a) (last a).
Definition set_held x (a : astate) := mkAbs (names a) (files a) x (below a) (last a).
Definition set_below x (a : astate) := mkAbs (names a) (files a) (held a) x (last a).
Definition set_last x (a : astate) := mkAbs (names a) (files a) (held a) (below a) x.

(** A result: the return value, what is reported besides (a size, a file
    descriptor), and [errno] when it was set to report an error. *)
Definition result : Type := Z * option Z * option Z.
Definition failed (e : Z) (a : astate) : result * astate := ((-1, None, Some e), a).
Definition done_with (x : option Z) (a : astate) : result * astate := ((0, x, None), a).

(** Whether a lock can be taken. *)
Definition may_take (w : LockTree.mode) (n : Z) (a : astate) : bool :=
  match held a !! n, w with
  | None, _ => true
  | Some LockTree.Rd, LockTree.Rd => true
  | _, _ => false
  end.

(** An operation on the inode of a path. The lock is free afterwards. *)
Definition spec_file (w : LockTree.mode) (path : list Z) (a : astate) (k : Z -> attrs -> astate -> result * astate) : result * astate :=
  match names a path with
  | None => failed ENOENT a
  | Some n =>
      if may_take w n a then
        let a := set_held (delete n (held a)) a in
        match files a n with
        | None => failed (if n <? INODE_NUM_START then - EINVAL else -1) a
        | Some x => k n x a
        end
      else failed EAGAIN a
  end.

(** A system call that must not fail. *)
Definition spec_sys (c : syscall) (a : astate) (k : Z -> stat -> astate -> result * astate) : result * astate :=
  let '((r, e, st), f) := sys (below a) c in
  let a := set_below f a in
  if r =? -1 then failed e a else k r st a.

(** Another attribute. *)
Definition change (f : attrs -> attrs) (n : Z) (x : attrs) (a : astate) : result * astate :=
  done_with None (set_files (upd (files a) n (Some (f x))) a).

(** A new inode. *)
Definition make (path : list Z) (x : attrs) (a : astate) : astate :=
  set_names (upd (names a) path (Some (last a))) (set_files (upd (files a) (last a) (Some x)) a).

Inductive fop : Type :=
  | OGetattr (path : list Z)
  | OChmod (path : list Z) (mode : Z)
  | OChown (path : list Z) (uid gid : Z)
  | OTruncate (path : list Z) (sz : Z)
  | OFtruncate (path : list Z) (sz fd : Z)
  | OAccess (path : list Z) (mode : Z)
  | ORename (from to : list Z)
  | OCreate (path : list Z) (mode : Z)
  | OMkdir (path : list Z) (mode : Z)
  | OSymlink (from to : list Z)
  | OLink (from to : list Z)
  | OReadlink (path buf : list Z)
  | OOpen (path : list Z) (flags : Z).

(** The attributes of a link come from the structure [junk] that nothing
    filled. *)
Definition link_attrs (junk : stat) (p : list Z) (type : Z) : attrs :=
  mkAttrs p (uwrap 32 (st_uid junk)) (uwrap 32 (st_gid junk)) (uwrap 32 (st_mode junk)) type (uwrap 64 (st_size junk)) 0.
Definition spec_link (junk : stat) (p : list Z) (type : Z) (a : astate) : result * astate :=
  let a := set_last (last a + 1) a in done_with None (make p (link_attrs junk p type) a).

Definition spec_fop (mem : bool) (junk : stat) (o : fop) (a : astate) : result * astate :=
  match o with
  | OGetattr p =>
      let '((r, e, st), f) := sys (below a) (Lstat (prepend_mntpath mem p)) in
      let a := set_below f a in
      if r =? -1 then ((- e, None, Some e), a)
      else spec_file LockTree.Rd p a (fun _ x => done_with (Some (a_size x)))
  | OChmod p m =>
      spec_sys (Chmod (prepend_mntpath mem p) m) a (fun _ _ a =>
        spec_file LockTree.Wr p a (change (fun x => mkAttrs (a_name x) (a_uid x) (a_gid x) (uwrap 32 m) (a_type x) (a_size x) (a_extents x))))
  | OChown p u g =>
      spec_sys (Chown p u g) a (fun _ _ a =>
        spec_file LockTree.Wr p a (change (fun x => mkAttrs (a_name x) (uwrap 32 u) (uwrap 32 g) (a_mode x) (a_type x) (a_size x) (a_extents x))))
  | OTruncate p z =>
      spec_sys (Truncate p z) a (fun _ _ a =>
        spec_file LockTree.Wr p a (change (fun x => mkAttrs (a_name x) (a_uid x) (a_gid x) (a_mode x) (a_type x) (uwrap 64 z) (a_extents x))))
  | OFtruncate p z fd =>
      spec_sys (Ftruncate fd z) a (fun _ _ a =>
        spec_file LockTree.Wr p a (change (fun x => mkAttrs (a_name x) (a_uid x) (a_gid x) (a_mode x) (a_type x) (uwrap 64 z) (a_extents x))))
  | OAccess p m =>
      if m =? 0 then failed EINVAL a
      else if bool_decide (p = bytes "/") then done_with None a
      else spec_file LockTree.Rd p a (fun _ x a =>
             if Z.land (a_mode x) m =? 0 then failed EACCES a else done_with None a)
  | ORename from to =>
      spec_file LockTree.Wr from a (fun n x a =>
        done_with None
          (set_names (upd (upd (names a) from None) to (Some n))
             (set_files (upd (files a) n (Some (mkAttrs to (a_uid x) (a_gid x) (a_mode x) (a_type x) (a_size x) (a_extents x)))) a)))
  | OCreate p m =>
      let '((fd, _, _), f) := sys (below a) (Creat (prepend_mntpath mem p) m) in
      let a := set_below f a in
      if fd =? -1 then failed EACCES a
      else
        let '((uid, _, _), f) := sys (below a) Getuid in
        let '((gid, _, _), f) := sys f Getgid in
        let '(_, f) := sys f Clock in
        let a := set_last (last a + 1) (set_below f a) in
        done_with (Some fd) (make p (mkAttrs p (uwrap 32 uid) (uwrap 32 gid) (uwrap 32 m) (type_of_mode m) 0 0) a)
  | OMkdir p m =>
      spec_sys (Mkdir (prepend_mntpath mem p) m) a (fun _ _ a =>
        let '((uid, _, _), f) := sys (below a) Getuid in
        let '((gid, _, _), f) := sys f Getgid in
        let '((r, _, st), f) := sys f (Stat (prepend_mntpath mem p)) in
        let a := set_last (last a + 1) (set_below f a) in
        if r =? -1 then
          let '((r, e, _), f) := sys (below a) (Rmdir p) in
          failed (if r =? -1 then e else EACCES) (set_below f a)
        else
          done_with None (make p (mkAttrs p (uwrap 32 uid) (uwrap 32 gid) (uwrap 32 m) DIRECTORY (uwrap 64 (st_size st)) 0) a))
  | OSymlink from to => spec_sys (Symlink from to) a (fun _ _ => spec_link junk to SYMLINK)
  | OLink from to => spec_sys (Link from to) a (fun _ _ => spec_link junk to HARDLINK)
  | OReadlink p buf =>
      if size buf =? 0 then failed EINVAL a
      else spec_file LockTree.Rd p a (fun _ x a => failed (if a_type x =? SYMLINK then EFAULT else EINVAL) a)
  | OOpen p flags => spec_sys (Open (prepend_mntpath mem p) flags) a (fun fd _ a => done_with (Some fd) a)
  end.
End Spec.
Arguments astate : clear implicits.

(** * The operations of the code *)

Section Run.
Context {T : Type} `{KeyTree T} {D : Type} `{InodeDb D} {M : Type} `{Memcached M} {F : Type} `{Posix F}.
Context (moves : bool) (ptr after : list Z).

Definition plain_result (c : cprog (@mstate T D M F) Z) : cprog (@mstate T D M F) (Z * option Z) :=
  (let! r := c in cret (r, None))%cprog.

Definition run_fop (c : call) (o : fop) : cprog (@mstate T D M F) (Z * option Z) :=
  match o with
  | OGetattr p => (let! r := sfs_getattr ptr c (Some p) true in cret (r.1, st_size <$> r.2))%cprog
  | OChmod p m => plain_result (sfs_chmod moves ptr after c (Some p) m)
  | OChown p u g => plain_result (sfs_chown moves ptr after c (Some p) u g)
  | OTruncate p z => plain_result (sfs_truncate moves ptr after c (Some p) z)
  | OFtruncate p z fd => plain_result (sfs_ftruncate moves ptr after c (Some p) z (Some fd))
  | OAccess p m => plain_result (sfs_access ptr c (Some p) m)
  | ORename from to => plain_result (sfs_rename moves ptr after c from to)
  | OCreate p m => sfs_create moves ptr after c (Some p) m
  | OMkdir p m => plain_result (sfs_mkdir moves after c (Some p) m)
  | OSymlink from to => plain_result (sfs_symlink moves after c (Some from) (Some to))
  | OLink from to => plain_result (sfs_link moves after c (Some from) (Some to))
  | OReadlink p buf => (let! r := sfs_readlink ptr c (Some p) (Some buf) in cret (r.1, None))%cprog
  | OOpen p flags => sfs_open moves ptr after c (Some p) (Some flags)
  end.
End Run.


(** * Fields that an operation leaves alone *)

(** The fields that the layout of a record depends on, and the number. *)
Definition kept (f f' : list Z) : Prop := size f' = size f /\ sub 4236 28 f' = sub 4236 28 f.

Lemma kept_fields f f' : kept f f' ->
  i_numclients f' = i_numclients f /\ i_numerasure f' = i_numerasure f /\ i_numextents f' = i_numextents f /\
  i_xattrlen f' = i_xattrlen f /\ i_num f' = i_num f.
Proof.
  intros [_ Hk].
  assert (Hs : forall o l, 4236 <= o -> 0 <= l -> o + l <= 4264 -> sub o l f' = sub o l f).
  { intros o l Ho Hl Hol. replace o with (4236 + (o - 4236)) by lia. rewrite <- !(sub_sub 4236 28), Hk by lia. done. }
  unfold i_numclients, i_numerasure, i_numextents, i_xattrlen, i_num. rewrite !Hs by lia. done.
Qed.

Lemma kept_plain ino l f : plain ino l -> kept (i_fixed ino) f -> plain (with_fixed f ino) l.
Proof.
  intros [P1 P2 P3 P4 P5 P6] Hk. pose proof (kept_fields _ _ Hk) as (K1 & K2 & K3 & K4 & _). destruct Hk as [Hs _].
  split; cbn [i_fixed with_fixed i_extent]; [congruence..| |congruence].
  clear -P5. revert P5. generalize 0. induction l as [|[ex h] l IH]; intros i; cbn [exts_at]; [done|].
  intros (He & Hx & Hl). split_and!; [done|done|]. by apply IH.
Qed.

Lemma kept_refl f : kept f f.
Proof. done. Qed.
Lemma kept_set32 off n f g : size g = INODE_FIXED -> 0 <= off -> off + 4 <= 4236 -> kept g f -> kept g (set32 off n f).
Proof.
  unfold INODE_FIXED. intros Hg Ho Hl [K1 K2]. split; [rewrite size_set32; lia|]. rewrite sub_set32_ne by lia. done.
Qed.
Lemma kept_set64 off n f g : size g = INODE_FIXED -> 0 <= off -> off + 8 <= 4236 -> kept g f -> kept g (set64 off n f).
Proof.
  unfold INODE_FIXED. intros Hg Ho Hl [K1 K2]. split; [rewrite size_set64; lia|]. rewrite sub_set64_ne by lia. done.
Qed.
Lemma kept_patch off x f g : size g = INODE_FIXED -> 0 <= off -> off + size x <= 4236 -> kept g f -> kept g (patch off x f).
Proof.
  unfold INODE_FIXED. intros Hg Ho Hl [K1 K2]. split; [rewrite patch_size; lia|]. rewrite sub_patch_ne by lia. done.
Qed.

(** The attributes of an inode that was built by setting fields of [f]. *)
Ltac fields := unfold attrs_of; field_norm.

Lemma attrs_mode n f : size f = INODE_FIXED ->
  attrs_of (set_mode n f) = mkAttrs (i_name f) (i_uid f) (i_gid f) (uwrap 32 n) (i_type f) (i_size f) (i_numextents f).
Proof. intros Hf. fields. done. Qed.
Lemma attrs_owner u g f : size f = INODE_FIXED ->
  attrs_of (set_gid g (set_uid u f)) = mkAttrs (i_name f) (uwrap 32 u) (uwrap 32 g) (i_mode f) (i_type f) (i_size f) (i_numextents f).
Proof. intros Hf. fields. done. Qed.
Lemma attrs_size n f : size f = INODE_FIXED ->
  attrs_of (set_size n f) = mkAttrs (i_name f) (i_uid f) (i_gid f) (i_mode f) (i_type f) (uwrap 64 n) (i_numextents f).
Proof. intros Hf. fields. done. Qed.

(** A path that a C string can hold and an inode has room for. *)
Definition path_fits (p : list Z) : Prop := Forall (fun c => c <> 0) p /\ size p < PATH_MAX.

Lemma attrs_name p f : size f = INODE_FIXED -> path_fits p ->
  attrs_of (set_name p f) = mkAttrs p (i_uid f) (i_gid f) (i_mode f) (i_type f) (i_size f) (i_numextents f).
Proof.
  intros Hf [Hp Hl]. unfold attrs_of. rewrite i_name_set by done. unfold set_name, PATH_MAX in *. pose proof (size_app p [0]) as Hs.
  change (size [0]) with 1 in Hs. fields. done.
Qed.

(** The fixed part of an inode whose number and name were set. *)
Definition named (num : Z) (p f : list Z) : list Z := set_name p (set_num num f).
Lemma named_kept num p f : size f = INODE_FIXED -> path_fits p ->
  size (named num p f) = INODE_FIXED /\ kept (set_num num f) (named num p f).
Proof.
  intros Hf [_ Hp]. unfold PATH_MAX in Hp. assert (Hs : size (set_num num f) = INODE_FIXED) by (unfold set_num; auto with fields).
  pose proof (size_app p [0]) as Ha. change (size [0]) with 1 in Ha.
  assert (Hk : kept (set_num num f) (named num p f)) by (apply kept_patch; [done|lia|lia|done]). split; [|done].
  destruct Hk as [-> _]. done.
Qed.
Lemma named_attrs num p f : size f = INODE_FIXED -> path_fits p -> attrs_of (named num p f) =
  mkAttrs p (i_uid f) (i_gid f) (i_mode f) (i_type f) (i_size f) (i_numextents f).
Proof.
  intros Hf Hp. assert (Hs : size (set_num num f) = INODE_FIXED) by (unfold set_num; auto with fields).
  unfold named. rewrite attrs_name by done. clear Hs. fields. done.
Qed.

(** The fields that [sfs_create] and [sfs_mkdir] set first. *)
Definition dressed (uid gid mode type : Z) (at_ ct mt f : list Z) : list Z :=
  set_mtime mt (set_ctime ct (set_atime at_ (set_type type (set_mode mode (set_gid gid (set_uid uid f)))))).

Lemma dressed_ok num p uid gid mode type at_ ct mt g : size g = INODE_FIXED -> path_fits p ->
  size at_ = 16 -> size ct = 16 -> size mt = 16 ->
  let f := dressed uid gid mode type at_ ct mt (named num p g) in
  size f = INODE_FIXED /\ kept (set_num num g) f /\
  attrs_of f = mkAttrs p (uwrap 32 uid) (uwrap 32 gid) (uwrap 32 mode) (uwrap 32 type) (i_size g) (i_numextents g).
Proof.
  intros Hg Hp Ha Hc Hm f. destruct (named_kept num p g Hg Hp) as [Hs Hk].
  pose proof (named_attrs num p g Hg Hp) as Hat.
  assert (Hn : size (set_num num g) = INODE_FIXED) by (unfold set_num; auto with fields).
  assert (Hkf : kept (set_num num g) f).
  { unfold f, dressed, set_mtime, set_ctime, set_atime, set_type, set_mode, set_gid, set_uid.
    repeat first [apply kept_patch; [done|lia|lia|] | apply kept_set32; [done|lia|lia|]]. done. }
  split; [by rewrite (proj1 Hkf)|]. split; [done|]. unfold f, dressed. clear f Hkf.
  generalize dependent (named num p g). clear Hn. intros h Hh _ Hat.
  transitivity (mkAttrs (a_name (attrs_of h)) (uwrap 32 uid) (uwrap 32 gid) (uwrap 32 mode) (uwrap 32 type) (a_size (attrs_of h))
    (a_extents (attrs_of h))); [|by rewrite Hat]. clear Hat. cbn [attrs_of a_name a_size a_extents]. fields. done.
Qed.

Lemma number_set num g f : size g = INODE_FIXED -> 0 <= num < 2 ^ 64 -> kept (set_num num g) f -> i_num f = num.
Proof.
  intros Hg Hn Hk. destruct (kept_fields _ _ Hk) as (_ & _ & _ & _ & ->).
  change (get64 4256 (set64 4256 num g) = num). rewrite g64_same by auto with fields. by apply uwrap_small.
Qed.

(** An inode without extents, erasure code and attributes. *)
Lemma bare_plain f sfsds : size f = INODE_FIXED -> get32 4252 f = 0 -> get32 4240 f = 0 -> get32 4248 f = 0 ->
  0 <= i_numclients f <= 1 -> plain (mkInode f None ∅ ∅ sfsds) [].
Proof.
  intros Hf Hx He Hn Hc. split; cbn [i_fixed i_extent length exts_at]; [done| |done| |done|done].
  - change (swrap 32 (get32 4252 f) = 0). by rewrite Hx.
  - change (swrap 32 (get32 4248 f) = 0). by rewrite Hn.
Qed.

Lemma kept_get32 o num g f : size g = INODE_FIXED -> kept (set_num num g) f -> 4236 <= o -> o + 4 <= 4256 -> get32 o f = get32 o g.
Proof.
  intros Hg [_ Hk] Ho Hl. unfold get32. replace o with (4236 + (o - 4236)) by lia. rewrite <- (sub_sub 4236 28 _ 4 f), Hk by lia.
  rewrite sub_sub by lia. f_equal. unfold set_num. rewrite sub_set64_ne; [done|lia..|unfold INODE_FIXED in *; lia|lia].
Qed.

Lemma numclients_get f : i_numclients f = swrap 32 (get32 4236 f).
Proof. reflexivity. Qed.

(** The attributes of an inode without extents, of a size. *)
Definition empty_of (sz : Z) (x : attrs) : attrs := mkAttrs (a_name x) (a_uid x) (a_gid x) (a_mode x) (a_type x) sz 0.

(** The inode of a new directory. *)
Definition dir_fixed (st : stat) (f : list Z) : list Z :=
  InodeFields.set_xattrlen 0 (set_numerasure 0 (set_numextents 0 (set_numreplicas 0
    (set_links (st_nlink st) (set_ondisksize (st_size st) (set_size (st_size st) f)))))).
Lemma dir_fixed_ok num st g f sfsds : size g = INODE_FIXED -> size f = INODE_FIXED -> kept (set_num num g) f ->
  0 <= num < 2 ^ 64 -> 0 <= i_numclients g <= 1 ->
  plain (mkInode (dir_fixed st f) None ∅ ∅ sfsds) [] /\ i_num (dir_fixed st f) = num /\
  attrs_of (dir_fixed st f) = empty_of (uwrap 64 (st_size st)) (attrs_of f).
Proof.
  intros Hg Hf Hk Hn Hc. assert (Hcl : get32 4236 f = get32 4236 g) by (eapply kept_get32; eauto; lia).
  pose proof (number_set num g f Hg Hn Hk) as Hnum. change (get64 4256 f = num) in Hnum.
  assert (Hs : size (dir_fixed st f) = INODE_FIXED).
  { unfold dir_fixed. fields. eauto 30 with fields. }
  split_and!.
  - apply bare_plain; [done|..].
    1-3: unfold dir_fixed; fields; done.
    change (0 <= swrap 32 (get32 4236 (dir_fixed st f)) <= 1).
    assert (get32 4236 (dir_fixed st f) = get32 4236 g) as -> by (unfold dir_fixed; fields; done). done.
  - change (get64 4256 (dir_fixed st f) = num). unfold dir_fixed; fields; done.
  - unfold dir_fixed; fields; done.
Qed.

Lemma attrs_links n f : size f = INODE_FIXED -> attrs_of (set_links n f) = attrs_of f.
Proof. intros Hf. fields. done. Qed.
(** The inode of a new link. *)
Definition link_fixed (st : stat) (f : list Z) : list Z :=
  set_links (st_nlink st) (InodeFields.set_xattrlen 0 (set_numerasure 0 (set_numextents 0 (set_numreplicas 1
    (set_ondisksize (st_blocks st * 512) (set_size (st_size st) f)))))).
Lemma link_fixed_ok num st g f sfsds : size g = INODE_FIXED -> size f = INODE_FIXED -> kept (set_num num g) f ->
  0 <= num < 2 ^ 64 -> 0 <= i_numclients g <= 1 ->
  plain (mkInode (link_fixed st f) None ∅ ∅ sfsds) [] /\ i_num (link_fixed st f) = num /\
  attrs_of (link_fixed st f) = empty_of (uwrap 64 (st_size st)) (attrs_of f).
Proof.
  intros Hg Hf Hk Hn Hc. assert (Hcl : get32 4236 f = get32 4236 g) by (eapply kept_get32; eauto; lia).
  pose proof (number_set num g f Hg Hn Hk) as Hnum. change (get64 4256 f = num) in Hnum.
  assert (Hs : size (link_fixed st f) = INODE_FIXED).
  { unfold link_fixed. fields. eauto 30 with fields. }
  split_and!.
  - apply bare_plain; [done|..].
    1-3: unfold link_fixed; fields; done.
    rewrite numclients_get.
    assert (get32 4236 (link_fixed st f) = get32 4236 g) as -> by (unfold link_fixed; fields; done). done.
  - change (get64 4256 (link_fixed st f) = num). unfold link_fixed; fields; done.
  - unfold link_fixed; fields; done.
Qed.

(** The equations of the fields that were set, by which the terms of the code
    are folded. *)
Lemma named_eq num p f : set_name p (set_num num f) = named num p f.
Proof. reflexivity. Qed.
Lemma dressed_eq uid gid mode type at_ ct mt f :
  set_mtime mt (set_ctime ct (set_atime at_ (set_type type (set_mode mode (set_gid gid (set_uid uid f)))))) =
  dressed uid gid mode type at_ ct mt f.
Proof. reflexivity. Qed.
Lemma dir_fixed_eq st f :
  InodeFields.set_xattrlen 0 (set_numerasure 0 (set_numextents 0 (set_numreplicas 0
    (set_links (st_nlink st) (set_ondisksize (st_size st) (set_size (st_size st) f)))))) = dir_fixed st f.
Proof. reflexivity. Qed.

Lemma link_fixed_eq st f :
  set_links (st_nlink st) (InodeFields.set_xattrlen 0 (set_numerasure 0 (set_numextents 0 (set_numreplicas 1
    (set_ondisksize (st_blocks st * 512) (set_size (st_size st) f)))))) = link_fixed st f.
Proof. reflexivity. Qed.

Lemma type_wrap m : uwrap 32 (type_of_mode m) = type_of_mode m.
Proof. unfold type_of_mode. repeat case_match; reflexivity. Qed.

(** * Refinement *)

Section Refine.
Context {T : Type} `{KeyTreeLaws T} {D : Type} `{InodeDbLaws D} `{!DbUp D} {M : Type} `{Memcached M}
  (key_ok : list Z -> Prop) `{!MemcachedUp M key_ok} {F : Type} `{Posix F} `{!PosixOk F}.
Context (moves : bool) (ptr after : list Z) (Hptr : size ptr = SIZEOF_PTR) (Hafter : SIZEOF_PTR <= size after).
#[local] Abbreviation state := (@mstate T D M F).
#[local] Set Default Proof Using "All".

Definition err (s : state) : Z := LockTree.errno (lt (xs s)).
Definition nodes (s : state) : gmap Z LockTree.sstack_file_lock := LockTree.locks (lt (xs s)).
Definition record (s : state) (n : Z) : option (list Z) := db_get (db (ds (xs s))) n.

(** The record of an inode with the attributes [x]. *)
Definition holds (b : option (list Z)) (n : Z) (x : attrs) : Prop :=
  exists fixed l tail, b = Some (fixed ++ body l ++ tail)%list /\ record_ok fixed l /\ i_num fixed = n /\ attrs_of fixed = x.

Record rep (s : state) (a : astate F) : Prop := {
  rp_locks : LockTree.rep (lt (xs s)) (held a);
  rp_names p : names a p = if size p =? 0 then None else inode_of <$> memcached_get (mc s) p;
  rp_files n x : files a n = Some x -> INODE_NUM_START <= n /\ holds (record s n) n x;
  rp_none n : files a n = None -> INODE_NUM_START <= n -> record s n = None;
  rp_allocs : allocs (ds (xs s)) = [];
  rp_below : fs s = below a;
  rp_last : inode_number s = last a;
  rp_new : 1 <= last a /\ forall n, last a < n -> files a n = None
}.

Lemma rep_locks (s : state) a l m :
  rep s a -> LockTree.rep l m -> rep (mkMs (mkXs l (ds (xs s))) (mc s) (fs s) (inode_number s)) (set_held m a).
Proof. intros [R1 R2 R3 R4 R5 R6 R7 R8] Hl. by split. Qed.

Lemma set_err_run e (s : state) a : rep s a ->
  exists s', set_err e s = Ret (tt, s') /\ rep s' a /\ err s' = e /\ nodes s' = nodes s.
Proof.
  intros Hr. eexists. split; [reflexivity|]. split_and!; [|done|done]. destruct Hr as [[L1 L2 L3 L4] R2 R3 R4 R5 R6 R7 R8].
  by split; [split|..].
Qed.

Lemma fail_run {A} e (r : A) (s : state) a : rep s a ->
  exists s', fail e r s = Ret (r, s') /\ rep s' a /\ err s' = e /\ nodes s' = nodes s.
Proof.
  intros Hr. destruct (set_err_run e s a Hr) as (s' & Hs & Hr' & He & Hn). exists s'. unfold fail, cbind. by rewrite Hs.
Qed.

Lemma sys_run c (s : state) a : rep s a -> let '((r, e, st), f) := sys (below a) c in
  exists s', syscall_stat c s = Ret ((r, st), s') /\ rep s' (set_below f a) /\ (r = -1 -> err s' = e) /\ nodes s' = nodes s.
Proof.
  intros Hr. destruct (sys (below a) c) as [[[r e] st] f] eqn:Hsys.
  unfold syscall_stat. unfold cbind at 1, cget at 1. rewrite (rp_below _ _ Hr), Hsys. unfold cbind at 1, cput at 1.
  set (s1 := mkMs (xs s) (mc s) f (inode_number s)).
  assert (Hr1 : rep s1 (set_below f a)) by (destruct Hr; by split).
  destruct (r =? -1) eqn:Er; bool_to_Z.
  - destruct (set_err_run e s1 _ Hr1) as (s' & Hs & Hr' & He & Hn). exists s'. unfold cbind. rewrite Hs. done.
  - exists s1. split; [done|]. split_and!; [done|lia|done].
Qed.

Lemma do_sys_run c (s : state) a : rep s a -> let '((r, e, st), f) := sys (below a) c in
  exists s', do_sys c s = Ret (r, s') /\ rep s' (set_below f a) /\ (r = -1 -> err s' = e) /\ nodes s' = nodes s.
Proof.
  intros Hr. pose proof (sys_run c s a Hr) as Hs. destruct (sys (below a) c) as [[[r e] st] f].
  destruct Hs as (s' & Hs & Hr'). exists s'. unfold do_sys, cbind. by rewrite Hs.
Qed.

(** A call that does not fail leaves [errno]. *)
Lemma do_sys_run_err c (s : state) a : rep s a -> let '((r, e, st), f) := sys (below a) c in
  exists s', do_sys c s = Ret (r, s') /\ rep s' (set_below f a) /\ err s' = if r =? -1 then e else err s.
Proof.
  intros Hr. pose proof (do_sys_run c s a Hr) as Hs. destruct (sys (below a) c) as [[[r e] st] f] eqn:Hc.
  destruct Hs as (s' & Hs & Hr' & He & _). exists s'. split; [done|]. split; [done|].
  destruct (r =? -1) eqn:E; bool_to_Z; [auto|]. revert Hs. unfold do_sys, syscall_stat, cbind, cget, cput.
  rewrite (rp_below _ _ Hr), Hc, (proj2 (Z.eqb_neq _ _) E). cbn. intros [= <-]. done.
Qed.

Lemma read_one_run p (s : state) a : rep s a ->
  exists v, mc_read_one p s = Ret (v, s) /\ inode_of <$> v = names a p /\
    (p <> [] -> v = memcached_get (mc s) p).
Proof.
  intros Hr. eexists. split; [by destruct s|]. rewrite (rp_names _ _ Hr p). destruct (size p =? 0) eqn:E; [|done].
  split; [done|]. bool_to_Z. destruct p; [done|]. unfold size in E. cbn [length] in E. lia.
Qed.

(** ** Locks *)

Definition fresh (c : call) (s : state) : Prop := lock_mem c <> 0 /\ nodes s !! lock_mem c = None.
Definition mode_lock (w : LockTree.mode) (c : call) (n : Z) : cprog state Z :=
  match w with LockTree.Rd => rdlock c n | LockTree.Wr => wrlock c n end.

Lemma file_take_run w c n (s : state) a : rep s a -> 0 <= n -> fresh c s ->
  exists s', mode_lock w c n s = Ret (if may_take w n a then 0 else -1, s') /\
    rep s' (if may_take w n a then set_held (<[n := w]> (held a)) a else a).
Proof.
  intros Hr Hn [Hm Hf].
  pose proof (LockTree.lop_refines _ _ (LockTree.take_op w (lock_mem c) n) (rp_locks _ _ Hr)) as Hl.
  assert (Hleg : LockTree.legal_lop (lt (xs s)) (LockTree.take_op w (lock_mem c) n)) by (destruct w; split; cbn; auto).
  specialize (Hl Hleg). pose proof (proj2 (Z.eqb_neq _ _) Hm) as Hm'.
  assert (Hrun : exists l m, LockTree.run_lop (LockTree.take_op w (lock_mem c) n) (lt (xs s)) = Ret (if may_take w n a then 0 else -1, l) /\
            LockTree.rep l m /\ m = if may_take w n a then <[n := w]> (held a) else held a).
  { unfold may_take. destruct w; cbn in Hl |- *; unfold LockTree.spec_take in Hl; rewrite Hm' in Hl;
      destruct (held a !! n) as [[]|] eqn:Hh; destruct Hl as (l & Hl & _ & Hrep & _); eexists l, _; (split; [exact Hl|]);
      (split; [exact Hrep|]); try done. by rewrite insert_id. }
  destruct Hrun as (l & m & Hrun & Hrep & ->). eexists. split.
  - assert (mode_lock w c n s = take_lock (LockTree.run_lop (LockTree.take_op w (lock_mem c) n)) s) as -> by (by destruct w).
    unfold take_lock, on_x, on_locks. rewrite Hrun. reflexivity.
  - destruct (may_take w n a); [by apply rep_locks|]. pose proof (rep_locks s a l (held a) Hr Hrep) as Hx. by destruct a.
Qed.

Lemma file_unlock_run w n (s : state) a : 0 <= n -> rep s (set_held (<[n := w]> (held a)) a) ->
  exists s', unlock n s = Ret (0, s') /\ rep s' (set_held (delete n (held a)) a) /\ err s' = err s.
Proof.
  intros Hn Hr. pose proof (LockTree.lop_refines _ _ (LockTree.Unlock n) (rp_locks _ _ Hr)) as Hl. cbn in Hl.
  rewrite lookup_insert_eq in Hl. destruct Hl as (l & Hl & He & Hrep & _); [by split; [|left]|].
  eexists. split; [unfold unlock, on_x, on_locks; rewrite Hl; reflexivity|].
  split; [|done]. rewrite delete_insert_eq in Hrep. exact (rep_locks s _ l _ Hr Hrep).
Qed.

(** ** Inodes *)

Lemma inode_get_run n mem x (s : state) a : rep s a -> files a n = Some x ->
  exists ino l, on_x (on_db (get_inode ptr n mem)) s = Ret ((0, ino), s) /\ plain ino l /\ (length l <= 1)%nat /\
    i_num (i_fixed ino) = n /\ attrs_of (i_fixed ino) = x /\ INODE_NUM_START <= n.
Proof.
  intros Hr Hx. destruct (rp_files _ _ Hr n x Hx) as (Hn & fixed & l & tail & Hb & Hrec & Hnum & Hat).
  destruct (get_plain ptr n mem fixed l tail (ds (xs s)) Hrec Hn (rp_allocs _ _ Hr) Hptr Hb)
    as (ino & l' & Hg & Hf & Hp & Hl & _). exists ino, l'. rewrite Hf. split_and!; try done.
  unfold on_x, on_db. rewrite Hg. by destruct s as [[] ? ? ?].
Qed.

Lemma inode_none_run n mem (s : state) a : rep s a -> files a n = None ->
  on_x (on_db (get_inode ptr n mem)) s = Ret ((if n <? INODE_NUM_START then - EINVAL else -1, mem), s).
Proof.
  intros Hr Hx. unfold on_x, on_db, get_inode. destruct (n <? INODE_NUM_START) eqn:E; [by destruct s as [[] ? ? ?]|]. bool_to_Z.
  unfold cbind, cget. pose proof (rp_none _ _ Hr n Hx E) as Hnone. unfold record in Hnone. rewrite Hnone. by destruct s as [[] ? ? ?].
Qed.

(** Storing an inode: [u] is 1 for one that is there and 0 for a new one. *)
Lemma inode_put_run (u n : Z) ino l (s : state) a : rep s a -> plain ino l -> (length l <= 1)%nat -> i_num (i_fixed ino) = n ->
  INODE_NUM_START <= n <= last a ->
  (u = 1 /\ is_Some (files a n) \/ u = 0 /\ files a n = None) ->
  exists s', on_x (on_db (put_inode moves ino after u)) s = Ret (0, s') /\
    rep s' (set_files (upd (files a) n (Some (attrs_of (i_fixed ino)))) a) /\ err s' = err s.
Proof.
  intros Hr Hp Hl Hn Hrange Hu. pose proof (plain_clients _ _ Hp) as Hcl. unfold SIZEOF_PTR in *.
  assert (Hu' : 0 <= u <= 1) by (destruct Hu as [[-> _]|[-> _]]; lia).
  pose proof (put_inode_run moves ino l after u (ds (xs s)) Hp ltac:(lia) Hu' (rp_allocs _ _ Hr) ltac:(unfold SIZEOF_PTR; lia)) as Hrun.
  cbv zeta in Hrun. set (b := (i_fixed ino ++ body l ++ _)%list) in Hrun. rewrite Hn in Hrun.
  destruct ((if u =? 0 then db_insert else db_update) (db (ds (xs s))) n b) as [ret d'] eqn:Hdb.
  assert (Hok : (if u =? 0 then ret =? 1 else 0 <? ret) = true /\ db_get d' n = Some b /\
            (forall k, k <> n -> db_get d' k = record s k)).
  { destruct Hu as [[-> [x Hx]]|[-> Hx]].
    - change (1 =? 0) with false in *. destruct (rp_files _ _ Hr n x Hx) as (_ & fx & lx & tx & Hb & _).
      pose proof (update_up (db (ds (xs s))) n b ltac:(unfold record in Hb; rewrite Hb; eauto)) as Hup. rewrite Hdb in Hup. cbn in Hup.
      split; [by apply Z.ltb_lt|]. split; [by eapply db_update_get|]. intros k Hk. by eapply update_other.
    - change (0 =? 0) with true in *. pose proof (insert_up (db (ds (xs s))) n b (rp_none _ _ Hr n Hx ltac:(lia))) as Hup.
      rewrite Hdb in Hup. cbn in Hup. subst ret. split; [done|]. split; [by eapply db_insert_get|]. intros k Hk. by eapply insert_other. }
  destruct Hok as (Hret & Hget & Hoth). rewrite Hret in Hrun.
  eexists. split; [unfold on_x, on_db; rewrite Hrun; reflexivity|]. split; [|done].
  destruct Hr as [R1 R2 R3 R4 R5 R6 R7 [R8 R9]]. unfold record in *. split; cbn; try done.
  - intros k x. unfold upd, record. cbn. case_decide as Hk.
    + intros [= <-]. subst k. split; [lia|]. exists (i_fixed ino), l, (sub 0 (8 * i_numclients (i_fixed ino)) after).
      split; [exact Hget|]. split; [by apply plain_record|done].
    + intros Hx. destruct (R3 k x Hx) as [Hk2 Hh]. split; [done|]. unfold holds. by rewrite Hoth.
  - intros k. unfold upd, record. cbn. case_decide as Hk; [done|]. intros Hx Hk2. rewrite Hoth by done. by apply R4.
  - split; [done|]. intros k Hk. unfold upd. rewrite decide_False by lia. by apply R9.
Qed.

(** ** Names *)

Lemma name_store_run p v (s : state) a : rep s a -> p <> [] -> key_ok p -> v <> [] ->
  exists s', mc_store p v s = Ret (0, s') /\ rep s' (set_names (upd (names a) p (Some (inode_of v))) a) /\ err s' = err s.
Proof.
  intros Hr Hp Hk Hv. unfold mc_store, on_mc, sstack_memcache_store.
  assert ((size v <=? 0) = false) as -> by (apply Z.leb_gt; unfold size; destruct v; [done|cbn [length]; lia]).
  unfold cbind at 1, cget at 1. pose proof (set_up (mc s) p v Hk) as Hup. destruct (memcached_set (mc s) p v) as [rc m] eqn:Hs.
  cbn in Hup. subst rc. eexists. split; [reflexivity|]. split; [|done].
  destruct Hr as [R1 R2 R3 R4 R5 R6 R7 R8]. split; try done. intros q. cbn. unfold upd. case_decide as Hq.
  - subst q. erewrite set_get by exact Hs. destruct p; [done|]. done.
  - rewrite (set_other _ _ _ _ _ q Hs Hq). apply R2.
Qed.

Lemma name_remove_run p (s : state) a : rep s a -> is_Some (names a p) ->
  exists s', mc_remove p s = Ret (0, s') /\ rep s' (set_names (upd (names a) p None) a) /\ err s' = err s.
Proof.
  intros Hr [n Hn]. rewrite (rp_names _ _ Hr) in Hn. destruct (size p =? 0) eqn:E; [done|].
  unfold mc_remove, on_mc, sstack_memcache_remove. unfold cbind at 1, cget at 1.
  assert (Hin : is_Some (memcached_get (mc s) p)) by (destruct (memcached_get (mc s) p); [eauto|done]).
  pose proof (delete_up (mc s) p Hin) as Hup.
  destruct (memcached_delete (mc s) p) as [rc m] eqn:Hs. cbn in Hup. subst rc. eexists. split; [reflexivity|]. split; [|done].
  destruct Hr as [R1 R2 R3 R4 R5 R6 R7 R8]. split; try done. intros q. cbn. unfold upd. case_decide as Hq.
  - subst q. erewrite delete_get by exact Hs. by rewrite E.
  - rewrite (delete_other _ _ _ _ q Hs Hq). apply R2.
Qed.

(** The number that was printed is read. *)
Lemma inode_of_str n : 0 <= n < 2 ^ 64 -> inode_of (inode_str n) = n.
Proof.
  intros Hn. unfold inode_of, inode_str. change [0] with (replicate 1 0). rewrite cstr_app_zeros.
  - rewrite atoll_fmt_lld, uwrap_swrap by lia. by apply uwrap_small.
  - apply fmt_signed_without; done.
Qed.

(** ** The shared beginning and ends *)

Lemma inode_of_range v : 0 <= inode_of v.
Proof. apply uwrap_range. lia. Qed.

(** The numbers of names are unsigned. *)
Lemma names_range p n (s : state) a : rep s a -> names a p = Some n -> 0 <= n.
Proof.
  intros Hr. rewrite (rp_names _ _ Hr). case_if; [done|]. destruct (memcached_get (mc s) p); [|done]. intros [= <-]. apply inode_of_range.
Qed.

Definition locked (w : LockTree.mode) (n : Z) (a : astate F) : astate F := set_held (<[n := w]> (held a)) a.
Definition unlocked (n : Z) (a : astate F) : astate F := set_held (delete n (held a)) a.

(** What [with_found] does, up to the body. *)
Lemma found_run {A} (bad : A) w c p mem body (s : state) a : rep s a -> fresh c s ->
  match names a p with
  | None => exists s', with_found ptr bad p (mode_lock w c) mem body s = Ret (bad, s') /\ rep s' a /\ err s' = ENOENT
  | Some n =>
      if may_take w n a then
        match files a n with
        | None => exists s', with_found ptr bad p (mode_lock w c) mem body s = Ret (bad, s') /\ rep s' (unlocked n a) /\
            err s' = if n <? INODE_NUM_START then - EINVAL else -1
        | Some x => exists v ino l s1, with_found ptr bad p (mode_lock w c) mem body s = body v n ino s1 /\ rep s1 (locked w n a) /\
            inode_of v = n /\ plain ino l /\ (length l <= 1)%nat /\ i_num (i_fixed ino) = n /\
            attrs_of (i_fixed ino) = x /\ INODE_NUM_START <= n
        end
      else exists s', with_found ptr bad p (mode_lock w c) mem body s = Ret (bad, s') /\ rep s' a /\ err s' = EAGAIN
  end.
Proof.
  intros Hr Hf. destruct (read_one_run p s a Hr) as (v & Hv & Hn & _).
  remember (with_found ptr bad p (mode_lock w c) mem body s) as out eqn:Hout.
  unfold with_found in Hout. unfold cbind at 1 in Hout. rewrite Hv in Hout.
  destruct v as [v|]; cbn in Hn; rewrite <- Hn.
  2: { destruct (fail_run ENOENT bad s a Hr) as (s' & Hs' & Hr' & He' & _). exists s'. rewrite Hout. done. }
  cbv zeta in Hout. destruct (file_take_run w c (inode_of v) s a Hr (inode_of_range v) Hf) as (s1 & Ht & Hr1).
  unfold cbind at 1 in Hout. rewrite Ht in Hout. destruct (may_take w (inode_of v) a).
  2: { destruct (fail_run EAGAIN bad s1 a Hr1) as (s' & Hs' & Hr' & He' & _). exists s'. rewrite Hout. done. }
  change (0 =? -1) with false in Hout. destruct (files a (inode_of v)) as [x|] eqn:Hx.
  - destruct (inode_get_run (inode_of v) mem x s1 _ Hr1 Hx) as (ino & l & Hg & Hrest). exists v, ino, l, s1.
    rewrite Hout. unfold cbind. rewrite Hg. done.
  - unfold cbind at 1 in Hout. rewrite (inode_none_run (inode_of v) mem s1 _ Hr1 Hx) in Hout. cbn [fst snd] in Hout.
    assert (((if inode_of v <? INODE_NUM_START then - EINVAL else -1) =? 0) = false) as Hz by (destruct (inode_of v <? INODE_NUM_START); reflexivity).
    rewrite Hz in Hout.
    destruct (set_err_run (if inode_of v <? INODE_NUM_START then - EINVAL else -1) s1 _ Hr1) as (s2 & He & Hr2 & Herr & _).
    destruct (file_unlock_run w (inode_of v) s2 a (inode_of_range v) Hr2) as (s3 & Hu & Hr3 & Herr3).
    exists s3. rewrite Hout. unfold cbind at 1. rewrite He. unfold cbind at 1. rewrite Hu. by rewrite Herr3.
Qed.

(** A run that answers as the specification does; [R] relates the answers. *)
Definition ok_run {A} (R : result -> A -> Prop) (c : cprog state A) (s : state) (o : result * astate F) : Prop :=
  exists z s', c s = Ret (z, s') /\ R o.1 z /\ rep s' o.2 /\ (forall e, o.1.2 = Some e -> err s' = e).

Lemma ok_fail {A} (R : result -> A -> Prop) (c : cprog state A) bad e (s : state) a' :
  (exists s', c s = Ret (bad, s') /\ rep s' a' /\ err s' = e) -> R (-1, None, Some e) bad -> ok_run R c s (failed e a').
Proof. intros (s' & Hs & Hr & He) HR. exists bad, s'. split_and!; [done|done|done|]. by intros e0 [= <-]. Qed.

Lemma ok_ext {A} (R : result -> A -> Prop) (c c' : cprog state A) s s' o : c s = c' s' -> ok_run R c' s' o -> ok_run R c s o.
Proof. intros Hc (z & s2 & Hs & Ho). exists z, s2. by rewrite Hc. Qed.

Lemma ok_map {A B} (R : result -> A -> Prop) (Q : result -> B -> Prop) (f : A -> B) c s o :
  ok_run R c s o -> (forall r z, R r z -> Q r (f z)) -> ok_run Q (let! z := c in cret (f z))%cprog s o.
Proof. intros (z & s' & Hs & HR & Ho) HQ. exists (f z), s'. unfold cbind. rewrite Hs. split_and!; [done|auto|apply Ho|apply Ho]. Qed.

(** An operation on the inode of a path refines [spec_file] when its body
    does. *)
Lemma file_refines {A} (bad : A) (R : result -> A -> Prop) w c p mem body k (s : state) a :
  rep s a -> fresh c s -> (forall e, R (-1, None, Some e) bad) ->
  (forall v n x ino l s1, rep s1 (locked w n a) -> names a p = Some n -> files a n = Some x -> inode_of v = n -> plain ino l ->
     (length l <= 1)%nat -> i_num (i_fixed ino) = n -> attrs_of (i_fixed ino) = x -> INODE_NUM_START <= n <= last a ->
     ok_run R (body v n ino) s1 (k n x (unlocked n a))) ->
  ok_run R (with_found ptr bad p (mode_lock w c) mem body) s (spec_file w p a k).
Proof.
  intros Hr Hf Hbad Hbody. pose proof (found_run bad w c p mem body s a Hr Hf) as Hw. unfold spec_file.
  destruct (names a p) as [n|] eqn:Hn; [|by eapply ok_fail]. destruct (may_take w n a); [|by eapply ok_fail].
  cbv zeta. change (files (set_held (delete n (held a)) a) n) with (files a n).
  destruct (files a n) as [x|] eqn:Hx; [|by eapply ok_fail].
  destruct Hw as (v & ino & l & s1 & Hs & Hr1 & Hv & Hp & Hl & Hnum & Hat & Hge). eapply ok_ext; [exact Hs|].
  eapply Hbody; try done. split; [done|]. destruct (decide (n <= last a)) as [|Hlt]; [done|].
  rewrite (proj2 (rp_new _ _ Hr)) in Hx by lia. done.
Qed.

(** What a success of the specification means. *)
Lemma spec_file_done w p (a : astate F) k : (spec_file w p a k).1.1.1 = 0 ->
  exists n x, names a p = Some n /\ files a n = Some x /\ spec_file w p a k = k n x (unlocked n a).
Proof using Type.
  unfold spec_file. destruct (names a p) as [n|]; [|done]. destruct (may_take w n a); [|done]. cbn.
  destruct (files a n) as [x|] eqn:Hx; [|done]. intros _. by exists n, x.
Qed.
Lemma spec_sys_done c (a : astate F) k : (spec_sys c a k).1.1.1 = 0 ->
  exists r st f, spec_sys c a k = k r st (set_below f a).
Proof using Type. unfold spec_sys. destruct (sys (below a) c) as [[[r e] st] f]. cbn. destruct (r =? -1); [done|]. intros _. by exists r, st, f. Qed.

(** A system call that must not fail. *)
Lemma sys_refines {A} (bad : A) (R : result -> A -> Prop) c body k (s : state) a :
  rep s a -> (forall e, R (-1, None, Some e) bad) ->
  (forall r e st f s1, sys (below a) c = ((r, e, st), f) -> rep s1 (set_below f a) -> nodes s1 = nodes s ->
     ok_run R (body r) s1 (k r st (set_below f a))) ->
  ok_run R (let! r := do_sys c in if r =? -1 then cret bad else body r)%cprog s (spec_sys c a k).
Proof.
  intros Hr Hbad Hbody. pose proof (do_sys_run c s a Hr) as Hs. unfold spec_sys.
  destruct (sys (below a) c) as [[[r e] st] f] eqn:Hc. destruct Hs as (s1 & Hs & Hr1 & He & Hn). cbv zeta.
  destruct (r =? -1) eqn:E; bool_to_Z.
  - eapply ok_fail; [|apply Hbad]. exists s1. unfold cbind. rewrite Hs. subst r. auto.
  - eapply ok_ext; [unfold cbind at 1; rewrite Hs; cbn beta iota; rewrite (proj2 (Z.eqb_neq _ _) E); reflexivity|]. by eapply Hbody.
Qed.

(** ** Changing an inode *)

Definition plainly (r : result) (z : Z) : Prop := r.1 = (z, None).
Definition exactly (r : result) (z : Z * option Z) : Prop := r.1 = z.

Lemma store_back_ok strict f g w n x ino l (s : state) a : rep s (locked w n a) -> plain ino l -> (length l <= 1)%nat ->
  i_num (i_fixed ino) = n -> INODE_NUM_START <= n <= last a -> files a n = Some x ->
  kept (i_fixed ino) f -> attrs_of f = g x ->
  ok_run plainly (store_back moves after strict n (with_fixed f ino)) s (change g n x (unlocked n a)).
Proof.
  intros Hr Hp Hl Hn Hrange Hx Hk Hg. unfold INODE_NUM_START in Hrange.
  destruct (inode_put_run 1 n (with_fixed f ino) l s (locked w n a) Hr) as (s1 & Hs1 & Hr1 & He1); try done.
  - by apply kept_plain.
  - cbn. destruct (kept_fields _ _ Hk) as (_ & _ & _ & _ & ->). done.
  - left. split; [done|]. cbn. by rewrite Hx.
  - destruct (file_unlock_run w n s1 (set_files (upd (files a) n (Some (g x))) a)) as (s2 & Hs2 & Hr2 & He2); [lia| |].
    { rewrite <- Hg. exact Hr1. }
    exists 0, s2. unfold store_back, cbind. rewrite Hs1, Hs2. split_and!; try done. by destruct strict.
Qed.

Lemma rename_body_ok to v n x ino l from (s : state) a : rep s (locked LockTree.Wr n a) -> plain ino l -> (length l <= 1)%nat ->
  i_num (i_fixed ino) = n -> attrs_of (i_fixed ino) = x -> inode_of v = n -> INODE_NUM_START <= n <= last a ->
  files a n = Some x -> names a from = Some n -> path_fits to -> to <> [] -> key_ok to ->
  ok_run plainly
    (let! f := copy_name to (i_fixed ino) in
     let! ret := on_x (on_db (put_inode moves (with_fixed f ino) after 1)) in
     if ret =? -1 then unlock n ;;; cret (-1)
     else
       let! ret := mc_remove from in
       if negb (ret =? 0) then unlock n ;;; cret (-1)
       else
         let! ret := mc_store to (cstr v ++ [0])%list in
         if negb (ret =? 0) then unlock n ;;; cret (-1)
         else unlock n ;;; cret 0)%cprog s
    (done_with None (set_names (upd (upd (names a) from None) to (Some n))
       (set_files (upd (files a) n (Some (mkAttrs to (a_uid x) (a_gid x) (a_mode x) (a_type x) (a_size x) (a_extents x)))) (unlocked n a)))).
Proof.
  intros Hr Hp Hl Hn Hat Hv Hrange Hx Hfrom Hfit Hne Hkey. pose proof Hfit as [Hz Hsz]. pose proof (plain_fixed _ _ Hp) as Hfix.
  assert (Hk : kept (i_fixed ino) (set_name to (i_fixed ino))).
  { apply kept_patch; [done|lia| |done]. unfold PATH_MAX in Hsz. rewrite size_app. change (size [0]) with 1. lia. }
  destruct (inode_put_run 1 n (with_fixed (set_name to (i_fixed ino)) ino) l s _ Hr) as (s1 & Hs1 & Hr1 & _); try done.
  { by apply kept_plain. }
  { cbn. destruct (kept_fields _ _ Hk) as (_ & _ & _ & _ & ->). done. }
  { left. split; [done|]. cbn. by rewrite Hx. }
  destruct (name_remove_run from s1 _ Hr1) as (s2 & Hs2 & Hr2 & _); [cbn; by rewrite Hfrom|].
  destruct (name_store_run to (cstr v ++ [0])%list s2 _ Hr2) as (s3 & Hs3 & Hr3 & _); [done|done|by destruct (cstr v)|].
  assert (Hin : inode_of (cstr v ++ [0])%list = n).
  { unfold inode_of. change [0] with (replicate 1 0). rewrite cstr_app_zeros; [done|apply cstr_nonzero]. }
  rewrite Hin in Hr3. unfold INODE_NUM_START in Hrange.
  destruct (file_unlock_run LockTree.Wr n s3 (set_names (upd (upd (names a) from None) to (Some n))
       (set_files (upd (files a) n (Some (mkAttrs to (a_uid x) (a_gid x) (a_mode x) (a_type x) (a_size x) (a_extents x)))) a)))
    as (s4 & Hs4 & Hr4 & _); [lia| |].
  { cbn [i_fixed with_fixed] in Hr3. rewrite attrs_name in Hr3 by done. subst x. exact Hr3. }
  exists 0, s4. split_and!; [|done|done|done]. unfold copy_name. rewrite (proj2 (Z.ltb_lt _ _) Hsz). unfold cbind, cret.
  rewrite Hs1. cbn -[mc_store mc_remove unlock]. rewrite Hs2. cbn -[mc_store unlock].
  rewrite Hs3. cbn -[unlock]. by rewrite Hs4.
Qed.

(** ** Making an inode *)

Lemma get_free_run (s : state) a : rep s a -> last a + 1 < 2 ^ 64 ->
  exists s', get_free_inode s = Ret (last a + 1, s') /\ rep s' (set_last (last a + 1) a) /\ nodes s' = nodes s.
Proof.
  intros Hr Hlt. pose proof (rp_last _ _ Hr) as Hlast. destruct Hr as [R1 R2 R3 R4 R5 R6 R7 [R8 R9]].
  eexists. split; [unfold get_free_inode, cbind, cmod, cget, cret; cbn; rewrite Hlast, uwrap_small by lia; reflexivity|].
  split; [|done]. split; cbn; try done. split; [lia|]. intros n Hn. apply R9. lia.
Qed.

Lemma store_new_run p ino (s : state) a : rep s a -> plain ino [] -> i_num (i_fixed ino) = last a ->
  INODE_NUM_START <= last a < 2 ^ 64 -> files a (last a) = None -> p <> [] -> key_ok p ->
  exists s', store_new moves after p ino s = Ret (0, s') /\ rep s' (make p (attrs_of (i_fixed ino)) a).
Proof.
  intros Hr Hp Hn Hrange Hx Hne Hkey.
  destruct (inode_put_run 0 (last a) ino [] s a Hr Hp) as (s1 & Hs1 & Hr1 & _); [cbn; lia|done|lia|by right|].
  destruct (name_store_run p (inode_str (i_num (i_fixed ino))) s1 _ Hr1) as (s2 & Hs2 & Hr2 & _); [done|done| |].
  { unfold inode_str. by destruct (fmt_lld _). }
  exists s2. unfold store_new, cbind. rewrite Hs1. cbn -[mc_store]. rewrite Hs2. split; [done|].
  rewrite Hn, inode_of_str in Hr2 by (unfold INODE_NUM_START in *; lia). exact Hr2.
Qed.

Lemma copy_name_run p f (s : state) : size p < PATH_MAX -> copy_name p f s = Ret (set_name p f, s).
Proof. intros Hp. unfold copy_name. by rewrite (proj2 (Z.ltb_lt _ _) Hp). Qed.


Lemma next_number (s : state) a : rep s a -> 2 <= last a + 1 /\ files a (last a + 1) = None.
Proof. intros Hr. destruct (rp_new _ _ Hr) as [Hl Hn]. split; [lia|]. apply Hn. lia. Qed.

(** [get_inode] never faults and changes nothing. *)
Lemma peek_run n (s : state) a : rep s a -> exists r, on_x (on_db (get_inode ptr n zero_inode)) s = Ret (r, s).
Proof.
  intros Hr. destruct (files a n) as [x|] eqn:Hx.
  - destruct (inode_get_run n zero_inode x s a Hr Hx) as (ino & l & Hg & _). eauto.
  - rewrite (inode_none_run n zero_inode s a Hr Hx). eauto.
Qed.

Lemma create_ok c p m (s : state) a : rep s a -> inode_mem c = true -> path_fits p -> p <> [] -> key_ok p -> last a + 1 < 2 ^ 64 ->
  ok_run exactly (sfs_create moves ptr after c (Some p) m) s (spec_fop (path_mem c) (junk_stat c) (OCreate p m) a).
Proof.
  intros Hr Hmem Hp Hne Hkey Hlt. cbn [spec_fop]. destruct (next_number s a Hr) as [Hge Hnone].
  pose proof (do_sys_run (Creat (prepend_mntpath (path_mem c) p) m) s a Hr) as Hs.
  destruct (sys (below a) _) as [[[fd e] st] f1]. destruct Hs as (s1 & Hs1 & Hr1 & _).
  unfold sfs_create. destruct (fd =? -1) eqn:Hfd.
  { destruct (fail_run EACCES (-1, None : option Z) s1 _ Hr1) as (s2 & Hs2 & Hr2 & He2 & _). eapply ok_fail; [|done]. exists s2.
    unfold cbind at 1. rewrite Hs1, Hfd. done. }
  destruct (get_free_run s1 _ Hr1 Hlt) as (s2 & Hs2 & Hr2 & _). cbn [last set_below] in Hs2.
  pose proof (do_sys_run Getuid s2 _ Hr2) as Hs. cbn [below set_last set_below] in Hs |- *.
  destruct (sys f1 Getuid) as [[[uid e2] st2] f2]. destruct Hs as (s3 & Hs3 & Hr3 & _).
  pose proof (do_sys_run Getgid s3 _ Hr3) as Hs. cbn [below set_last set_below] in Hs.
  destruct (sys f2 Getgid) as [[[gid e3] st3] f3]. destruct Hs as (s4 & Hs4 & Hr4 & _).
  pose proof (sys_run Clock s4 _ Hr4) as Hs. pose proof (sys_stat_ok f3 Clock) as Hok. cbn [below set_last set_below] in Hs.
  destruct (sys f3 Clock) as [[[r4 e4] st4] f4]. destruct Hs as (s5 & Hs5 & Hr5 & _). destruct Hok as (Hts & _). cbn [fst snd] in Hts.
  remember (set_links 1 (dressed uid gid m (type_of_mode m) (st_atime st4) (st_atime st4) (st_atime st4)
               (named (last a + 1) p (i_fixed zero_inode)))) as fx eqn:Hfx.
  destruct (dressed_ok (last a + 1) p uid gid m (type_of_mode m) _ _ _ (i_fixed zero_inode) eq_refl Hp Hts Hts Hts) as (Hsz & Hk & Hat).
  assert (Hkx : kept (set_num (last a + 1) (i_fixed zero_inode)) fx) by (rewrite Hfx; apply kept_set32; [done|lia|lia|exact Hk]).
  assert (Hatx : attrs_of fx = mkAttrs p (uwrap 32 uid) (uwrap 32 gid) (uwrap 32 m) (type_of_mode m) 0 0).
  { rewrite Hfx, attrs_links by exact Hsz. rewrite Hat, type_wrap. done. }
  destruct (store_new_run p (with_fixed fx zero_inode) s5 _ Hr5) as (s6 & Hs6 & Hr6).
  { apply bare_plain; [by rewrite (proj1 Hkx)|..].
    1-3: rewrite (kept_get32 _ (last a + 1) (i_fixed zero_inode)) by (done || lia); vm_compute; reflexivity.
    rewrite numclients_get.
    rewrite (kept_get32 _ (last a + 1) (i_fixed zero_inode)) by (done || lia). vm_compute. done. }
  { cbn [last set_last set_below]. eapply (number_set _ (i_fixed zero_inode)); [done|lia|done]. }
  { cbn. unfold INODE_NUM_START. lia. }
  { exact Hnone. } { done. } { done. }
  destruct (peek_run 3 s6 _ Hr6) as (r7 & Hs7). cbn [i_fixed with_fixed] in Hr6. rewrite Hatx in Hr6.
  exists (0, Some fd), s6. split_and!; [|done|exact Hr6|done].
  unfold cbind at 1. rewrite Hs1, Hfd, Hmem. cbn [negb]. unfold cbind at 1. rewrite Hs2. unfold cbind at 1.
  rewrite copy_name_run by apply Hp. unfold cbind at 1. rewrite Hs3. unfold cbind at 1. rewrite Hs4. cbv zeta.
  unfold cbind at 1. rewrite Hs5. unfold cbind at 1. cbn [fst snd].
  rewrite Hfx in Hs6. unfold dressed, named in Hs6. rewrite Hs6. change (0 =? -1) with false.
  unfold cbind. rewrite Hs7. done.
Qed.

Lemma stored_ok p f sfsds x (s : state) a : rep s a -> plain (mkInode f None ∅ ∅ sfsds) [] -> i_num f = last a ->
  INODE_NUM_START <= last a < 2 ^ 64 -> files a (last a) = None -> p <> [] -> key_ok p -> attrs_of f = x ->
  ok_run plainly (store_new moves after p (mkInode f None ∅ ∅ sfsds)) s (done_with None (make p x a)).
Proof.
  intros Hr Hpl Hnum Hrange Hnone Hne Hkey <-. destruct (store_new_run p _ s a Hr Hpl Hnum Hrange Hnone Hne Hkey) as (s' & Hs & Hr').
  by exists 0, s'.
Qed.

(** What an operation may start from on the stack. *)
Definition stack_ok (c : call) : Prop :=
  size (i_fixed (stack c)) = INODE_FIXED /\ 0 <= i_numclients (i_fixed (stack c)) <= 1 /\ stat_ok (junk_stat c).

Lemma mkdir_ok c p m (s : state) a : rep s a -> stack_ok c -> path_fits p -> p <> [] -> key_ok p -> last a + 1 < 2 ^ 64 ->
  ok_run plainly (sfs_mkdir moves after c (Some p) m) s (spec_fop (path_mem c) (junk_stat c) (OMkdir p m) a).
Proof.
  intros Hr (Hst & Hcl & Ha & Hc & Hm) Hp Hne Hkey Hlt. cbn [spec_fop]. unfold sfs_mkdir. cbv zeta.
  destruct (next_number s a Hr) as [Hge Hnone].
  apply sys_refines; [done|done|]. intros r0 e0 st0 f1 s1 _ Hr1 _.
  destruct (get_free_run s1 _ Hr1 Hlt) as (s2 & Hs2 & Hr2 & _). cbn [last set_below] in Hs2.
  pose proof (do_sys_run Getuid s2 _ Hr2) as Hs. cbn [below set_last set_below] in Hs |- *.
  destruct (sys f1 Getuid) as [[[uid e2] st2] f2]. destruct Hs as (s3 & Hs3 & Hr3 & _).
  pose proof (do_sys_run Getgid s3 _ Hr3) as Hs. cbn [below set_last set_below] in Hs.
  destruct (sys f2 Getgid) as [[[gid e3] st3] f3]. destruct Hs as (s4 & Hs4 & Hr4 & _).
  pose proof (sys_run (Stat (prepend_mntpath (path_mem c) p)) s4 _ Hr4) as Hs. cbn [below set_last set_below] in Hs.
  destruct (sys f3 _) as [[[r4 e4] st4] f4]. destruct Hs as (s5 & Hs5 & Hr5 & _).
  eapply ok_ext.
  { unfold cbind at 1. rewrite Hs2. unfold cbind at 1. rewrite copy_name_run by apply Hp. unfold cbind at 1. rewrite Hs3.
    unfold cbind at 1. rewrite Hs4. unfold cbind at 1. rewrite Hs5. reflexivity. }
  cbn [fst snd below set_last set_below]. destruct (r4 =? -1).
  - destruct (set_err_run EACCES s5 _ Hr5) as (s6 & Hs6 & Hr6 & He6 & _).
    pose proof (do_sys_run_err (Rmdir p) s6 _ Hr6) as Hs. cbn [below set_last set_below] in Hs.
    destruct (sys f4 (Rmdir p)) as [[[r7 e7] st7] f7]. destruct Hs as (s7 & Hs7 & Hr7 & He7). rewrite He6 in He7.
    eapply ok_fail; [|done]. exists s7. unfold cbind. rewrite Hs6, Hs7. done.
  - destruct (dressed_ok (last a + 1) p uid gid m DIRECTORY _ _ _ (i_fixed (stack c)) Hst Hp Ha Hc Hm) as (Hsz & Hk & Hat).
    destruct (dir_fixed_ok (last a + 1) st4 _ _ (i_sfsds (stack c)) Hst Hsz Hk ltac:(lia) Hcl) as (Hpl & Hnum & Hat2).
    remember (dir_fixed st4 _) as fx eqn:Hfx.
    assert (Hat3 : attrs_of fx = mkAttrs p (uwrap 32 uid) (uwrap 32 gid) (uwrap 32 m) DIRECTORY (uwrap 64 (st_size st4)) 0).
    { rewrite Hat2. unfold empty_of. rewrite Hat. reflexivity. }
    clear Hat Hat2.
    rewrite named_eq, dressed_eq, dir_fixed_eq, <- Hfx.
    apply stored_ok; [exact Hr5|done|done|cbn; unfold INODE_NUM_START; lia|exact Hnone|done..].
Qed.

Lemma new_link_ok c p type (s : state) a : rep s a -> stack_ok c -> path_fits p -> p <> [] -> key_ok p -> last a + 1 < 2 ^ 64 ->
  uwrap 32 type = type ->
  ok_run plainly (new_link moves after c p type) s (spec_link (junk_stat c) p type a).
Proof.
  intros Hr (Hst & Hcl & Ha & Hc & Hm) Hp Hne Hkey Hlt Htype. destruct (next_number s a Hr) as [Hge Hnone].
  destruct (get_free_run s _ Hr Hlt) as (s2 & Hs2 & Hr2 & _). unfold new_link.
  eapply ok_ext; [unfold cbind at 1; rewrite Hs2; unfold cbind at 1; rewrite copy_name_run by apply Hp; reflexivity|]. cbv zeta.
  destruct (dressed_ok (last a + 1) p (st_uid (junk_stat c)) (st_gid (junk_stat c)) (st_mode (junk_stat c)) type _ _ _
    (i_fixed (stack c)) Hst Hp Ha Hc Hm) as (Hsz & Hk & Hat).
  destruct (link_fixed_ok (last a + 1) (junk_stat c) _ _ (i_sfsds (stack c)) Hst Hsz Hk ltac:(lia) Hcl) as (Hpl & Hnum & Hat2).
  remember (link_fixed (junk_stat c) _) as fx eqn:Hfx.
  assert (Hat3 : attrs_of fx = link_attrs (junk_stat c) p type).
  { rewrite Hat2. unfold empty_of. rewrite Hat, Htype. reflexivity. }
  rewrite named_eq, dressed_eq, link_fixed_eq, <- Hfx.
  apply stored_ok; [exact Hr2|done|done|cbn; unfold INODE_NUM_START; lia|exact Hnone|done..].
Qed.

Definition got (r : result) (z : Z * option stat) : Prop := r.1 = (z.1, st_size <$> z.2).

Lemma getattr_ok c p (s : state) a : rep s a -> fresh c s -> inode_mem c = true ->
  ok_run got (sfs_getattr ptr c (Some p) true) s (spec_fop (path_mem c) (junk_stat c) (OGetattr p) a).
Proof.
  intros Hr Hf Hmem. cbn [spec_fop]. unfold sfs_getattr. rewrite Hmem. cbn [negb].
  pose proof (sys_run (Lstat (prepend_mntpath (path_mem c) p)) s a Hr) as Hs.
  destruct (sys (below a) _) as [[[r e] st] f]. destruct Hs as (s1 & Hs1 & Hr1 & He1 & Hn1).
  eapply ok_ext; [unfold cbind at 1; rewrite Hs1; reflexivity|]. cbn [fst snd]. destruct (r =? -1) eqn:E; bool_to_Z.
  - specialize (He1 E). eexists _, s1. split_and!; [reflexivity| |done|by intros e0 [= <-]]. unfold got, err in *. cbn. by rewrite He1.
  - unfold with_file. change (rdlock c) with (mode_lock LockTree.Rd c). apply file_refines; [done|by unfold fresh; rewrite Hn1|done|].
    intros v n x ino l s2 Hr2 Hn Hx _ Hp Hl Hnum Hat Hge. unfold INODE_NUM_START in Hge.
    destruct (file_unlock_run LockTree.Rd n s2 (set_below f a)) as (s3 & Hs3 & Hr3 & _); [lia|exact Hr2|].
    eexists _, s3. split_and!; [unfold cbind; rewrite Hs3; reflexivity| |exact Hr3|done]. unfold got. cbn. by rewrite <- Hat.
Qed.

Lemma access_ok c p m (s : state) a : rep s a -> fresh c s ->
  ok_run plainly (sfs_access ptr c (Some p) m) s (spec_fop (path_mem c) (junk_stat c) (OAccess p m) a).
Proof.
  intros Hr Hf. cbn [spec_fop]. unfold sfs_access. destruct (m =? 0).
  { destruct (fail_run EINVAL (-1) s a Hr) as (s' & Hs' & Hr' & He' & _). eapply ok_fail; [eauto|done]. }
  case_bool_decide; [exists 0, s; split_and!; done|].
  unfold with_file. change (rdlock c) with (mode_lock LockTree.Rd c). apply file_refines; [done|done|done|].
  intros v n x ino l s2 Hr2 Hn Hx _ Hp Hl Hnum Hat Hge. unfold INODE_NUM_START in Hge. unfold F_OK. rewrite Z.land_0_r.
  change (negb (0 =? 0)) with false. cbn iota. rewrite <- Hat. cbn [a_mode attrs_of].
  destruct (Z.land (i_mode (i_fixed ino)) m =? 0); cbn [negb].
  - destruct (set_err_run EACCES s2 _ Hr2) as (s3 & Hs3 & Hr3 & He3 & _).
    destruct (file_unlock_run LockTree.Rd n s3 a) as (s4 & Hs4 & Hr4 & He4); [lia|exact Hr3|].
    eapply ok_fail; [|done]. exists s4. unfold cbind. rewrite Hs3, Hs4. split_and!; [done|exact Hr4|congruence].
  - destruct (file_unlock_run LockTree.Rd n s2 a) as (s3 & Hs3 & Hr3 & _); [lia|exact Hr2|].
    exists 0, s3. unfold cbind. rewrite Hs3. done.
Qed.

Lemma readlink_ok c p buf (s : state) a : rep s a -> fresh c s ->
  (forall n x, names a p = Some n -> files a n = Some x -> a_type x = SYMLINK -> a_extents x <= 0) ->
  ok_run (fun r z => plainly r z.1 /\ z.2 = buf) (sfs_readlink ptr c (Some p) (Some buf)) s (spec_fop (path_mem c) (junk_stat c) (OReadlink p buf) a).
Proof.
  intros Hr Hf Hext. cbn [spec_fop]. unfold sfs_readlink. destruct (size buf =? 0).
  { destruct (fail_run EINVAL (-1, buf) s a Hr) as (s' & Hs' & Hr' & He' & _). eapply ok_fail; [eauto|done]. }
  unfold with_file. change (rdlock c) with (mode_lock LockTree.Rd c). apply file_refines; [done|done|done|].
  intros v n x ino l s2 Hr2 Hn Hx _ Hp Hl Hnum Hat Hge. unfold INODE_NUM_START in Hge. specialize (Hext n x Hn Hx).
  destruct (file_unlock_run LockTree.Rd n s2 a) as (s3 & Hs3 & Hr3 & _); [lia|exact Hr2|].
  eapply ok_ext; [unfold cbind at 1; rewrite Hs3; reflexivity|]. subst x. cbn [a_type a_extents attrs_of] in *.
  destruct (i_type (i_fixed ino) =? SYMLINK) eqn:E; bool_to_Z; cbn [negb].
  - rewrite (proj2 (Z.leb_le _ _) (Hext E)). destruct (fail_run EFAULT (-1, buf) s3 _ Hr3) as (s' & Hs' & Hr' & He' & _).
    eapply ok_fail; [eauto|done].
  - destruct (fail_run EINVAL (-1, buf) s3 _ Hr3) as (s' & Hs' & Hr' & He' & _). eapply ok_fail; [eauto|done].
Qed.

Lemma rep_ext (s : state) a a' : rep s a -> (forall p, names a' p = names a p) -> (forall n, files a' n = files a n) ->
  held a' = held a -> below a' = below a -> last a' = last a -> rep s a'.
Proof.
  intros [R1 R2 R3 R4 R5 R6 R7 [R8 R9]] Hn Hf Hh Hb Hl. split; try congruence.
  - intros p. by rewrite Hn.
  - intros n x. rewrite Hf. apply R3.
  - intros n. rewrite Hf. apply R4.
  - rewrite Hl. split; [done|]. intros n Hlt. rewrite Hf. by apply R9.
Qed.

Lemma attrs_atime x f : size f = INODE_FIXED -> size x = 16 -> attrs_of (set_atime x f) = attrs_of f.
Proof. intros Hf Hx. fields. done. Qed.

Lemma names_small p n (s : state) a : rep s a -> names a p = Some n -> 0 <= n < 2 ^ 64.
Proof.
  intros Hr. rewrite (rp_names _ _ Hr). case_if; [done|]. destruct (memcached_get (mc s) p); [|done]. intros [= <-].
  apply (uwrap_range 64). lia.
Qed.

(** A file that is known is opened; the inode is stored again. *)
Lemma open_ok c p flags (s : state) a : rep s a -> inode_mem c = true -> size (st_atime (junk_stat c)) = 16 -> key_ok p -> p <> [] ->
  (exists n, names a p = Some n /\ is_Some (files a n)) ->
  ok_run exactly (sfs_open moves ptr after c (Some p) (Some flags)) s (spec_fop (path_mem c) (junk_stat c) (OOpen p flags) a).
Proof.
  intros Hr Hmem Hts Hkey Hne (n & Hn & x & Hx). cbn [spec_fop]. unfold sfs_open. apply sys_refines; [done|done|].
  intros fd e st f s1 _ Hr1 _. destruct (read_one_run p s1 _ Hr1) as (v & Hv & Hvn & _). cbn [names set_below] in Hvn.
  rewrite Hn in Hvn. destruct v as [v|]; [|done]. injection Hvn as Hvn.
  destruct (inode_get_run n zero_inode x s1 _ Hr1 Hx) as (ino & l & Hg & Hp & Hl & Hnum & Hat & Hge).
  pose proof (plain_fixed _ _ Hp) as Hfix. set (ino' := with_fixed (set_atime (st_atime (junk_stat c)) (i_fixed ino)) ino).
  assert (Hk : kept (i_fixed ino) (i_fixed ino')) by (apply kept_patch; [done|lia|lia|done]).
  assert (Hnum' : i_num (i_fixed ino') = n) by (destruct (kept_fields _ _ Hk) as (_ & _ & _ & _ & ->); done).
  assert (Hle : n <= last a).
  { destruct (decide (n <= last a)); [done|]. rewrite (proj2 (rp_new _ _ Hr)) in Hx by lia. done. }
  destruct (inode_put_run 1 n ino' l s1 _ Hr1) as (s2 & Hs2 & Hr2 & _); [by apply kept_plain|done|done|done|left; split; [done|by exists x]|].
  destruct (name_store_run p (inode_str (i_num (i_fixed ino'))) s2 _ Hr2) as (s3 & Hs3 & Hr3 & _); [done|done| |].
  { unfold inode_str. by destruct (fmt_lld _). }
  rewrite Hnum', inode_of_str in Hr3 by (eapply names_small; [exact Hr|done]).
  exists (0, Some fd), s3. split_and!; [|done| |done].
  - unfold cbind at 1. rewrite Hv, Hmem. cbn [negb]. unfold cbind at 1, cexpect at 1. cbn [cret]. rewrite Hvn.
    unfold cbind at 1. rewrite Hg. cbn [fst snd]. unfold cbind at 1. cbn [cret]. change (0 =? 0) with true. cbn [negb].
    cbn iota beta. unfold cbind at 1. fold ino'. unfold cret at 1. rewrite Hs2.
    change (negb (0 =? 0)) with false. cbn iota. unfold cbind at 1. rewrite Hs3. done.
  - eapply rep_ext; [exact Hr3|..]; [| |done..]; cbn; intros k; unfold upd; case_decide as Hk'; subst; try done.
    rewrite attrs_atime by done. by rewrite Hx.
Qed.

(** The operations that change an attribute: [set] is what they do to the
    fixed part of the inode. *)
Lemma update_ok strict set g c p (s : state) a :
  (forall f, size f = INODE_FIXED -> kept f (set f) /\ attrs_of (set f) = g (attrs_of f)) ->
  rep s a -> fresh c s ->
  ok_run plainly (with_file ptr (-1) p (wrlock c) (stack c) (fun n ino => store_back moves after strict n (with_fixed (set (i_fixed ino)) ino))) s
    (spec_file LockTree.Wr p a (change g)).
Proof.
  intros Hset Hr Hf. unfold with_file. change (wrlock c) with (mode_lock LockTree.Wr c). apply file_refines; [done|done|done|].
  intros v n x ino l s2 Hr2 Hn Hx _ Hp Hl Hnum Hat Hge. destruct (Hset _ (plain_fixed _ _ Hp)) as [Hk Hg].
  eapply store_back_ok; try done. by rewrite Hg, Hat.
Qed.

(** What an operation may be called with. *)
Definition legal_fop (c : call) (o : fop) (s : state) (a : astate F) : Prop :=
  fresh c s /\ inode_mem c = true /\
  match o with
  | OCreate p _ => path_fits p /\ p <> [] /\ key_ok p /\ last a + 1 < 2 ^ 64
  | OMkdir p _ => path_fits p /\ p <> [] /\ key_ok p /\ last a + 1 < 2 ^ 64 /\ stack_ok c
  | OSymlink _ to | OLink _ to => path_fits to /\ to <> [] /\ key_ok to /\ last a + 1 < 2 ^ 64 /\ stack_ok c
  | ORename _ to => path_fits to /\ to <> [] /\ key_ok to
  | OReadlink p _ => forall n x, names a p = Some n -> files a n = Some x -> a_type x = SYMLINK -> a_extents x <= 0
  | OOpen p _ => size (st_atime (junk_stat c)) = 16 /\ key_ok p /\ p <> [] /\ exists n, names a p = Some n /\ is_Some (files a n)
  | _ => True
  end.

Lemma plain_ok m (s : state) o : ok_run plainly m s o -> ok_run exactly (plain_result m) s o.
Proof. intros Ho. by apply (ok_map plainly). Qed.

(** One operation does what the specification says. *)
Lemma fop_refines c o (s : state) a : rep s a -> legal_fop c o s a ->
  ok_run exactly (run_fop moves ptr after c o) s (spec_fop (path_mem c) (junk_stat c) o a).
Proof.
  intros Hr (Hf & Hmem & Hlegal). destruct o; cbn [run_fop].
  - apply (ok_map got); [by apply getattr_ok|]. intros r z Hz. unfold got in Hz. unfold exactly. by rewrite Hz.
  - apply plain_ok. apply sys_refines; [done|done|]. intros r e st f s1 _ Hr1 Hn1.
    apply update_ok; [|done|by unfold fresh; rewrite Hn1]. intros g Hg. split; [by apply kept_set32|by apply attrs_mode].
  - apply plain_ok. apply sys_refines; [done|done|]. intros r e st f s1 _ Hr1 Hn1.
    apply (update_ok _ (fun f => set_gid gid (set_uid uid f))); [|done|by unfold fresh; rewrite Hn1].
    intros g Hg. split; [by repeat apply kept_set32|by apply attrs_owner].
  - apply plain_ok. apply sys_refines; [done|done|]. intros r e st f s1 _ Hr1 Hn1.
    apply update_ok; [|done|by unfold fresh; rewrite Hn1]. intros g Hg. split; [by apply kept_set64|by apply attrs_size].
  - apply plain_ok. apply sys_refines; [done|done|]. intros r e st f s1 _ Hr1 Hn1.
    apply update_ok; [|done|by unfold fresh; rewrite Hn1]. intros g Hg. split; [by apply kept_set64|by apply attrs_size].
  - apply plain_ok. by apply access_ok.
  - apply plain_ok. destruct Hlegal as (Hp & Hne & Hkey). unfold sfs_rename. change (wrlock c) with (mode_lock LockTree.Wr c).
    cbn [spec_fop]. apply file_refines; [done|done|done|]. intros v n x ino l s1 Hr1 Hn Hx Hv Hpl Hl Hnum Hat Hge.
    exact (rename_body_ok to v n x ino l _ s1 a Hr1 Hpl Hl Hnum Hat Hv Hge Hx Hn Hp Hne Hkey).
  - destruct Hlegal as (? & ? & ? & ?). by apply create_ok.
  - destruct Hlegal as (? & ? & ? & ? & ?). apply plain_ok. by apply mkdir_ok.
  - destruct Hlegal as (? & ? & ? & ? & ?). apply plain_ok. apply sys_refines; [done|done|]. intros. by apply new_link_ok.
  - destruct Hlegal as (? & ? & ? & ? & ?). apply plain_ok. apply sys_refines; [done|done|]. intros. by apply new_link_ok.
  - apply (ok_map (fun r z => plainly r z.1 /\ z.2 = buf)); [by apply readlink_ok|]. by intros r z [Hz _].
  - destruct Hlegal as (? & ? & ? & ?). by apply open_ok.
Qed.

End Refine.

End FileSpec.
