(* ===== verification/FileProps.v ===== *)
(** The theorems on the operations of [FileOps]: sequences of operations answer
    as [FileSpec] says, what one operation leaves for the next one, and where
    an operation does not do what its caller expects. *)
From Stdlib Require Import ZArith Lia String.
From stdpp Require Import base gmap list numbers.
From S2P Require Import Prelude CString CFormat KeyTree LockTree InodeStore InodeFields Xattr Memcache FileOps FileSpec.
Import InodeStore.

Module FileProps.
Import Xattr InodeFields Memcache FileOps FileSpec.

Section Props.
Context {T : Type} `{KeyTreeLaws T} {D : Type} `{InodeDbLaws D} `{!DbUp D} {M : Type} `{Memcached M}
  (key_ok : list Z -> Prop) `{!MemcachedUp M key_ok} {F : Type} `{Posix F} `{!PosixOk F}.
Context (moves : bool) (ptr after : list Z).
#[local] Abbreviation state := (@mstate T D M F).

(** * Sequences *)

Fixpoint run_fops (l : list (call * fop)) : cprog state (list (Z * option Z)) :=
  match l with
  | [] => cret []
  | (c, o) :: l' => (let! r := run_fop moves ptr after c o in let! rs := run_fops l' in cret (r :: rs))%cprog
  end.

Fixpoint spec_fops (l : list (call * fop)) (a : astate F) : list (Z * option Z) * astate F :=
  match l with
  | [] => ([], a)
  | (c, o) :: l' =>
      let '(r, a) := spec_fop (path_mem c) (junk_stat c) o a in
      let '(rs, a) := spec_fops l' a in
      (r.1 :: rs, a)
  end.

(** Each operation may be called where it is called. *)
Fixpoint legal_run (l : list (call * fop)) (s : state) (a : astate F) : Prop :=
  match l with
  | [] => True
  | (c, o) :: l' =>
      legal_fop key_ok c o s a /\
      match run_fop moves ptr after c o s with
      | Ret (_, s') => legal_run l' s' (spec_fop (path_mem c) (junk_stat c) o a).2
      | Fault _ => True
      end
  end.


(** * One operation after the other *)

Hypothesis (Hptr : size ptr = SIZEOF_PTR) (Hafter : SIZEOF_PTR <= size after).

(** An operation that succeeded left the state that the specification says. *)
Lemma fop_done c o x (s s1 : state) a : rep s a -> legal_fop key_ok c o s a -> run_fop moves ptr after c o s = Ret ((0, x), s1) ->
  (spec_fop (path_mem c) (junk_stat c) o a).1.1 = (0, x) /\ rep s1 (spec_fop (path_mem c) (junk_stat c) o a).2.
Proof using All.
  intros Hr Hl Hs. destruct (fop_refines key_ok moves ptr after Hptr Hafter c o s a Hr Hl) as (z & s' & Hs' & Hz & Hr' & _).
  rewrite Hs in Hs'. injection Hs' as <- <-. done.
Qed.

(** After [sfs_truncate] or [sfs_ftruncate] answered 0, [sfs_getattr] of the
    path answers the new size, if the file system below finds the file. *)
Theorem size_after_truncate c c' o p z (s s1 : state) a : rep s a -> legal_fop key_ok c o s a ->
  o = OTruncate p z \/ (exists fd, o = OFtruncate p z fd) ->
  run_fop moves ptr after c o s = Ret ((0, None), s1) ->
  fresh c' s1 -> inode_mem c' = true -> (sys (fs s1) (Lstat (prepend_mntpath (path_mem c') p))).1.1.1 <> -1 ->
  exists st s2, sfs_getattr ptr c' (Some p) true s1 = Ret ((0, Some st), s2) /\ st_size st = uwrap 64 z.
Proof using All.
  intros Hr Hl Ho Hs Hf Hmem Hsys. destruct (fop_done _ _ _ _ _ _ Hr Hl Hs) as [Hres Hr1].
  assert (Ha : exists n x, names (spec_fop (path_mem c) (junk_stat c) o a).2 p = Some n /\
    files (spec_fop (path_mem c) (junk_stat c) o a).2 n = Some x /\ a_size x = uwrap 64 z /\
    held (spec_fop (path_mem c) (junk_stat c) o a).2 !! n = None).
  { destruct Ho as [->|[fd ->]]; cbn [spec_fop] in *;
      (destruct (spec_sys_done _ _ _ (f_equal fst Hres)) as (r & st & f & Hsp)); rewrite Hsp in *;
      destruct (spec_file_done _ _ _ _ (f_equal fst Hres)) as (n & x & Hn & Hx & ->);
      eexists n, _; cbn; (split; [exact Hn|]); unfold upd; rewrite decide_True by done; split_and!; try done; apply lookup_delete_eq. }
  destruct Ha as (n & x & Hn & Hx & Hz & Hh).
  destruct (getattr_ok key_ok moves ptr after Hptr Hafter c' p s1 _ Hr1 Hf Hmem) as (y & s2 & Hs2 & Hy & _).
  revert Hy. unfold got. cbn [spec_fop]. rewrite (rp_below _ _ Hr1) in Hsys.
  destruct (sys (below _) _) as [[[r e] st] f]. cbn in Hsys. rewrite (proj2 (Z.eqb_neq _ _) Hsys).
  unfold spec_file, may_take. cbn [names files held set_below]. rewrite Hn, Hh. cbn. rewrite Hx. cbn. rewrite Hz.
  destruct y as [r' [st'|]]; cbn; [|done]. intros [= <- Hsz]. by exists st', s2.
Qed.

(** A symbolic link that was made cannot be read: [sfs_symlink] stores no
    extent, and [sfs_readlink] looks for the target in the first extent. *)
Theorem symlink_unreadable c c' from to buf (s s1 : state) a : rep s a -> legal_fop key_ok c (OSymlink from to) s a ->
  run_fop moves ptr after c (OSymlink from to) s = Ret ((0, None), s1) -> held a !! (last a + 1) = None ->
  fresh c' s1 -> size buf <> 0 ->
  exists s2, sfs_readlink ptr c' (Some to) (Some buf) s1 = Ret ((-1, buf), s2) /\ err s2 = EFAULT.
Proof using All.
  intros Hr Hl Hs Hh Hf Hbuf. destruct (fop_done _ _ _ _ _ _ Hr Hl Hs) as [Hres Hr1]. cbn [spec_fop] in *.
  destruct (spec_sys_done _ _ _ (f_equal fst Hres)) as (r & st & f & Hsp). rewrite Hsp in *. clear Hsp Hres.
  set (a1 := (spec_link (junk_stat c) to SYMLINK (set_below f a)).2) in *.
  assert (Hn : names a1 to = Some (last a + 1)) by (unfold a1; cbn; unfold upd; by rewrite decide_True).
  assert (Hx : files a1 (last a + 1) = Some (link_attrs (junk_stat c) to SYMLINK)) by (unfold a1; cbn; unfold upd; by rewrite decide_True).
  assert (Hh1 : held a1 !! (last a + 1) = None) by exact Hh. clearbody a1.
  destruct (readlink_ok key_ok moves ptr after Hptr Hafter c' to buf s1 a1 Hr1 Hf) as ([y b] & s2 & Hs2 & [Hy Hb] & _ & He).
  { intros n x Hn' Hx' _. rewrite Hn in Hn'. injection Hn' as <-. rewrite Hx in Hx'. injection Hx' as <-. done. }
  exists s2. revert Hy He. unfold plainly. cbn [spec_fop]. rewrite (proj2 (Z.eqb_neq _ _) Hbuf).
  unfold spec_file, may_take. rewrite Hn, Hh1. cbn. rewrite Hx. cbn.
  intros [= <-] He. cbn in Hb. subst b. split; [done|]. by apply He.
Qed.

(** [sfs_rename] leaves the file below where it is: the new name leads to the
    inode, and [sfs_getattr] of the new name fails as the file system below
    does not know it. *)
Theorem rename_loses_file c c' from to e st f (s s1 : state) a : rep s a -> legal_fop key_ok c (ORename from to) s a ->
  run_fop moves ptr after c (ORename from to) s = Ret ((0, None), s1) -> inode_mem c' = true ->
  sys (fs s) (Lstat (prepend_mntpath (path_mem c') to)) = ((-1, e, st), f) ->
  is_Some (memcached_get (mc s1) to) /\ fs s1 = fs s /\
  exists s2, sfs_getattr ptr c' (Some to) true s1 = Ret ((- e, None), s2).
Proof using All.
  intros Hr Hl Hs Hmem Hsys. destruct (fop_done _ _ _ _ _ _ Hr Hl Hs) as [Hres Hr1]. cbn [spec_fop] in *.
  destruct (spec_file_done _ _ _ _ (f_equal fst Hres)) as (n & x & Hn & Hx & Hsp). rewrite Hsp in *.
  pose proof (rp_below _ _ Hr1) as Hb1. cbn in Hb1. rewrite <- (rp_below _ _ Hr) in Hb1.
  split; [|split; [done|]].
  - pose proof (rp_names _ _ Hr1 to) as Hto. cbn in Hto. unfold upd in Hto. rewrite decide_True in Hto by done.
    revert Hto. case_match; [done|]. destruct (memcached_get (mc s1) to); [eauto|done].
  - unfold sfs_getattr. rewrite Hmem. cbn [negb]. unfold cbind at 1, syscall_stat. unfold cbind, cget, cput. rewrite Hb1, Hsys. cbn.
    eexists. reflexivity.
Qed.

End Props.
(** * Where the services are not asked, or do not answer *)

Section Faults.
Context {T : Type} `{KeyTree T} {D : Type} `{InodeDb D} {M : Type} `{Memcached M} {F : Type} `{Posix F}.
Context (moves : bool) (ptr after : list Z).
#[local] Abbreviation state := (@mstate T D M F).

(** [sfs_open] of a file that the file system below opens and that memcached
    does not know hands NULL to [atoll]. *)
Theorem open_unknown_faults c p flags fd e st f (s : state) :
  sys (fs s) (Open (prepend_mntpath (path_mem c) p) flags) = ((fd, e, st), f) -> fd <> -1 -> inode_mem c = true ->
  memcached_get (mc s) p = None ->
  sfs_open moves ptr after c (Some p) (Some flags) s = Fault NullDeref.
Proof.
  intros Hsys Hfd Hmem Hget. unfold sfs_open, do_sys, syscall_stat, mc_read_one, on_mc, sstack_memcache_read_one, cbind, cget, cput, cret. rewrite Hsys.
  rewrite (proj2 (Z.eqb_neq _ _) Hfd). cbn -[put_inode get_inode]. rewrite (proj2 (Z.eqb_neq _ _) Hfd), Hmem. cbn -[put_inode get_inode]. rewrite Hget.
  by destruct (size p =? 0).
Qed.

(** [access(path, F_OK)], the question whether a file exists, is always
    refused. *)
Theorem access_exists_refused c p (s : state) :
  exists s', sfs_access ptr c (Some p) F_OK s = Ret (-1, s') /\ err s' = EINVAL.
Proof. eexists. split; reflexivity. Qed.

Lemma fill_dir_spec filler seen l :
  exists k, (k <= length l)%nat /\ fill_dir filler seen l = (seen ++ (fill_entry <$> take k l))%list /\
    (k < length l -> filler (seen ++ (fill_entry <$> take k l))%list = true)%nat /\
    (forall j, 0 < j < k -> filler (seen ++ (fill_entry <$> take j l))%list = false)%nat.
Proof.
  revert seen. induction l as [|de l IH]; intros seen; cbn [fill_dir].
  { exists 0%nat. cbn. rewrite app_nil_r. split_and!; [lia|done|lia|lia]. }
  destruct (filler (seen ++ [fill_entry de])%list) eqn:Hf.
  { exists 1%nat. cbn. rewrite take_0. cbn. split_and!; [lia|done|done|lia]. }
  destruct (IH (seen ++ [fill_entry de])%list) as (k & Hk & Hr & Hfull & Hbefore). exists (S k). cbn [length take fmap list_fmap].
  rewrite <- app_assoc in Hr, Hfull. split_and!; [lia|exact Hr|intros Hlt; apply Hfull; lia|].
  intros [|[|j]] Hj; [lia|cbn [take fmap list_fmap]; by rewrite take_0|]. specialize (Hbefore (S j) ltac:(lia)).
  rewrite <- app_assoc in Hbefore. exact Hbefore.
Qed.

(** [sfs_readdir] hands the entries of the directory below to [filler], in
    order, each once, up to the first call that [filler] refuses. *)
Theorem readdir_lists dir filler c p l (s : state) :
  prepend_mntpath (path_mem c) p ≫= dir = Some l ->
  exists k, (k <= length l)%nat /\
    sfs_readdir dir filler c (Some p) true true s = Ret ((0, fill_entry <$> take k l), s) /\
    (k < length l -> filler (fill_entry <$> take k l) = true)%nat /\
    (forall j, 0 < j < k -> filler (fill_entry <$> take j l) = false)%nat.
Proof.
  intros Hd. destruct (fill_dir_spec filler [] l) as (k & Hk & Hr & Hrest). exists k. split; [done|]. split; [|done].
  unfold sfs_readdir. cbn [negb orb]. rewrite Hd, Hr. done.
Qed.
End Faults.

(** * Examples *)

(** A file system below: the paths that exist. *)
Definition flat : Type := list (list Z).
Definition no_stat : stat := mkStat 0 0 0 1 0 0 (zeros 16) (zeros 16) (zeros 16).
Definition flat_sys (f : flat) (c : syscall) : (Z * Z * stat) * flat :=
  match c with
  | Creat (Some p) _ => ((7, 0, no_stat), p :: f)
  | Lstat (Some p) => ((if bool_decide (p ∈ f) then 0 else -1, ENOENT, no_stat), f)
  | Unlink p | Rmdir p =>
      if bool_decide (p ∈ f) then ((0, 0, no_stat), filter (fun q => q <> p) f) else ((-1, ENOENT, no_stat), f)
  | _ => ((0, 0, no_stat), f)
  end.
#[export] Instance flat_posix : Posix flat := flat_sys.
#[export] Instance flat_posix_ok : PosixOk flat.
Proof.
  intros f c. unfold sys, flat_posix, flat_sys.
  destruct c as [[]|[]|[]|p|p| | | | | | |[]|[]| | | | |]; try destruct (bool_decide (p ∈ f)); split_and!; reflexivity.
Qed.

Definition demo : @mstate (gmap Z Z) (gmap Z (list Z)) cache flat := mkMs (mkXs LockTree.start (mkDb [] ∅)) [] [] 1.
Definition demo_tables : astate flat := mkAbs (fun _ => None) (fun _ => None) ∅ [] 1.
Definition demo_call (k : Z) : call := FileOps.mkCall k true true zero_inode no_stat.

Lemma demo_rep : rep demo demo_tables.
Proof.
  split; try done. intros p. cbn. by destruct (size p =? 0).
Qed.

Definition demo_ops : list (call * fop) :=
  [(demo_call 100, OCreate (bytes "/a") 0x81a4); (demo_call 101, OTruncate (bytes "/a") 5); (demo_call 102, OGetattr (bytes "/a"));
   (demo_call 103, ORename (bytes "/a") (bytes "/b")); (demo_call 104, OAccess (bytes "/b") 4); (demo_call 105, OChmod (bytes "/a") 0)].


(** The state after an operation. *)
Definition demo_after (c : call) (o : fop) (s : @mstate (gmap Z Z) (gmap Z (list Z)) cache flat) : mstate :=
  match run_fop false (zeros 8) (zeros 8) c o s with Ret (_, s') => s' | Fault _ => s end.
Definition demo_create : fop := OCreate (bytes "/a") 0x81a4.
Definition demo_made : mstate := demo_after (demo_call 100) demo_create demo.
Definition demo_made_tables : astate flat := (spec_fop true no_stat demo_create demo_tables).2.

Lemma demo_path_fits x : x <> 0 -> path_fits [47; x].
Proof.
  intros Hx. split; [|vm_compute; reflexivity]. apply list.Forall_cons; split; [done|]. apply list.Forall_cons; split; [done|constructor].
Qed.

Lemma demo_made_rep : rep demo_made demo_made_tables.
Proof.
  assert (Hl : legal_fop (fun _ => True) (demo_call 100) demo_create demo demo_tables).
  { unfold demo_create, legal_fop; cbn iota beta. split_and!; try done. by apply demo_path_fits. }
  destruct (fop_refines (fun _ => True) false (zeros 8) (zeros 8) eq_refl ltac:(vm_compute; discriminate) _ _ _ _ demo_rep Hl)
    as (z & s' & Hs & _ & Hr & _).
  unfold demo_made, demo_after. rewrite Hs. exact Hr.
Qed.

Lemma size_after_truncate_witness : exists st s2,
  sfs_getattr (zeros 8) (demo_call 102) (Some (bytes "/a")) true (demo_after (demo_call 101) (OTruncate (bytes "/a") 5) demo_made) =
  Ret ((0, Some st), s2) /\ st_size st = 5.
Proof.
  apply (size_after_truncate (fun _ => True) false (zeros 8) (zeros 8) eq_refl ltac:(vm_compute; discriminate)
    (demo_call 101) (demo_call 102) (OTruncate (bytes "/a") 5) (bytes "/a") 5 demo_made _ demo_made_tables demo_made_rep).
  - split_and!; try done.
  - by left.
  - vm_compute. reflexivity.
  - split; [done|]. vm_compute. reflexivity.
  - reflexivity.
  - vm_compute. discriminate.
Defined.

Lemma symlink_unreadable_witness : exists s2,
  sfs_readlink (zeros 8) (demo_call 102) (Some (bytes "/l")) (Some [1; 2])
    (demo_after (demo_call 101) (OSymlink (bytes "/a") (bytes "/l")) demo) = Ret ((-1, [1; 2]), s2) /\ err s2 = EFAULT.
Proof.
  apply (symlink_unreadable (fun _ => True) false (zeros 8) (zeros 8) eq_refl ltac:(vm_compute; discriminate)
    (demo_call 101) (demo_call 102) (bytes "/a") (bytes "/l") [1; 2] demo _ demo_tables demo_rep).
  - unfold legal_fop; cbn iota beta. split_and!; try done. by apply demo_path_fits.
  - vm_compute. reflexivity.
  - reflexivity.
  - split; [done|]. vm_compute. reflexivity.
  - discriminate.
Defined.

Lemma rename_loses_file_witness :
  let s1 := demo_after (demo_call 101) (ORename (bytes "/a") (bytes "/b")) demo_made in
  is_Some (memcached_get (mc s1) (bytes "/b")) /\ fs s1 = fs demo_made /\
  exists s2, sfs_getattr (zeros 8) (demo_call 102) (Some (bytes "/b")) true s1 = Ret ((- ENOENT, None), s2).
Proof.
  apply (rename_loses_file (fun _ => True) false (zeros 8) (zeros 8) eq_refl ltac:(vm_compute; discriminate)
    (demo_call 101) (demo_call 102) (bytes "/a") (bytes "/b") ENOENT no_stat (fs demo_made) demo_made _ demo_made_tables demo_made_rep).
  - unfold legal_fop; cbn iota beta. split_and!; try done. by apply demo_path_fits.
  - vm_compute. reflexivity.
  - reflexivity.
  - vm_compute. reflexivity.
Defined.

Lemma open_unknown_faults_witness :
  sfs_open false (zeros 8) (zeros 8) (demo_call 100) (Some (bytes "/a")) (Some 0) demo = Fault NullDeref.
Proof. apply (open_unknown_faults false (zeros 8) (zeros 8) _ _ _ 0 0 no_stat []); [reflexivity|discriminate|reflexivity|reflexivity]. Defined.

End FileProps.
