(* ===== verification/IoPath.v ===== *)
(** Reading and writing a file: [sfs_read] and [sfs_write] of
    sfs/src/sfs_entry.c with the functions that report the result of their
    jobs, [sfs_wait_for_completion] of sfs/src/sfs_job.c and the creation of
    payloads of lib/serdes/src/sstack_serdes.c.

    A request takes the lock of the inode ([LockTree]), reads the inode
    ([InodeStore]), cuts the request into jobs ([JobId], [JobTrees]) that it
    submits ([JobQueue]), waits until the answers are in ([Completion]) and
    reports. What the other threads do in the meantime is an argument. *)
From Stdlib Require Import ZArith Lia.
From stdpp Require Import base gmap list numbers.
From S2P Require Import Prelude KeyTree BdsList IdSlots JobId JobQueue JobTrees LockTree Completion InodeStore InodeFields.

Module IoPath.
Import JobQueue JobTrees Completion InodeFields.

Definition NFS_READ : Z := 12.
Definition NFS_WRITE : Z := 13.
Definition NFS_CREATE : Z := 14.
Definition NFS_REMOVE : Z := 18.
Definition NFS_RMDIR : Z := 19.
Definition NFS_LOOKUP_RSP : Z := 30.
Definition SFSD_IO : Z := 1.
Definition QOS_HIGH : Z := 0.

(** A fresh payload, cleared by [memset]. *)
Definition zero_payload : sstack_payload := mkPayload 0 0 0 0 0 0 0 0 [] 0 None 0 0 None 0.

Section IoPath.
Context {T : Type} `{KeyTree T} {D : Type} `{InodeStore.InodeDb D}.
(** The arguments of [InodeStore]; the global [jobs]; the address of
    [accept_sfsd]; [sizeof(sstack_payload_t)]; the bytes of a data buffer and
    of a [sstack_sfsd_info_t] fresh from the allocator. *)
Context (moves : bool) (ptr after : list Z) (jobs_list accept_sfsd sizeof_payload : Z)
        (fresh_buf info_bytes : list Z).

(** [infos] has the [sfsd] of each [sstack_sfsd_info_t]; [memory] is what the
    calls of the allocators to come return, NULL when it is used up; a call
    that turns out not to allocate drops its answer. *)
Record iostate : Type := mkIo {
  lt : @LockTree.state T;
  ds : @InodeStore.db_state D;
  ids : JobId.state;
  cs : @cstate T;
  infos : gmap Z Z;
  memory : list Z
}.

Definition set_lt (x : @LockTree.state T) (s : iostate) : iostate :=
  mkIo x (ds s) (ids s) (cs s) (infos s) (memory s).
Definition set_cs (x : @cstate T) (s : iostate) : iostate :=
  mkIo (lt s) (ds s) (ids s) x (infos s) (memory s).
Definition io_errno (s : iostate) : Z := errno (st (js (cs s))).
Definition put_io_errno (e : Z) (s : iostate) : iostate :=
  set_cs (mkC (set_st (set_errno e (st (js (cs s)))) (js (cs s))) (payloads (cs s))) s.

(** Calls of the other components. [errno] is one variable. *)
Definition on_locks {A} (c : cprog (@LockTree.state T) A) : cprog iostate A := fun s =>
  match c (LockTree.mkState (LockTree.tree (lt s)) (LockTree.locks (lt s)) (LockTree.filelock_lock (lt s))
             (io_errno s)) with
  | Ret (a, l) => Ret (a, put_io_errno (LockTree.errno l) (set_lt l s))
  | Fault f => Fault f
  end.
Definition on_db {A} (c : cprog (@InodeStore.db_state D) A) : cprog iostate A := fun s =>
  match c (ds s) with
  | Ret (a, d) => Ret (a, mkIo (lt s) d (ids s) (cs s) (infos s) (memory s))
  | Fault f => Fault f
  end.
Definition on_ids {A} (c : cprog JobId.state A) : cprog iostate A := fun s =>
  match c (ids s) with
  | Ret (a, i) => Ret (a, mkIo (lt s) (ds s) i (cs s) (infos s) (memory s))
  | Fault f => Fault f
  end.
Definition on_cs {A} (c : cprog (@cstate T) A) : cprog iostate A := fun s =>
  match c (cs s) with
  | Ret (a, x) => Ret (a, set_cs x s)
  | Fault f => Fault f
  end.
Definition on_trees {A} (c : cprog (@JobTrees.state T) A) : cprog iostate A := on_cs (lift c).
Definition put_errno (e : Z) : cprog iostate unit := cmod (put_io_errno e).

(** [malloc], [realloc], [calloc] and [bds_cache_alloc] *)
Definition malloc : cprog iostate Z := fun s =>
  match memory s with
  | [] => Ret (NULL, s)
  | a :: l => Ret (a, mkIo (lt s) (ds s) (ids s) (cs s) (infos s) l)
  end.

(** The commands whose payload has a buffer of its own. *)
Definition has_buffer (cmd : Z) : bool :=
  (cmd =? NFS_WRITE) || (cmd =? NFS_CREATE) || (cmd =? NFS_REMOVE) || (cmd =? NFS_RMDIR) ||
  (cmd =? NFS_READ_RSP) || (cmd =? NFS_LOOKUP_RSP).

Definition delete_payload (p : Z) : cprog iostate unit :=
  on_cs (cmod (fun s => mkC (js s) (delete p (payloads s)))).

(** The memory is cleared before it is compared with NULL. *)
Definition sstack_create_payload (cmd : Z) : cprog iostate Z :=
  (let! p := malloc in
   if p =? NULL then cfault NullDeref
   else
     on_cs (store_payload p zero_payload) ;;;
     if has_buffer cmd then
       let! b := malloc in
       if b =? NULL then delete_payload p ;;; cret NULL
       else
         on_cs (store_payload p
           (mkPayload 0 0 0 0 0 0 0 0 [] 0 (if cmd =? NFS_WRITE then Some fresh_buf else None) 0 0
              (if cmd =? NFS_READ_RSP then Some fresh_buf else None) 0)) ;;;
         cret p
     else cret p)%cprog.

(** Giving a data buffer back has no effect in the model. *)
Definition sstack_free_payload (p : Z) : cprog iostate unit :=
  (let! _ := on_cs (load_payload p) in delete_payload p)%cprog.

(** [sfs_job_init]: the job is allocated with its list head. *)
Definition new_job : cprog iostate (option Z) :=
  (let! a := malloc in
   let! r := on_ids (JobId.sfs_job_init (negb (a =? NULL))) in
   match r with
   | None => cret None
   | Some job =>
       on_trees (on_store (cmod (fun s =>
         mkStore (<[a + wait_off := mkHead (a + wait_off) (a + wait_off)]> (heap s)) (queues s)
                 (<[a := job]> (jobs s)) (errno s)))) ;;;
       cret (Some a)
   end)%cprog.

(** [free(job)] *)
Definition free_job (a : Z) : cprog iostate unit :=
  on_trees (on_store (cmod (fun s =>
    mkStore (delete (a + wait_off) (heap s)) (queues s) (delete a (jobs s)) (errno s)))).

(** The assignments to a fresh job, which already has its first id. *)
Definition fill_job (r : JobId.sfs_job) (id clients sfsd p : Z) : JobId.sfs_job :=
  JobId.mkJob (JobId.version r) SFSD_IO id clients (<[0%nat := sfsd]> (JobId.sfsds r))
    (<[0%nat := JOB_STARTED]> (JobId.job_status r)) sizeof_payload QOS_HIGH p.

(** * A request *)

(** What surrounds a call: the answer of the reverse lookup of the path, the
    pointers that are there, the arguments, the calling thread and what
    [malloc] leaves in a job map. *)
Record io_call : Type := mkCall {
  inodestr : option Z;
  path_ok : bool;
  buf_ok : bool;
  io_size : Z;
  io_offset : Z;
  self : Z;
  map_junk : job_map
}.

(** What the other threads do: before the job map is in its tree, between
    that and the wait, and during the wait; and whether the wait ends without
    a signal. *)
Record env : Type := mkEnv {
  while_issuing : cprog (@cstate T) unit;
  before_wait : cprog (@cstate T) unit;
  while_waiting : cprog (@cstate T) unit;
  spurious : bool
}.

(** How the loop that issues the jobs ends. *)
Inductive loop_end : Set := Issued | Failed.

Definition sfs_wait_for_completion (e : env) (m : Z) : cprog iostate Z :=
  (let! x := on_trees (load_map m) in
   on_cs (while_waiting e) ;;;
   let! x' := on_trees (load_map m) in
   if (signals x <? signals x')%nat || spurious e then cret 0 else cfault Deadlock)%cprog.

(** The way out after a failure: the job map, the inode and the lock;
    [free_payload] has no body. *)
Definition bail_out (n m : Z) : cprog iostate loop_end :=
  (on_trees (free_job_map m) ;;; on_locks (LockTree.sfs_unlock n) ;;; cret Failed)%cprog.

(** The growing arrays of a job map: an element is added behind the last. *)
Definition set_counts (m : Z) (jobs : Z) : cprog (@JobTrees.state T) unit :=
  (let! x := load_map m in
   store_map m (mkMap (thread_id x) (err_no x) jobs (num_jobs_left x) (lock x) (job_ids x)
                  (map_job_status x) (map_num_clients x) (op_status x) (signals x)))%cprog.
Definition add_id (m id : Z) : cprog (@JobTrees.state T) unit :=
  (map_lock m ;;;
   let! x := load_map m in
   store_map m (mkMap (thread_id x) (err_no x) (num_jobs x) (num_jobs_left x + 1) (lock x)
                  (job_ids x ++ [id]) (map_job_status x) (map_num_clients x) (op_status x) (signals x)) ;;;
   map_unlock m)%cprog.
Definition add_status (m : Z) : cprog (@JobTrees.state T) unit :=
  (map_lock m ;;;
   let! x := load_map m in
   store_map m (mkMap (thread_id x) (err_no x) (num_jobs x) (num_jobs_left x) (lock x)
                  (job_ids x) (map_job_status x ++ [JOB_STARTED]) (map_num_clients x) (op_status x) (signals x)) ;;;
   map_unlock m)%cprog.

(** The part of the two loops that enters a job in the job map and in the tree
    of jobs and submits it; [n] is the inode. *)
Definition register_job (n thread m job : Z) : cprog iostate loop_end :=
  (let! x := on_trees (load_map m) in
   on_trees (set_counts m (num_jobs x + 1)) ;;;
   let! temp := malloc in
   if temp =? NULL then bail_out n m
   else
     let! r := on_cs (get_job job) in
     on_trees (add_id m (JobId.id r)) ;;;
     let! temp := malloc in
     if temp =? NULL then bail_out n m
     else
       on_trees (add_status m) ;;;
       let! mem := malloc in
       let! ret := on_trees (sfs_job2thread_map_insert mem thread (JobId.id r) job) in
       if ret =? -1 then on_trees (sfs_job_context_remove thread) ;;; bail_out n m
       else
         let! ret := on_trees (on_store (sfs_submit_job (JobId.priority r) jobs_list job)) in
         if ret =? -1 then
           on_trees (sfs_job_context_remove thread) ;;;
           on_trees (sfs_job2thread_map_remove thread) ;;;
           bail_out n m
         else cret Issued)%cprog.

(** [inode->i_extent[i]] for a pointer that is [i] bytes into the array, NULL
    for [None]. *)
Definition load_extent (ino : InodeStore.sstack_inode) (ext : option Z) : cprog iostate InodeStore.sstack_extent :=
  (let! off := cexpect NullDeref ext in cexpect OutOfBounds (InodeStore.i_extent ino !! off))%cprog.
Definition extent_end (e : InodeStore.sstack_extent) : Z :=
  uwrap 64 (InodeStore.e_offset e + InodeStore.e_size e).
Definition covers (e : InodeStore.sstack_extent) (offset : Z) : bool :=
  (InodeStore.e_offset e <=? offset) && (offset <=? extent_end e).

(** The bytes of a request that go to an extent, when it reaches beyond its
    end; none otherwise. *)
Definition cut (e : InodeStore.sstack_extent) (offset size : Z) : Z :=
  if extent_end e <? uwrap 64 (offset + size) then uwrap 64 (extent_end e - offset) else 0.

(** * Reading *)

(** The search for the first extent, with [n] indices from [i] on left. *)
Fixpoint read_extent (ino : InodeStore.sstack_inode) (offset : Z) (n : nat) (i : Z) (ext : option Z)
  : cprog iostate (option Z) :=
  match n with
  | O => cret ext
  | S n' =>
      (let here := Some (InodeStore.SIZEOF_EXTENT * i) in
       let! e := load_extent ino here in
       if covers e offset then cret here
       else read_extent ino offset n' (i + 1) (Some (InodeStore.SIZEOF_EXTENT * (i + 1))))%cprog
  end.

(** The loop [while (bytes_to_read)]; [None] when the fuel runs out. *)
Fixpoint read_loop (fuel : nat) (c : io_call) (n m : Z) (ino : InodeStore.sstack_inode) (ext : option Z)
    (bytes_issued bytes_to_read : Z) : cprog iostate (option loop_end) :=
  match fuel with
  | O => cret None
  | S fuel' =>
      (if bytes_to_read =? 0 then cret (Some Issued)
       else
         let! job := new_job in
         match job with
         | None => let! r := bail_out n m in cret (Some r)
         | Some job =>
             let! id := on_ids JobId.get_next_job_id in
             let! s := cget in
             let! sfsd := cexpect NullDeref (infos s !! i_primary_sfsd (InodeStore.i_fixed ino)) in
             let! p := sstack_create_payload NFS_READ in
             if p =? NULL then cfault NullDeref
             else
               let! e := load_extent ino ext in
               let read_size := cut e (io_offset c) (io_size c) in
               let! handle := InodeStore.read_ptr (InodeStore.e_path e) InodeStore.SIZEOF_HANDLE in
               let! x := on_cs (load_payload p) in
               on_cs (store_payload p
                 (mkPayload id QOS_HIGH job NFS_READ (InodeStore.i_num (InodeStore.i_fixed ino)) (io_offset c)
                    read_size 0 handle (write_len x) (write_buf x) (command_ok x) (resp_len x) (resp_buf x)
                    (file_wc x))) ;;;
               let! r := on_cs (get_job job) in
               on_cs (put_job job (fill_job r id 1 sfsd p)) ;;;
               let! r := register_job n (self c) m job in
               match r with
               | Failed => cret (Some Failed)
               | Issued =>
                   let bytes_issued := uwrap 64 (bytes_issued + read_size) in
                   read_loop fuel' c n m ino ext bytes_issued (swrap 32 (bytes_to_read - bytes_issued))
               end
         end)%cprog
  end.

(** The loop of [sfs_send_read_status] from job [i] on, [k] jobs left; the
    caller's buffer [buf] is filled from [pos] on. *)
Fixpoint read_jobs (k i : nat) (jids : list Z) (pos num_bytes : Z) (buf : list Z) : cprog iostate (Z * list Z) :=
  match k with
  | O => cret (num_bytes, buf)
  | S k' =>
      (let! job_id := cexpect OutOfBounds (jids !! i) in
       let! jt := on_cs (find_jt job_id) in
       let! jt := cexpect NullDeref jt in
       let! jt_node := on_trees (load_jt jt) in
       let job := jt_job jt_node in
       let! r := on_cs (get_job job) in
       let! pay := on_cs (load_payload (JobId.payload r)) in
       let! data := InodeStore.read_ptr (resp_buf pay) (resp_len pay) in
       let! buf := InodeStore.write_at pos data buf in
       on_trees (sfs_job2thread_map_remove job_id) ;;;
       sstack_free_payload (JobId.payload r) ;;;
       free_job job ;;;
       read_jobs k' (S i) jids (pos + resp_len pay) (uwrap 32 (num_bytes + resp_len pay)) buf)%cprog
  end.

Definition sfs_send_read_status (m : Z) (buf : list Z) : cprog iostate (Z * list Z) :=
  (let! x := on_trees (load_map m) in
   if negb (num_jobs_left x =? 0) then put_errno (err_no x) ;;; cret (-1, buf)
   else
     let! r := read_jobs (Z.to_nat (num_jobs x)) 0 (job_ids x) 0 0 buf in
     cret (swrap 32 r.1, r.2))%cprog.

(** The end of both operations: [status] reports the result of the jobs, and
    [last] is what follows the unlock. *)
Definition finish_io {A} (c : io_call) (n m : Z) (status : cprog iostate A) (last : cprog iostate unit) : cprog iostate A :=
  (let! r := status in
   on_trees (sfs_job_context_remove (self c)) ;;;
   on_trees (free_job_map m) ;;;
   on_locks (LockTree.sfs_unlock n) ;;;
   last ;;;
   cret r)%cprog.

(** From the registration of the job map on. *)
Definition complete {A} (fail : A) (c : io_call) (e : env) (n m : Z) (status : cprog iostate A)
    (last : cprog iostate unit) : cprog iostate A :=
  (on_cs (while_issuing e) ;;;
   let! mem := malloc in
   let! ret := on_trees (sfs_job_context_insert mem (self c) m) in
   if ret =? -1 then
     on_trees (free_job_map m) ;;; on_locks (LockTree.sfs_unlock n) ;;; cret fail
   else
     on_cs (before_wait e) ;;;
     let! _ := sfs_wait_for_completion e m in
     finish_io c n m status last)%cprog.

(** The beginning of the two operations: the lookup, the lock, the inode. A
    failure to allocate the inode leaves the lock held. *)
Definition open_inode {A} (fail nomem : A) (c : io_call) (take_lock : Z -> Z -> cprog (@LockTree.state T) Z)
    (body : Z -> InodeStore.sstack_inode -> cprog iostate A) : cprog iostate A :=
  (if negb (path_ok c) || negb (buf_ok c) || (io_offset c <? 0) then put_errno EINVAL ;;; cret fail
   else
     match inodestr c with
     | None => put_errno ENOENT ;;; cret fail
     | Some inode_num =>
         let! mem := malloc in
         let! ret := on_locks (take_lock mem inode_num) in
         if ret =? -1 then put_errno EAGAIN ;;; cret fail
         else
           let! a := malloc in
           if a =? NULL then cret nomem
           else
             let! r := on_db (InodeStore.get_inode ptr inode_num zero_inode) in
             if r.1 =? 0 then body inode_num r.2
             else put_errno r.1 ;;; on_locks (LockTree.sfs_unlock inode_num) ;;; cret fail
     end)%cprog.

(** The result, with the caller's buffer; [None] when the fuel runs out. *)
Definition sfs_read (fuel : nat) (c : io_call) (e : env) (buf : list Z) : cprog iostate (option (Z * list Z)) :=
  open_inode (Some (-1, buf)) (Some (- ENOMEM, buf)) c (fun mem => LockTree.sfs_rdlock mem 0) (fun n ino =>
    (let f := InodeStore.i_fixed ino in
     if (InodeStore.i_numclients f =? 0) && (i_primary_sfsd f =? NULL) then
       put_errno EIO ;;; on_locks (LockTree.sfs_unlock n) ;;; cret (Some (-1, buf))
     else
       let! ext := read_extent ino (io_offset c) (InodeStore.count (InodeStore.i_numextents f)) 0 None in
       let! mem := malloc in
       let! m := on_trees (create_job_map mem (self c) (map_junk c)) in
       match m with
       | None => on_locks (LockTree.sfs_unlock n) ;;; cret (Some (-1, buf))
       | Some m =>
           let bytes_to_read := swrap 32 (if i_size f <? io_size c then i_size f else io_size c) in
           let! r := read_loop fuel c n m ino ext 0 bytes_to_read in
           match r with
           | None => cret None
           | Some Failed => cret (Some (-1, buf))
           | Some Issued =>
               let! r := complete (-1, buf) c e n m (sfs_send_read_status m buf) (cret tt) in
               cret (Some r)
           end
       end)%cprog).
(** * Writing *)

(** The search for the first extent, [n] passes left: every pass looks at the
    first one. *)
Fixpoint write_extent (ino : InodeStore.sstack_inode) (offset : Z) (n : nat) (ext : option Z)
  : cprog iostate (option Z) :=
  match n with
  | O => cret ext
  | S n' =>
      (let! e := load_extent ino (Some 0) in
       if covers e offset then cret (Some 0)
       else write_extent ino offset n' (Some InodeStore.SIZEOF_EXTENT))%cprog
  end.

(** The loop [while (bytes_to_write)]: [data] is the caller's buffer. *)
Fixpoint write_loop (fuel : nat) (c : io_call) (n m : Z) (ino : InodeStore.sstack_inode) (data : list Z)
    (ext : option Z) (bytes_issued bytes_to_write : Z) : cprog iostate (option loop_end) :=
  match fuel with
  | O => cret None
  | S fuel' =>
      (if bytes_to_write =? 0 then cret (Some Issued)
       else
         let! job := new_job in
         match job with
         | None => let! r := bail_out n m in cret (Some r)
         | Some job =>
             let! id := on_ids JobId.get_next_job_id in
             let! p := sstack_create_payload NFS_WRITE in
             if p =? NULL then cfault NullDeref
             else
               let! write_size :=
                 match ext with
                 | Some _ => let! e := load_extent ino ext in cret (cut e (io_offset c) (io_size c))
                 | None => cret (io_size c)
                 end in
               let! x := on_cs (load_payload p) in
               on_cs (store_payload p
                 (mkPayload id QOS_HIGH job NFS_WRITE (InodeStore.i_num (InodeStore.i_fixed ino)) (io_offset c)
                    write_size (read_ecode x) (extent_handle x) write_size
                    (Some (drop (Z.to_nat bytes_issued) data)) (command_ok x) (resp_len x) (resp_buf x)
                    (file_wc x))) ;;;
               let! r := on_cs (get_job job) in
               on_cs (put_job job
                 (fill_job r id (InodeStore.i_numclients (InodeStore.i_fixed ino)) accept_sfsd p)) ;;;
               let! r := register_job n (self c) m job in
               match r with
               | Failed => cret (Some Failed)
               | Issued =>
                   let bytes_issued := uwrap 64 (bytes_issued + write_size) in
                   let! ext' :=
                     match ext with
                     | Some off =>
                         let! e := load_extent ino ext in
                         if extent_end e <? uwrap 64 (io_offset c + io_size c) then
                           (* the new extent's offset is read *)
                           let ext' := Some (off + InodeStore.SIZEOF_EXTENT) in
                           let! _ := load_extent ino ext' in cret ext'
                         else cret ext
                     | None => cret None
                     end in
                   write_loop fuel' c n m ino data ext' bytes_issued (swrap 32 (io_size c - bytes_issued))
               end
         end)%cprog
  end.

(** The loop of [sfs_send_write_status] from job [i] on, [k] jobs left. *)
Fixpoint write_jobs (k i : nat) (jids : list Z) (num_bytes : Z) : cprog iostate Z :=
  match k with
  | O => cret num_bytes
  | S k' =>
      (let! job_id := cexpect OutOfBounds (jids !! i) in
       let! jt := on_cs (find_jt job_id) in
       let! jt := cexpect NullDeref jt in
       let! jt_node := on_trees (load_jt jt) in
       let job := jt_job jt_node in
       let! r := on_cs (get_job job) in
       let! pay := on_cs (load_payload (JobId.payload r)) in
       let num_bytes := if command_ok pay =? SSTACK_SUCCESS then uwrap 32 (num_bytes + file_wc pay) else num_bytes in
       on_trees (sfs_job2thread_map_remove job_id) ;;;
       sstack_free_payload (JobId.payload r) ;;;
       free_job job ;;;
       write_jobs k' (S i) jids num_bytes)%cprog
  end.

Definition sfs_send_write_status (m : Z) : cprog iostate Z :=
  (let! x := on_trees (load_map m) in
   let! r := write_jobs (Z.to_nat (num_jobs x)) 0 (job_ids x) 0 in
   cret (swrap 32 r))%cprog.

(** [job_map->op_status[i] = JOB_STARTED] for the first [k] clients. *)
Fixpoint start_clients (k i : nat) (m : Z) : cprog iostate unit :=
  match k with
  | O => cret tt
  | S k' =>
      (let! x := on_trees (load_map m) in
       (if (i <? length (op_status x))%nat
        then on_trees (store_map m (mkMap (thread_id x) (err_no x) (num_jobs x) (num_jobs_left x) (lock x)
               (job_ids x) (map_job_status x) (map_num_clients x) (<[i := JOB_STARTED]> (op_status x)) (signals x)))
        else cfault OutOfBounds) ;;;
       start_clients k' (S i) m)%cprog
  end.

(** The one daemon that is hard-wired: the inode gets a new block for it. *)
Definition set_sfsds (ino : InodeStore.sstack_inode) : cprog iostate InodeStore.sstack_inode :=
  (let! a := malloc in
   if a =? NULL then cfault NullDeref
   else
     cmod (fun s => mkIo (lt s) (ds s) (ids s) (cs s) (<[a := accept_sfsd]> (infos s)) (memory s)) ;;;
     cret (InodeStore.mkInode (set_primary_sfsd a (set_numclients 1 (InodeStore.i_fixed ino)))
             (InodeStore.i_xattr ino) (InodeStore.i_erasure ino) (InodeStore.i_extent ino) (Some info_bytes)))%cprog.

(** [st_size] is the answer of [stat], [None] when it fails. The policy of the
    file is looked up with [get_policy] and not used; that call works on the
    table of [Policy], where it counts a user of the entry, and on nothing of
    this state. A failing [put_inode] leaves the lock held. *)
Definition sfs_write (fuel : nat) (c : io_call) (e : env) (st_size : option Z) (data : list Z)
  : cprog iostate (option Z) :=
  open_inode (Some (-1)) (Some (- ENOMEM)) c (fun mem => LockTree.sfs_wrlock mem 0) (fun n ino =>
    (match st_size with
     | None => on_locks (LockTree.sfs_unlock n) ;;; cret (Some (-1))
     | Some st_size =>
         if (0 <? st_size) && ((InodeStore.i_numclients (InodeStore.i_fixed ino) =? 0) ||
                               (if InodeStore.i_sfsds ino then false else true)) then
           put_errno EIO ;;; on_locks (LockTree.sfs_unlock n) ;;; cret (Some (-1))
         else
           let! ino := set_sfsds ino in
           let! ret := on_db (InodeStore.put_inode moves ino after 1) in
           if negb (ret =? 0) then cret (Some (-1))
           else
             let f := InodeStore.i_fixed ino in
             let! ext := write_extent ino (io_offset c) (InodeStore.count (InodeStore.i_numextents f)) None in
             let! mem := malloc in
             let! m := on_trees (create_job_map mem (self c) (map_junk c)) in
             match m with
             | None => on_locks (LockTree.sfs_unlock n) ;;; cret (Some (-1))
             | Some m =>
                 start_clients (InodeStore.count (InodeStore.i_numclients f)) 0 m ;;;
                 let! r := write_loop fuel c n m ino data ext 0 (swrap 32 (io_size c)) in
                 match r with
                 | None => cret None
                 | Some Failed => cret (Some (-1))
                 | Some Issued =>
                     (* the inode is read once more, for a dump of it *)
                     let last := (on_db (InodeStore.get_inode ptr n zero_inode) ;;; cret tt) in
                     let! r := complete (-1) c e n m (sfs_send_write_status m) last in
                     cret (Some r)
                 end
             end
     end)%cprog).
(** * The jobs of a read *)

Lemma bail_out_failed n m (s : iostate) r s' : bail_out n m s = Ret (r, s') -> r = Failed.
Proof. unfold bail_out. intros Hg. inv_bind Hg. inv_bind Hg. by injection Hg. Qed.

(** [1 + ... + j] *)
Fixpoint triangle (j : nat) : Z :=
  match j with
  | O => 0
  | S j' => triangle j' + Z.of_nat (S j')
  end.

Lemma triangle_shift (j : nat) b k :
  Z.of_nat (S j) * b + k * triangle (S j) = (b + k) + (Z.of_nat j * (b + k) + k * triangle j).
Proof. cbn [triangle]. lia. Qed.

(** When the loop ends, the bytes it was to issue are a multiple of the bytes
    of one job by a triangular number, modulo the width of the counter: every
    pass subtracts all bytes issued so far. *)
Lemma read_loop_issued fuel c n m ino off e issued to_read (s s' : iostate) :
  InodeStore.i_extent ino !! off = Some e ->
  read_loop fuel c n m ino (Some off) issued to_read s = Ret (Some Issued, s') ->
  exists j, uwrap 32 to_read = uwrap 32 (Z.of_nat j * issued + cut e (io_offset c) (io_size c) * triangle j).
Proof.
  intros He. set (k := cut e (io_offset c) (io_size c)).
  revert issued to_read s. induction fuel as [|fuel IH]; intros issued to_read s; cbn [read_loop]; [done|].
  destruct (Z.eqb_spec to_read 0) as [->|Hz]. { intros _. exists 0%nat. f_equal. simpl. lia. }
  intros Hr. inv_bind Hr. destruct a as [job|].
  2: { inv_bind Hr. apply bail_out_failed in E0 as ->. done. }
  do 4 inv_bind Hr. case_if_in Hr; [done|]. inv_bind Hr.
  assert (a3 = e) as ->. { unfold load_extent, cbind in E4. cbn in E4. rewrite He in E4. by injection E4 as <- _. }
  cbv zeta in Hr. do 6 inv_bind Hr. destruct a8; [|done].
  destruct (IH _ _ _ Hr) as [j Hj]. exists (S j). fold k in Hj. unfold uwrap in *.
  rewrite triangle_shift.
  assert (Hs : swrap 32 (to_read - (issued + k) mod 2 ^ 64) mod 2 ^ 32 = (to_read - (issued + k) mod 2 ^ 64) mod 2 ^ 32).
  { apply (uwrap_swrap 32). lia. }
  rewrite Hs in Hj. set (b := (issued + k) mod 2 ^ 64) in *.
  assert (Hb : issued + k = b + ((issued + k) / 2 ^ 64 * 2 ^ 32) * 2 ^ 32).
  { pose proof (Z.div_mod (issued + k) (2 ^ 64)). unfold b. lia. }
  rewrite Hb. set (q := (issued + k) / 2 ^ 64 * 2 ^ 32).
  replace (b + q * 2 ^ 32 + (Z.of_nat j * (b + q * 2 ^ 32) + k * triangle j))
    with ((Z.of_nat j * b + k * triangle j) + b + (q * (1 + Z.of_nat j)) * 2 ^ 32) by ring.
  rewrite Z_mod_plus_full, <- Zplus_mod_idemp_l, <- Hj, Zplus_mod_idemp_l. f_equal. lia.
Qed.


Lemma read_extent_first ino offset n i ext e (s : iostate) :
  InodeStore.i_extent ino !! (InodeStore.SIZEOF_EXTENT * i) = Some e -> covers e offset = true ->
  read_extent ino offset (S n) i ext s = Ret (Some (InodeStore.SIZEOF_EXTENT * i), s).
Proof. intros He Hc. cbn [read_extent]. cbv zeta. unfold load_extent, cbind, cexpect, cret. by rewrite He, Hc. Qed.

(** What a call leaves alone. *)
Lemma on_locks_ds {A} (c : cprog (@LockTree.state T) A) (s : iostate) a s' :
  on_locks c s = Ret (a, s') -> ds s' = ds s.
Proof. unfold on_locks. destruct (c _) as [[x l]|]; [|done]. by intros [= <- <-]. Qed.
Lemma malloc_ds (s : iostate) a s' : malloc s = Ret (a, s') -> ds s' = ds s.
Proof. unfold malloc. destruct (memory s); by intros [= <- <-]. Qed.

(** A run of [open_inode] fails or reaches its body with the inode read. *)
Lemma open_inode_run {A} (fail nomem : A) c lock body num (s : iostate) r s' :
  inodestr c = Some num -> open_inode fail nomem c lock body s = Ret (r, s') ->
  r = fail \/ r = nomem \/
  exists ino d t, InodeStore.get_inode ptr num zero_inode (ds s) = Ret ((0, ino), d) /\ body num ino t = Ret (r, s').
Proof.
  unfold open_inode. intros Hi Hr. case_if_in Hr. { inv_bind Hr. left. by injection Hr. }
  rewrite Hi in Hr. inv_bind Hr. inv_bind Hr. case_if_in Hr. { inv_bind Hr. left. by injection Hr. }
  inv_bind Hr. case_if_in Hr. { right. left. by injection Hr. }
  inv_bind Hr. destruct a2 as [ret ino]. cbn [fst snd] in Hr.
  assert (Hds : ds t1 = ds s).
  { rewrite (malloc_ds _ _ _ E1), (on_locks_ds _ _ _ _ E0). exact (malloc_ds _ _ _ E). }
  unfold on_db in E2. rewrite Hds in E2.
  destruct (InodeStore.get_inode ptr num zero_inode (ds s)) as [[[r0 i0] d]|] eqn:Hg; [|done].
  injection E2 as <- <- <-. case_if_in Hr.
  - subst r0. right. right. eauto.
  - do 2 inv_bind Hr. left. by injection Hr.
Qed.

(** A read that does not fail has issued a triangular number of times what it
    cuts off at the end of the extent. *)
Lemma sfs_read_issued fuel c e buf num ino d ex (s s' : iostate) r :
  inodestr c = Some num -> InodeStore.get_inode ptr num zero_inode (ds s) = Ret ((0, ino), d) ->
  0 < InodeStore.i_numextents (InodeStore.i_fixed ino) ->
  InodeStore.i_extent ino !! 0 = Some ex -> covers ex (io_offset c) = true ->
  sfs_read fuel c e buf s = Ret (Some r, s') ->
  r = (-1, buf) \/ r = (- ENOMEM, buf) \/
  exists j, uwrap 32 (Z.min (io_size c) (i_size (InodeStore.i_fixed ino)))
            = uwrap 32 (cut ex (io_offset c) (io_size c) * triangle j).
Proof.
  intros Hi Hg Hn He Hc Hr. unfold sfs_read in Hr.
  destruct (open_inode_run _ _ _ _ _ _ _ _ _ Hi Hr) as [[= ->]|[[= ->]|(ino' & d' & t & Hg' & Hb)]]; [by left|right; by left|].
  rewrite Hg in Hg'. injection Hg' as <- <-. cbv zeta in Hb. case_if_in Hb. { do 2 inv_bind Hb. left. by injection Hb. }
  inv_bind Hb. unfold InodeStore.count in E.
  destruct (Z.to_nat (InodeStore.i_numextents (InodeStore.i_fixed ino))) as [|k] eqn:Hk; [lia|].
  rewrite (read_extent_first ino (io_offset c) k 0 None ex t He Hc) in E. injection E as <- <-.
  inv_bind Hb. inv_bind Hb. destruct a0 as [m|]. 2: { inv_bind Hb. left. by injection Hb. }
  inv_bind Hb. destruct a0 as [[|]|]; [|left; by injection Hb|done]. right. right.
  destruct (read_loop_issued _ _ _ _ _ _ _ _ _ _ _ He E1) as [j Hj]. exists j.
  rewrite uwrap_swrap, Z.mul_0_r, Z.add_0_l in Hj by lia. rewrite <- Hj. f_equal.
  destruct (Z.ltb_spec (i_size (InodeStore.i_fixed ino)) (io_size c)); lia.
Qed.

(** * The reports

    A job that is done: its id, its address and contents, the payload of its
    answer and the data in it. *)
Record report : Type := mkReport {
  d_id : Z;
  d_job : Z;
  d_r : JobId.sfs_job;
  d_pay : sstack_payload;
  d_data : list Z
}.
Definition d_addr (x : report) : Z := JobId.payload (d_r x).

Definition reported (s : iostate) (jm : gmap Z (Z * Z)) (x : report) : Prop :=
  0 <= d_id x /\ (exists t, jm !! d_id x = Some (t, d_job x)) /\
  jobs (st (js (cs s))) !! d_job x = Some (d_r x) /\
  payloads (cs s) !! d_addr x = Some (d_pay x).

(** The answer to a read carries its data. *)
Definition has_data (x : report) : Prop :=
  resp_buf (d_pay x) = Some (d_data x) /\ resp_len (d_pay x) = InodeStore.size (d_data x).

(** What is left when the jobs [l] are gone. *)
Definition without {A} (key : report -> Z) (l : list report) (m : gmap Z A) : gmap Z A :=
  foldl (fun m x => delete (key x) m) m l.

Definition data_of (l : list report) : list Z := concat (d_data <$> l).

Definition set_js (x : @JobTrees.state T) (s : iostate) : iostate := set_cs (mkC x (payloads (cs s))) s.

Lemma on_trees_run {A} (c : cprog (@JobTrees.state T) A) (s : iostate) a x :
  c (js (cs s)) = Ret (a, x) -> on_trees c s = Ret (a, set_js x s).
Proof. intros Hc. unfold on_trees, on_cs, lift. by rewrite Hc. Qed.

(** The state without the job [job] and the payload [p]. *)
Definition retired (T' : T) (job p : Z) (s : iostate) : iostate :=
  let j := js (cs s) in
  set_cs (mkC (set_st (mkStore (delete (job + wait_off) (heap (st j))) (queues (st j)) (delete job (jobs (st j))) 0)
                (set_jobid T' (jts j) false j)) (delete p (payloads (cs s)))) s.

Context {L : KeyTreeLaws T}.

Lemma retire_run {A} (k : cprog iostate A) (s : iostate) jm ts id t job p :
  JobTrees.rep (js (cs s)) jm ts -> 0 <= id -> jm !! id = Some (t, job) -> is_Some (payloads (cs s) !! p) ->
  exists T', JobTrees.rep (js (cs (retired T' job p s))) (delete id jm) ts /\
    (on_trees (sfs_job2thread_map_remove id) ;;; sstack_free_payload p ;;; free_job job ;;; k)%cprog s
    = k (retired T' job p s).
Proof.
  intros Hr Hi Hj [y Hy]. destruct (jt_remove_run _ _ _ _ _ _ Hr Hi Hj) as (T' & Hrun & Hrep). exists T'. split.
  - apply rep_st. exact (rep_st _ _ _ (st (js (cs s))) Hrep).
  - unfold cbind at 1. rewrite (on_trees_run _ _ _ _ Hrun). unfold cbind, sstack_free_payload, cbind, on_cs, load_payload.
    cbn. rewrite Hy. done.
Qed.

Lemma find_report (s : iostate) jm ts id t job :
  JobTrees.rep (js (cs s)) jm ts -> jm !! id = Some (t, job) ->
  exists a, on_cs (find_jt id) s = Ret (Some a, s) /\ on_trees (load_jt a) s = Ret (mkJt JTNODE_MAGIC id t job, s).
Proof.
  intros Hr Hj. pose proof (rep_jobid _ _ _ Hr id) as G. rewrite Hj in G. destruct G as (a & Ha & Hn). exists a.
  destruct s as [? ? ? [? ?] ? ?]. unfold on_cs, on_trees, on_cs, lift, find_jt, load_jt. cbn in *.
  rewrite kt_search_map by (by destruct Hr). rewrite Ha, Hn. done.
Qed.

Lemma get_report (s : iostate) job r p pay :
  jobs (st (js (cs s))) !! job = Some r -> payloads (cs s) !! p = Some pay ->
  on_cs (get_job job) s = Ret (r, s) /\ on_cs (load_payload p) s = Ret (pay, s).
Proof.
  intros Hj Hp. destruct s as [? ? ? [[] ?] ? ?]. unfold on_cs, get_job, lift, on_store, load_job, load_payload.
  cbn in *. rewrite Hj, Hp. done.
Qed.

(** The jobs that are left are not touched. *)
Lemma reported_retired (s : iostate) jm T' x l :
  reported s jm x -> Forall (reported s jm) l -> NoDup (d_id <$> x :: l) -> NoDup (d_job <$> x :: l) ->
  NoDup (d_addr <$> x :: l) ->
  Forall (reported (retired T' (d_job x) (d_addr x) s) (delete (d_id x) jm)) l.
Proof.
  rewrite !fmap_cons, !list.NoDup_cons. intros Hx Hl [H1 _] [H2 _] [H3 _].
  rewrite list.Forall_forall in Hl |- *. intros y Hy. destruct (Hl y Hy) as (G1 & [t G2] & G3 & G4).
  assert (d_id x <> d_id y /\ d_job x <> d_job y /\ d_addr x <> d_addr y) as (N1 & N2 & N3).
  { split_and!; intros E; [apply H1|apply H2|apply H3]; rewrite E; by apply list_elem_of_fmap_2. }
  split_and!; [done| |simpl..]; rewrite ?lookup_delete_ne by done; eauto.
Qed.

Lemma write_at_whole {S} pos x b (s : S) :
  0 <= pos -> pos + InodeStore.size x <= InodeStore.size b ->
  InodeStore.write_at pos x b s
  = Ret (take (Z.to_nat pos) b ++ x ++ drop (Z.to_nat (pos + InodeStore.size x)) b, s).
Proof.
  intros. unfold InodeStore.write_at. by rewrite (proj2 (Z.leb_le 0 pos)), (proj2 (Z.leb_le (pos + _) _)) by lia.
Qed.

(** Two writes, one behind the other. *)
Lemma write_behind pos (a b buf : list Z) :
  (pos + length a + length b <= length buf)%nat ->
  let buf' := take pos buf ++ a ++ drop (pos + length a) buf in
  length buf' = length buf /\
  take (pos + length a) buf' ++ b ++ drop (pos + length a + length b) buf'
  = take pos buf ++ (a ++ b) ++ drop (pos + (length a + length b)) buf.
Proof.
  intros Hl. cbv zeta. assert (Ht : length (take pos buf) = pos) by (rewrite length_take; lia). split.
  { rewrite !length_app, length_drop, Ht. lia. }
  rewrite (app_assoc (take pos buf) a). rewrite take_app_length' by (rewrite length_app; lia).
  rewrite drop_app_ge, length_app, Ht, drop_drop by (rewrite length_app; lia).
  rewrite <- !app_assoc. do 3 f_equal. f_equal. lia.
Qed.

(** Everything but the jobs, their payloads and their tree. *)
Record framed (s s' : iostate) (l : list report) : Prop := {
  fr_lt : lt s' = lt s;
  fr_ds : ds s' = ds s;
  fr_ids : ids s' = ids s;
  fr_infos : infos s' = infos s;
  fr_memory : memory s' = memory s;
  fr_maps : maps (js (cs s')) = maps (js (cs s));
  fr_jobs : jobs (st (js (cs s'))) = without d_job l (jobs (st (js (cs s))));
  fr_payloads : payloads (cs s') = without d_addr l (payloads (cs s))
}.

Lemma framed_cons (s s' : iostate) T' x l :
  framed (retired T' (d_job x) (d_addr x) s) s' l -> framed s s' (x :: l).
Proof. intros []. by split. Qed.

Definition distinct (l : list report) : Prop :=
  NoDup (d_id <$> l) /\ NoDup (d_job <$> l) /\ NoDup (d_addr <$> l).

Lemma distinct_tail x l : distinct (x :: l) -> distinct l.
Proof. unfold distinct. rewrite !fmap_cons, !list.NoDup_cons. tauto. Qed.

(** [jids] holds the ids of the jobs [l] from index [i] on. *)
Definition listed (jids : list Z) (i : nat) (l : list report) : Prop :=
  forall k x, l !! k = Some x -> jids !! (i + k)%nat = Some (d_id x).

Lemma listed_cons jids i x l : listed jids i (x :: l) -> jids !! i = Some (d_id x) /\ listed jids (S i) l.
Proof.
  intros Hl. split; [rewrite <- (Nat.add_0_r i); by apply (Hl 0%nat)|].
  intros k y Hk. replace (S i + k)%nat with (i + S k)%nat by lia. by apply (Hl (S k)).
Qed.

Lemma size_length (b : list Z) : InodeStore.size b = Z.of_nat (length b).
Proof. done. Qed.

Lemma read_jobs_run l i jids pos num buf (s : iostate) jm ts :
  JobTrees.rep (js (cs s)) jm ts -> Forall (reported s jm) l -> Forall has_data l -> distinct l -> listed jids i l ->
  (pos + length (data_of l) <= length buf)%nat -> 0 <= num -> num + Z.of_nat (length (data_of l)) < 2 ^ 32 ->
  exists s', read_jobs (length l) i jids (Z.of_nat pos) num buf s
    = Ret ((num + Z.of_nat (length (data_of l)),
            take pos buf ++ data_of l ++ drop (pos + length (data_of l)) buf), s') /\
    JobTrees.rep (js (cs s')) (without d_id l jm) ts /\ framed s s' l.
Proof.
  revert i pos num buf s jm.
  induction l as [|x l IH]; intros i pos num buf s jm Hr Hf Hdat Hd Hj Hp Hn Hs.
  { exists s. unfold data_of. simpl. rewrite Nat.add_0_r, take_drop, Z.add_0_r. split_and!; [done..|by split]. }
  apply list.Forall_cons in Hf as [Hx Hf]. apply list.Forall_cons in Hdat as [[G5 G6] Hdat].
  pose proof Hx as (G1 & [t G2] & G3 & G4).
  apply listed_cons in Hj as [Hj Hj'].
  assert (Hlen : length (data_of (x :: l)) = (length (d_data x) + length (data_of l))%nat)
    by (unfold data_of; simpl; by rewrite length_app).
  rewrite Hlen in *. destruct (get_report s _ _ _ _ G3 G4) as [Hg Hpay].
  destruct (find_report s jm ts _ _ _ Hr G2) as (a & Ha & Hn1).
  cbn [read_jobs length]. unfold cbind at 1. rewrite Hj. cbn [cexpect cret].
  unfold cbind at 1. rewrite Ha. unfold cbind at 1. cbn [cexpect cret]. unfold cbind at 1. rewrite Hn1. cbv zeta. cbn [jt_job].
  unfold cbind at 1. rewrite Hg. unfold cbind at 1. change (JobId.payload (d_r x)) with (d_addr x). rewrite Hpay.
  unfold cbind at 1. rewrite G5, G6. unfold InodeStore.read_ptr.
  rewrite InodeStore.read_at_run, InodeStore.sub_all by (rewrite ?size_length; lia).
  unfold cbind at 1. rewrite write_at_whole by (rewrite ?size_length; lia).
  rewrite Nat2Z.id, size_length, <- Nat2Z.inj_add, Nat2Z.id. unfold uwrap. rewrite Z.mod_small by lia.
  destruct (write_behind pos (d_data x) (data_of l) buf) as [Hb1 Hb2]; [lia|]. cbv zeta in Hb1, Hb2.
  set (buf' := take pos buf ++ d_data x ++ drop (pos + length (d_data x)) buf) in *.
  match goal with |- context [read_jobs (length l) ?i' ?j ?p' ?n' buf'] => set (k := read_jobs (length l) i' j p' n' buf') end.
  destruct (retire_run k s jm ts (d_id x) t (d_job x) (d_addr x) Hr G1 G2 (mk_is_Some _ _ G4)) as (T' & Hr' & Hk).
  rewrite Hk. unfold k. destruct Hd as (D1 & D2 & D3).
  destruct (IH (S i) (pos + length (d_data x))%nat (num + Z.of_nat (length (d_data x))) buf' _ _ Hr')
    as (s' & Hrun & Hrep & Hfr); [by eapply reported_retired|done|eapply distinct_tail; by split_and!|done|lia..|].
  exists s'. rewrite Hrun. split_and!; [|done|by eapply framed_cons].
  rewrite Hb2. unfold data_of at 3. cbn [fmap list_fmap concat]. fold (data_of l). do 3 f_equal. lia.
Qed.

Lemma send_read_status_run m x l buf (s : iostate) jm ts :
  maps (js (cs s)) !! m = Some x -> num_jobs_left x = 0 ->
  num_jobs x = Z.of_nat (length l) -> job_ids x = d_id <$> l ->
  JobTrees.rep (js (cs s)) jm ts -> Forall (reported s jm) l -> Forall has_data l -> distinct l ->
  (length (data_of l) <= length buf)%nat -> Z.of_nat (length (data_of l)) < 2 ^ 31 ->
  exists s', sfs_send_read_status m buf s
    = Ret ((Z.of_nat (length (data_of l)), data_of l ++ drop (length (data_of l)) buf), s') /\
    JobTrees.rep (js (cs s')) (without d_id l jm) ts /\ framed s s' l.
Proof.
  intros Hm Hleft Hnum Hids Hr Hf Hdat Hd Hlen Hmax. unfold sfs_send_read_status, cbind at 1.
  rewrite (on_trees_run _ _ x (js (cs s))) by (unfold load_map; by rewrite Hm).
  replace (set_js (js (cs s)) s) with s by (by destruct s as [? ? ? [? ?] ? ?]).
  rewrite Hleft, Hnum, Hids, Nat2Z.id. cbn [Z.eqb negb]. unfold cbind.
  destruct (read_jobs_run l 0 (d_id <$> l) 0 0 buf s jm ts) as (s' & Hrun & Hrep & Hfr); [done..| |lia|lia|lia|].
  { intros k y Hk. simpl. by rewrite list_lookup_fmap, Hk. }
  change (Z.of_nat 0) with 0 in Hrun. rewrite Hrun. exists s'. split_and!; [|done..].
  cbn [fst snd cret take app]. rewrite swrap_small by lia. done.
Qed.

(** The bytes the storage daemons say they have written. *)
Fixpoint written (l : list report) : Z :=
  match l with
  | [] => 0
  | x :: l' => (if command_ok (d_pay x) =? SSTACK_SUCCESS then file_wc (d_pay x) else 0) + written l'
  end.

Lemma written_nonneg l : Forall (fun x => 0 <= file_wc (d_pay x)) l -> 0 <= written l.
Proof. induction 1 as [|y l Hy _ IHl]; simpl; [lia|]. case_if; lia. Qed.

Lemma write_jobs_run l i jids num (s : iostate) jm ts :
  JobTrees.rep (js (cs s)) jm ts -> Forall (reported s jm) l -> distinct l -> listed jids i l ->
  Forall (fun x => 0 <= file_wc (d_pay x)) l -> 0 <= num -> num + written l < 2 ^ 32 ->
  exists s', write_jobs (length l) i jids num s = Ret (num + written l, s') /\
    JobTrees.rep (js (cs s')) (without d_id l jm) ts /\ framed s s' l.
Proof.
  revert i num s jm. induction l as [|x l IH]; intros i num s jm Hr Hf Hd Hj Hw Hn Hs.
  { exists s. simpl. rewrite Z.add_0_r. split_and!; [done..|by split]. }
  apply list.Forall_cons in Hf as [Hx Hf]. pose proof Hx as (G1 & [t G2] & G3 & G4).
  apply list.Forall_cons in Hw as [Hw0 Hw]. apply listed_cons in Hj as [Hj Hj'].
  pose proof (written_nonneg _ Hw) as Hpos.
  destruct (get_report s _ _ _ _ G3 G4) as [Hg Hpay]. destruct (find_report s jm ts _ _ _ Hr G2) as (a & Ha & Hn1).
  cbn [write_jobs length]. unfold cbind at 1. rewrite Hj. cbn [cexpect cret].
  unfold cbind at 1. rewrite Ha. unfold cbind at 1. cbn [cexpect cret]. unfold cbind at 1. rewrite Hn1. cbv zeta. cbn [jt_job].
  unfold cbind at 1. rewrite Hg. unfold cbind at 1. change (JobId.payload (d_r x)) with (d_addr x). rewrite Hpay.
  cbn [written] in Hs |- *.
  set (num' := if command_ok (d_pay x) =? SSTACK_SUCCESS then uwrap 32 (num + file_wc (d_pay x)) else num).
  assert (Hnum : num' = num + (if command_ok (d_pay x) =? SSTACK_SUCCESS then file_wc (d_pay x) else 0)).
  { unfold num', uwrap. case_if; [|lia]. rewrite Z.mod_small by lia. done. }
  destruct (retire_run (write_jobs (length l) (S i) jids num') s jm ts (d_id x) t (d_job x) (d_addr x)
    Hr G1 G2 (mk_is_Some _ _ G4)) as (T' & Hr' & Hk).
  rewrite Hk. destruct Hd as (D1 & D2 & D3).
  destruct (IH (S i) num' _ _ Hr') as (s' & Hrun & Hrep & Hfr);
    [by eapply reported_retired|eapply distinct_tail; by split_and!|done|done|..].
  1, 2: rewrite Hnum; case_if; lia.
  exists s'. rewrite Hrun, Hnum. split_and!; [do 2 f_equal; lia|done|by eapply framed_cons].
Qed.

Lemma send_write_status_run m x l (s : iostate) jm ts :
  maps (js (cs s)) !! m = Some x -> num_jobs x = Z.of_nat (length l) -> job_ids x = d_id <$> l ->
  JobTrees.rep (js (cs s)) jm ts -> Forall (reported s jm) l -> distinct l ->
  Forall (fun x => 0 <= file_wc (d_pay x)) l -> written l < 2 ^ 31 ->
  exists s', sfs_send_write_status m s = Ret (written l, s') /\
    JobTrees.rep (js (cs s')) (without d_id l jm) ts /\ framed s s' l.
Proof.
  intros Hm Hnum Hids Hr Hf Hd Hw Hmax. unfold sfs_send_write_status, cbind at 1.
  rewrite (on_trees_run _ _ x (js (cs s))) by (unfold load_map; by rewrite Hm).
  replace (set_js (js (cs s)) s) with s by (by destruct s as [? ? ? [? ?] ? ?]).
  rewrite Hnum, Hids, Nat2Z.id. unfold cbind.
  destruct (write_jobs_run l 0 (d_id <$> l) 0 s jm ts) as (s' & Hrun & Hrep & Hfr); [done..| |done|lia|lia|].
  { intros k y Hk. simpl. by rewrite list_lookup_fmap, Hk. }
  rewrite Hrun. exists s'. split_and!; [|done..]. rewrite Z.add_0_l. cbn [cret]. rewrite swrap_small; [done|lia|].
  pose proof (written_nonneg _ Hw). lia.
Qed.

(** * Issuing a job *)

#[local] Arguments sfs_job2thread_map_insert : simpl never.
#[local] Arguments sfs_submit_job : simpl never.
#[local] Arguments JOB_STARTED : simpl never.

Lemma set_js_id (s : iostate) : set_js (js (cs s)) s = s.
Proof. by destruct s as [? ? ? [? ?] ? ?]. Qed.

Lemma load_map_run (s : iostate) m x : maps (js (cs s)) !! m = Some x -> on_trees (load_map m) s = Ret (x, s).
Proof.
  intros Hm. rewrite <- (set_js_id s) at 2. apply on_trees_run. unfold load_map. by rewrite Hm.
Qed.

(** A job map with one more job. *)
Definition grown (x : job_map) (id : Z) : job_map :=
  mkMap (thread_id x) (err_no x) (num_jobs x + 1) (num_jobs_left x + 1) false (job_ids x ++ [id])
    (map_job_status x ++ [JOB_STARTED]) (map_num_clients x) (op_status x) (signals x).

(** The state after [register_job]: [h] is the heap with the job in its queue. *)
Definition registered (T' : T) (h : lheap) (thread m job mem id : Z) (x : job_map) (rest : list Z) (s : iostate) : iostate :=
  let j := js (cs s) in
  mkIo (lt s) (ds s) (ids s)
    (mkC (mkState (set_heap h (st j)) T' (jobmap_tree j) (<[mem := mkJt JTNODE_MAGIC id thread job]> (jts j))
            (jms j) (<[m := grown x id]> (maps j)) false (jobmap_lock j)) (payloads (cs s)))
    (infos s) rest.

Lemma submit_run st0 jl qs q j :
  JobQueue.rep st0 jl qs -> qs !! 0%nat = Some q -> queueable st0 jl qs j ->
  exists h', sfs_submit_job QOS_HIGH jl j st0 = Ret (0, set_heap h' st0) /\
    JobQueue.rep (set_heap h' st0) jl (<[0%nat := q ++ [j]]> qs).
Proof.
  intros Hr Hq Hj. destruct (enqueue_run _ _ _ Hr 0 q j (Z.le_refl 0) Hq Hj) as (h' & Hrun & Hrep & _).
  exists h'. split; [|done]. destruct (submit_enqueue QOS_HIGH jl j st0) as [->|(r & t & He & Hn)]; [done|].
  unfold QOS_HIGH in He. rewrite Hrun in He. by injection He as <- _.
Qed.

(** The steps on a job map. *)
Definition put_map (m : Z) (x : job_map) (s : iostate) : iostate :=
  set_js (set_maps (<[m := x]> (maps (js (cs s)))) (js (cs s))) s.
Definition set_memory (l : list Z) (s : iostate) : iostate := mkIo (lt s) (ds s) (ids s) (cs s) (infos s) l.

Lemma malloc_run (s : iostate) a l : memory s = a :: l -> malloc s = Ret (a, set_memory l s).
Proof. intros Hm. unfold malloc. by rewrite Hm. Qed.

Lemma map_step_run (c : cprog (@JobTrees.state T) unit) (s : iostate) m x x' :
  maps (js (cs s)) !! m = Some x ->
  (forall j, maps j !! m = Some x -> c j = Ret (tt, set_maps (<[m := x']> (maps j)) j)) ->
  on_trees c s = Ret (tt, put_map m x' s).
Proof. intros Hm Hc. apply on_trees_run. by apply Hc. Qed.

Ltac map_step Hm Hl :=
  apply (map_step_run _ _ _ _ _ Hm); intros j Hj;
  unfold set_counts, add_id, add_status, map_lock, map_unlock, load_map, store_map, cbind, cmod, cret;
  rewrite Hj; repeat (cbn; rewrite ?lookup_insert_eq, ?insert_insert_eq, ?Hl); done.

Lemma set_counts_run (s : iostate) m x k :
  maps (js (cs s)) !! m = Some x ->
  on_trees (set_counts m k) s = Ret (tt, put_map m (mkMap (thread_id x) (err_no x) k (num_jobs_left x) (lock x) (job_ids x)
    (map_job_status x) (map_num_clients x) (op_status x) (signals x)) s).
Proof. intros Hm. map_step Hm Hm. Qed.

Lemma add_id_run (s : iostate) m x id :
  maps (js (cs s)) !! m = Some x -> lock x = false ->
  on_trees (add_id m id) s = Ret (tt, put_map m (mkMap (thread_id x) (err_no x) (num_jobs x) (num_jobs_left x + 1) false
    (job_ids x ++ [id]) (map_job_status x) (map_num_clients x) (op_status x) (signals x)) s).
Proof. intros Hm Hl. map_step Hm Hl. Qed.

Lemma add_status_run (s : iostate) m x :
  maps (js (cs s)) !! m = Some x -> lock x = false ->
  on_trees (add_status m) s = Ret (tt, put_map m (mkMap (thread_id x) (err_no x) (num_jobs x) (num_jobs_left x) false
    (job_ids x) (map_job_status x ++ [JOB_STARTED]) (map_num_clients x) (op_status x) (signals x)) s).
Proof. intros Hm Hl. map_step Hm Hl. Qed.

Lemma get_job_run (s : iostate) job r : jobs (st (js (cs s))) !! job = Some r -> on_cs (get_job job) s = Ret (r, s).
Proof.
  intros Hj. destruct s as [? ? ? [[] ?] ? ?]. unfold on_cs, get_job, lift, on_store, load_job. cbn in *. by rewrite Hj.
Qed.

Lemma put_map_same (s : iostate) m x : maps (js (cs (put_map m x s))) !! m = Some x.
Proof. cbn. by rewrite lookup_insert_eq. Qed.
Lemma put_map_put (s : iostate) m x x' : put_map m x' (put_map m x s) = put_map m x' s.
Proof. unfold put_map, set_js, set_maps, set_cs. cbn. by rewrite insert_insert_eq. Qed.

Lemma register_run (s : iostate) n thread m job x r t1 t2 mem rest jm ts q qs :
  memory s = t1 :: t2 :: mem :: rest -> t1 <> NULL -> t2 <> NULL -> mem <> NULL ->
  maps (js (cs s)) !! m = Some x -> lock x = false -> jobs (st (js (cs s))) !! job = Some r ->
  JobId.priority r = QOS_HIGH -> 0 <= JobId.id r -> 0 <= thread ->
  JobTrees.rep (js (cs s)) jm ts -> jm !! JobId.id r = None -> jts (js (cs s)) !! mem = None ->
  JobQueue.rep (st (js (cs s))) jobs_list qs -> qs !! 0%nat = Some q -> queueable (st (js (cs s))) jobs_list qs job ->
  exists T' h, let s' := registered T' h thread m job mem (JobId.id r) x rest s in
    register_job n thread m job s = Ret (Issued, s') /\
    JobTrees.rep (js (cs s')) (<[JobId.id r := (thread, job)]> jm) ts /\
    JobQueue.rep (st (js (cs s'))) jobs_list (<[0%nat := q ++ [job]]> qs).
Proof.
  intros Hmem N1 N2 N3 Hm Hl Hr Hp Hid Ht Hrep Hj Hjt Hq Hq0 Hqj.
  destruct (jt_insert_run (set_maps (<[m := grown x (JobId.id r)]> (maps (js (cs s)))) (js (cs s))) jm ts mem thread
    (JobId.id r) job (rep_maps _ _ _ _ Hrep) Hjt Ht Hid N3 Hj) as (T' & Hins & Hrep').
  destruct (submit_run _ _ _ _ _ Hq Hq0 Hqj) as (h & Hsub & Hq').
  exists T', h. cbv zeta in *. split_and!; [|by apply (rep_st _ _ _ (set_heap h (st (js (cs s)))) Hrep')|exact Hq'].
  unfold register_job, cbind at 1. rewrite (load_map_run s m x Hm).
  unfold cbind at 1. rewrite (set_counts_run s m x _ Hm).
  unfold cbind at 1. erewrite malloc_run by exact Hmem. rewrite (proj2 (Z.eqb_neq t1 NULL) N1).
  unfold cbind at 1. rewrite (get_job_run _ job r) by exact Hr.
  unfold cbind at 1. erewrite add_id_run by (apply put_map_same || exact Hl).
  unfold cbind at 1. erewrite malloc_run by reflexivity. rewrite (proj2 (Z.eqb_neq t2 NULL) N2).
  unfold cbind at 1. erewrite add_status_run by (apply put_map_same || reflexivity).
  unfold cbind at 1. erewrite malloc_run by reflexivity.
  unfold cbind at 1. cbn [op_status map_num_clients map_job_status job_ids lock num_jobs_left num_jobs err_no thread_id signals].
  fold (grown x (JobId.id r)).
  match goal with |- context [on_trees (sfs_job2thread_map_insert _ _ _ _) ?t] =>
    replace t with (set_memory rest (put_map m (grown x (JobId.id r)) s)) end.
  2: { unfold set_memory, put_map, set_js, set_cs, set_maps. cbn. by rewrite !insert_insert_eq. }
  rewrite (on_trees_run _ (set_memory rest (put_map m (grown x (JobId.id r)) s)) _ _ Hins). change (0 =? -1) with false. cbv beta iota. unfold cbind. rewrite Hp. erewrite on_trees_run.
  2: { unfold on_store. cbn. rewrite Hsub. reflexivity. }
  reflexivity.
Qed.

(** ** The steps before it is registered *)

Definition blank (id : Z) : JobId.sfs_job :=
  JobId.mkJob JobId.SFS_JOB_VERSION 0 id 0 (replicate JobId.MAX_SFSD_CLIENTS 0) (replicate JobId.MAX_SFSD_CLIENTS 0) 0
    JobId.INVALID_PRIORITY 0.

(** The state with a job at [a] and another pool of ids. *)
Definition with_job (a : Z) (r : JobId.sfs_job) (s : iostate) : iostate :=
  let x := st (js (cs s)) in
  set_js (set_st (mkStore (<[a + wait_off := mkHead (a + wait_off) (a + wait_off)]> (heap x)) (queues x)
                    (<[a := r]> (jobs x)) (errno x)) (js (cs s))) s.
Definition with_ids (i : JobId.state) (s : iostate) : iostate := mkIo (lt s) (ds s) i (cs s) (infos s) (memory s).
Definition with_pay (p : Z) (y : sstack_payload) (s : iostate) : iostate :=
  set_cs (mkC (js (cs s)) (<[p := y]> (payloads (cs s)))) s.

Lemma new_job_run (s : iostate) a l :
  memory s = a :: l -> a <> NULL -> JobId.fresh (ids s) ->
  JobId.current_job_id (ids s) < JobId.MAX_OUTSTANDING_JOBS ->
  exists i, new_job s = Ret (Some a, with_job a (blank (JobId.current_job_id (ids s))) (with_ids i (set_memory l s))) /\
    JobId.fresh i /\ JobId.current_job_id i = JobId.current_job_id (ids s) + 1.
Proof.
  intros Hm Hn Hf Hc. destruct (JobId.get_fresh _ Hf Hc) as (i & Hg & Hf' & Hc'). exists i. split_and!; [|done..].
  unfold new_job, cbind at 1. rewrite (malloc_run _ _ _ Hm), (proj2 (Z.eqb_neq a NULL) Hn). cbn [negb].
  unfold cbind at 1, on_ids, JobId.sfs_job_init, cbind at 1. cbn [ids set_memory]. rewrite Hg. reflexivity.
Qed.

Lemma next_id_run (s : iostate) :
  JobId.fresh (ids s) -> JobId.current_job_id (ids s) < JobId.MAX_OUTSTANDING_JOBS ->
  exists i, on_ids JobId.get_next_job_id s = Ret (JobId.current_job_id (ids s), with_ids i s) /\
    JobId.fresh i /\ JobId.current_job_id i = JobId.current_job_id (ids s) + 1.
Proof.
  intros Hf Hc. destruct (JobId.get_fresh _ Hf Hc) as (i & Hg & Hf' & Hc'). exists i. split_and!; [|done..].
  unfold on_ids. by rewrite Hg.
Qed.

Lemma new_read_payload_run (s : iostate) p l :
  memory s = p :: l -> p <> NULL ->
  sstack_create_payload NFS_READ s = Ret (p, with_pay p zero_payload (set_memory l s)).
Proof.
  intros Hm Hn. unfold sstack_create_payload, cbind at 1.
  rewrite (malloc_run _ _ _ Hm), (proj2 (Z.eqb_neq p NULL) Hn). reflexivity.
Qed.

Lemma new_write_payload_run (s : iostate) p b l :
  memory s = p :: b :: l -> p <> NULL -> b <> NULL ->
  sstack_create_payload NFS_WRITE s
  = Ret (p, with_pay p (mkPayload 0 0 0 0 0 0 0 0 [] 0 (Some fresh_buf) 0 0 None 0) (set_memory l s)).
Proof.
  intros Hm Hn Hb. unfold sstack_create_payload, cbind at 1.
  rewrite (malloc_run _ _ _ Hm), (proj2 (Z.eqb_neq p NULL) Hn).
  unfold cbind at 1. change (has_buffer NFS_WRITE) with true. cbv iota. unfold on_cs at 1, store_payload at 1, cmod. cbn [cs set_memory].
  unfold cbind at 1. erewrite malloc_run by reflexivity. rewrite (proj2 (Z.eqb_neq b NULL) Hb).
  unfold cbind, on_cs, store_payload, cmod, cret, with_pay, set_cs, set_memory. cbn. by rewrite insert_insert_eq.
Qed.

(** A state in which a job can be issued, and the memory it gets: the job,
    its payload, the two arrays and the node of the tree. *)
Record ready (s : iostate) (m : Z) (x : job_map) (jm : gmap Z (Z * Z)) (ts : gmap Z Z) (q : list Z) (qs : list (list Z)) : Prop := {
  rd_ids : JobId.fresh (ids s);
  rd_cur : JobId.current_job_id (ids s) + 1 < JobId.MAX_OUTSTANDING_JOBS;
  rd_trees : JobTrees.rep (js (cs s)) jm ts;
  rd_new : jm !! (JobId.current_job_id (ids s) + 1) = None;
  rd_queue : JobQueue.rep (st (js (cs s))) jobs_list qs;
  rd_first : qs !! 0%nat = Some q;
  rd_map : maps (js (cs s)) !! m = Some x;
  rd_lock : lock x = false
}.

Record unused (s : iostate) (a p t1 t2 mem : Z) : Prop := {
  un_job : a <> NULL;
  un_pay : p <> NULL;
  un_t1 : t1 <> NULL;
  un_t2 : t2 <> NULL;
  un_mem : mem <> NULL;
  un_jobs : jobs (st (js (cs s))) !! a = None;
  un_heap : heap (st (js (cs s))) !! wl a = None;
  un_jts : jts (js (cs s)) !! mem = None
}.

(** The state after a job [r] with the payload [y] was issued. *)
Definition issued (T' : T) (h : lheap) (i : JobId.state) (thread m a mem p : Z) (x : job_map) (r : JobId.sfs_job)
    (y : sstack_payload) (rest : list Z) (s : iostate) : iostate :=
  registered T' h thread m a mem (JobId.id r) x rest (with_pay p y (with_job a r (with_ids i s))).

(** Registering the job that was just prepared. *)
Lemma issue_run (s : iostate) n thread m x jm ts q qs a p t1 t2 mem rest i r y :
  ready s m x jm ts q qs -> unused s a p t1 t2 mem -> 0 <= thread ->
  JobId.id r = JobId.current_job_id (ids s) + 1 -> JobId.priority r = QOS_HIGH ->
  exists T' h, let s' := issued T' h i thread m a mem p x r y rest s in
    register_job n thread m a (with_pay p y (with_job a r (with_ids i (set_memory (t1 :: t2 :: mem :: rest) s)))) = Ret (Issued, s') /\
    JobTrees.rep (js (cs s')) (<[JobId.id r := (thread, a)]> jm) ts /\
    JobQueue.rep (st (js (cs s'))) jobs_list (<[0%nat := q ++ [a]]> qs).
Proof.
  intros [R1 R2 R3 R4 R5 R6 R7 R8] [U1 U2 U3 U4 U5 U6 U7 U8] Ht Hid Hp.
  pose proof (IdSlots.pool_cur _ _ _ (JobId.fresh_wf _ R1)) as Hcur.
  set (s1 := with_pay p y (with_job a r (with_ids i (set_memory (t1 :: t2 :: mem :: rest) s)))).
  assert (Hqs : JobQueue.rep (st (js (cs s1))) jobs_list qs).
  { apply (rep_grow _ _ _ _ R5); [done| |]; cbn.
    - intros z [w Hz]. rewrite lookup_insert_ne; [done|]. unfold wl in U7. congruence.
    - intros z Hz. destruct (decide (a = z)) as [->|]; [by rewrite lookup_insert_eq|by rewrite lookup_insert_ne]. }
  destruct (register_run s1 n thread m a x r t1 t2 mem rest jm ts q qs) as (T' & h & Hrun & Hr & Hq); try done.
  - cbn. by rewrite lookup_insert_eq.
  - rewrite Hid. lia.
  - by apply rep_st.
  - by rewrite Hid.
  - apply (fresh_queueable _ _ _ _ _ R5 U6 U7 U1); cbn; [by rewrite lookup_insert_eq|].
    unfold wl. by rewrite lookup_insert_eq.
  - exists T', h. cbv zeta in *. split_and!; [exact Hrun|exact Hr|exact Hq].
Qed.

(** ** One pass of the loops *)

Definition read_request (c : io_call) (ino : InodeStore.sstack_inode) (e : InodeStore.sstack_extent)
    (hs : list Z) (id a : Z) : sstack_payload :=
  mkPayload id QOS_HIGH a NFS_READ (InodeStore.i_num (InodeStore.i_fixed ino)) (io_offset c)
    (cut e (io_offset c) (io_size c)) 0 (InodeStore.sub 0 InodeStore.SIZEOF_HANDLE hs) 0 None 0 0 None 0.

Lemma load_payload_run (s : iostate) p y : payloads (cs s) !! p = Some y -> on_cs (load_payload p) s = Ret (y, s).
Proof. intros Hp. destruct s as [? ? ? [? ?] ? ?]. unfold on_cs, load_payload. cbn in *. by rewrite Hp. Qed.

Lemma store_payload_run (s : iostate) p y : on_cs (store_payload p y) s = Ret (tt, with_pay p y s).
Proof. reflexivity. Qed.

(** Filling in the payload and the job that were just made. *)
Lemma prepare_run (s : iostate) a p i l r0 r y0 y :
  let s1 := with_pay p y0 (set_memory l (with_job a r0 (with_ids i s))) in
  on_cs (put_job a r) (with_pay p y s1) = Ret (tt, with_pay p y (with_job a r (with_ids i (set_memory l s)))).
Proof.
  cbv zeta. unfold on_cs, put_job, lift, on_store, cmod, with_pay, with_job, with_ids, set_memory, set_js, set_cs, set_st. cbn.
  by rewrite !insert_insert_eq.
Qed.

Lemma read_step fuel c n ino off e hs sfsd b k (s : iostate) m x jm ts q qs a p t1 t2 mem rest :
  let id := JobId.current_job_id (ids s) + 1 in
  let r := fill_job (blank (JobId.current_job_id (ids s))) id 1 sfsd p in
  k <> 0 -> ready s m x jm ts q qs -> unused s a p t1 t2 mem -> memory s = a :: p :: t1 :: t2 :: mem :: rest ->
  0 <= self c -> infos s !! i_primary_sfsd (InodeStore.i_fixed ino) = Some sfsd ->
  InodeStore.i_extent ino !! off = Some e -> InodeStore.e_path e = Some hs ->
  InodeStore.SIZEOF_HANDLE <= InodeStore.size hs ->
  exists T' h i, let s' := issued T' h i (self c) m a mem p x r (read_request c ino e hs id a) rest s in
    read_loop (S fuel) c n m ino (Some off) b k s
    = (let b' := uwrap 64 (b + cut e (io_offset c) (io_size c)) in
       read_loop fuel c n m ino (Some off) b' (swrap 32 (k - b')) s') /\
    JobTrees.rep (js (cs s')) (<[id := (self c, a)]> jm) ts /\
    JobQueue.rep (st (js (cs s'))) jobs_list (<[0%nat := q ++ [a]]> qs) /\
    JobId.fresh i /\ JobId.current_job_id i = id + 1.
Proof.
  intros id r Hk Hr Hu Hm Ht Hs He Hp Hh. pose proof (rd_cur _ _ _ _ _ _ _ Hr) as Hcur.
  cbn [read_loop]. rewrite (proj2 (Z.eqb_neq k 0) Hk).
  destruct (new_job_run s a _ Hm (un_job _ _ _ _ _ _ Hu) (rd_ids _ _ _ _ _ _ _ Hr)) as (i1 & Hj & Hf1 & Hc1); [lia|].
  unfold cbind at 1. rewrite Hj.
  match type of Hj with _ = Ret (_, ?t) => set (s1 := t) in * end.
  destruct (next_id_run s1) as (i & Hi & Hf & Hc); [done|cbn; rewrite Hc1; lia|].
  unfold cbind at 1. rewrite Hi. unfold cbind at 1, cget at 1. cbn [infos with_ids s1 with_job set_js set_cs set_memory].
  unfold cbind at 1. rewrite Hs. cbn [cexpect cret].
  change (JobId.current_job_id (ids s1)) with (JobId.current_job_id i1) in *. rewrite Hc1 in *. fold id in Hc |- *.
  unfold cbind at 1. erewrite new_read_payload_run; [|reflexivity|by destruct Hu].
  rewrite (proj2 (Z.eqb_neq p NULL) (un_pay _ _ _ _ _ _ Hu)).
  unfold cbind at 1, load_extent at 1, cbind at 1. cbn [cexpect cret]. rewrite He. cbn [cexpect cret]. cbv zeta.
  unfold cbind at 1. rewrite Hp. unfold InodeStore.read_ptr at 1. rewrite InodeStore.read_at_run by (done || lia).
  unfold cbind at 1. erewrite load_payload_run by (cbn; apply lookup_insert_eq).
  unfold cbind at 1. rewrite store_payload_run.
  unfold cbind at 1. erewrite get_job_run by (cbn; apply lookup_insert_eq).
  unfold cbind at 1.
  destruct (issue_run s n (self c) m x jm ts q qs a p t1 t2 mem rest i r (read_request c ino e hs id a) Hr Hu Ht)
    as (T' & h & Hrun & Hrep & Hq); [done..|].
  exists T', h, i. cbv zeta in *. split_and!; [|done..].
  match goal with |- context [on_cs (put_job ?a ?r') (with_pay ?p ?y' ?t)] =>
    assert (Hpj : on_cs (put_job a r') (with_pay p y' t) =
      Ret (tt, with_pay p y' (with_job a r' (with_ids i (set_memory (t1 :: t2 :: mem :: rest) s))))) end.
  { rewrite <- (prepare_run s a p i _ (blank (JobId.current_job_id (ids s))) _ zero_payload). reflexivity. }
  rewrite Hpj. cbv zeta. fold r.
  unfold cbind at 1. unfold read_request in Hrun. cbn [write_len write_buf command_ok resp_len resp_buf file_wc zero_payload].
  rewrite Hrun. reflexivity.
Qed.

Definition write_request (c : io_call) (ino : InodeStore.sstack_inode) (data : list Z) (id a : Z) : sstack_payload :=
  mkPayload id QOS_HIGH a NFS_WRITE (InodeStore.i_num (InodeStore.i_fixed ino)) (io_offset c) (io_size c) 0 []
    (io_size c) (Some data) 0 0 None 0.

(** The first pass for a file without extents. *)
Lemma write_step fuel c n ino data k (s : iostate) m x jm ts q qs a p b t1 t2 mem rest :
  let id := JobId.current_job_id (ids s) + 1 in
  let r := fill_job (blank (JobId.current_job_id (ids s))) id (InodeStore.i_numclients (InodeStore.i_fixed ino)) accept_sfsd p in
  k <> 0 -> ready s m x jm ts q qs -> unused s a p t1 t2 mem -> b <> NULL ->
  memory s = a :: p :: b :: t1 :: t2 :: mem :: rest -> 0 <= self c ->
  exists T' h i, let s' := issued T' h i (self c) m a mem p x r (write_request c ino data id a) rest s in
    write_loop (S fuel) c n m ino data None 0 k s
    = (let b' := uwrap 64 (io_size c) in write_loop fuel c n m ino data None b' (swrap 32 (io_size c - b')) s') /\
    JobTrees.rep (js (cs s')) (<[id := (self c, a)]> jm) ts /\
    JobQueue.rep (st (js (cs s'))) jobs_list (<[0%nat := q ++ [a]]> qs) /\
    JobId.fresh i /\ JobId.current_job_id i = id + 1.
Proof.
  intros id r Hk Hr Hu Hb Hm Ht. pose proof (rd_cur _ _ _ _ _ _ _ Hr) as Hcur.
  cbn [write_loop]. rewrite (proj2 (Z.eqb_neq k 0) Hk).
  destruct (new_job_run s a _ Hm (un_job _ _ _ _ _ _ Hu) (rd_ids _ _ _ _ _ _ _ Hr)) as (i1 & Hj & Hf1 & Hc1); [lia|].
  unfold cbind at 1. rewrite Hj.
  match type of Hj with _ = Ret (_, ?t) => set (s1 := t) in * end.
  destruct (next_id_run s1) as (i & Hi & Hf & Hc); [done|cbn; rewrite Hc1; lia|].
  unfold cbind at 1. rewrite Hi.
  change (JobId.current_job_id (ids s1)) with (JobId.current_job_id i1) in *. rewrite Hc1 in *. fold id in Hc |- *.
  unfold cbind at 1. erewrite new_write_payload_run; [|reflexivity|by destruct Hu|done].
  rewrite (proj2 (Z.eqb_neq p NULL) (un_pay _ _ _ _ _ _ Hu)).
  unfold cbind at 1. cbn [cret].
  unfold cbind at 1. erewrite load_payload_run by (cbn; apply lookup_insert_eq).
  unfold cbind at 1. rewrite store_payload_run.
  unfold cbind at 1. erewrite get_job_run by (cbn; apply lookup_insert_eq).
  unfold cbind at 1.
  destruct (issue_run s n (self c) m x jm ts q qs a p t1 t2 mem rest i r (write_request c ino data id a) Hr Hu Ht)
    as (T' & h & Hrun & Hrep & Hq); [done..|].
  exists T', h, i. cbv zeta in *. split_and!; [|done..].
  match goal with |- context [on_cs (put_job ?a ?r') (with_pay ?p ?y' ?t)] =>
    assert (Hpj : on_cs (put_job a r') (with_pay p y' t) =
      Ret (tt, with_pay p y' (with_job a r' (with_ids i (set_memory (t1 :: t2 :: mem :: rest) s))))) end.
  { rewrite <- (prepare_run s a p i _ (blank (JobId.current_job_id (ids s))) _
      (mkPayload 0 0 0 0 0 0 0 0 [] 0 (Some fresh_buf) 0 0 None 0)). reflexivity. }
  rewrite Hpj. cbv zeta. fold r. change (drop (Z.to_nat 0) data) with data.
  unfold cbind at 1. unfold write_request in Hrun.
  cbn [read_ecode extent_handle command_ok resp_len resp_buf file_wc]. rewrite Hrun. reflexivity.
Qed.

(** * The wait and the end *)

(** The state in which the job map is in its tree. *)
Definition with_context (T' : T) (thread m mem : Z) (rest : list Z) (s : iostate) : iostate :=
  set_js (set_jobmap T' (<[mem := mkJm JMNODE_MAGIC thread m]> (jms (js (cs s)))) false (js (cs s))) (set_memory rest s).

(** Nothing happens before the wait. *)
Definition calm (e : env) : Prop := while_issuing e = cret tt /\ before_wait e = cret tt.

Lemma complete_start {A} (fail : A) c e n m status last (s : iostate) jm ts mem rest :
  while_issuing e = cret tt -> memory s = mem :: rest -> mem <> NULL -> jms (js (cs s)) !! mem = None -> m <> NULL -> 0 <= self c ->
  JobTrees.rep (js (cs s)) jm ts -> ts !! self c = None ->
  exists T', let s1 := with_context T' (self c) m mem rest s in
    complete fail c e n m status last s
    = (on_cs (before_wait e) ;;; let! _ := sfs_wait_for_completion e m in finish_io c n m status last)%cprog s1 /\
    JobTrees.rep (js (cs s1)) jm (<[self c := m]> ts).
Proof.
  intros He1 Hm Hn Hj Hm0 Ht Hr Hts.
  destruct (jm_insert_run (js (cs s)) jm ts mem (self c) m Hr Hj Ht Hm0 Hn Hts) as (T' & Hrun & Hrep).
  exists T'. cbv zeta in *. split; [|exact Hrep]. unfold complete. rewrite He1.
  unfold cbind at 1, on_cs at 1, cret at 1. replace (set_cs (cs s) s) with s by (by destruct s).
  unfold cbind at 1. rewrite (malloc_run _ _ _ Hm). unfold cbind at 1.
  rewrite (on_trees_run _ (set_memory rest s) _ _ Hrun). reflexivity.
Qed.

Lemma wait_run (s : iostate) e m x z x' :
  maps (js (cs s)) !! m = Some x -> while_waiting e (cs s) = Ret (tt, z) -> maps (js z) !! m = Some x' ->
  (signals x < signals x')%nat -> sfs_wait_for_completion e m s = Ret (0, set_cs z s).
Proof.
  intros Hx Hw Hx' Hs. unfold sfs_wait_for_completion, cbind at 1. rewrite (load_map_run s m x Hx).
  unfold cbind at 1, on_cs. rewrite Hw. unfold cbind. rewrite (load_map_run (set_cs z s) m x' Hx').
  by rewrite (proj2 (Nat.ltb_lt _ _) Hs).
Qed.

(** Only [errno] of the lock tree changes with [errno]. *)
Lemma rep_errno (l : @LockTree.state T) lm e :
  LockTree.rep l lm ->
  LockTree.rep (LockTree.mkState (LockTree.tree l) (LockTree.locks l) (LockTree.filelock_lock l) e) lm.
Proof. intros []. by split. Qed.

Lemma unlock_io_run (s : iostate) n lm md :
  LockTree.rep (lt s) lm -> 0 <= n -> lm !! n = Some md ->
  exists l, on_locks (LockTree.sfs_unlock n) s = Ret (0, put_io_errno (LockTree.errno l) (set_lt l s)) /\
    LockTree.rep l (delete n lm).
Proof.
  intros Hr Hn Hm. pose proof (rep_errno _ _ (io_errno s) Hr) as Hr'.
  destruct (LockTree.rep_locked _ _ Hr' _ _ Hm) as (a & Ha & _).
  destruct (LockTree.unlock_run _ _ _ _ _ Hr' Hn Hm Ha) as (l & Hrun & _ & Hl & _).
  exists l. split; [|done]. unfold on_locks. by rewrite Hrun.
Qed.

Lemma finish_io_run {A} c n m (status : cprog iostate A) last (s s3 : iostate) r jm ts lm md :
  status s = Ret (r, s3) -> JobTrees.rep (js (cs s3)) jm ts -> 0 <= self c -> ts !! self c = Some m -> m <> NULL ->
  LockTree.rep (lt s3) lm -> 0 <= n -> lm !! n = Some md ->
  exists s4, finish_io c n m status last s = (last ;;; cret r)%cprog s4 /\
    JobTrees.rep (js (cs s4)) jm (delete (self c) ts) /\ LockTree.rep (lt s4) (delete n lm) /\
    ds s4 = ds s3 /\ maps (js (cs s4)) = delete m (maps (js (cs s3))) /\
    jobs (st (js (cs s4))) = jobs (st (js (cs s3))) /\ payloads (cs s4) = payloads (cs s3).
Proof.
  intros Hs Hr Ht Hts Hm Hl Hn Hmd.
  destruct (jm_remove_run _ _ _ _ _ Hr Ht Hts) as (T' & Hrun & Hrep). cbv zeta in *.
  unfold finish_io, cbind at 1. rewrite Hs. unfold cbind at 1. rewrite (on_trees_run _ _ _ _ Hrun).
  match type of Hrep with JobTrees.rep ?j _ _ => set (j1 := j) in * end.
  set (s4 := set_js (set_maps (delete m (maps j1)) j1) s3).
  assert (Hfree : on_trees (free_job_map m) (set_js j1 s3) = Ret (tt, s4)).
  { rewrite (on_trees_run _ (set_js j1 s3) tt (set_maps (delete m (maps j1)) j1)); [done|].
    unfold free_job_map. by rewrite (proj2 (Z.eqb_neq m NULL) Hm). }
  unfold cbind at 1. rewrite Hfree.
  destruct (unlock_io_run s4 n lm md Hl Hn Hmd) as (l & Hu & Hl').
  unfold cbind at 1. rewrite Hu. eexists. split; [reflexivity|]. split_and!; [|exact Hl'|done..].
  apply rep_st. apply rep_maps. exact Hrep.
Qed.

(** * Whole requests *)

(** The state with the lock taken and the inode read; only [errno] of the jobs
    may have changed. *)
Definition opened (l : @LockTree.state T) (d : @InodeStore.db_state D) (e : Z) (rest : list Z) (s : iostate) : iostate :=
  mkIo l d (ids s) (cs (put_io_errno e s)) (infos s) rest.

Lemma open_inode_start {A} (fail nomem : A) c w lock body n ino d (s : iostate) lm l f rest :
  (forall mem i, lock mem i = LockTree.run_lop (LockTree.take_op w mem i)) ->
  path_ok c = true -> buf_ok c = true -> 0 <= io_offset c -> inodestr c = Some n ->
  InodeStore.get_inode ptr n zero_inode (ds s) = Ret ((0, ino), d) ->
  LockTree.rep (lt s) lm -> lm !! n = None -> 0 <= n -> LockTree.locks (lt s) !! l = None ->
  memory s = l :: f :: rest -> l <> NULL -> f <> NULL ->
  exists lt' e, open_inode fail nomem c lock body s = body n ino (opened lt' d e rest s) /\
    LockTree.rep lt' (<[n := w]> lm).
Proof.
  intros Hlock Hp Hb Ho Hi Hg Hr Hm Hn Hl Hmem Nl Nf. unfold open_inode.
  rewrite Hp, Hb, (proj2 (Z.ltb_ge (io_offset c) 0) Ho), Hi. cbn [negb orb].
  unfold cbind at 1. rewrite (malloc_run _ _ _ Hmem).
  destruct (LockTree.take_new _ _ l n w (rep_errno _ _ (io_errno s) Hr) Hn Hm (or_intror Hl)) as (lt' & Hrun & He & Hr' & _).
  change NULL with 0 in Nl. rewrite (proj2 (Z.eqb_neq l 0) Nl) in *.
  exists lt', (LockTree.errno lt'). split; [|exact Hr']. unfold cbind at 1.
  assert (Hlk : on_locks (lock l n) (set_memory (f :: rest) s) = Ret (0, put_io_errno (LockTree.errno lt') (set_lt lt' (set_memory (f :: rest) s)))).
  { unfold on_locks. rewrite Hlock. change (io_errno (set_memory (f :: rest) s)) with (io_errno s).
    cbn [lt set_memory]. by rewrite Hrun. }
  rewrite Hlk. change (0 =? -1) with false. cbv iota.
  unfold cbind at 1. erewrite malloc_run by reflexivity. rewrite (proj2 (Z.eqb_neq f NULL) Nf).
  unfold cbind at 1, on_db. change (ds (set_memory rest (put_io_errno (LockTree.errno lt') (set_lt lt' (set_memory (f :: rest) s))))) with (ds s).
  rewrite Hg. cbn [fst snd]. reflexivity.
Qed.

(** The receiver of an answer: the payload is stored and processed. *)
Definition deliver (handle : Z -> Z) (gi : Z -> option inode) (p : Z) (ans : sstack_payload) : cprog (@cstate T) unit :=
  (store_payload p ans ;;; sfs_process_payload handle gi jobs_list p)%cprog.

Lemma in_flight_rep (z : @cstate T) p ans t a r m x jm ts :
  JobTrees.rep (js z) jm ts -> jm !! hdr_job_id ans = Some (t, a) -> ts !! t = Some m ->
  maps (js z) !! m = Some x -> lock x = false -> jobs (st (js z)) !! a = Some r ->
  length (JobId.job_status r) = JobId.MAX_SFSD_CLIENTS -> length (op_status x) = JobId.MAX_SFSD_CLIENTS ->
  in_flight (mkC (js z) (<[p := ans]> (payloads z))) p ans a r m x.
Proof.
  intros Hr Hj Ht Hm Hl Ha Hs Ho. split; [by cbn; rewrite lookup_insert_eq| |done..]. cbn [js].
  pose proof (rep_jobid _ _ _ Hr (hdr_job_id ans)) as G. rewrite Hj in G. destruct G as (b & Hb1 & Hb2).
  pose proof (rep_jobmap _ _ _ Hr t) as G. rewrite Ht in G. destruct G as (k & Hk1 & Hk2).
  exists b, t. rewrite !kt_search_map by (by destruct Hr). split_and!; [done..|]. by exists k.
Qed.

Lemma deliver_read handle gi (z : @cstate T) p ans t a r m x jm ts :
  JobTrees.rep (js z) jm ts -> jm !! hdr_job_id ans = Some (t, a) -> ts !! t = Some m ->
  maps (js z) !! m = Some x -> lock x = false -> jobs (st (js z)) !! a = Some r ->
  length (JobId.job_status r) = JobId.MAX_SFSD_CLIENTS -> length (op_status x) = JobId.MAX_SFSD_CLIENTS ->
  command ans = NFS_READ_RSP -> command_ok ans = SSTACK_SUCCESS -> num_jobs_left x = 1 ->
  deliver handle gi p ans z
  = Ret (tt, update (mkC (js z) (<[p := ans]> (payloads z))) a (read_done r p) m (map_done x 0 (err_no x) 1)).
Proof.
  intros Hr Hj Ht Hm Hl Ha Hs Ho Hc Hok Hleft.
  pose proof (in_flight_rep z p ans t a r m x jm ts Hr Hj Ht Hm Hl Ha Hs Ho) as Hf.
  unfold deliver, cbind, store_payload, cmod.
  pose proof (Completion.read_payload_run handle gi jobs_list _ m x (mkAns p ans a r) (conj Hf (conj Hc Hok))) as Hrun.
  cbn [a_p a_job a_r] in Hrun. rewrite Hrun, Hleft. done.
Qed.

Lemma trees_update (z : @cstate T) a r m x jm ts :
  JobTrees.rep (js z) jm ts -> JobTrees.rep (js (update z a r m x)) jm ts.
Proof. intros Hr. apply rep_maps. by apply rep_st. Qed.

(** A request with one job [a] in flight: [x] is its job map. *)
Record one_job (s : iostate) (c : io_call) (n m a id : Z) (r : JobId.sfs_job) (x : job_map)
    (jm : gmap Z (Z * Z)) (ts : gmap Z Z) (lm : gmap Z LockTree.mode) : Prop := {
  oj_self : 0 <= self c;
  oj_id : 0 <= id;
  oj_map_null : m <> NULL;
  oj_trees : JobTrees.rep (js (cs s)) (<[id := (self c, a)]> jm) ts;
  oj_new : jm !! id = None;
  oj_thread : ts !! self c = None;
  oj_map : maps (js (cs s)) !! m = Some x;
  oj_num : num_jobs x = 1;
  oj_left : num_jobs_left x = 1;
  oj_ids : job_ids x = [id];
  oj_lock : lock x = false;
  oj_op : length (op_status x) = JobId.MAX_SFSD_CLIENTS;
  oj_job : jobs (st (js (cs s))) !! a = Some r;
  oj_status : length (JobId.job_status r) = JobId.MAX_SFSD_CLIENTS;
  oj_locks : LockTree.rep (lt s) lm;
  oj_inode : 0 <= n;
  oj_held : is_Some (lm !! n)
}.

(** The answer arrives during the wait: [r'] and [x'] are what it makes of the
    job and of the job map, and [status] reports on that one job. *)
Lemma complete_one {A} (fail v : A) c e n m status last (s : iostate) a id r x jm ts lm mem rest p ans dat r' x' :
  one_job s c n m a id r x jm ts lm -> calm e ->
  memory s = mem :: rest -> mem <> NULL -> jms (js (cs s)) !! mem = None ->
  (forall z, JobTrees.rep (js z) (<[id := (self c, a)]> jm) (<[self c := m]> ts) -> maps (js z) !! m = Some x ->
     jobs (st (js z)) !! a = Some r ->
     while_waiting e z = Ret (tt, update (mkC (js z) (<[p := ans]> (payloads z))) a r' m x')) ->
  (signals x < signals x')%nat -> JobId.payload r' = p ->
  (forall s2, maps (js (cs s2)) !! m = Some x' ->
     JobTrees.rep (js (cs s2)) (<[id := (self c, a)]> jm) (<[self c := m]> ts) ->
     reported s2 (<[id := (self c, a)]> jm) (mkReport id a r' ans dat) ->
     exists s3, status s2 = Ret (v, s3) /\ JobTrees.rep (js (cs s3)) (delete id (<[id := (self c, a)]> jm)) (<[self c := m]> ts) /\
       framed s2 s3 [mkReport id a r' ans dat]) ->
  exists s', complete fail c e n m status last s = (last ;;; cret v)%cprog s' /\
    JobTrees.rep (js (cs s')) jm ts /\ LockTree.rep (lt s') (delete n lm) /\ ds s' = ds s /\
    maps (js (cs s')) = delete m (maps (js (cs s))) /\ jobs (st (js (cs s'))) = delete a (jobs (st (js (cs s)))) /\
    payloads (cs s') = delete p (payloads (cs s)).
Proof.
  intros O [He1 He2] Hmem Hn Hjm Hw Hsig Hpay Hst. destruct (oj_held _ _ _ _ _ _ _ _ _ _ _ O) as [md Hmd].
  destruct O as [O1 O2 O3 O4 O5 O6 O7 O8 O9 O10 O11 O12 O13 O14 O15 O16 _].
  destruct (complete_start fail c e n m status last s _ _ mem rest He1 Hmem Hn Hjm O3 O1 O4 O6) as (T' & Hrun & Hrep).
  cbv zeta in *. set (s1 := with_context T' (self c) m mem rest s) in *. rewrite Hrun, He2.
  unfold cbind at 1, on_cs at 1, cret at 1. replace (set_cs (cs s1) s1) with s1 by done.
  pose proof (Hw (cs s1) Hrep O7 O13) as Hdel. set (z := update _ a r' m x') in Hdel.
  assert (Hmap : maps (js z) !! m = Some x') by (cbn; by rewrite lookup_insert_eq).
  unfold cbind at 1. rewrite (wait_run s1 e m x z x' O7 Hdel Hmap Hsig).
  destruct (Hst (set_cs z s1)) as (s3 & Hs3 & Hrep3 & Hfr); [done|by apply trees_update| |].
  { split_and!; cbn; [done|exists (self c); by rewrite lookup_insert_eq|by rewrite lookup_insert_eq|].
    unfold d_addr. cbn. by rewrite Hpay, lookup_insert_eq. }
  destruct Hfr as [F1 F2 F3 F4 F5 F6 F7 F8].
  destruct (finish_io_run c n m status last (set_cs z s1) s3 v _ _ lm md Hs3 Hrep3 O1)
    as (s4 & Hfin & Hr4 & Hl4 & Hd4 & Hm4 & Hj4 & Hp4); [by rewrite lookup_insert_eq|done|by rewrite F1|done|done|].
  exists s4. rewrite Hfin. split_and!; [done| |done| | | |].
  - rewrite !delete_insert_id in Hr4 by done. exact Hr4.
  - rewrite Hd4, F2. done.
  - rewrite Hm4, F6. cbn. by rewrite delete_insert_eq.
  - rewrite Hj4, F7. cbn. by rewrite delete_insert_eq.
  - rewrite Hp4, F8. unfold without, d_addr. cbn. by rewrite Hpay, delete_insert_eq.
Qed.

Lemma read_complete c e n m (s : iostate) a id r x jm ts lm mem rest handle gi p ans dat buf :
  one_job s c n m a id r x jm ts lm -> calm e -> while_waiting e = deliver handle gi p ans ->
  memory s = mem :: rest -> mem <> NULL -> jms (js (cs s)) !! mem = None ->
  hdr_job_id ans = id -> command ans = NFS_READ_RSP -> command_ok ans = SSTACK_SUCCESS ->
  resp_buf ans = Some dat -> resp_len ans = InodeStore.size dat -> (length dat <= length buf)%nat ->
  InodeStore.size dat < 2 ^ 31 ->
  exists s', complete (-1, buf) c e n m (sfs_send_read_status m buf) (cret tt) s
      = Ret ((InodeStore.size dat, dat ++ drop (length dat) buf), s') /\
    JobTrees.rep (js (cs s')) jm ts /\ LockTree.rep (lt s') (delete n lm) /\ ds s' = ds s /\
    maps (js (cs s')) = delete m (maps (js (cs s))) /\ jobs (st (js (cs s'))) = delete a (jobs (st (js (cs s)))) /\
    payloads (cs s') = delete p (payloads (cs s)).
Proof.
  intros O He Hw Hmem Hn Hjm Hid Hc Hok Hb Hl Hfit Hmax. pose proof O as [O1 O2 O3 O4 O5 O6 O7 O8 O9 O10 O11 O12 O13 O14 _ _ _].
  destruct (complete_one (-1, buf) (InodeStore.size dat, dat ++ drop (length dat) buf) c e n m (sfs_send_read_status m buf) (cret tt)
    s a id r x jm ts lm mem rest p ans dat (read_done r p) (map_done x 0 (err_no x) 1) O He Hmem Hn Hjm)
    as (s' & Hrun & Hrest); [|cbn; lia|done| |].
  - intros z Hr Hm Ha. rewrite Hw. eapply deliver_read; try done; [by rewrite Hid, lookup_insert_eq|by rewrite lookup_insert_eq].
  - intros s2 Hm Hr Hrep.
    assert (Hd : data_of [mkReport id a (read_done r p) ans dat] = dat) by (unfold data_of; cbn; apply app_nil_r).
    destruct (send_read_status_run m (map_done x 0 (err_no x) 1) [mkReport id a (read_done r p) ans dat] buf s2
        (<[id := (self c, a)]> jm) (<[self c := m]> ts) Hm)
      as (s3 & Hs3 & Hr3 & Hf3); try done.
    + by apply Forall_singleton.
    + by apply Forall_singleton.
    + split_and!; apply NoDup_singleton.
    + by rewrite Hd.
    + by rewrite Hd.
    + rewrite Hd in Hs3. exists s3. split_and!; done.
  - exists s'. split; [exact Hrun|exact Hrest].
Qed.

Lemma deliver_write handle gi (z : @cstate T) p ans t a r m x jm ts :
  JobTrees.rep (js z) jm ts -> jm !! hdr_job_id ans = Some (t, a) -> ts !! t = Some m ->
  maps (js z) !! m = Some x -> lock x = false -> jobs (st (js z)) !! a = Some r ->
  length (JobId.job_status r) = JobId.MAX_SFSD_CLIENTS -> length (op_status x) = JobId.MAX_SFSD_CLIENTS ->
  command ans = NFS_WRITE_RSP -> command_ok ans = SSTACK_SUCCESS -> num_jobs_left x = 1 ->
  JobId.num_clients r = 1 -> op_status x !! 0%nat = Some JOB_STARTED ->
  deliver handle gi p ans z
  = Ret (tt, update (mkC (js z) (<[p := ans]> (payloads z))) a (read_done r p) m (map_done x 0 SSTACK_SUCCESS 2)).
Proof.
  intros Hr Hj Ht Hm Hl Ha Hs Ho Hc Hok Hleft Hn Hop.
  pose proof (in_flight_rep z p ans t a r m x jm ts Hr Hj Ht Hm Hl Ha Hs Ho) as Hf.
  unfold deliver, cbind, store_payload, cmod.
  rewrite (Completion.write_payload_run handle gi jobs_list _ _ _ _ _ _ _ Hf);
    [|rewrite Hn; by apply Nat.leb_le|done].
  cbv zeta. unfold write_marked, write_counted. rewrite Hok, Hn. cbn [Z.eqb Pos.eqb Z.ltb Z.compare andb SSTACK_SUCCESS].
  unfold read_done. cbn [JobId.num_clients with_status with_payload JobId.job_status]. rewrite Hn.
  destruct (JobId.job_status r) as [|v l]; [done|]. destruct (op_status x) as [|w l']; [done|].
  injection Hop as ->. cbn [list_insert insert]. unfold count_status. change (Z.to_nat 1) with 1%nat. cbn [take List.filter length].
  change (JOB_COMPLETE =? JOB_STARTED) with false. change (JOB_STARTED =? JOB_FAILED) with false. cbn [List.filter length].
  rewrite Hleft. reflexivity.
Qed.

Lemma write_complete c e n m last (s : iostate) a id r x jm ts lm mem rest handle gi p ans :
  one_job s c n m a id r x jm ts lm -> calm e -> while_waiting e = deliver handle gi p ans ->
  memory s = mem :: rest -> mem <> NULL -> jms (js (cs s)) !! mem = None ->
  hdr_job_id ans = id -> command ans = NFS_WRITE_RSP -> command_ok ans = SSTACK_SUCCESS ->
  0 <= file_wc ans < 2 ^ 31 -> JobId.num_clients r = 1 -> op_status x !! 0%nat = Some JOB_STARTED ->
  exists s', complete (-1) c e n m (sfs_send_write_status m) last s = (last ;;; cret (file_wc ans))%cprog s' /\
    JobTrees.rep (js (cs s')) jm ts /\ LockTree.rep (lt s') (delete n lm) /\ ds s' = ds s /\
    maps (js (cs s')) = delete m (maps (js (cs s))) /\ jobs (st (js (cs s'))) = delete a (jobs (st (js (cs s)))) /\
    payloads (cs s') = delete p (payloads (cs s)).
Proof.
  intros O He Hw Hmem Hn Hjm Hid Hc Hok Hwc Hcl Hop. pose proof O as [O1 O2 O3 O4 O5 O6 O7 O8 O9 O10 O11 O12 O13 O14 _ _ _].
  apply (complete_one (-1) (file_wc ans) c e n m (sfs_send_write_status m) last s a id r x jm ts lm mem rest p ans []
    (read_done r p) (map_done x 0 SSTACK_SUCCESS 2) O He Hmem Hn Hjm); [|cbn; lia|done|].
  - intros z Hr Hm Ha. rewrite Hw. eapply deliver_write; try done; [by rewrite Hid, lookup_insert_eq|by rewrite lookup_insert_eq].
  - intros s2 Hm Hr Hrep.
    assert (Hwr : written [mkReport id a (read_done r p) ans []] = file_wc ans) by (cbn [written d_pay]; rewrite Hok; cbn; lia).
    destruct (send_write_status_run m (map_done x 0 SSTACK_SUCCESS 2) [mkReport id a (read_done r p) ans []] s2
      (<[id := (self c, a)]> jm) (<[self c := m]> ts) Hm) as (s3 & Hs3 & Hr3 & Hf3); try done.
    + by apply Forall_singleton.
    + split_and!; apply NoDup_singleton.
    + apply Forall_singleton. cbn. lia.
    + rewrite Hwr. lia.
    + rewrite Hwr in Hs3. by exists s3.
Qed.

(** ** The hypotheses of a request that is served *)

(** The arguments are valid, the inode is free, the thread has no request of
    its own, the trees and queues are well formed and job ids are left; the
    memory of the job map, which [create_job_map] does not clear, has 0 where
    [num_jobs_left] is. *)
Record servable (s : iostate) (c : io_call) (n : Z) (lm : gmap Z LockTree.mode) (jm : gmap Z (Z * Z)) (ts : gmap Z Z)
    (q : list Z) (qs : list (list Z)) : Prop := {
  sv_path : path_ok c = true;
  sv_buf : buf_ok c = true;
  sv_offset : 0 <= io_offset c;
  sv_inode : inodestr c = Some n;
  sv_num : 0 <= n;
  sv_self : 0 <= self c;
  sv_locks : LockTree.rep (lt s) lm;
  sv_free : lm !! n = None;
  sv_ids : JobId.fresh (ids s);
  sv_cur : JobId.current_job_id (ids s) + 1 < JobId.MAX_OUTSTANDING_JOBS;
  sv_trees : JobTrees.rep (js (cs s)) jm ts;
  sv_new : jm !! (JobId.current_job_id (ids s) + 1) = None;
  sv_thread : ts !! self c = None;
  sv_queue : JobQueue.rep (st (js (cs s))) jobs_list qs;
  sv_first : qs !! 0%nat = Some q;
  sv_left : num_jobs_left (map_junk c) = 0;
  sv_op : length (op_status (map_junk c)) = JobId.MAX_SFSD_CLIENTS
}.

(** The memory for the lock, the job, the node of its tree and the node of the
    job map is new. *)
Definition new_blocks (s : iostate) (l a mem k : Z) : Prop :=
  LockTree.locks (lt s) !! l = None /\ jobs (st (js (cs s))) !! a = None /\ heap (st (js (cs s))) !! wl a = None /\
  jts (js (cs s)) !! mem = None /\ jms (js (cs s)) !! k = None.

(** A job map as [create_job_map] makes it. *)
Definition fresh_map (c : io_call) : job_map :=
  mkMap (self c) (err_no (map_junk c)) 0 (num_jobs_left (map_junk c)) false [] [] (map_num_clients (map_junk c))
    (op_status (map_junk c)) 0.

Lemma servable_ready s c n lm jm ts q qs lt' d e rest m x :
  servable s c n lm jm ts q qs -> lock x = false ->
  ready (put_map m x (opened lt' d e rest s)) m x jm ts q qs.
Proof.
  intros [] Hl. split; cbn; try done.
  - by apply rep_maps, rep_st.
  - by apply (rep_grow _ _ _ _ sv_queue0).
  - by rewrite lookup_insert_eq.
Qed.

Lemma create_job_map_run (s : iostate) c m :
  m <> NULL -> on_trees (create_job_map m (self c) (map_junk c)) s = Ret (Some m, put_map m (fresh_map c) s).
Proof. intros Hm. apply on_trees_run. unfold create_job_map. by rewrite (proj2 (Z.eqb_neq m NULL) Hm). Qed.

(** The request after its only job was issued. *)
Lemma issued_one_job s c n lm jm ts q qs lt' d e rest0 rest md m x a mem p r y T' h i :
  let s1 := put_map m x (opened lt' d e rest0 s) in
  let id := JobId.current_job_id (ids s) + 1 in
  let s2 := issued T' h i (self c) m a mem p x r y rest s1 in
  servable s c n lm jm ts q qs -> LockTree.rep lt' (<[n := md]> lm) -> m <> NULL ->
  num_jobs x = 0 -> num_jobs_left x = 0 -> job_ids x = [] -> length (op_status x) = JobId.MAX_SFSD_CLIENTS ->
  JobId.id r = id -> length (JobId.job_status r) = JobId.MAX_SFSD_CLIENTS ->
  JobTrees.rep (js (cs s2)) (<[id := (self c, a)]> jm) ts ->
  one_job s2 c n m a id r (grown x id) jm ts (<[n := md]> lm).
Proof.
  intros s1 id s2 Hsv Hl Hm H1 H2 H3 H4 Hid Hst Hr. destruct Hsv.
  pose proof (pool_cur _ _ _ (JobId.fresh_wf _ sv_ids0)) as Hcur.
  split; try done; cbn; rewrite ?H1, ?H2, ?H3, ?lookup_insert_eq, ?Hid; try done. lia.
Qed.

Lemma fill_job_status r0 id cl sfsd p :
  length (JobId.job_status r0) = JobId.MAX_SFSD_CLIENTS ->
  length (JobId.job_status (fill_job r0 id cl sfsd p)) = JobId.MAX_SFSD_CLIENTS.
Proof. intros H1. cbn [fill_job JobId.job_status]. by rewrite length_insert. Qed.

(** A request that reaches beyond the end of the extent is cut there. *)
Lemma cut_to_end ex off k : extent_end ex < off + k < 2 ^ 64 -> 0 < extent_end ex - off < 2 ^ 31 -> cut ex off k = extent_end ex - off.
Proof.
  intros Hend Hlen. unfold cut. assert (0 <= extent_end ex < 2 ^ 64) by (apply uwrap_range; lia).
  unfold uwrap at 1 2. rewrite !Z.mod_small by lia. by rewrite (proj2 (Z.ltb_lt _ _)) by lia.
Qed.

(** C16. A read that starts in the first extent and asks for more than the file
    has from there, where the size of the file is what is left of that extent,
    as for a whole small file of one extent; the memory can be allocated, what
    it leaves in [num_jobs_left] is 0, and one successful answer arrives while
    the thread waits. Then exactly one request is issued, for the bytes from
    the offset to the end of the extent; the caller gets the data of the
    answer; the lock, the job, the job map and both tree entries are gone. The
    payload of the request is not given back. *)
Theorem sfs_read_delivers fuel c e buf (s : iostate) n lm jm ts q qs l f m a p t1 t2 mem k rest ino d ex hs sfsd
    handle gi p' ans dat :
  servable s c n lm jm ts q qs ->
  memory s = l :: f :: m :: a :: p :: t1 :: t2 :: mem :: k :: rest -> NULL ∉ [l; f; m; a; p; t1; t2; mem; k] ->
  new_blocks s l a mem k ->
  InodeStore.get_inode ptr n zero_inode (ds s) = Ret ((0, ino), d) ->
  i_primary_sfsd (InodeStore.i_fixed ino) <> NULL -> infos s !! i_primary_sfsd (InodeStore.i_fixed ino) = Some sfsd ->
  0 < InodeStore.i_numextents (InodeStore.i_fixed ino) -> InodeStore.i_extent ino !! 0 = Some ex ->
  covers ex (io_offset c) = true -> InodeStore.e_path ex = Some hs -> InodeStore.SIZEOF_HANDLE <= InodeStore.size hs ->
  extent_end ex < io_offset c + io_size c < 2 ^ 64 ->
  Z.min (io_size c) (i_size (InodeStore.i_fixed ino)) = extent_end ex - io_offset c ->
  0 < extent_end ex - io_offset c < 2 ^ 31 ->
  calm e -> while_waiting e = deliver handle gi p' ans -> p' <> p ->
  hdr_job_id ans = JobId.current_job_id (ids s) + 1 -> command ans = NFS_READ_RSP -> command_ok ans = SSTACK_SUCCESS ->
  resp_buf ans = Some dat -> resp_len ans = InodeStore.size dat -> (length dat <= length buf)%nat ->
  InodeStore.size dat < 2 ^ 31 ->
  exists s', sfs_read (S (S fuel)) c e buf s = Ret (Some (InodeStore.size dat, dat ++ drop (length dat) buf), s') /\
    LockTree.rep (lt s') lm /\ JobTrees.rep (js (cs s')) jm ts /\ jobs (st (js (cs s'))) = jobs (st (js (cs s))) /\
    maps (js (cs s')) = delete m (maps (js (cs s))) /\
    exists y, payloads (cs s') !! p = Some y /\ command y = NFS_READ /\ cmd_offset y = io_offset c /\
      cmd_count y = extent_end ex - io_offset c.
Proof.
  intros Hsv Hmem Hnull (B1 & B2 & B3 & B4 & B5) Hg Hpn Hinf Hne Hex Hcov Hpath Hhs Hend Hmin Hlen He Hw Hpp
    A1 A2 A3 A4 A5 A6 A7.
  assert (l <> NULL /\ f <> NULL /\ m <> NULL /\ a <> NULL /\ p <> NULL /\ t1 <> NULL /\ t2 <> NULL /\ mem <> NULL /\ k <> NULL)
    as (N1 & N2 & N3 & N4 & N5 & N6 & N7 & N8 & N9) by (clear -Hnull; set_solver).
  pose proof Hsv as [V1 V2 V3 V4 V5 V6 V7 V8 V9 V10 V11 V12 V13 V14 V15 V16 V17].
  pose proof (cut_to_end ex (io_offset c) (io_size c) Hend Hlen) as Hcut. unfold sfs_read.
  match goal with |- context [open_inode ?fa ?no c ?lk ?body s] =>
    destruct (open_inode_start fa no c LockTree.Rd lk body n ino d s lm l f _ ltac:(done) V1 V2 V3 V4 Hg V7 V8 V5 B1 Hmem N1 N2)
      as (lt' & er & Hrun & Hl) end.
  rewrite Hrun. cbv beta zeta. rewrite (proj2 (Z.eqb_neq _ NULL) Hpn), andb_false_r.
  unfold cbind at 1, InodeStore.count.
  destruct (Z.to_nat (InodeStore.i_numextents (InodeStore.i_fixed ino))) as [|ne] eqn:Hk; [lia|].
  rewrite (read_extent_first ino (io_offset c) ne 0 None ex _ Hex Hcov). change (InodeStore.SIZEOF_EXTENT * 0) with 0.
  unfold cbind at 1. erewrite malloc_run by reflexivity.
  unfold cbind at 1. rewrite (create_job_map_run _ c m N3).
  match goal with |- context [put_map m (fresh_map c) ?t] => change t with (opened lt' d er (a :: p :: t1 :: t2 :: mem :: k :: rest) s) end.
  assert (Hmin' : (if i_size (InodeStore.i_fixed ino) <? io_size c then i_size (InodeStore.i_fixed ino) else io_size c)
    = extent_end ex - io_offset c) by (rewrite <- Hmin; case_if; lia).
  rewrite Hmin', swrap_small by lia.
  set (s1 := put_map m (fresh_map c) (opened lt' d er (a :: p :: t1 :: t2 :: mem :: k :: rest) s)).
  destruct (read_step (S fuel) c n ino 0 ex hs sfsd 0 (extent_end ex - io_offset c) s1 m (fresh_map c) jm ts q qs
    a p t1 t2 mem (k :: rest)) as (T' & h & i & Hstep & Hr2 & _); try done; [lia|by eapply servable_ready|].
  cbv zeta in Hstep, Hr2. rewrite Hcut, Z.add_0_l in Hstep.
  unfold uwrap in Hstep. rewrite Z.mod_small, Z.sub_diag in Hstep by lia.
  change (swrap 32 0) with 0 in Hstep. unfold cbind at 1. rewrite Hstep. cbn [read_loop Z.eqb cret].
  match type of Hr2 with JobTrees.rep (js (cs ?t)) _ _ => set (s2 := t) in * end.
  assert (Hone : one_job s2 c n m a (JobId.current_job_id (ids s) + 1)
    (fill_job (blank (JobId.current_job_id (ids s))) (JobId.current_job_id (ids s) + 1) 1 sfsd p)
    (grown (fresh_map c) (JobId.current_job_id (ids s) + 1)) jm ts (<[n := LockTree.Rd]> lm)).
  { apply (issued_one_job s c n lm jm ts q qs lt' d er _ _ LockTree.Rd m (fresh_map c) a mem p _ _ T' h i Hsv Hl N3); done. }
  destruct (read_complete c e n m s2 a _ _ _ jm ts _ k rest handle gi p' ans dat buf Hone)
    as (s' & Hend' & R1 & R2 & R3 & R4 & R5 & R6); try done.
  exists s'. unfold cbind. rewrite Hend'. split_and!; [done|by rewrite delete_insert_id in R2|done| | |].
  - rewrite R5. cbn. by rewrite delete_insert_id.
  - rewrite R4. cbn. by rewrite !delete_insert_eq.
  - eexists. rewrite R6. cbn. rewrite lookup_delete_ne, lookup_insert_eq by done. split_and!; [done..|]. exact Hcut.
Qed.

(** ** The first write *)

(** What [sfs_write] changes in the fixed fields. *)
Definition hard_wired (a : Z) (f : list Z) : list Z := set_primary_sfsd a (set_numclients 1 f).

Lemma hard_wired_fields a f :
  InodeStore.size f = InodeStore.INODE_FIXED ->
  InodeStore.i_numclients (hard_wired a f) = 1 /\ InodeStore.i_numextents (hard_wired a f) = InodeStore.i_numextents f /\
  InodeStore.i_num (hard_wired a f) = InodeStore.i_num f /\ i_size (hard_wired a f) = i_size f.
Proof.
  intros Hf. unfold InodeStore.INODE_FIXED in Hf. unfold hard_wired, set_primary_sfsd, set_numclients.
  assert (H1 : InodeStore.size (set32 4236 1 f) = 4272) by (rewrite size_set32; lia).
  unfold InodeStore.i_numclients, InodeStore.i_numextents, InodeStore.i_num, i_size, get64.
  rewrite !sub_set64_ne by lia. rewrite (sub_set32_ne 4248), (sub_set32_ne 4256), (sub_set32_ne 4200) by lia. split_and!; try done.
  change (InodeStore.le (InodeStore.sub 4236 4 (set32 4236 1 f))) with (get32 4236 (set32 4236 1 f)).
  rewrite get32_set32 by lia. reflexivity.
Qed.

Lemma start_client_run (s : iostate) m x :
  maps (js (cs s)) !! m = Some x -> (0 < length (op_status x))%nat ->
  start_clients 1 0 m s = Ret (tt, put_map m (mkMap (thread_id x) (err_no x) (num_jobs x) (num_jobs_left x) (lock x)
    (job_ids x) (map_job_status x) (map_num_clients x) (<[0%nat := JOB_STARTED]> (op_status x)) (signals x)) s).
Proof.
  intros Hm Hl. cbn [start_clients]. unfold cbind at 1. rewrite (load_map_run s m x Hm).
  rewrite (proj2 (Nat.ltb_lt 0 _) Hl). unfold cbind. by erewrite on_trees_run by reflexivity.
Qed.

Lemma set_sfsds_run ino (s : iostate) w rest : memory s = w :: rest -> w <> NULL ->
  set_sfsds ino s = Ret (InodeStore.mkInode (hard_wired w (InodeStore.i_fixed ino)) (InodeStore.i_xattr ino) (InodeStore.i_erasure ino) (InodeStore.i_extent ino) (Some info_bytes),
    mkIo (lt s) (ds s) (ids s) (cs s) (<[w := accept_sfsd]> (infos s)) rest).
Proof. intros Hm Hw. unfold set_sfsds, cbind at 1. rewrite (malloc_run s w rest Hm), (proj2 (Z.eqb_neq w NULL) Hw). done. Qed.

(** The loop of a write without an extent issues one request, for all bytes. *)
Lemma write_one_pass fuel c n ino data (s : iostate) lm jm ts q qs lt' d er m x a p b t1 t2 mem rest :
  let s1 := put_map m x (opened lt' d er (a :: p :: b :: t1 :: t2 :: mem :: rest) s) in
  let id := JobId.current_job_id (ids s) + 1 in
  let r := fill_job (blank (JobId.current_job_id (ids s))) id (InodeStore.i_numclients (InodeStore.i_fixed ino)) accept_sfsd p in
  servable s c n lm jm ts q qs -> LockTree.rep lt' (<[n := LockTree.Wr]> lm) -> m <> NULL -> b <> NULL ->
  lock x = false -> num_jobs x = 0 -> num_jobs_left x = 0 -> job_ids x = [] -> length (op_status x) = JobId.MAX_SFSD_CLIENTS ->
  unused s1 a p t1 t2 mem -> 0 <= self c -> 0 < io_size c < 2 ^ 31 ->
  exists T' h i, let s2 := issued T' h i (self c) m a mem p x r (write_request c ino data id a) rest s1 in
    write_loop (S (S fuel)) c n m ino data None 0 (io_size c) s1 = Ret (Some Issued, s2) /\
    one_job s2 c n m a id r (grown x id) jm ts (<[n := LockTree.Wr]> lm).
Proof.
  intros s1 id r Hsv Hl Hm Hb X1 X2 X3 X4 X5 Hu Hself Hsize.
  destruct (write_step (S fuel) c n ino data (io_size c) s1 m x jm ts q qs a p b t1 t2 mem rest)
    as (T' & h & i & Hstep & Hr2 & _); try done; [lia|by apply (servable_ready s c n lm)|].
  exists T', h, i. cbv zeta in Hstep, Hr2 |- *. unfold uwrap in Hstep. rewrite Z.mod_small, Z.sub_diag in Hstep by lia.
  split; [exact Hstep|]. apply (issued_one_job s c n lm jm ts q qs lt' d er _ _ LockTree.Wr m x a mem p _ _ T' h i Hsv Hl Hm); try done.
Qed.

(** C18. The first write to a file, which has no extents and the size 0, where the
    memory can be allocated and what it leaves in [num_jobs_left] is 0, the
    database takes the inode with the hard-wired daemon, and one successful
    answer arrives while the thread waits. Then exactly one request is issued,
    for all bytes of the caller; the result is the number of bytes the storage
    daemon says it has written; the lock, the job, the job map and both tree
    entries are gone. *)
Theorem first_write_delivers fuel c e data (s : iostate) n lm jm ts q qs l f w m a p b t1 t2 mem k rest ino d d1 y d2
    handle gi p' ans :
  let ino' := InodeStore.mkInode (hard_wired w (InodeStore.i_fixed ino)) (InodeStore.i_xattr ino)
                (InodeStore.i_erasure ino) (InodeStore.i_extent ino) (Some info_bytes) in
  servable s c n lm jm ts q qs ->
  memory s = l :: f :: w :: m :: a :: p :: b :: t1 :: t2 :: mem :: k :: rest ->
  NULL ∉ [l; f; w; m; a; p; b; t1; t2; mem; k] -> new_blocks s l a mem k ->
  InodeStore.get_inode ptr n zero_inode (ds s) = Ret ((0, ino), d) ->
  InodeStore.size (InodeStore.i_fixed ino) = InodeStore.INODE_FIXED ->
  InodeStore.i_numextents (InodeStore.i_fixed ino) = 0 ->
  InodeStore.put_inode moves ino' after 1 d = Ret (0, d1) ->
  InodeStore.get_inode ptr n zero_inode d1 = Ret (y, d2) ->
  0 < io_size c < 2 ^ 31 ->
  calm e -> while_waiting e = deliver handle gi p' ans -> p' <> p ->
  hdr_job_id ans = JobId.current_job_id (ids s) + 1 -> command ans = NFS_WRITE_RSP -> command_ok ans = SSTACK_SUCCESS ->
  0 <= file_wc ans < 2 ^ 31 ->
  exists s', sfs_write (S (S fuel)) c e (Some 0) data s = Ret (Some (file_wc ans), s') /\
    ds s' = d2 /\ LockTree.rep (lt s') lm /\ JobTrees.rep (js (cs s')) jm ts /\
    jobs (st (js (cs s'))) = jobs (st (js (cs s))) /\ maps (js (cs s')) = delete m (maps (js (cs s))) /\
    exists x, payloads (cs s') !! p = Some x /\ command x = NFS_WRITE /\ cmd_offset x = io_offset c /\
      cmd_count x = io_size c /\ write_buf x = Some data.
Proof.
  intros ino' Hsv Hmem Hnull (B1 & B2 & B3 & B4 & B5) Hg Hfix Hne Hput Hget Hsize He Hw Hpp A1 A2 A3 A4.
  assert (l <> NULL /\ f <> NULL /\ w <> NULL /\ m <> NULL /\ a <> NULL /\ p <> NULL /\ b <> NULL /\ t1 <> NULL /\ t2 <> NULL /\
    mem <> NULL /\ k <> NULL) as (N1 & N2 & N0 & N3 & N4 & N5 & Nb & N6 & N7 & N8 & N9) by (clear -Hnull; set_solver).
  pose proof Hsv as [V1 V2 V3 V4 V5 V6 V7 V8 V9 V10 V11 V12 V13 V14 V15 V16 V17].
  destruct (hard_wired_fields w _ Hfix) as (F1 & F2 & F3 & _). unfold sfs_write.
  match goal with |- context [open_inode ?fa ?no c ?lk ?body s] =>
    destruct (open_inode_start fa no c LockTree.Wr lk body n ino d s lm l f _ ltac:(done) V1 V2 V3 V4 Hg V7 V8 V5 B1 Hmem N1 N2)
      as (lt' & er & Hrun & Hl) end.
  rewrite Hrun. cbv beta. change (0 <? 0) with false. cbn [andb].
  unfold cbind at 1. erewrite set_sfsds_run by done. fold ino'. unfold cbind at 1, on_db at 1. cbn [ds set_memory opened]. rewrite Hput. change (0 =? 0) with true. cbn [negb]. cbv zeta.
  cbn [InodeStore.i_fixed ino']. rewrite F1, F2, Hne. change (InodeStore.count 0) with 0%nat. change (InodeStore.count 1) with 1%nat.
  unfold cbind at 1. cbn [write_extent cret].
  unfold cbind at 1. erewrite malloc_run by reflexivity.
  unfold cbind at 1. rewrite (create_job_map_run _ c m N3).
  unfold cbind at 1. rewrite (start_client_run _ m (fresh_map c)) by (apply put_map_same || (cbn; rewrite V17; unfold JobId.MAX_SFSD_CLIENTS; lia)).
  rewrite put_map_put. cbn [thread_id err_no num_jobs num_jobs_left lock job_ids map_job_status map_num_clients op_status signals fresh_map].
  match goal with |- context [put_map m ?x0 ?t] => set (x := x0) in *;
    change t with (opened lt' d1 er (a :: p :: b :: t1 :: t2 :: mem :: k :: rest)
      (mkIo (lt s) (ds s) (ids s) (cs s) (<[w := accept_sfsd]> (infos s)) (memory s))) end.
  set (s0 := mkIo (lt s) (ds s) (ids s) (cs s) (<[w := accept_sfsd]> (infos s)) (memory s)).
  assert (Hsv0 : servable s0 c n lm jm ts q qs) by (by split).
  set (s1 := put_map m x (opened lt' d1 er (a :: p :: b :: t1 :: t2 :: mem :: k :: rest) s0)).
  rewrite swrap_small by lia.
  destruct (write_one_pass fuel c n ino' data s0 lm jm ts q qs lt' d1 er m x a p b t1 t2 mem (k :: rest)) as (T' & h & i & Hstep & Hone); try done.
  { unfold x. cbn. by rewrite length_insert. }
  cbv zeta in Hstep, Hone. fold s1 in Hstep, Hone. unfold cbind at 1. rewrite Hstep.
  match type of Hone with one_job ?t _ _ _ _ _ _ _ _ _ _ => set (s2 := t) in * end.
  match goal with |- context [complete _ _ _ _ _ _ ?la] =>
    destruct (write_complete c e n m la s2 a _ _ _ jm ts _ k rest handle gi p' ans Hone)
      as (s' & Hend' & R1 & R2 & R3 & R4 & R5 & R6); try done end.
  { unfold x. cbn [grown op_status]. apply list_lookup_insert_eq. rewrite V17. unfold JobId.MAX_SFSD_CLIENTS. lia. }
  unfold cbind at 1. rewrite Hend'. unfold cbind, on_db. rewrite R3. cbn [ds s2 issued registered with_pay with_job with_ids set_js set_cs s1 put_map opened].
  rewrite Hget. eexists. split; [reflexivity|]. cbn [ds lt cs]. split_and!; [done|by rewrite delete_insert_id in R2|done| | |].
  - rewrite R5. cbn. by rewrite delete_insert_id.
  - rewrite R4. cbn. by rewrite !delete_insert_eq.
  - eexists. rewrite R6. cbn. rewrite lookup_delete_ne, lookup_insert_eq by done. split_and!; done.
Qed.

(** * Answers that come too early *)

(** An answer to a job whose job map is not in the tree yet is dropped. *)
Lemma deliver_unknown handle gi (z : @cstate T) p ans t a jm ts :
  JobTrees.rep (js z) jm ts -> jm !! hdr_job_id ans = Some (t, a) -> ts !! t = None -> command ans = NFS_READ_RSP ->
  deliver handle gi p ans z = Ret (tt, mkC (js z) (<[p := ans]> (payloads z))).
Proof.
  intros Hr Hj Ht Hc. unfold deliver, cbind, store_payload, cmod, sfs_process_payload, cbind, load_payload.
  cbn [payloads js]. rewrite lookup_insert_eq, Hc. cbn [Z.eqb Pos.eqb NFS_READ_RSP].
  pose proof (rep_jobid _ _ _ Hr (hdr_job_id ans)) as G. rewrite Hj in G. destruct G as (b & Hb1 & Hb2).
  pose proof (rep_jobmap _ _ _ Hr t) as G. rewrite Ht in G.
  unfold sfs_process_read_response, read_lookup, cbind, load_payload, find_jt, find_jm, lift, load_jt, cret. cbn [payloads js].
  rewrite lookup_insert_eq, (kt_search_map (jobid_tree (js z)) _ (rep_jobid_ok _ _ _ Hr)), Hb1. cbn [js]. rewrite Hb2.
  cbn [js jt_thread_id]. by rewrite (kt_search_map (jobmap_tree (js z)) _ (rep_jobmap_ok _ _ _ Hr)), G.
Qed.

(** The wait does not look whether there is anything left to wait for. *)
Lemma wait_for_nothing (s : iostate) e m x :
  maps (js (cs s)) !! m = Some x -> while_waiting e = cret tt -> spurious e = false ->
  sfs_wait_for_completion e m s = Fault Deadlock.
Proof.
  intros Hm Hw Hsp. unfold sfs_wait_for_completion, cbind at 1. rewrite (load_map_run s m x Hm), Hw, Hsp.
  unfold cbind at 1, on_cs at 1, cret. replace (set_cs (cs s) s) with s by (by destruct s).
  unfold cbind. rewrite (load_map_run s m x Hm). by rewrite Nat.ltb_irrefl.
Qed.

(** C37. The answer to a read that is processed before the thread waits is lost:
    before the job map is in its tree the answer is dropped, and after that the
    signal finds nobody waiting. In both cases the thread waits for ever, and
    the inode stays locked. *)
Theorem early_answer_lost c e n m status last (s : iostate) a id r x jm ts lm mem rest handle gi p ans (fail : Z * list Z) :
  one_job s c n m a id r x jm ts lm ->
  memory s = mem :: rest -> mem <> NULL -> jms (js (cs s)) !! mem = None ->
  hdr_job_id ans = id -> command ans = NFS_READ_RSP -> command_ok ans = SSTACK_SUCCESS ->
  (while_issuing e = deliver handle gi p ans /\ before_wait e = cret tt \/
   while_issuing e = cret tt /\ before_wait e = deliver handle gi p ans) ->
  while_waiting e = cret tt -> spurious e = false ->
  complete fail c e n m status last s = Fault Deadlock.
Proof.
  intros O Hmem Hn Hjm Hid Hc Hok Henv Hw Hsp. pose proof O as [O1 O2 O3 O4 O5 O6 O7 O8 O9 O10 O11 O12 O13 O14 O15 O16 _].
  assert (Hj : (<[id := (self c, a)]> jm) !! hdr_job_id ans = Some (self c, a)) by (by rewrite Hid, lookup_insert_eq).
  destruct Henv as [[He1 He2]|[He1 He2]].
  - pose proof (deliver_unknown handle gi (cs s) p ans _ _ _ _ O4 Hj O6 Hc) as Hdel.
    set (z := mkC _ _) in Hdel.
    destruct (complete_start fail c (mkEnv (cret tt) (before_wait e) (while_waiting e) (spurious e)) n m status last (set_cs z s)
      _ _ mem rest eq_refl Hmem Hn Hjm O3 O1 O4 O6) as (T' & Hrun & Hrep). cbv zeta in *.
    unfold complete in Hrun |- *. rewrite He1. cbn [while_issuing before_wait] in Hrun.
    unfold cbind at 1, on_cs at 1 in Hrun. cbn [cret set_cs cs] in Hrun. unfold cbind at 1, on_cs at 1. rewrite Hdel.
    change (sfs_wait_for_completion (mkEnv (cret tt) (before_wait e) (while_waiting e) (spurious e)))
      with (sfs_wait_for_completion e) in Hrun.
    unfold set_cs in Hrun |- *. cbn [lt ds ids infos memory cs] in Hrun. rewrite Hrun, He2.
    unfold cbind at 1, on_cs at 1, cret at 1. unfold cbind. rewrite (wait_for_nothing _ e m x); [done|exact O7|done|done].
  - destruct (complete_start fail c e n m status last s _ _ mem rest He1 Hmem Hn Hjm O3 O1 O4 O6) as (T' & Hrun & Hrep).
    cbv zeta in *. set (s1 := with_context T' (self c) m mem rest s) in *. rewrite Hrun, He2.
    unfold cbind at 1, on_cs at 1.
    rewrite (deliver_read handle gi (cs s1) p ans (self c) a r m x _ _ Hrep Hj); try done; [|by rewrite lookup_insert_eq].
    unfold cbind. rewrite (wait_for_nothing _ e m (map_done x 0 (err_no x) 1)); [done| |done|done].
    cbn. by rewrite lookup_insert_eq.
Qed.

(** C40. A read of bytes that lie inside one extent never gives the caller any:
    every pass of the loop asks for 0 bytes, so the loop ends only when
    something fails. *)
Theorem inner_read_fails fuel c e buf num ino d ex (s s' : iostate) r :
  inodestr c = Some num -> InodeStore.get_inode ptr num zero_inode (ds s) = Ret ((0, ino), d) ->
  0 < InodeStore.i_numextents (InodeStore.i_fixed ino) ->
  InodeStore.i_extent ino !! 0 = Some ex -> covers ex (io_offset c) = true ->
  0 < io_size c < 2 ^ 31 -> io_size c <= i_size (InodeStore.i_fixed ino) ->
  0 <= io_offset c -> io_offset c + io_size c <= extent_end ex ->
  sfs_read fuel c e buf s = Ret (Some r, s') -> r = (-1, buf) \/ r = (- ENOMEM, buf).
Proof.
  intros Hi Hg Hn He Hc Hs1 Hs2 Ho Hend Hr.
  destruct (sfs_read_issued fuel c e buf num ino d ex s s' r Hi Hg Hn He Hc Hr) as [->|[->|[j Hj]]]; [by left|by right|].
  exfalso. assert (Hx : extent_end ex < 2 ^ 64) by (apply uwrap_range; lia).
  unfold cut in Hj. unfold uwrap in Hj. rewrite (Z.mod_small (io_offset c + io_size c)) in Hj by lia.
  rewrite (proj2 (Z.ltb_ge (extent_end ex) _)) in Hj by lia. rewrite Z.mul_0_l, Z.min_l, !Z.mod_small in Hj by lia. lia.
Qed.

(** A read that reports data has issued a triangular number of requests for
    the same bytes: the loop never moves on to the next extent and subtracts
    all bytes issued so far in every pass. *)
Theorem read_repeats_extent fuel c e buf num ino d ex (s s' : iostate) r b :
  inodestr c = Some num -> InodeStore.get_inode ptr num zero_inode (ds s) = Ret ((0, ino), d) ->
  0 < InodeStore.i_numextents (InodeStore.i_fixed ino) ->
  InodeStore.i_extent ino !! 0 = Some ex -> covers ex (io_offset c) = true ->
  sfs_read fuel c e buf s = Ret (Some (r, b), s') -> r <> -1 -> r <> - ENOMEM ->
  exists j, uwrap 32 (Z.min (io_size c) (i_size (InodeStore.i_fixed ino)))
            = uwrap 32 (cut ex (io_offset c) (io_size c) * triangle j).
Proof.
  intros Hi Hg Hn He Hc Hr H1 H2.
  destruct (sfs_read_issued fuel c e buf num ino d ex s s' (r, b) Hi Hg Hn He Hc Hr) as [[= -> _]|[[= -> _]|Hj]]; done.
Qed.

(** * The lock of the inode *)

(** A program that leaves the locks alone, whatever else it does. *)
Definition lock_free {A} (c : cprog iostate A) : Prop := forall s a s', c s = Ret (a, s') -> lt s' = lt s.

Lemma lf_ret {A} (a : A) : lock_free (cret a).
Proof. by intros s b s' [= <- <-]. Qed.
Lemma lf_bind {A B} (c : cprog iostate A) (k : A -> cprog iostate B) :
  lock_free c -> (forall a, lock_free (k a)) -> lock_free (cbind c k).
Proof. intros Hc Hk s b s' Hr. apply cbind_Ret in Hr as (a & t & H1 & H2). rewrite (Hk a _ _ _ H2). by eapply Hc. Qed.
Lemma lf_cs {A} (c : cprog (@cstate T) A) : lock_free (on_cs c).
Proof. intros s a s'. unfold on_cs. destruct (c _) as [[]|]; by intros [= _ <-]. Qed.
Lemma lf_trees {A} (c : cprog (@JobTrees.state T) A) : lock_free (on_trees c).
Proof. apply lf_cs. Qed.
Lemma lf_ids {A} (c : cprog JobId.state A) : lock_free (on_ids c).
Proof. intros s a s'. unfold on_ids. destruct (c _) as [[]|]; by intros [= _ <-]. Qed.
Lemma lf_db {A} (c : cprog (@InodeStore.db_state D) A) : lock_free (on_db c).
Proof. intros s a s'. unfold on_db. destruct (c _) as [[]|]; by intros [= _ <-]. Qed.
Lemma lf_malloc : lock_free malloc.
Proof. intros s a s'. unfold malloc. destruct (memory s); by intros [= _ <-]. Qed.
Lemma lf_errno e : lock_free (put_errno e).
Proof. by intros s a s' [= _ <-]. Qed.
Lemma lf_get : lock_free cget.
Proof. by intros s a s' [= _ <-]. Qed.
Lemma lf_fault {A} f : lock_free (cfault f : cprog iostate A).
Proof. done. Qed.
Lemma lf_expect {A} f (o : option A) : lock_free (cexpect f o).
Proof. destruct o; [apply lf_ret|apply lf_fault]. Qed.
Lemma lf_read_at off len b : lock_free (InodeStore.read_at off len b).
Proof. unfold InodeStore.read_at. destruct (_ && _); [apply lf_ret|apply lf_fault]. Qed.
Lemma lf_write_at off x b : lock_free (InodeStore.write_at off x b).
Proof. unfold InodeStore.write_at. destruct (_ && _); [apply lf_ret|apply lf_fault]. Qed.

Create HintDb lock_free.
#[local] Hint Resolve lf_ret lf_bind lf_cs lf_trees lf_ids lf_db lf_malloc lf_errno lf_get lf_fault lf_expect lf_read_at lf_write_at
  : lock_free.
#[local] Hint Extern 2 (lock_free (match ?x with _ => _ end)) => (destruct x) : lock_free.
#[local] Hint Extern 2 (lock_free (if ?x then _ else _)) => (destruct x) : lock_free.

Lemma lf_read_ptr p len : lock_free (InodeStore.read_ptr p len).
Proof. unfold InodeStore.read_ptr. eauto with lock_free. Qed.
#[local] Hint Resolve lf_read_ptr : lock_free.

Lemma lf_free_payload p : lock_free (sstack_free_payload p).
Proof. unfold sstack_free_payload, delete_payload. eauto with lock_free. Qed.
Lemma lf_create_payload cmd : lock_free (sstack_create_payload cmd).
Proof. unfold sstack_create_payload, delete_payload. eauto 20 with lock_free. Qed.
Lemma lf_new_job : lock_free new_job.
Proof. unfold new_job. eauto 20 with lock_free. Qed.
Lemma lf_free_job a : lock_free (free_job a).
Proof. apply lf_trees. Qed.
Lemma lf_load_extent ino ext : lock_free (load_extent ino ext).
Proof. unfold load_extent. eauto with lock_free. Qed.
Lemma lf_wait e m : lock_free (sfs_wait_for_completion e m).
Proof. unfold sfs_wait_for_completion. eauto 20 with lock_free. Qed.
Lemma lf_set_sfsds ino : lock_free (set_sfsds ino).
Proof.
  unfold set_sfsds. apply lf_bind; [apply lf_malloc|]. intros a. destruct (a =? NULL); [apply lf_fault|].
  apply lf_bind; [|eauto with lock_free]. by intros s b s' [= _ <-].
Qed.
#[local] Hint Resolve lf_free_payload lf_create_payload lf_new_job lf_free_job lf_load_extent lf_wait lf_set_sfsds : lock_free.

Lemma lf_read_extent ino offset n i ext : lock_free (read_extent ino offset n i ext).
Proof. revert i ext. induction n; intros; cbn [read_extent]; eauto 10 with lock_free. Qed.
Lemma lf_write_extent ino offset n ext : lock_free (write_extent ino offset n ext).
Proof. revert ext. induction n; intros; cbn [write_extent]; eauto 10 with lock_free. Qed.
Lemma lf_start_clients k i m : lock_free (start_clients k i m).
Proof. revert i. induction k; intros; cbn [start_clients]; eauto 10 with lock_free. Qed.
Lemma lf_read_status m buf : lock_free (sfs_send_read_status m buf).
Proof.
  assert (forall k i jids pos num b, lock_free (read_jobs k i jids pos num b)).
  { induction k; intros; cbn [read_jobs]; [apply lf_ret|]. repeat (apply lf_bind; [eauto with lock_free|intros]). apply IHk. }
  unfold sfs_send_read_status. eauto 10 with lock_free.
Qed.
Lemma lf_write_status m : lock_free (sfs_send_write_status m).
Proof.
  assert (forall k i jids num, lock_free (write_jobs k i jids num)).
  { induction k; intros; cbn [write_jobs]; [apply lf_ret|]. repeat (apply lf_bind; [eauto with lock_free|intros]). apply IHk. }
  unfold sfs_send_write_status. eauto 10 with lock_free.
Qed.
#[local] Hint Resolve lf_read_extent lf_write_extent lf_start_clients lf_read_status lf_write_status : lock_free.

(** A program that gives the lock of inode [n] back. *)
Definition releases {A} (n : Z) (c : cprog iostate A) : Prop :=
  forall s lm a s', LockTree.rep (lt s) lm -> is_Some (lm !! n) -> c s = Ret (a, s') -> LockTree.rep (lt s') (delete n lm).

Lemma rl_unlock {A} n (k : cprog iostate A) :
  0 <= n -> lock_free k -> releases n (on_locks (LockTree.sfs_unlock n) ;;; k)%cprog.
Proof.
  intros Hn Hk s lm a s' Hr [md Hm] Hrun. destruct (unlock_io_run s n lm md Hr Hn Hm) as (l & Hu & Hl).
  unfold cbind in Hrun. rewrite Hu in Hrun. by rewrite (Hk _ _ _ Hrun).
Qed.
Lemma rl_bind {A B} n (c : cprog iostate A) (k : A -> cprog iostate B) :
  lock_free c -> (forall a, releases n (k a)) -> releases n (cbind c k).
Proof.
  intros Hc Hk s lm b s' Hr Hm Hrun. apply cbind_Ret in Hrun as (a & t & H1 & H2).
  eapply Hk; [|done|done]. by rewrite (Hc _ _ _ H1).
Qed.

Lemma rl_bail_out n m : 0 <= n -> releases n (bail_out n m).
Proof. intros Hn. unfold bail_out. apply rl_bind; [eauto with lock_free|]. intros _. by apply rl_unlock; eauto with lock_free. Qed.

(** Issuing jobs keeps the lock; giving up releases it. *)
Definition loop_locks {A} (n : Z) (failed : A -> Prop) (c : cprog iostate A) : Prop :=
  forall s lm a s', LockTree.rep (lt s) lm -> is_Some (lm !! n) -> c s = Ret (a, s') ->
    (failed a /\ LockTree.rep (lt s') (delete n lm)) \/ (~ failed a /\ lt s' = lt s).

Lemma ll_bind {A B} n failed (c : cprog iostate A) (k : A -> cprog iostate B) :
  lock_free c -> (forall a, loop_locks n failed (k a)) -> loop_locks n failed (cbind c k).
Proof.
  intros Hc Hk s lm b s' Hr Hm Hrun. apply cbind_Ret in Hrun as (a & t & H1 & H2).
  rewrite <- (Hc _ _ _ H1) in *. by eapply Hk.
Qed.
Lemma ll_release {A} n failed (c : cprog iostate A) :
  releases n c -> (forall s a s', c s = Ret (a, s') -> failed a) -> loop_locks n failed c.
Proof. intros Hc Hf s lm a s' Hr Hm Hrun. left. split; [by eapply Hf|by eapply Hc]. Qed.
Lemma ll_keep {A} n failed (c : cprog iostate A) :
  lock_free c -> (forall s a s', c s = Ret (a, s') -> ~ failed a) -> loop_locks n failed c.
Proof. intros Hc Hf s lm a s' Hr Hm Hrun. right. split; [by eapply Hf|by eapply Hc]. Qed.

Lemma register_locks n thread m job : 0 <= n -> loop_locks n (eq Failed) (register_job n thread m job).
Proof.
  intros Hn.
  assert (Hg : loop_locks n (eq Failed) (bail_out n m)).
  { apply ll_release; [by apply rl_bail_out|]. intros s a s' Hr. by rewrite (bail_out_failed _ _ _ _ _ Hr). }
  unfold register_job. repeat first
    [ exact Hg
    | apply ll_bind; [solve [eauto with lock_free]|intros ?]
    | match goal with |- loop_locks _ _ (if ?b then _ else _) => destruct b end
    | apply ll_keep; [apply lf_ret|intros s ? s' [= <- _]; discriminate] ].
Qed.

Definition failed (o : option loop_end) : Prop := o = Some Failed.

Lemma ll_next {A B} n (f1 : A -> Prop) (f2 : B -> Prop) (c : cprog iostate A) (k : A -> cprog iostate B) :
  loop_locks n f1 c ->
  (forall a, f1 a -> lock_free (k a) /\ forall s b s', k a s = Ret (b, s') -> f2 b) ->
  (forall a, ~ f1 a -> loop_locks n f2 (k a)) -> loop_locks n f2 (cbind c k).
Proof.
  intros Hc Hf Hk s lm b s' Hr Hm Hrun. apply cbind_Ret in Hrun as (a & t & H1 & H2).
  destruct (Hc _ _ _ _ Hr Hm H1) as [[Ha Hrep]|[Ha Hlt]].
  - destruct (Hf a Ha) as [H3 H4]. left. split; [by eapply H4|]. by rewrite (H3 _ _ _ H2).
  - rewrite <- Hlt in *. by eapply Hk.
Qed.

Lemma bail_out_locks n m : 0 <= n -> loop_locks n failed (let! r := bail_out n m in cret (Some r))%cprog.
Proof.
  intros Hn. apply (ll_next n (eq Failed)); [|intros r <-|intros r Hr].
  - apply ll_release; [by apply rl_bail_out|]. intros s a s' Hr. by rewrite (bail_out_failed _ _ _ _ _ Hr).
  - split; [apply lf_ret|by intros s b s' [= <- _]].
  - apply ll_keep; [apply lf_ret|]. intros s b s' [= <- _]. unfold failed. congruence.
Qed.

Ltac loop_locks_tac IH :=
  repeat first
    [ apply IH
    | apply bail_out_locks; done
    | apply ll_bind; [solve [eauto 10 with lock_free]|intros ?]
    | match goal with
      | |- loop_locks _ _ (if ?b then _ else _) => destruct b
      | |- loop_locks _ _ (match ?o with Some _ => _ | None => _ end) => destruct o
      | |- loop_locks _ _ (let! _ := register_job _ _ _ _ in _)%cprog =>
          apply (ll_next _ (eq Failed)); [by apply register_locks|intros ? <-|intros [] ?]
      | |- lock_free (cret _) /\ _ => split; [apply lf_ret|by intros ? ? ? [= <- _]]
      end
    | apply ll_keep; [solve [eauto with lock_free]|first [done|intros ? ? ? [= <- _]; discriminate]]
    | done ].

Lemma read_loop_locks fuel c n m ino ext b k : 0 <= n -> loop_locks n failed (read_loop fuel c n m ino ext b k).
Proof.
  intros Hn. revert b k. induction fuel as [|fuel IH]; intros b k; cbn [read_loop]; cbv zeta; loop_locks_tac IH.
Qed.

Lemma write_loop_locks fuel c n m ino data ext b k : 0 <= n -> loop_locks n failed (write_loop fuel c n m ino data ext b k).
Proof.
  intros Hn. revert ext b k. induction fuel as [|fuel IH]; intros ext b k; cbn [write_loop]; cbv zeta; loop_locks_tac IH.
Qed.

Lemma rl_complete {A} (fail : A) c e n m status last :
  0 <= n -> lock_free status -> lock_free last -> releases n (complete fail c e n m status last).
Proof.
  intros Hn Hs Hl. unfold complete, finish_io.
  repeat first
    [ apply rl_unlock; [done|solve [eauto with lock_free]]
    | apply rl_bind; [solve [eauto with lock_free]|intros ?]
    | match goal with |- releases _ (if ?b then _ else _) => destruct b end ].
Qed.

(** Taking a lock that is free, or failing to. *)
Lemma take_io_run w (s : iostate) lm mem n :
  LockTree.rep (lt s) lm -> 0 <= n -> lm !! n = None -> (mem = 0 \/ LockTree.locks (lt s) !! mem = None) ->
  exists r s1, on_locks (LockTree.run_lop (LockTree.take_op w mem n)) s = Ret (r, s1) /\
    LockTree.rep (lt s1) (if r =? -1 then lm else <[n := w]> lm).
Proof.
  intros Hr Hn Hm Hmem.
  destruct (LockTree.take_new _ _ mem n w (rep_errno _ _ (io_errno s) Hr) Hn Hm Hmem) as (l & Hrun & _ & Hl & _).
  unfold on_locks. rewrite Hrun. do 2 eexists. split; [reflexivity|]. cbn. by destruct (mem =? 0).
Qed.

(** What a request may do to the locks: the lock is free and its node gets
    new memory. *)
Definition may_lock (s : iostate) (c : io_call) (lm : gmap Z LockTree.mode) : Prop :=
  LockTree.rep (lt s) lm /\ (forall n, inodestr c = Some n -> 0 <= n /\ lm !! n = None) /\
  (forall a l, memory s = a :: l -> a = NULL \/ LockTree.locks (lt s) !! a = None).

Lemma open_inode_locks {A} (fail nomem : A) c w lock body (s : iostate) lm r s' :
  (forall mem i, lock mem i = LockTree.run_lop (LockTree.take_op w mem i)) -> may_lock s c lm ->
  open_inode fail nomem c lock body s = Ret (r, s') ->
  LockTree.rep (lt s') lm \/ exists n, inodestr c = Some n /\ 0 <= n /\ lm !! n = None /\
    ((r = nomem /\ LockTree.rep (lt s') (<[n := w]> lm)) \/
     exists ino t, LockTree.rep (lt t) (<[n := w]> lm) /\ body n ino t = Ret (r, s')).
Proof.
  intros Hlock (Hr & Hi & Hmem) Hrun. unfold open_inode in Hrun.
  case_if_in Hrun. { inv_bind Hrun. injection E as _ <-. injection Hrun as _ <-. by left. }
  destruct (inodestr c) as [n|] eqn:Hn. 2: { inv_bind Hrun. injection E as _ <-. injection Hrun as _ <-. by left. }
  destruct (Hi n eq_refl) as [Hn0 Hfree]. inv_bind Hrun. inv_bind Hrun.
  assert (Hlt : lt t = lt s) by (by eapply lf_malloc).
  assert (Ha : a = NULL \/ LockTree.locks (lt s) !! a = None).
  { unfold malloc in E. destruct (memory s) as [|b l] eqn:Hm; [left; by injection E|]. injection E as <- _. by eapply Hmem. }
  rewrite Hlock in E0. rewrite <- Hlt in Hr, Ha.
  destruct (take_io_run w t lm a n Hr Hn0 Hfree Ha) as (r0 & s1 & Htake & Hs1). rewrite Htake in E0. injection E0 as <- <-.
  destruct (r0 =? -1). { inv_bind Hrun. injection E0 as _ <-. injection Hrun as _ <-. by left. }
  inv_bind Hrun. rewrite <- (lf_malloc _ _ _ E0) in Hs1.
  case_if_in Hrun. { injection Hrun as <- <-. right. exists n. split_and!; [done..|]. left. done. }
  inv_bind Hrun. rewrite <- (lf_db _ _ _ _ E1) in Hs1. case_if_in Hrun.
  - right. exists n. split_and!; [done..|]. right. eauto.
  - left. rewrite <- (delete_insert_id lm n w Hfree).
    exact (rl_bind n _ _ (lf_errno _) (fun _ => rl_unlock n _ Hn0 (lf_ret _)) _ _ _ _ Hs1 ltac:(by rewrite lookup_insert_eq) Hrun).
Qed.

(** C17. A read releases the lock it took on every way out but one: when no inode
    can be allocated it returns -ENOMEM with the inode locked. This holds
    whatever the other threads do. *)
Theorem sfs_read_locks fuel c e buf (s s' : iostate) lm r b :
  may_lock s c lm -> sfs_read fuel c e buf s = Ret (Some (r, b), s') ->
  LockTree.rep (lt s') lm \/
  r = - ENOMEM /\ exists n, inodestr c = Some n /\ LockTree.rep (lt s') (<[n := LockTree.Rd]> lm).
Proof.
  intros Hml Hr. unfold sfs_read in Hr.
  destruct (open_inode_locks _ _ _ LockTree.Rd _ _ _ _ _ _ ltac:(done) Hml Hr) as [Hl|(n & Hi & Hn & Hfree & [[[= -> _] Hl]|(ino & t & Hl & Hb)])].
  - by left.
  - right. eauto.
  - left. rewrite <- (delete_insert_id lm n LockTree.Rd Hfree).
    assert (Hs : is_Some ((<[n := LockTree.Rd]> lm) !! n)) by (by rewrite lookup_insert_eq). cbv zeta in Hb.
    case_if_in Hb. { inv_bind Hb. rewrite <- (lf_errno _ _ _ _ E) in Hl. by eapply (rl_unlock n (cret _) Hn (lf_ret _)). }
    inv_bind Hb. rewrite <- (lf_read_extent _ _ _ _ _ _ _ _ E) in Hl. inv_bind Hb. rewrite <- (lf_malloc _ _ _ E0) in Hl.
    inv_bind Hb. rewrite <- (lf_trees _ _ _ _ E1) in Hl.
    destruct a1 as [m|]. 2: { by eapply (rl_unlock n (cret _) Hn (lf_ret _)). }
    inv_bind Hb. destruct (read_loop_locks _ _ _ _ _ _ _ _ Hn _ _ _ _ Hl Hs E2) as [[-> Hl']|[Hf Hlt]].
    + by injection Hb as _ _ <-.
    + rewrite <- Hlt in Hl. destruct a1 as [[]|]; [|done|done]. inv_bind Hb. injection Hb as _ <-.
      eapply rl_complete; [exact Hn|apply lf_read_status|apply lf_ret|exact Hl|exact Hs|exact E3].
Qed.

(** A write that cannot store the inode returns -1 with the inode locked for
    writing: every later request for the file is refused. *)
Theorem failed_write_keeps_lock fuel c e data (s : iostate) n lm l f w rest ino d d1 ret :
  path_ok c = true -> buf_ok c = true -> 0 <= io_offset c -> inodestr c = Some n -> 0 <= n ->
  LockTree.rep (lt s) lm -> lm !! n = None -> LockTree.locks (lt s) !! l = None ->
  memory s = l :: f :: w :: rest -> l <> NULL -> f <> NULL -> w <> NULL ->
  InodeStore.get_inode ptr n zero_inode (ds s) = Ret ((0, ino), d) ->
  InodeStore.put_inode moves (InodeStore.mkInode (hard_wired w (InodeStore.i_fixed ino)) (InodeStore.i_xattr ino)
    (InodeStore.i_erasure ino) (InodeStore.i_extent ino) (Some info_bytes)) after 1 d = Ret (ret, d1) -> ret <> 0 ->
  exists s', sfs_write fuel c e (Some 0) data s = Ret (Some (-1), s') /\
    LockTree.rep (lt s') (<[n := LockTree.Wr]> lm).
Proof.
  intros V1 V2 V3 V4 Hn V7 V8 B1 Hmem N1 N2 N3 Hg Hput Hret. unfold sfs_write.
  match goal with |- context [open_inode ?fa ?no c ?lk ?body s] =>
    destruct (open_inode_start fa no c LockTree.Wr lk body n ino d s lm l f _ ltac:(done) V1 V2 V3 V4 Hg V7 V8 Hn B1 Hmem N1 N2)
      as (lt' & er & Hrun & Hl) end.
  rewrite Hrun. cbv beta. change (0 <? 0) with false. cbn [andb].
  unfold cbind at 1, set_sfsds, cbind at 1. erewrite malloc_run by reflexivity.
  rewrite (proj2 (Z.eqb_neq w NULL) N3). unfold cbind at 1, cmod at 1, cret at 1.
  change (set_primary_sfsd w (set_numclients 1 (InodeStore.i_fixed ino))) with (hard_wired w (InodeStore.i_fixed ino)).
  unfold cbind at 1, on_db at 1. cbn [ds set_memory opened]. rewrite Hput, (proj2 (Z.eqb_neq ret 0) Hret). cbn [negb cret].
  eexists. split; [reflexivity|]. exact Hl.
Qed.

(** A job that is freed while it is on a queue, as every job of a read and of a
    write is while it is on the queue of pending jobs: the next job that is
    put on that queue goes through the freed memory. *)
Theorem freed_job_stays_queued (s s' : iostate) jl qs q job job' :
  JobQueue.rep (st (js (cs s))) jl qs -> qs !! 0%nat = Some (q ++ [job]) -> job' <> NULL ->
  free_job job s = Ret (tt, s') -> sfs_enqueue_job HIGH_PRIORITY jl job' (st (js (cs s'))) = Fault OutOfBounds.
Proof.
  intros Hr Hq Hn Hf. injection Hf as <-. destruct Hr as [H1 H2 H3 H4]. destruct (H3 0%nat _ Hq) as ([p Hp] & Hd & _).
  assert (Hjl : qaddr jl 0 = jl) by (unfold qaddr; lia). rewrite Hjl in Hp.
  pose proof Hd as [Hnd _]. destruct (dlist_last _ _ _ Hd) as (x & pre & He & _ & Hx & _).
  assert (x = wl job) as ->.
  { rewrite fmap_app, app_comm_cons in He. by apply app_inj_tail in He as [_ <-]. }
  assert (Hne : head_of jl 0 <> wl job).
  { intros E. rewrite fmap_app, E in Hnd. apply list.NoDup_cons in Hnd as [Hnd _]. set_solver. }
  unfold sfs_enqueue_job. rewrite (proj2 (bad_params_false _ _ _)) by (unfold HIGH_PRIORITY; split_and!; done || lia).
  change (jl + queue_size * HIGH_PRIORITY) with (jl + 0). rewrite Z.add_0_r.
  unfold cbind at 1. rewrite (spin_lock_run _ jl p) by exact Hp.
  unfold cbind at 1, on_heap at 1, bds_list_add_tail, cbind at 1, get_prev, load, cbind at 1. cbn [heap locked set_queues st js cs].
  unfold prv in Hx. unfold head_of in Hx, Hne. rewrite Hjl in Hx, Hne.
  change (heap _) with (delete (job + wait_off) (heap (st (js (cs s))))) at 1. rewrite lookup_delete_ne by (unfold wl in Hne; done).
  destruct (heap (st (js (cs s))) !! (jl + list_off)) as [hd|]; [|done]. injection Hx as Hx.
  unfold cret at 1. unfold __bds_list_add, cbind at 1, set_next, cbind at 1, load. cbn [heap locked set_queues st js cs]. rewrite Hx.
  change (heap _) with (delete (job + wait_off) (heap (st (js (cs s))))) at 1. unfold wl. by rewrite lookup_delete_eq.
Qed.


End IoPath.

(** * Examples *)

#[local] Existing Instance InodeStore.map_db.

(** Inode 7, kept by one sfsd, with the given size and number of extents. *)
Definition demo_fixed (size extents : Z) : list Z :=
  InodeStore.zeros 4200 ++ le_bytes 8 size ++ InodeStore.zeros 8 ++ le_bytes 8 900 ++ InodeStore.zeros 12 ++
  InodeStore.four 1 ++ InodeStore.zeros 8 ++ InodeStore.four extents ++ InodeStore.zeros 4 ++ le_bytes 8 7 ++ InodeStore.zeros 8.
(** One extent of 10 bytes. *)
Definition demo_record : list Z :=
  demo_fixed 10 1 ++ (le_bytes 8 0 ++ le_bytes 8 10 ++ InodeStore.zeros 12 ++ InodeStore.four 1) ++ InodeStore.demo_handle ++
  InodeStore.zeros 8.

Definition demo_queues : store :=
  mkStore {[1008 := mkHead 1008 1008; 1040 := mkHead 1040 1040]}
          {[1000 := mkQueue 0 LockFree; 1032 := mkQueue 1 LockFree]} ∅ 0.
Definition demo_io (rec : list Z) (mem : list Z) : @iostate (gmap Z Z) (gmap Z (list Z)) :=
  mkIo LockTree.start (InodeStore.mkDb [] {[7 := rec]}) JobId.init (mkC (set_st demo_queues JobTrees.start) ∅)
       {[900 := 55]} mem.
Definition demo_junk : job_map := mkMap 0 0 0 0 false [] [] 0 (replicate 8 0) 0.
Definition demo_call (size offset : Z) : io_call := mkCall (Some 7) true true size offset 3 demo_junk.
Definition demo_reply (cmd : Z) (data : list Z) (wc : Z) : sstack_payload :=
  mkPayload 1 0 0 cmd 0 0 0 0 [] 0 None SSTACK_SUCCESS (InodeStore.size data) (Some data) wc.
Definition demo_env (p : Z) (y : sstack_payload) : @env (gmap Z Z) :=
  mkEnv (cret tt) (cret tt) (deliver 1000 (fun a => a) (fun _ => None) p y) false.
Definition demo_memory : list Z := [100; 200; 300; 5000; 400; 501; 502; 600; 700].

Lemma demo_queues_rep : JobQueue.rep demo_queues 1000 [[]; []].
Proof.
  split; [done|done| |].
  - intros [|[|i]] q Hq; [..|done]; injection Hq as <-; (split; [eexists; reflexivity|]; split; [|constructor]);
      (split; [apply NoDup_singleton|split_and!; reflexivity]).
  - intros [|[|i]] [|[|i']] q q' Hq Hq' Hne; try done; injection Hq as <-; injection Hq' as <-;
      (intros y Hy Hy'; apply list_elem_of_singleton in Hy, Hy'; subst; done).
Qed.

Lemma demo_servable rec mem size offset :
  0 <= offset -> servable 1000 (demo_io rec mem) (demo_call size offset) 7 ∅ ∅ ∅ [] [[]; []].
Proof.
  intros Ho. split; try done.
  all: first [apply LockTree.start_rep|apply JobId.init_fresh|apply rep_st, trees_start_rep|apply demo_queues_rep].
Qed.

Definition inode_of (rec : list Z) : InodeStore.sstack_inode :=
  match InodeStore.get_inode (InodeStore.zeros 8) 7 zero_inode (InodeStore.mkDb [] {[7 := rec]} : @InodeStore.db_state (gmap Z (list Z))) with
  | Ret ((_, i), _) => i
  | Fault _ => zero_inode
  end.
Definition first_extent (ino : InodeStore.sstack_inode) : InodeStore.sstack_extent :=
  default (InodeStore.mkExtent [] None) (InodeStore.i_extent ino !! 0).

(** 4096 bytes are asked for, the file has 10. *)
Lemma sfs_read_delivers_witness :
  exists s', sfs_read (InodeStore.zeros 8) 1000 0 [] 2 (demo_call 4096 0) (demo_env 800 (demo_reply 33 [104; 105] 0)) [0; 0; 0]
      (demo_io demo_record demo_memory) = Ret (Some (2, [104; 105; 0]), s') /\ LockTree.rep (lt s') ∅.
Proof.
  destruct (sfs_read_delivers (D := gmap Z (list Z)) (InodeStore.zeros 8) 1000 0 [] 0 (demo_call 4096 0)
    (demo_env 800 (demo_reply 33 [104; 105] 0)) [0; 0; 0] (demo_io demo_record demo_memory) 7 ∅ ∅ ∅ [] [[]; []]
    100 200 300 5000 400 501 502 600 700 [] (inode_of demo_record) (InodeStore.mkDb [] {[7 := demo_record]})
    (first_extent (inode_of demo_record)) InodeStore.demo_handle 55 (fun a => a) (fun _ => None) 800 (demo_reply 33 [104; 105] 0) [104; 105])
    as (s' & H1 & H2 & _).
  - by apply demo_servable.
  - reflexivity.
  - by apply (bool_decide_unpack _).
  - by split.
  - vm_compute. reflexivity.
  - vm_compute. discriminate.
  - vm_compute. reflexivity.
  - vm_compute. reflexivity.
  - vm_compute. reflexivity.
  - vm_compute. reflexivity.
  - vm_compute. reflexivity.
  - vm_compute. discriminate.
  - vm_compute. done.
  - vm_compute. reflexivity.
  - vm_compute. done.
  - done.
  - reflexivity.
  - discriminate.
  - reflexivity.
  - reflexivity.
  - reflexivity.
  - reflexivity.
  - reflexivity.
  - simpl. lia.
  - vm_compute. reflexivity.
  - exists s'. split; [exact H1|exact H2].
Defined.

Definition new_file : list Z := demo_fixed 0 0 ++ InodeStore.zeros 8.
Definition write_memory : list Z := [100; 200; 250; 300; 5000; 400; 450; 501; 502; 600; 700].
Definition wired_inode : InodeStore.sstack_inode :=
  InodeStore.mkInode (hard_wired 250 (InodeStore.i_fixed (inode_of new_file))) (InodeStore.i_xattr (inode_of new_file))
    (InodeStore.i_erasure (inode_of new_file)) (InodeStore.i_extent (inode_of new_file)) (Some []).
Definition db_of {A} (c : cprog (@InodeStore.db_state (gmap Z (list Z))) A) (d : @InodeStore.db_state (gmap Z (list Z)))
  : @InodeStore.db_state (gmap Z (list Z)) :=
  match c d with Ret (_, d') => d' | Fault _ => d end.
Definition file_db (rec : list Z) : @InodeStore.db_state (gmap Z (list Z)) := InodeStore.mkDb [] {[7 := rec]}.
Definition written_db : @InodeStore.db_state (gmap Z (list Z)) :=
  db_of (InodeStore.put_inode false wired_inode (InodeStore.zeros 8) 1) (file_db new_file).

Lemma first_write_delivers_witness :
  exists s', sfs_write false (InodeStore.zeros 8) (InodeStore.zeros 8) 1000 55 0 [] [] 2 (demo_call 3 0)
      (demo_env 800 (demo_reply 34 [] 3)) (Some 0) [1; 2; 3] (demo_io new_file write_memory) = Ret (Some 3, s') /\
    LockTree.rep (lt s') ∅.
Proof.
  destruct (first_write_delivers (D := gmap Z (list Z)) false (InodeStore.zeros 8) (InodeStore.zeros 8) 1000 55 0 [] [] 0 (demo_call 3 0)
    (demo_env 800 (demo_reply 34 [] 3)) [1; 2; 3] (demo_io new_file write_memory) 7 ∅ ∅ ∅ [] [[]; []]
    100 200 250 300 5000 400 450 501 502 600 700 [] (inode_of new_file) (file_db new_file) written_db
    (0, match InodeStore.get_inode (InodeStore.zeros 8) 7 zero_inode written_db with Ret ((_, i), _) => i | Fault _ => zero_inode end)
    written_db (fun a => a) (fun _ => None) 800 (demo_reply 34 [] 3)) as (s' & H1 & _ & H2 & _).
  - by apply demo_servable.
  - reflexivity.
  - by apply (bool_decide_unpack _).
  - by split.
  - vm_compute. reflexivity.
  - vm_compute. reflexivity.
  - vm_compute. reflexivity.
  - vm_compute. reflexivity.
  - vm_compute. reflexivity.
  - simpl. lia.
  - done.
  - reflexivity.
  - discriminate.
  - reflexivity.
  - reflexivity.
  - reflexivity.
  - simpl. lia.
  - exists s'. split; [exact H1|exact H2].
Defined.

(** A read of 4 bytes at the beginning of the file of 10. *)
Lemma inner_read_fails_witness :
  exists r s', sfs_read (InodeStore.zeros 8) 1000 0 [] 3 (demo_call 4 0) (demo_env 800 (demo_reply 33 [104; 105] 0)) [0; 0; 0]
      (demo_io demo_record (take 8 demo_memory)) = Ret (Some r, s') /\ (r = (-1, [0; 0; 0]) \/ r = (- ENOMEM, [0; 0; 0])).
Proof.
  assert (exists r s', sfs_read (InodeStore.zeros 8) 1000 0 [] 3 (demo_call 4 0) (demo_env 800 (demo_reply 33 [104; 105] 0)) [0; 0; 0]
      (demo_io demo_record (take 8 demo_memory)) = Ret (Some r, s')) as (r & s' & Hr) by (do 2 eexists; vm_compute; reflexivity).
  exists r, s'. split; [exact Hr|].
  apply (inner_read_fails (InodeStore.zeros 8) 1000 0 [] 3 (demo_call 4 0) (demo_env 800 (demo_reply 33 [104; 105] 0)) [0; 0; 0] 7
    (inode_of demo_record) (file_db demo_record) (first_extent (inode_of demo_record)) (demo_io demo_record (take 8 demo_memory)) s' r).
  - reflexivity.
  - vm_compute. reflexivity.
  - vm_compute. reflexivity.
  - vm_compute. reflexivity.
  - vm_compute. reflexivity.
  - simpl. lia.
  - vm_compute. discriminate.
  - simpl. lia.
  - vm_compute. discriminate.
  - exact Hr.
Defined.

Lemma demo_read_run :
  exists s', sfs_read (InodeStore.zeros 8) 1000 0 [] 2 (demo_call 4096 0) (demo_env 800 (demo_reply 33 [104; 105] 0)) [0; 0; 0]
      (demo_io demo_record demo_memory) = Ret (Some (2, [104; 105; 0]), s').
Proof. eexists. vm_compute. reflexivity. Qed.

Lemma read_repeats_extent_witness :
  exists j, uwrap 32 (Z.min 4096 (i_size (InodeStore.i_fixed (inode_of demo_record)))) =
    uwrap 32 (cut (first_extent (inode_of demo_record)) 0 4096 * triangle j).
Proof.
  destruct demo_read_run as [s' Hr].
  apply (read_repeats_extent (InodeStore.zeros 8) 1000 0 [] 2 (demo_call 4096 0) (demo_env 800 (demo_reply 33 [104; 105] 0)) [0; 0; 0] 7
    (inode_of demo_record) (file_db demo_record) (first_extent (inode_of demo_record)) (demo_io demo_record demo_memory) s' 2 [104; 105; 0]).
  - reflexivity.
  - vm_compute. reflexivity.
  - vm_compute. reflexivity.
  - vm_compute. reflexivity.
  - vm_compute. reflexivity.
  - exact Hr.
  - discriminate.
  - discriminate.
Defined.

Lemma sfs_read_locks_witness :
  exists s', sfs_read (InodeStore.zeros 8) 1000 0 [] 2 (demo_call 4096 0) (demo_env 800 (demo_reply 33 [104; 105] 0)) [0; 0; 0]
      (demo_io demo_record demo_memory) = Ret (Some (2, [104; 105; 0]), s') /\
    (LockTree.rep (lt s') ∅ \/
     2 = - ENOMEM /\ exists n, inodestr (demo_call 4096 0) = Some n /\ LockTree.rep (lt s') (<[n := LockTree.Rd]> ∅)).
Proof.
  destruct demo_read_run as [s' Hr]. exists s'. split; [exact Hr|].
  apply (sfs_read_locks (InodeStore.zeros 8) 1000 0 [] 2 (demo_call 4096 0) (demo_env 800 (demo_reply 33 [104; 105] 0)) [0; 0; 0]
    (demo_io demo_record demo_memory) s' ∅ 2 [104; 105; 0]); [|exact Hr].
  split; [apply LockTree.start_rep|]. split.
  - intros n [= <-]. split; [lia|reflexivity].
  - intros a l [= <- _]. right. reflexivity.
Defined.

(** A data base that refuses every update. *)
#[local] Instance refusing_db_ops : InodeStore.InodeDb (list Z) := {
  InodeStore.db_get d _ := Some d;
  InodeStore.db_insert d _ _ := (0, d);
  InodeStore.db_update d _ _ := (0, d)
}.

Lemma failed_write_keeps_lock_witness :
  exists s', sfs_write (D := list Z) false (InodeStore.zeros 8) (InodeStore.zeros 8) 1000 55 0 [] [] 2 (demo_call 3 0)
      (mkEnv (cret tt) (cret tt) (cret tt) false) (Some 0) [1; 2; 3]
      (mkIo LockTree.start (InodeStore.mkDb [] new_file) JobId.init (mkC (set_st demo_queues JobTrees.start) ∅) ∅ write_memory)
      = Ret (Some (-1), s') /\ LockTree.rep (lt s') (<[7 := LockTree.Wr]> ∅).
Proof.
  apply (failed_write_keeps_lock false (InodeStore.zeros 8) (InodeStore.zeros 8) 1000 55 0 [] [] 2 (demo_call 3 0)
    (mkEnv (cret tt) (cret tt) (cret tt) false) [1; 2; 3] _ 7 ∅ 100 200 250 [300; 5000; 400; 450; 501; 502; 600; 700]
    (inode_of new_file) (InodeStore.mkDb [] new_file) (InodeStore.mkDb [] new_file) (-2)).
  - reflexivity.
  - reflexivity.
  - simpl. lia.
  - reflexivity.
  - lia.
  - apply LockTree.start_rep.
  - reflexivity.
  - reflexivity.
  - reflexivity.
  - discriminate.
  - discriminate.
  - discriminate.
  - vm_compute. reflexivity.
  - vm_compute. reflexivity.
  - discriminate.
Defined.

(** Thread 3 has issued the job 5000 for inode 7, which it has locked. *)
Definition demo_issued : @iostate (gmap Z Z) (gmap Z (list Z)) :=
  mkIo LockTree.reading7 (file_db demo_record) JobId.init
    (mkC (mkState (mkStore ∅ ∅ {[5000 := fill_job 0 (blank 0) 1 1 55 400]} 0) {[1 := 600]} kt_new
            {[600 := mkJt JTNODE_MAGIC 1 3 5000]} ∅ {[300 := grown demo_junk 1]} false false) ∅) ∅ [700].

Lemma demo_one_job :
  one_job demo_issued (demo_call 4096 0) 7 300 5000 1 (fill_job 0 (blank 0) 1 1 55 400) (grown demo_junk 1) ∅ ∅ {[7 := LockTree.Rd]}.
Proof.
  split; try reflexivity; try (simpl; lia); try discriminate.
  - split; try reflexivity; try exact I.
    intros i. destruct (decide (i = 1)) as [->|Hi]; [by exists 600|]. rewrite lookup_insert_ne, lookup_empty by done.
    by apply lookup_singleton_ne.
  - apply LockTree.reading7_rep.
  - eexists. reflexivity.
Qed.

Lemma early_answer_lost_witness :
  complete (-1, []) (demo_call 4096 0)
    (mkEnv (cret tt) (deliver 1000 (fun a => a) (fun _ => None) 800 (demo_reply 33 [104; 105] 0)) (cret tt) false) 7 300
    (sfs_send_read_status 300 []) (cret tt) demo_issued = Fault Deadlock.
Proof.
  apply (early_answer_lost 1000 _ _ _ _ _ _ demo_issued 5000 1 _ _ _ _ _ 700 [] (fun a => a) (fun _ => None) 800
    (demo_reply 33 [104; 105] 0) (-1, []) demo_one_job); try reflexivity; [discriminate|]. right. done.
Defined.

(** The job 5000 is on the queue of high priority. *)
Definition demo_pending : @iostate (gmap Z Z) (gmap Z (list Z)) :=
  mkIo LockTree.start (file_db demo_record) JobId.init
    (mkC (set_st (mkStore {[1008 := mkHead 5128 5128; 5128 := mkHead 1008 1008; 1040 := mkHead 1040 1040]}
                    {[1000 := mkQueue 0 LockFree; 1032 := mkQueue 1 LockFree]} {[5000 := blank 1]} 0) JobTrees.start) ∅) ∅ [].

Lemma demo_pending_rep : JobQueue.rep (st (js (cs demo_pending))) 1000 [[5000]; []].
Proof.
  split; [done|done| |].
  - intros [|[|i]] q Hq; [..|done]; injection Hq as <-; (split; [eexists; reflexivity|]); split.
    + split; [by apply (bool_decide_unpack _)|]. vm_compute. repeat split.
    + apply Forall_singleton. split; [discriminate|]. split; eexists; reflexivity.
    + split; [apply NoDup_singleton|split_and!; reflexivity].
    + constructor.
  - intros [|[|i]] [|[|i']] q q' Hq Hq' Hne; try done; injection Hq as <-; injection Hq' as <-;
      (intros y Hy Hy'; vm_compute in Hy, Hy'; set_solver).
Qed.

Lemma freed_job_stays_queued_witness :
  exists s', free_job 5000 demo_pending = Ret (tt, s') /\
    sfs_enqueue_job HIGH_PRIORITY 1000 6000 (st (js (cs s'))) = Fault OutOfBounds.
Proof.
  eexists. split; [reflexivity|].
  eapply (freed_job_stays_queued demo_pending _ 1000 [[5000]; []] [] 5000 6000 demo_pending_rep); [reflexivity|discriminate|reflexivity].
Defined.

End IoPath.
