(* ===== verification/Removal.v ===== *)
(** Removing a file and a directory: [sfs_unlink] and [sfs_rmdir] of
    sfs/src/sfs_entry.c, with [del_inode] of sfs/include/sfs_internal.h.

    Both take the name away below, lock the inode, send a job to the storage
    daemons as [IoPath] does, wait for it and delete the inode and the name.
    The two functions differ in the system call, in the command, in the path
    they put into it, and in the lock when the inode is not found. *)
From Stdlib Require Import ZArith Lia.
From stdpp Require Import base gmap list numbers.
From S2P Require Import Prelude CString CFormat KeyTree BdsList IdSlots JobId JobQueue JobTrees LockTree Completion InodeStore InodeFields Xattr Memcache FileOps FileProps IoPath.

Module Removal.
Import JobQueue JobTrees Completion InodeFields IoPath.

(** The call of the database that deletes a record: 1 when it did. *)
Class InodeRemove (D : Type) := db_remove : D -> Z -> Z * D.

(** What unlink(2) and rmdir(2) say of a call that succeeds: the path is gone. *)
Class PosixRemoves (F : Type) `{FileOps.Posix F} : Prop :=
  sys_removes (f : F) (dir : bool) p :
    let c := if dir then FileOps.Rmdir p else FileOps.Unlink p in
    (FileOps.sys f c).1.1.1 <> -1 -> (FileOps.sys (FileOps.sys f c).2 (FileOps.Lstat (Some p))).1.1.1 = -1.

Section Removal.
Context {T : Type} `{KeyTree T} {D : Type} `{InodeStore.InodeDb D} `{InodeRemove D}
  {M : Type} `{Memcache.Memcached M} {F : Type} `{FileOps.Posix F}.
(** As in [IoPath]; [sizeof_info] is the size of a [sstack_sfsd_info_t], whose
    last field is [sfsd]. *)
Context (ptr : list Z) (jobs_list sizeof_payload sizeof_info : Z) (fresh_buf : list Z).

(** [paths] has the [path] of the [remove_cmd] of each payload, [None] for
    NULL. *)
Record rstate : Type := mkR {
  io : @iostate T D;
  mc : M;
  fs : F;
  active_inodes : Z;
  paths : gmap Z (option (list Z))
}.
Definition set_io (x : @iostate T D) (s : rstate) : rstate := mkR x (mc s) (fs s) (active_inodes s) (paths s).
Definition on_io {A} (c : cprog (@iostate T D) A) : cprog rstate A := fun s =>
  match c (io s) with
  | Ret (a, x) => Ret (a, set_io x s)
  | Fault f => Fault f
  end.

(** What surrounds a call: the thread, what [malloc] leaves in a job map, the
    inode on the stack. *)
Record rm_call : Type := mkRm {
  rm_self : Z;
  rm_junk : job_map;
  rm_stack : InodeStore.sstack_inode
}.

Definition rm_sys (c : FileOps.syscall) : cprog rstate Z :=
  (let! s := cget in
   let '((r, e, _), f) := FileOps.sys (fs s) c in
   cput (mkR (io s) (mc s) f (active_inodes s) (paths s)) ;;;
   (if r =? -1 then on_io (put_errno e) else cret tt) ;;;
   cret r)%cprog.

(** [del_inode] of the inode number; [release_inode] counts it whether or not
    the record is deleted. *)
Definition del_inode (inode_num : Z) : cprog rstate Z :=
  (if inode_num <? InodeStore.INODE_NUM_START then cret (- EINVAL)
   else
     let! ret := on_io (on_db (fun d =>
       let '(r, x) := db_remove (InodeStore.db d) inode_num in
       Ret (if r =? 1 then 0 else -2, InodeStore.mkDb (InodeStore.allocs d) x))) in
     cmod (fun s => mkR (io s) (mc s) (fs s) (uwrap 64 (active_inodes s - 1)) (paths s)) ;;;
     cret ret)%cprog.

Definition on_mc {A} (c : cprog M A) : cprog rstate A := fun s =>
  match c (mc s) with
  | Ret (a, m) => Ret (a, mkR (io s) m (fs s) (active_inodes s) (paths s))
  | Fault f => Fault f
  end.
Definition read_name (path : list Z) : cprog rstate (option (list Z)) := on_mc (Memcache.sstack_memcache_read_one path).
Definition remove_name (path : list Z) : cprog rstate Z := on_mc (Memcache.sstack_memcache_remove path).

(** [job->sfsds[i] = inode.i_sfsds[i].sfsd] for [k] clients from [i] on. *)
Fixpoint fill_sfsds (k i : nat) (ino : InodeStore.sstack_inode) (l : list Z) : cprog (@iostate T D) (list Z) :=
  match k with
  | O => cret l
  | S k' =>
      (let! b := cexpect NullDeref (InodeStore.i_sfsds ino) in
       let! x := InodeStore.read_at (Z.of_nat i * sizeof_info + sizeof_info - 8) 8 b in
       if (i <? length l)%nat then fill_sfsds k' (S i) ino (<[i := InodeStore.le x]> l) else cfault OutOfBounds)%cprog
  end.
(** [job->job_status[j] = JOB_STARTED] *)
Fixpoint fill_status (k j : nat) (l : list Z) : cprog (@iostate T D) (list Z) :=
  match k with
  | O => cret l
  | S k' => if (j <? length l)%nat then fill_status k' (S j) (<[j := JOB_STARTED]> l) else cfault OutOfBounds
  end.

(** The job map, the job and its payload: [None] when the operation gave up
    and has released the lock. The priority is the one of a fresh job. *)
Definition prepare (cmd : Z) (c : rm_call) (n : Z) (ino : InodeStore.sstack_inode) : cprog (@iostate T D) (option (Z * Z * Z)) :=
  (let! mem := malloc in
   let! m := on_trees (create_job_map mem (rm_self c) (rm_junk c)) in
   match m with
   | None => on_locks (LockTree.sfs_unlock n) ;;; cret None
   | Some m =>
       let! job := new_job in
       match job with
       | None => let! _ := bail_out n m in cret None
       | Some job =>
           let! id := on_ids JobId.get_next_job_id in
           let f := InodeStore.i_fixed ino in
           let clients := InodeStore.i_numclients f in
           let! s := cget in
           let! sfsd := cexpect NullDeref (infos s !! i_primary_sfsd f) in
           let! r := on_cs (get_job job) in
           let! sfsds := fill_sfsds (InodeStore.count clients - 1) 1 ino (<[0%nat := sfsd]> (JobId.sfsds r)) in
           let! status := fill_status (InodeStore.count clients) 0 (JobId.job_status r) in
           let! p := sstack_create_payload fresh_buf cmd in
           if p =? NULL then cfault NullDeref
           else
             let! x := on_cs (load_payload p) in
             on_cs (store_payload p
               (mkPayload id (JobId.priority r) job cmd (read_inode_no x) (cmd_offset x) (cmd_count x) (read_ecode x) (extent_handle x)
                  (write_len x) (write_buf x) (command_ok x) (resp_len x) (resp_buf x) (file_wc x))) ;;;
             on_cs (put_job job (JobId.mkJob (JobId.version r) SFSD_IO id clients sfsds status sizeof_payload (JobId.priority r) p)) ;;;
             cret (Some (m, job, p))
       end
   end)%cprog.

(** The path of the command: [sfs_unlink] copies it into the buffer of 4096
    bytes of the payload, [sfs_rmdir] allocates zeroed memory and copies
    nothing. *)
Definition put_path (dir : bool) (p : Z) (path : list Z) : cprog rstate unit :=
  (let! x :=
     if dir then let! a := on_io malloc in cret (if a =? NULL then None else Some (InodeStore.zeros (InodeStore.size path + 1)))
     else if 4096 <? InodeStore.size path + 1 then cfault OutOfBounds else cret (Some (path ++ [0])%list) in
   cmod (fun s => mkR (io s) (mc s) (fs s) (active_inodes s) (<[p := x]> (paths s))))%cprog.

(** From the registration of the job to the end of the wait; [false] when the
    operation gave up and has released the lock. *)
Definition run_job (c : rm_call) (e : @env T) (n m job : Z) : cprog (@iostate T D) bool :=
  (let! r := register_job jobs_list n (rm_self c) m job in
   match r with
   | Failed => cret false
   | Issued =>
       on_cs (while_issuing e) ;;;
       let! mem := malloc in
       let! ret := on_trees (sfs_job_context_insert mem (rm_self c) m) in
       if ret =? -1 then let! _ := bail_out n m in cret false
       else
         on_cs (before_wait e) ;;;
         let! _ := sfs_wait_for_completion e m in
         on_trees (free_job_map m) ;;;
         cret true
   end)%cprog.

(** [sfs_unlink] ([dir] is false) and [sfs_rmdir]. *)
Definition remove_path (dir : bool) (c : rm_call) (e : @env T) (path : option (list Z)) : cprog rstate Z :=
  (match path with
   | None => on_io (put_errno ENOENT) ;;; cret (-1)
   | Some path =>
       let! ret := rm_sys (if dir then FileOps.Rmdir path else FileOps.Unlink path) in
       if ret =? -1 then cret (-1)
       else
         let! v := read_name path in
         match v with
         | None => on_io (put_errno ENOENT) ;;; cret (-1)
         | Some v =>
             let n := FileOps.inode_of v in
             let! mem := on_io malloc in
             let! ret := on_io (on_locks (LockTree.sfs_wrlock mem 0 n)) in
             if ret =? -1 then on_io (put_errno EAGAIN) ;;; cret (-1)
             else
               let! r := on_io (on_db (InodeStore.get_inode ptr n (rm_stack c))) in
               if negb (r.1 =? 0) then
                 on_io (put_errno r.1) ;;;
                 (if dir then cret tt else on_io (on_locks (LockTree.sfs_unlock n)) ;;; cret tt) ;;;
                 cret (-1)
               else
                 let! j := on_io (prepare (if dir then NFS_RMDIR else NFS_REMOVE) c n r.2) in
                 match j with
                 | None => cret (-1)
                 | Some (m, job, p) =>
                     put_path dir p path ;;;
                     let! ok := on_io (run_job c e n m job) in
                     if negb ok then cret (-1)
                     else
                       let! ret := del_inode (InodeStore.i_num (InodeStore.i_fixed r.2)) in
                       if negb (ret =? 0) then on_io (on_locks (LockTree.sfs_unlock n)) ;;; cret (-1)
                       else
                         let! ret := remove_name path in
                         if negb (ret =? 0) then on_io (on_locks (LockTree.sfs_unlock n)) ;;; cret (-1)
                         else on_io (on_locks (LockTree.sfs_unlock n)) ;;; cret 0
                 end
         end
   end)%cprog.
Definition sfs_unlink : rm_call -> @env T -> option (list Z) -> cprog rstate Z := remove_path false.
Definition sfs_rmdir : rm_call -> @env T -> option (list Z) -> cprog rstate Z := remove_path true.

(** * The job is never submitted *)

Definition jobs_of (s : @iostate T D) : gmap Z JobId.sfs_job := jobs (st (js (cs s))).
(** A job whose priority was never set. *)
Definition unset (job : Z) (s : @iostate T D) : Prop :=
  exists r, jobs_of s !! job = Some r /\ JobId.priority r = JobId.INVALID_PRIORITY.

Lemma get_job_same job (s : @iostate T D) r s' : on_cs (get_job job) s = Ret (r, s') -> s' = s /\ jobs_of s !! job = Some r.
Proof.
  unfold on_cs, get_job, lift, on_store, load_job, jobs_of. destruct s as [l d i [j pl] inf mem]. cbn.
  destruct (jobs (st j) !! job) as [x|] eqn:Hj; [|done]. intros [= <- <-]. by destruct j.
Qed.
Lemma put_job_run job r (s : @iostate T D) a s' : on_cs (put_job job r) s = Ret (a, s') -> jobs_of s' !! job = Some r.
Proof. unfold on_cs, put_job, lift, on_store, jobs_of. cbn. intros [= <- <-]. cbn. by rewrite lookup_insert_eq. Qed.
Lemma new_job_unset (s : @iostate T D) job s' : new_job s = Ret (Some job, s') -> unset job s'.
Proof.
  intros Hr. unfold new_job in Hr. inv_bind Hr. inv_bind Hr. destruct a0 as [r|]; [|done].
  assert (Hp : JobId.priority r = JobId.INVALID_PRIORITY).
  { unfold on_ids in E0. destruct (JobId.sfs_job_init _ _) as [[x i]|] eqn:Hi; [|done]. injection E0 as -> _.
    unfold JobId.sfs_job_init in Hi. destruct (negb (a =? NULL)); [|done]. inv_bind Hi. by injection Hi as <- _. }
  inv_bind Hr. injection Hr as <- <-. exists r. split; [|done].
  unfold on_trees, on_cs, lift, on_store in E1. cbn in E1. injection E1 as _ <-. unfold jobs_of. cbn. by rewrite lookup_insert_eq.
Qed.

(** The programs that leave the jobs alone. *)
Definition job_free {A} (c : cprog (@iostate T D) A) : Prop := forall s a s', c s = Ret (a, s') -> jobs_of s' = jobs_of s.
Lemma jf_malloc : job_free malloc.
Proof. intros s a s'. unfold malloc. destruct (memory s); by intros [= _ <-]. Qed.
Lemma jf_ids {A} (c : cprog JobId.state A) : job_free (on_ids c).
Proof. intros s a s'. unfold on_ids. destruct (c _) as [[]|]; by intros [= _ <-]. Qed.
Lemma jf_trees {A} (c : cprog (@JobTrees.state T) A) :
  (forall s a s', c s = Ret (a, s') -> jobs (st s') = jobs (st s)) -> job_free (on_trees c).
Proof.
  intros Hc s a s'. unfold on_trees, on_cs, lift. destruct (c _) as [[x y]|] eqn:Hr; [|done].
  intros [= _ <-]. exact (Hc _ _ _ Hr).
Qed.

Lemma jf_load_map m : job_free (on_trees (load_map m)).
Proof. apply jf_trees. intros s a s'. unfold load_map. destruct (maps s !! m); by intros [= _ <-]. Qed.
Lemma jf_set_counts m k : job_free (on_trees (set_counts m k)).
Proof.
  apply jf_trees. intros s a s' Hr. unfold set_counts in Hr. inv_bind Hr. unfold load_map in E. destruct (maps s !! m); [|done].
  injection E as _ <-. by injection Hr as _ <-.
Qed.

Lemma submit_refused job (s : @iostate T D) a s' :
  on_trees (on_store (sfs_submit_job JobId.INVALID_PRIORITY jobs_list job)) s = Ret (a, s') -> a = -1.
Proof. unfold on_trees, on_cs, lift, on_store. cbn. by intros [= <- _]. Qed.

Lemma register_refused n thread m job (s : @iostate T D) r s' :
  unset job s -> register_job jobs_list n thread m job s = Ret (r, s') -> r = Failed.
Proof.
  intros (x & Hx & Hp) Hr. unfold register_job in Hr. inv_bind Hr. inv_bind Hr. inv_bind Hr.
  assert (Hj : jobs_of t1 = jobs_of s).
  { rewrite (jf_malloc _ _ _ E1), (jf_set_counts _ _ _ _ _ E0). exact (jf_load_map _ _ _ _ E). }
  case_if_in Hr; [by apply bail_out_failed in Hr|]. inv_bind Hr. apply get_job_same in E2 as [-> Hget]. rewrite Hj, Hx in Hget.
  injection Hget as <-. inv_bind Hr. inv_bind Hr. case_if_in Hr; [by apply bail_out_failed in Hr|]. do 3 inv_bind Hr.
  case_if_in Hr. { inv_bind Hr. by apply bail_out_failed in Hr. }
  inv_bind Hr. rewrite Hp in E7. apply submit_refused in E7 as ->. change (-1 =? -1) with true in Hr. cbn iota in Hr.
  do 2 inv_bind Hr. by apply bail_out_failed in Hr.
Qed.

Lemma run_job_refused c e n m job (s : @iostate T D) r s' : unset job s -> run_job c e n m job s = Ret (r, s') -> r = false.
Proof.
  intros Hu Hr. unfold run_job in Hr. inv_bind Hr. apply register_refused in E as ->; [|done]. by injection Hr as <- _.
Qed.

Lemma prepare_unset cmd c n ino (s : @iostate T D) m job p s' : prepare cmd c n ino s = Ret (Some (m, job, p), s') -> unset job s'.
Proof.
  intros Hr. unfold prepare in Hr. inv_bind Hr. inv_bind Hr. destruct a0 as [m'|]; [|inv_bind Hr; done].
  inv_bind Hr. destruct a0 as [job'|]; [|inv_bind Hr; done]. apply new_job_unset in E1 as (x & Hx & Hp).
  do 4 inv_bind Hr. apply get_job_same in E4 as [-> Hget]. cbv zeta in Hr. do 3 inv_bind Hr. case_if_in Hr; [done|]. do 3 inv_bind Hr.
  injection Hr as <- <- <- <-. apply put_job_run in E9. eexists. split; [exact E9|]. cbn.
  injection E2 as _ <-. unfold cexpect in E3. destruct (infos a1 !! _); [|done]. injection E3 as _ <-.
  rewrite (jf_ids _ _ _ _ E1), Hx in Hget. by injection Hget as <-.
Qed.

(** The programs that leave the records of the database alone. *)
Definition record_free {A} (c : cprog (@iostate T D) A) : Prop :=
  forall s a s', c s = Ret (a, s') -> InodeStore.db (ds s') = InodeStore.db (ds s).
Lemma rf_ret {A} (a : A) : record_free (cret a).
Proof. by intros s b s' [= <- <-]. Qed.
Lemma rf_bind {A B} (c : cprog (@iostate T D) A) (k : A -> cprog (@iostate T D) B) :
  record_free c -> (forall a, record_free (k a)) -> record_free (cbind c k).
Proof. intros Hc Hk s b s' Hr. inv_bind Hr. rewrite (Hk _ _ _ _ Hr). by eapply Hc. Qed.
Lemma rf_cs {A} (c : cprog (@cstate T) A) : record_free (on_cs c).
Proof. intros s a s'. unfold on_cs. destruct (c _) as [[]|]; by intros [= _ <-]. Qed.
Lemma rf_trees {A} (c : cprog (@JobTrees.state T) A) : record_free (on_trees c).
Proof. apply rf_cs. Qed.
Lemma rf_ids {A} (c : cprog JobId.state A) : record_free (on_ids c).
Proof. intros s a s'. unfold on_ids. destruct (c _) as [[]|]; by intros [= _ <-]. Qed.
Lemma rf_locks {A} (c : cprog (@LockTree.state T) A) : record_free (on_locks c).
Proof. intros s a s' Hr. by rewrite (on_locks_ds _ _ _ _ Hr). Qed.
Lemma rf_malloc : record_free malloc.
Proof. intros s a s' Hr. by rewrite (malloc_ds _ _ _ Hr). Qed.
Lemma rf_errno e : record_free (put_errno e).
Proof. by intros s a s' [= _ <-]. Qed.
Lemma rf_get : record_free cget.
Proof. by intros s a s' [= _ <-]. Qed.
Lemma rf_fault {A} f : record_free (cfault f : cprog iostate A).
Proof. done. Qed.
Lemma rf_expect {A} f (o : option A) : record_free (cexpect f o).
Proof. destruct o; [apply rf_ret|apply rf_fault]. Qed.
Lemma rf_read_at off len b : record_free (InodeStore.read_at off len b).
Proof. unfold InodeStore.read_at. destruct (_ && _); [apply rf_ret|apply rf_fault]. Qed.
Lemma rf_get_inode n mem : record_free (on_db (InodeStore.get_inode ptr n mem)).
Proof.
  intros s a s'. unfold on_db, InodeStore.get_inode. destruct (n <? _); [by intros [= _ <-]|]. unfold cbind, cget.
  destruct (InodeStore.db_get _ n) as [b|]; [|by intros [= _ <-]]. unfold InodeStore.with_allocs.
  destruct (InodeStore.fill_inode ptr mem b _) as [[x y]|]; [|done]. by intros [= _ <-].
Qed.

Create HintDb record_free.
#[local] Hint Resolve rf_ret rf_bind rf_cs rf_trees rf_ids rf_locks rf_malloc rf_errno rf_get rf_fault rf_expect rf_read_at : record_free.
#[local] Hint Extern 2 (record_free (match ?x with _ => _ end)) => (destruct x) : record_free.
#[local] Hint Extern 2 (record_free (if ?x then _ else _)) => (destruct x) : record_free.

Lemma rf_fill_sfsds k i ino l : record_free (fill_sfsds k i ino l).
Proof. revert i l. induction k; intros; cbn [fill_sfsds]; eauto 10 with record_free. Qed.
Lemma rf_fill_status k j l : record_free (fill_status k j l).
Proof. revert j l. induction k; intros; cbn [fill_status]; eauto 10 with record_free. Qed.
#[local] Hint Resolve rf_fill_sfsds rf_fill_status : record_free.
Lemma rf_prepare cmd c n ino : record_free (prepare cmd c n ino).
Proof. unfold prepare, new_job, sstack_create_payload, delete_payload, bail_out. cbv zeta. eauto 40 with record_free. Qed.
Lemma rf_register n thread m job : record_free (register_job jobs_list n thread m job).
Proof. unfold register_job, bail_out. eauto 40 with record_free. Qed.
Lemma rf_run_job c e n m job : record_free (run_job c e n m job).
Proof. unfold run_job, bail_out, sfs_wait_for_completion. apply rf_bind; [apply rf_register|]. eauto 40 with record_free. Qed.

(** * The theorems *)

Lemma on_io_run {A} (c : cprog (@iostate T D) A) s a s' : on_io c s = Ret (a, s') ->
  c (io s) = Ret (a, io s') /\ mc s' = mc s /\ fs s' = fs s /\ active_inodes s' = active_inodes s.
Proof. unfold on_io. destruct (c (io s)) as [[x i]|]; [|done]. by intros [= <- <-]. Qed.

(** The names, the records of inodes and the number of inodes are as they were,
    and so is the file system below. *)
Definition intact (s s' : rstate) : Prop :=
  mc s' = mc s /\ InodeStore.db (ds (io s')) = InodeStore.db (ds (io s)) /\ active_inodes s' = active_inodes s /\ fs s' = fs s.
Lemma intact_trans s s1 s2 : intact s s1 -> intact s1 s2 -> intact s s2.
Proof. intros (H4 & H5 & H6 & H7) (G4 & G5 & G6 & G7). split_and!; congruence. Qed.
Lemma intact_io {A} (c : cprog (@iostate T D) A) s a s' : record_free c -> on_io c s = Ret (a, s') -> intact s s'.
Proof. intros Hc Hr. apply on_io_run in Hr as (Hr & ? & ? & ?). split_and!; [done|by eapply Hc|done|done]. Qed.
Lemma put_path_io dir p path s a s' : put_path dir p path s = Ret (a, s') -> intact s s' /\ jobs_of (io s') = jobs_of (io s) /\ lt (io s') = lt (io s).
Proof.
  intros Hr. unfold put_path in Hr. inv_bind Hr. injection Hr as _ <-. destruct dir.
  - inv_bind E. injection E as _ <-. apply on_io_run in E0 as (Hm & ? & ? & ?). split_and!.
    + split_and!; [done|by eapply rf_malloc|done|done].
    + by eapply jf_malloc.
    + by eapply lf_malloc.
  - case_if_in E; [done|]. injection E as _ <-. split_and!; done.
Qed.

(** The part of the operation after the system call. *)
Definition after_sys (dir : bool) (c : rm_call) (e : @env T) (path : list Z) : cprog rstate Z :=
  (let! v := read_name path in
   match v with
   | None => on_io (put_errno ENOENT) ;;; cret (-1)
   | Some v =>
       let n := FileOps.inode_of v in
       let! mem := on_io malloc in
       let! ret := on_io (on_locks (LockTree.sfs_wrlock mem 0 n)) in
       if ret =? -1 then on_io (put_errno EAGAIN) ;;; cret (-1)
       else
         let! r := on_io (on_db (InodeStore.get_inode ptr n (rm_stack c))) in
         if negb (r.1 =? 0) then
           on_io (put_errno r.1) ;;;
           (if dir then cret tt else on_io (on_locks (LockTree.sfs_unlock n)) ;;; cret tt) ;;;
           cret (-1)
         else
           let! j := on_io (prepare (if dir then NFS_RMDIR else NFS_REMOVE) c n r.2) in
           match j with
           | None => cret (-1)
           | Some (m, job, p) =>
               put_path dir p path ;;;
               on_io (run_job c e n m job) ;;;
               cret (-1)
           end
   end)%cprog.

(** No job is submitted, so a run ends there. *)
Lemma remove_path_run dir c e p s r s' : remove_path dir c e (Some p) s = Ret (r, s') ->
  exists ret s1, rm_sys (if dir then FileOps.Rmdir p else FileOps.Unlink p) s = Ret (ret, s1) /\
    (ret = -1 /\ r = -1 /\ s' = s1 \/ ret <> -1 /\ after_sys dir c e p s1 = Ret (r, s')).
Proof.
  intros Hr. unfold remove_path in Hr. inv_bind Hr. exists a, t. split; [done|]. case_if_in Hr; [left; by injection Hr as <- <-|right].
  split; [done|]. unfold after_sys. unfold cbind at 1. inv_bind Hr. rewrite E0. destruct a0 as [v|]; [|exact Hr]. cbv zeta in *.
  unfold cbind at 1. inv_bind Hr. rewrite E1. unfold cbind at 1. inv_bind Hr. rewrite E2. case_if_in Hr; [done|].
  unfold cbind at 1. inv_bind Hr. rewrite E3. case_if_in Hr; [done|]. unfold cbind at 1. inv_bind Hr. rewrite E4.
  destruct a3 as [[[m job] p']|]; [|done]. unfold cbind at 1. inv_bind Hr. rewrite E5. unfold cbind at 1. inv_bind Hr. rewrite E6.
  apply put_path_io in E5 as (_ & Hj & _). apply on_io_run in E4 as [E4 _]. apply prepare_unset in E4.
  assert (Hu : unset job (io t5)) by (unfold unset; by rewrite Hj).
  apply on_io_run in E6 as [E6 _]. apply run_job_refused in E6 as ->; done.
Qed.

Lemma read_name_run p s v s' : read_name p s = Ret (v, s') ->
  v = (if InodeStore.size p =? 0 then None else Memcache.memcached_get (mc s) p) /\ s' = s.
Proof. destruct s. unfold read_name, on_mc. cbn. by intros [= <- <-]. Qed.

Lemma rm_sys_run c s r s' : rm_sys c s = Ret (r, s') ->
  fs s' = (FileOps.sys (fs s) c).2 /\ mc s' = mc s /\ active_inodes s' = active_inodes s /\
  ds (io s') = ds (io s) /\ lt (io s') = lt (io s) /\ memory (io s') = memory (io s).
Proof.
  intros Hr. unfold rm_sys in Hr. inv_bind Hr. injection E as <- <-. destruct (FileOps.sys (fs s) c) as [[[r0 e] st] f].
  inv_bind Hr. injection E as _ <-. inv_bind Hr. injection Hr as _ <-. case_if_in E; [|by injection E as _ <-].
  unfold on_io in E. cbn in E. by injection E as _ <-.
Qed.

Lemma rm_sys_answer c s : exists s', rm_sys c s = Ret ((FileOps.sys (fs s) c).1.1.1, s').
Proof.
  unfold rm_sys, cbind, cget, cput. destruct (FileOps.sys (fs s) c) as [[[r e] st] f].
  cbn. destruct (r =? -1); eexists; reflexivity.
Qed.

(** What follows the system call changes no name, no record, and nothing below,
    and answers -1. *)
Lemma after_sys_intact dir c e p s1 r s' : after_sys dir c e p s1 = Ret (r, s') -> r = -1 /\ intact s1 s'.
Proof.
  intros Hr. unfold after_sys in Hr. inv_bind Hr. apply read_name_run in E as [_ ->]. destruct a as [v|].
  2: { inv_bind Hr. injection Hr as <- <-. split; [done|]. by apply (intact_io _ _ _ _ (rf_errno _)) in E. }
  cbv zeta in Hr. inv_bind Hr. apply (intact_io _ _ _ _ rf_malloc) in E. inv_bind Hr. apply (intact_io _ _ _ _ (rf_locks _)) in E0.
  assert (Hi : intact s1 t0) by (by eapply intact_trans). clear E E0. case_if_in Hr.
  { inv_bind Hr. injection Hr as <- <-. split; [done|]. apply (intact_io _ _ _ _ (rf_errno _)) in E. by eapply intact_trans. }
  inv_bind Hr. apply (intact_io _ _ _ _ (rf_get_inode _ _)) in E. assert (Hi1 : intact s1 t1) by (by eapply intact_trans). clear E Hi.
  case_if_in Hr.
  { inv_bind Hr. apply (intact_io _ _ _ _ (rf_errno _)) in E. inv_bind Hr. injection Hr as <- <-. split; [done|].
    eapply intact_trans; [done|]. eapply intact_trans; [done|]. destruct dir; [by injection E0 as _ <-|].
    inv_bind E0. injection E0 as _ <-. by apply (intact_io _ _ _ _ (rf_locks _)) in E1. }
  inv_bind Hr. apply (intact_io _ _ _ _ (rf_prepare _ _ _ _)) in E. assert (Hi2 : intact s1 t2) by (by eapply intact_trans).
  destruct a2 as [[[m job] p']|]; [|by injection Hr as <- <-]. inv_bind Hr. apply put_path_io in E0 as (E0 & _).
  inv_bind Hr. apply (intact_io _ _ _ _ (rf_run_job _ _ _ _ _)) in E1. injection Hr as <- <-. split; [done|].
  eapply intact_trans; [exact Hi2|]. by eapply intact_trans.
Qed.

(** C38. No call of [sfs_unlink] or [sfs_rmdir] completes a removal. Either it
    does not return, and then the system call that removes the path below has
    succeeded before; or it returns -1, with the name still in memcached, the
    inode in the database and the number of inodes as it was, since the job is
    refused for a priority that was never set. When the system call succeeded,
    the path below is gone all the same. *)
Theorem removal_never_completes `{!PosixRemoves F} (dir : bool) c e (p : list Z) s :
  let call := if dir then FileOps.Rmdir p else FileOps.Unlink p in
  match remove_path dir c e (Some p) s with
  | Ret (r, s') =>
      r = -1 /\ mc s' = mc s /\ InodeStore.db (ds (io s')) = InodeStore.db (ds (io s)) /\
      active_inodes s' = active_inodes s /\ fs s' = (FileOps.sys (fs s) call).2 /\
      ((FileOps.sys (fs s) call).1.1.1 <> -1 -> (FileOps.sys (fs s') (FileOps.Lstat (Some p))).1.1.1 = -1)
  | Fault _ => (FileOps.sys (fs s) call).1.1.1 <> -1
  end.
Proof.
  intros call. destruct (remove_path dir c e (Some p) s) as [[r s']|f] eqn:Hr.
  - cut (r = -1 /\ mc s' = mc s /\ InodeStore.db (ds (io s')) = InodeStore.db (ds (io s)) /\
      active_inodes s' = active_inodes s /\ fs s' = (FileOps.sys (fs s) call).2).
    { intros (G1 & G2 & G3 & G4 & G5). split_and!; [done..|]. rewrite G5. apply sys_removes. }
    apply remove_path_run in Hr as (ret & s1 & Hs & Hr). apply rm_sys_run in Hs as (Hf & Hm & Ha & Hd & _).
    unfold call. rewrite <- Hf, <- Hm, <- Ha, <- Hd. destruct Hr as [(_ & -> & ->)|[_ Hr]]; [done|].
    apply after_sys_intact in Hr as (-> & ? & ? & ? & ?). done.
  - destruct (rm_sys_answer call s) as [s1 Hs]. intros Hm. unfold remove_path, cbind at 1 in Hr.
    change (if dir then FileOps.Rmdir p else FileOps.Unlink p) with call in Hr. rewrite Hs, Hm in Hr. done.
Qed.

Lemma on_db_run {A} (c : cprog (@InodeStore.db_state D) A) (s : @iostate T D) a s' :
  on_db c s = Ret (a, s') -> exists d, c (ds s) = Ret (a, d).
Proof. unfold on_db. destruct (c (ds s)) as [[x d]|]; [|done]. intros [= <- _]. by exists d. Qed.

(** ** The lock *)

#[local] Hint Resolve lf_ret lf_bind lf_cs lf_trees lf_ids lf_db lf_malloc lf_errno lf_get lf_fault lf_expect lf_read_at lf_new_job
  lf_create_payload lf_wait : lock_free.
#[local] Hint Extern 2 (lock_free (match ?x with _ => _ end)) => (destruct x) : lock_free.
#[local] Hint Extern 2 (lock_free (if ?x then _ else _)) => (destruct x) : lock_free.
Lemma lf_fill_sfsds k i ino l : lock_free (fill_sfsds k i ino l).
Proof. revert i l. induction k; intros; cbn [fill_sfsds]; eauto 10 with lock_free. Qed.
Lemma lf_fill_status k j l : lock_free (fill_status k j l).
Proof. revert j l. induction k; intros; cbn [fill_status]; eauto 10 with lock_free. Qed.
#[local] Hint Resolve lf_fill_sfsds lf_fill_status : lock_free.

Section Locks.
Context `{!KeyTreeLaws T}.

Lemma bail_locks {A} (x : A) n m : 0 <= n -> loop_locks n (eq x) ((let! _ := bail_out n m in cret x)%cprog : cprog (@iostate T D) A).
Proof.
  intros Hn s lm a s' Hr Hm Hrun. inv_bind Hrun. injection Hrun as <- <-. left. split; [done|].
  exact (rl_bail_out n m Hn _ _ _ _ Hr Hm E).
Qed.

Lemma prepare_locks cmd c n ino : 0 <= n -> loop_locks n (eq None) (prepare cmd c n ino).
Proof.
  intros Hn. unfold prepare. cbv zeta.
  apply ll_bind; [auto with lock_free|]. intros mem. apply ll_bind; [auto with lock_free|]. intros [m|].
  2: { apply ll_release; [by apply rl_unlock; auto with lock_free|]. intros s a s' Hr. inv_bind Hr. by injection Hr as <- _. }
  apply ll_bind; [auto with lock_free|]. intros [job|]; [|by apply bail_locks].
  repeat (apply ll_bind; [solve [auto with lock_free]|intros ?]).
  match goal with |- loop_locks _ _ (if ?b then _ else _) => destruct b end; [done|].
  repeat (apply ll_bind; [solve [auto with lock_free]|intros ?]). apply ll_keep; [auto with lock_free|]. by intros s a' s' [= <- _].
Qed.

Lemma run_job_locks c e n m job : 0 <= n -> loop_locks n (eq false) (run_job c e n m job).
Proof.
  intros Hn. unfold run_job. apply (ll_next n (eq Failed)); [by apply register_locks|intros r <-|intros [] Hr; [|done]].
  - split; [auto with lock_free|]. by intros s b s' [= <- _].
  - repeat (apply ll_bind; [solve [auto with lock_free]|intros ?]).
    match goal with |- loop_locks _ _ (if ?b then _ else _) => destruct b end; [by apply bail_locks|].
    repeat (apply ll_bind; [solve [auto with lock_free]|intros ?]). apply ll_keep; [auto with lock_free|]. by intros s a' s' [= <- _].
Qed.

(** The inode of the path is not locked, and its node gets new memory. *)
Definition may_remove (s : rstate) (p : list Z) (lm : gmap Z LockTree.mode) : Prop :=
  LockTree.rep (lt (io s)) lm /\ (forall v, Memcache.memcached_get (mc s) p = Some v -> lm !! FileOps.inode_of v = None) /\
  (forall a l, memory (io s) = a :: l -> a = NULL \/ LockTree.locks (lt (io s)) !! a = None).

(** C22. [sfs_unlink] gives the lock it took back on every way out. [sfs_rmdir]
    does, but for one: when the inode cannot be read from the database it
    returns -1 with the inode locked for writing. *)
Theorem removal_locks dir c e p s r s' lm : may_remove s p lm -> remove_path dir c e (Some p) s = Ret (r, s') ->
  LockTree.rep (lt (io s')) lm \/
  dir = true /\ r = -1 /\ exists v ret ino d, Memcache.memcached_get (mc s) p = Some v /\
    InodeStore.get_inode ptr (FileOps.inode_of v) (rm_stack c) (ds (io s)) = Ret ((ret, ino), d) /\ ret <> 0 /\
    LockTree.rep (lt (io s')) (<[FileOps.inode_of v := LockTree.Wr]> lm).
Proof.
  intros (Hrep & Hfree & Hmem) Hr. apply remove_path_run in Hr as (ret & s1 & Hs & Hr).
  apply rm_sys_run in Hs as (_ & Hm & _ & Hds & Hlt & Hmm). rewrite <- Hlt in Hrep, Hmem. rewrite <- Hm in Hfree |- *. rewrite <- Hds. rewrite <- Hmm in Hmem.
  destruct Hr as [(_ & -> & ->)|[_ Hr]]; [by left|]. clear Hm Hlt Hmm Hds.
  unfold after_sys in Hr. inv_bind Hr. apply read_name_run in E as [Ha ->]. destruct a as [v|].
  2: { inv_bind Hr. injection Hr as <- <-. left. apply on_io_run in E as [E _]. by rewrite (lf_errno _ _ _ _ E). }
  assert (Hv : Memcache.memcached_get (mc s1) p = Some v) by (destruct (InodeStore.size p =? 0); done).
  specialize (Hfree v Hv). assert (Hn : 0 <= FileOps.inode_of v) by (apply uwrap_range; lia). clear Ha.
  cbv zeta in Hr. set (n := FileOps.inode_of v) in *. inv_bind Hr. apply on_io_run in E as [E _].
  assert (Ha : a = NULL \/ LockTree.locks (lt (io s1)) !! a = None).
  { unfold malloc in E. destruct (memory (io s1)) as [|b l] eqn:Hmm; [left; by injection E as <-|]. injection E as <- _. by eapply Hmem. }
  rewrite <- (lf_malloc _ _ _ E) in Hrep, Ha. rewrite <- (malloc_ds _ _ _ E). inv_bind Hr. apply on_io_run in E0 as [E0 _].
  rewrite <- (on_locks_ds _ _ _ _ E0).
  destruct (take_io_run LockTree.Wr (io t) lm a n Hrep Hn Hfree Ha) as (r0 & x & Htake & Hx).
  change (on_locks (LockTree.sfs_wrlock a 0 n) (io t) = Ret (r0, x)) in Htake. rewrite Htake in E0. injection E0 as -> ->.
  destruct (a0 =? -1). { inv_bind Hr. injection Hr as <- <-. left. apply on_io_run in E0 as [E0 _]. by rewrite (lf_errno _ _ _ _ E0). }
  assert (Hs : is_Some ((<[n := LockTree.Wr]> lm) !! n)) by (by rewrite lookup_insert_eq).
  inv_bind Hr. apply on_io_run in E0 as [E0 _]. rewrite <- (lf_db _ _ _ _ E0) in Hx.
  destruct (a1.1 =? 0) eqn:Hret; cbn [negb] in Hr.
  2: { inv_bind Hr. apply on_io_run in E1 as [E1 _]. rewrite <- (lf_errno _ _ _ _ E1) in Hx. inv_bind Hr. injection Hr as <- <-.
    destruct dir.
    { injection E2 as _ <-. right. apply Z.eqb_neq in Hret. apply on_db_run in E0 as [d E0]. destruct a1 as [ret0 ino].
      split_and!; [done|done|]. by exists v, ret0, ino, d. }
    left. inv_bind E2. injection E2 as _ <-. apply on_io_run in E3 as [E3 _].
    rewrite <- (delete_insert_id lm n LockTree.Wr Hfree). eapply (rl_unlock n (cret tt) Hn (lf_ret _)); [exact Hx|done|].
    unfold cbind. rewrite E3. done. }
  left. rewrite <- (delete_insert_id lm n LockTree.Wr Hfree). inv_bind Hr. apply on_io_run in E1 as [E1 _]. pose proof E1 as E1'.
  destruct (prepare_locks _ _ _ _ Hn _ _ _ _ Hx Hs E1) as [[<- Hd]|[Hj Hl]]; [by injection Hr as <- <-|].
  destruct a2 as [[[m job] p']|]; [|done]. apply prepare_unset in E1'. inv_bind Hr. apply put_path_io in E2 as (_ & Hjo & Hl2).
  inv_bind Hr. apply on_io_run in E2 as [E2 _]. injection Hr as <- <-. rewrite <- Hl, <- Hl2 in Hx.
  destruct (run_job_locks _ _ _ _ _ Hn _ _ _ _ Hx Hs E2) as [[<- Hd]|[Hj' Hl']]; [done|].
  apply run_job_refused in E2; [by subst|]. unfold unset. by rewrite Hjo.
Qed.
End Locks.
End Removal.

(** * Examples *)

#[local] Existing Instances InodeStore.map_db Memcache.list_cache FileProps.flat_posix.
#[export] Instance map_remove : InodeRemove (gmap Z (list Z)) := fun d k => if d !! k then (1, delete k d) else (0, d).

#[export] Instance flat_removes : PosixRemoves FileProps.flat.
Proof.
  intros f dir p. unfold FileOps.sys, FileProps.flat_posix.
  assert (Hc : FileProps.flat_sys f (if dir then FileOps.Rmdir p else FileOps.Unlink p) =
    if bool_decide (p ∈ f) then ((0, 0, FileProps.no_stat), filter (fun q => q <> p) f) else ((-1, ENOENT, FileProps.no_stat), f))
    by (by destruct dir). rewrite Hc. case_bool_decide; [|by intros []]. intros _. cbn.
  rewrite bool_decide_eq_false_2; [done|]. rewrite list_elem_of_filter. by intros [].
Qed.

(** "/a" is the file of [demo_record], "/b" leads to an inode that is not in
    the database. *)
Definition demo_names : Memcache.cache := [([47; 97], FileOps.inode_str 7); ([47; 98], FileOps.inode_str 9)].
Definition demo_rstate : rstate := mkR (demo_io demo_record [100; 300; 5000; 400; 450; 470; 501; 502; 600; 700]) demo_names ([[47; 97]; [47; 98]] : FileProps.flat) 2 ∅.
Definition demo_rm : rm_call := mkRm 3 demo_junk zero_inode.
Definition demo_idle : @env (gmap Z Z) := mkEnv (cret tt) (cret tt) (cret tt) false.

Lemma demo_remove_run dir p : p = [47; 97] \/ p = [47; 98] ->
  exists s', remove_path (InodeStore.zeros 8) 1000 0 64 [] dir demo_rm demo_idle (Some p) demo_rstate = Ret (-1, s').
Proof. intros [->| ->]; destruct dir; eexists; vm_compute; reflexivity. Qed.

(** The file "/a" is gone below; its name and its inode are still there. *)
Lemma removal_never_completes_witness :
  exists s', remove_path (InodeStore.zeros 8) 1000 0 64 [] false demo_rm demo_idle (Some [47; 97]) demo_rstate = Ret (-1, s') /\
    mc s' = demo_names /\ active_inodes s' = 2 /\ (FileOps.sys (fs s') (FileOps.Lstat (Some [47; 97]))).1.1.1 = -1.
Proof.
  destruct (demo_remove_run false [47; 97] (or_introl eq_refl)) as [s' Hr]. exists s'. split; [exact Hr|].
  pose proof (removal_never_completes (InodeStore.zeros 8) 1000 0 64 [] false demo_rm demo_idle [47; 97] demo_rstate) as Ht.
  cbv zeta in Ht. rewrite Hr in Ht. destruct Ht as (_ & Hm & _ & Ha & _ & Hg). split; [exact Hm|]. split; [exact Ha|].
  apply Hg. vm_compute. discriminate.
Defined.

(** A file that was never written has no primary daemon: its removal
    dereferences NULL, after the path below is gone. *)
Definition unwritten_record : list Z := InodeStore.zeros 4256 ++ le_bytes 8 7 ++ InodeStore.zeros 16.
Definition unwritten_rstate := set_io (demo_io unwritten_record [100; 300; 5000; 400; 450; 470; 501; 502; 600; 700]) demo_rstate.
Theorem unwritten_removal_faults dir :
  remove_path (InodeStore.zeros 8) 1000 0 64 [] dir demo_rm demo_idle (Some [47; 97]) unwritten_rstate = Fault NullDeref.
Proof. destruct dir; vm_compute; reflexivity. Qed.

Lemma removal_locks_witness :
  exists s', remove_path (InodeStore.zeros 8) 1000 0 64 [] true demo_rm demo_idle (Some [47; 98]) demo_rstate = Ret (-1, s') /\
    (LockTree.rep (lt (io s')) ∅ \/
     true = true /\ -1 = -1 /\ exists v ret ino d, Memcache.memcached_get demo_names [47; 98] = Some v /\
       InodeStore.get_inode (InodeStore.zeros 8) (FileOps.inode_of v) zero_inode (InodeStore.mkDb [] {[7 := demo_record]}) = Ret ((ret, ino), d) /\
       ret <> 0 /\ LockTree.rep (lt (io s')) (<[FileOps.inode_of v := LockTree.Wr]> ∅)).
Proof.
  destruct (demo_remove_run true [47; 98] (or_intror eq_refl)) as [s' Hr]. exists s'. split; [exact Hr|].
  apply (removal_locks (InodeStore.zeros 8) 1000 0 64 [] true demo_rm demo_idle [47; 98] demo_rstate (-1) s' ∅); [|exact Hr].
  split; [exact LockTree.start_rep|]. split.
  - intros v _. reflexivity.
  - intros a l [= <- _]. right. reflexivity.
Defined.

End Removal.
