(* ===== verification/Chunks.v ===== *)
(** The chunks of a storage daemon: sfsd/src/sfsd_chunk.c.

    A daemon stores the extents of files on chunks, which are exports that it
    mounts. The array of chunks is a block of memory that is replaced when a
    chunk is added; a new extent goes to the next chunk in turn; the path of an
    extent leads back to the chunk that has it. *)
From Stdlib Require Import ZArith Lia String.
From stdpp Require Import base gmap list numbers.
From S2P Require Import Prelude CString CFormat InodeStore InodeFields.

Module Chunks.
Import InodeFields.
Abbreviation size := InodeStore.size.
Abbreviation sub := InodeStore.sub.
Abbreviation le := InodeStore.le.

Definition EINVAL : Z := 22.
Definition NFS : Z := 1.
Definition REACHABLE : Z := 3.
Definition IPV6_ADDR_MAX : Z := 40.
Definition MAX_MOUNT_POINT_LEN : Z := 16.

(** [ip] is the array of the union, [ipv6_address]. *)
Record sstack_address : Type := mkAddress { addr_protocol : Z; ip : list Z }.

Record sfsd_storage : Type := mkStorage {
  path : list Z;
  mount_point : list Z;
  weight : Z;
  nblocks : Z;
  protocol : Z;
  num_chunks_written : Z;
  address : sstack_address
}.

(** What [chunk->storage] points to. *)
Inductive block : Type := Null | Live (l : list sfsd_storage) | Freed.

(** The chunk domain, and the [static] variable of the scheduler. *)
Record domain : Type := mkDomain {
  state : Z;
  num_chunks : Z;
  size_in_blks : Z;
  storage : block;
  next_scheduled : Z
}.
Definition set_chunks (n sz : Z) (b : block) (d : domain) : domain := mkDomain (state d) n sz b (next_scheduled d).

(** ** Handles

    The bytes of a [sstack_file_handle_t]. *)
Definition h_name_len (h : list Z) : Z := le (sub 0 8 h).
Definition h_name (h : list Z) : list Z := cstr (sub 8 PATH_MAX h).
Definition h_proto (h : list Z) : Z := le (sub 4104 4 h).
Definition h_addr_protocol (h : list Z) : Z := le (sub 4108 4 h).
Definition h_ip (h : list Z) : list Z := sub 4112 IPV6_ADDR_MAX h.

(** [strncmp] answers 0. *)
Definition strn_eq (n : Z) (a b : list Z) : bool :=
  bool_decide (cstr (take (Z.to_nat n) a) = cstr (take (Z.to_nat n) b)).

(** [strstr] finds the string [x] in the string [s]. *)
Fixpoint starts (x s : list Z) : bool :=
  match x, s with
  | [], _ => true
  | c :: x', d :: s' => (c =? d) && starts x' s'
  | _, [] => false
  end.
Fixpoint strstr (s x : list Z) : bool :=
  starts x s || match s with [] => false | _ :: s' => strstr s' x end.

(** * The operations *)

Definition sfsd_chunk_domain_init (next : Z) : domain := mkDomain REACHABLE 0 0 Null next.

(** [free(chunk->storage); free(chunk)] *)
Definition sfsd_chunk_domain_destroy : cprog domain unit :=
  (let! d := cget in
   match storage d with Freed => cfault UseAfterFree | _ => cret tt end)%cprog.

(** The elements of the array up to [num_chunks], as [memcpy] reads them. *)
Definition copied : cprog domain (list sfsd_storage) :=
  (let! d := cget in
   if num_chunks d =? 0 then cret []
   else
     match storage d with
     | Live l => if num_chunks d <=? Z.of_nat (length l) then cret (take (Z.to_nat (num_chunks d)) l) else cfault OutOfBounds
     | Null => cfault NullDeref
     | Freed => cfault UseAfterFree
     end)%cprog.

(** [strncpy(storage->mount_point, path, MAX_MOUNT_POINT_LEN)] *)
Definition copy_mount (p : list Z) : list Z :=
  let x := take (Z.to_nat MAX_MOUNT_POINT_LEN) p in (x ++ replicate (Z.to_nat MAX_MOUNT_POINT_LEN - length x) 0)%list.
Definition set_mount (p : list Z) (s : sfsd_storage) : sfsd_storage :=
  mkStorage (path s) (copy_mount p) (weight s) (nblocks s) (protocol s) (num_chunks_written s) (address s).

(** [sprintf(source, "%s:%s", address, path)] into PATH_MAX + 20 bytes and
    [sprintf(arguments, "addr=%s", address)] into 256 bytes stay inside the
    arrays they read and write. *)
Definition terminated (x : list Z) : bool := existsb (Z.eqb 0) x.
Definition source_fits (s : sfsd_storage) : bool :=
  let a := ip (address s) in
  terminated a && terminated (path s) && (size (cstr a) + 1 + size (cstr (path s)) <? PATH_MAX + 20) && (5 + size (cstr a) <? 256).

(** [tmp] is the answer of [mkdtemp], [mounted] the one of [mount], [mem]
    whether the array can be allocated, [dup] whether [strdup] can. When the
    array cannot, [free] gets the address of an array on the stack; when the
    copy of the path cannot, the chunk is there and the answer is NULL. *)
Definition sfsd_add_chunk (tmp : option (list Z)) (mounted mem dup : bool) (s : sfsd_storage) : cprog domain (option (list Z)) :=
  (if negb (protocol s =? NFS) then cret None
   else
     match tmp with
     | None => cret None
     | Some p =>
         if negb (source_fits s) then cfault OutOfBounds
         else if negb mounted then cret None
         else if negb mem then cfault AssertFail
         else
           let! l := copied in
           cmod (fun d => set_chunks (uwrap 32 (num_chunks d + 1)) (uwrap 64 (size_in_blks d + nblocks s)) (Live (l ++ [set_mount p s])) d) ;;;
           cret (if dup then Some p else None)
     end)%cprog.

Definition load_chunk (i : nat) : cprog domain sfsd_storage :=
  (let! d := cget in
   match storage d with
   | Live l => cexpect OutOfBounds (l !! i)
   | Null => cfault NullDeref
   | Freed => cfault UseAfterFree
   end)%cprog.

(** A pointer to a chunk: to the one in a command, or to an element of the
    array of the domain. *)
Inductive chunk_ptr : Type := Message (s : sfsd_storage) | Element (i : nat).
Definition deref (p : chunk_ptr) : cprog domain sfsd_storage :=
  match p with Message s => cret s | Element i => load_chunk i end.

(** The search compares the addresses of the arrays [path], which are the same
    only for the same object; from [i] on with [k] chunks left. *)
Fixpoint find_chunk (k i : nat) (p : chunk_ptr) : cprog domain (option nat) :=
  match k with
  | O => cret None
  | S k' =>
      (let! s := deref p in
       if (protocol s =? NFS) && match p with Element j => Nat.eqb i j | Message _ => false end then cret (Some i)
       else find_chunk k' (S i) p)%cprog
  end.

(** [memmove(ptr, ptr + sizeof(sfsd_storage_t), k)]: [k] bytes of the path of
    the next chunk, for fewer chunks than a path has bytes. *)
Definition move_path (k : Z) (next s : sfsd_storage) : sfsd_storage :=
  mkStorage (take (Z.to_nat k) (path next) ++ drop (Z.to_nat k) (path s)) (mount_point s) (weight s) (nblocks s) (protocol s) (num_chunks_written s) (address s).

(** The removal of chunk [i], which [storage] points to. With a new array, the
    old one is freed before [storage->nblocks] is read; all chunks are copied
    into it when the last one is removed, and there is room for one less. *)
Definition remove_found (mem : bool) (i : nat) : cprog domain Z :=
  (let! d := cget in
   let! s := load_chunk i in
   let n := num_chunks d in
   if mem then if Z.of_nat i =? n - 1 then cfault OutOfBounds else cfault UseAfterFree
   else if Z.of_nat i =? n - 1 then
     cput (set_chunks (n - 2) (uwrap 64 (size_in_blks d - 2 * nblocks s)) (storage d) d) ;;; cret 0
   else
     let k := n - 2 - Z.of_nat i in
     let! next := load_chunk (S i) in
     match storage d with
     | Live l =>
         if size (path s) <? k then cfault OutOfBounds
         else cput (set_chunks (n - 1) (uwrap 64 (size_in_blks d - nblocks s)) (Live (<[i := move_path k next s]> l)) d) ;;; cret 0
     | _ => cfault NullDeref
     end)%cprog.

(** [mem]: whether the new array can be allocated. *)
Definition sfsd_remove_chunk (mem : bool) (p : chunk_ptr) : cprog domain Z :=
  (let! d := cget in
   if num_chunks d =? 0 then cret (-1)
   else if num_chunks d =? 1 then
     let! s := deref p in
     match storage d with
     | Freed => cfault UseAfterFree
     | _ => cput (set_chunks 0 (uwrap 64 (size_in_blks d - nblocks s)) Freed d) ;;; cret 0
     end
   else
     let! f := find_chunk (Z.to_nat (num_chunks d)) 0 p in
     match f with
     | None => cret (-1)
     | Some i => remove_found mem i
     end)%cprog.

(** The chunk that is found is the one of the argument: the size of the domain
    and of the chunk stay as they are. *)
Definition sfsd_update_chunk (p : chunk_ptr) : cprog domain Z :=
  (let! d := cget in
   if num_chunks d =? 0 then cret (-1)
   else
     let! f := find_chunk (Z.to_nat (num_chunks d)) 0 p in
     match f with
     | None => cret (-1)
     | Some i =>
         let! temp := load_chunk i in
         let! s := deref p in
         cmod (fun d => set_chunks (num_chunks d) (uwrap 64 (size_in_blks d + nblocks s - nblocks temp)) (storage d) d) ;;;
         cret 0
     end)%cprog.

(** [sfsd_chunk_schedule_rr]: the counter is an [int], the modulus an
    unsigned number. *)
Definition sfsd_chunk_schedule_rr : cprog domain Z :=
  (let! d := cget in
   if num_chunks d =? 0 then cret (- EINVAL)
   else
     cput (mkDomain (state d) (num_chunks d) (size_in_blks d) (storage d) (swrap 32 (next_scheduled d + 1))) ;;;
     cret (swrap 32 (uwrap 32 (next_scheduled d) mod num_chunks d)))%cprog.

(** A chunk has the extent of a handle: protocol, address and export agree. *)
Definition has_extent (h : list Z) (s : sfsd_storage) : bool :=
  (h_proto h =? protocol s) &&
  negb (negb (strn_eq IPV6_ADDR_MAX (h_ip h) (ip (address s))) || negb (h_addr_protocol h =? addr_protocol (address s))) &&
  strstr (h_name h) (cstr (path s)).

(** The mount point and the export of the first chunk that has it, from chunk
    [i] on with [k] left. *)
Fixpoint find_mount (k i : nat) (h : list Z) : cprog domain (option (list Z * list Z)) :=
  match k with
  | O => cret None
  | S k' =>
      (let! s := load_chunk i in
       if has_extent h s then cret (Some (cstr (mount_point s), cstr (path s))) else find_mount k' (S i) h)%cprog
  end.
Definition get_mount_path (h : option (list Z)) : cprog domain (option (list Z * list Z)) :=
  (let! d := cget in
   match h with
   | None => cret None
   | Some h => find_mount (Z.to_nat (num_chunks d)) 0 h
   end)%cprog.

(** * The domain is a list of chunks *)

(** The array has the chunks that are counted. *)
Definition rep (d : domain) (l : list sfsd_storage) : Prop :=
  num_chunks d = Z.of_nat (length l) /\
  match storage d with Live l' => l' = l | Null | Freed => l = [] end.

Inductive cop : Type :=
  | AddChunk (tmp : option (list Z)) (mounted dup : bool) (s : sfsd_storage)
  | RemoveChunk (mem : bool) (s : sfsd_storage)
  | UpdateChunk (s : sfsd_storage)
  | Schedule
  | MountPath (h : list Z).

(** An answer: a number, or a pair of strings. *)
Definition answer : Type := Z * option (list Z * list Z).
Definition run_cop (o : cop) : cprog domain answer :=
  (match o with
   | AddChunk tmp mounted dup s => let! r := sfsd_add_chunk tmp mounted true dup s in cret (0, (fun p => (p, [])) <$> r)
   | RemoveChunk mem s => let! r := sfsd_remove_chunk mem (Message s) in cret (r, None)
   | UpdateChunk s => let! r := sfsd_update_chunk (Message s) in cret (r, None)
   | Schedule => let! r := sfsd_chunk_schedule_rr in cret (r, None)
   | MountPath h => let! r := get_mount_path (Some h) in cret (0, r)
   end)%cprog.

(** [c] counts the extents that were scheduled. *)
Definition spec_cop (o : cop) (c : Z) (l : list sfsd_storage) : answer * list sfsd_storage :=
  match o with
  | AddChunk (Some p) true dup s =>
      if protocol s =? NFS then ((0, if dup then Some (p, []) else None), (l ++ [set_mount p s])%list) else ((0, None), l)
  | AddChunk _ _ _ _ => ((0, None), l)
  | RemoveChunk _ _ => match l with [_] => ((0, None), []) | _ => ((-1, None), l) end
  | UpdateChunk _ => ((-1, None), l)
  | Schedule => match l with [] => ((- EINVAL, None), []) | _ => ((c mod Z.of_nat (length l), None), l) end
  | MountPath h => ((0, (fun s => (cstr (mount_point s), cstr (path s))) <$> head (List.filter (has_extent h) l)), l)
  end.
(** The strings of a chunk that is added fit the buffers of the mount. *)
Definition cop_ok (o : cop) : Prop := match o with AddChunk _ _ _ s => source_fits s = true | _ => True end.
Definition count_cop (o : cop) (l : list sfsd_storage) (c : Z) : Z :=
  match o, l with Schedule, _ :: _ => c + 1 | _, _ => c end.

Lemma find_mount_run h d l : rep d l -> forall k i, (k + i = length l)%nat ->
  find_mount k i h d = Ret ((fun s => (cstr (mount_point s), cstr (path s))) <$> head (List.filter (has_extent h) (drop i l)), d).
Proof.
  intros [Hn Hs] k. induction k as [|k IH]; intros i Hk; cbn [find_mount].
  { rewrite drop_ge by lia. done. }
  destruct (lookup_lt_is_Some_2 l i) as [s Hi]; [lia|]. rewrite (drop_S l s i Hi). unfold cbind at 1, load_chunk.
  unfold cbind at 1, cget. destruct (storage d) as [|l'|]; [by subst| |by subst]. subst l'. rewrite Hi. cbn.
  destruct (has_extent h s); [done|]. apply IH. lia.
Qed.

Lemma load_run d l i c : rep d l -> l !! i = Some c -> load_chunk i d = Ret (c, d).
Proof. intros [_ Hs] Hi. unfold load_chunk, cbind, cget. destruct (storage d) as [|l'|]; [by subst| |by subst]. subst l'. by rewrite Hi. Qed.

Lemma schedule_run d l : rep d l -> l <> [] -> 0 <= next_scheduled d -> next_scheduled d + 1 < 2 ^ 31 -> Z.of_nat (length l) + 1 < 2 ^ 31 ->
  exists d', sfsd_chunk_schedule_rr d = Ret (next_scheduled d mod Z.of_nat (length l), d') /\ rep d' l /\ next_scheduled d' = next_scheduled d + 1.
Proof.
  intros [Hn Hs] Hl H0 Hc1 Hlen. unfold sfsd_chunk_schedule_rr, cbind, cget. rewrite Hn. destruct l as [|x l]; [done|].
  rewrite (proj2 (Z.eqb_neq _ 0)) by (cbn; lia). eexists. split.
  - rewrite uwrap_small by lia. rewrite (swrap_small 32 (_ mod _)); [reflexivity|lia|].
    assert (0 <= next_scheduled d mod Z.of_nat (length (x :: l)) <= next_scheduled d)
      by (split; [apply Z.mod_pos_bound; cbn; lia|apply Z.mod_le; cbn; lia]). lia.
  - split; [by split|]. cbn. rewrite swrap_small; lia.
Qed.

(** The chunk in a command is no element of the array. *)
Lemma find_message s d : forall k i, find_chunk k i (Message s) d = Ret (None, d).
Proof. induction k as [|k IH]; intros i; [done|]. cbn [find_chunk deref]. unfold cbind, cret. rewrite andb_false_r. apply IH. Qed.

Lemma cop_refines o c d l : cop_ok o -> rep d l -> next_scheduled d = c -> 0 <= c -> c + 1 < 2 ^ 31 -> Z.of_nat (length l) + 1 < 2 ^ 31 ->
  exists d', run_cop o d = Ret ((spec_cop o c l).1, d') /\ rep d' (spec_cop o c l).2 /\ next_scheduled d' = count_cop o l c.
Proof.
  intros Hok Hr Hc H0 Hc1 Hl. pose proof Hr as [Hn Hs]. destruct o as [tmp mounted dup s|mem s|s| |h]; cbn [run_cop spec_cop count_cop].
  - unfold sfsd_add_chunk. destruct tmp as [p|]; [|destruct (protocol s =? NFS); exists d; done].
    cbn [cop_ok] in Hok. rewrite Hok. destruct mounted; [|destruct (protocol s =? NFS); exists d; done].
    destruct (protocol s =? NFS); [|exists d; done]. cbn [negb].
    assert (Hcp : copied d = Ret (l, d)).
    { unfold copied, cbind, cget. rewrite Hn. destruct l as [|x l]; [done|]. rewrite (proj2 (Z.eqb_neq _ 0)) by (cbn; lia).
      destruct (storage d); [done| |done]. subst. rewrite Z.leb_refl, Nat2Z.id, firstn_all. done. }
    eexists. split; [unfold cbind; rewrite Hcp; by destruct dup|]. split; [|done]. split; [|done]. cbn.
    rewrite Hn, length_app, uwrap_small by lia. cbn. lia.
  - unfold sfsd_remove_chunk, cbind, cget. destruct l as [|x [|y l]]; rewrite Hn.
    + exists d. done.
    + destruct (storage d) as [|l'|]; [done| |done]. eexists. split; [reflexivity|]. done.
    + rewrite (proj2 (Z.eqb_neq _ 0)), (proj2 (Z.eqb_neq _ 1)) by (cbn; lia). rewrite find_message. exists d. done.
  - unfold sfsd_update_chunk, cbind, cget. exists d. destruct (num_chunks d =? 0); [done|]. rewrite find_message. done.
  - destruct l as [|x l].
    + exists d. unfold sfsd_chunk_schedule_rr, cbind, cget. rewrite Hn. done.
    + destruct (schedule_run d (x :: l) Hr) as (d' & Hd & Hr' & Hn'); [done|lia..|]. exists d'. unfold cbind. rewrite Hd, Hn'. by subst c.
  - unfold get_mount_path, cbind, cget. rewrite Hn, Nat2Z.id, (find_mount_run h d l Hr (length l) 0 ltac:(lia)). exists d. done.
Qed.

Fixpoint run_cops (l : list cop) : cprog domain (list answer) :=
  match l with
  | [] => cret []
  | o :: l' => (let! r := run_cop o in let! rs := run_cops l' in cret (r :: rs))%cprog
  end.
Fixpoint spec_cops (l : list cop) (c : Z) (chunks : list sfsd_storage) : list answer * list sfsd_storage :=
  match l with
  | [] => ([], chunks)
  | o :: l' =>
      let '(r, chunks') := spec_cop o c chunks in
      let '(rs, chunks'') := spec_cops l' (count_cop o chunks c) chunks' in
      (r :: rs, chunks'')
  end.


Fixpoint schedules (k : nat) : cprog domain (list Z) :=
  match k with
  | O => cret []
  | S k' => (let! r := sfsd_chunk_schedule_rr in let! rs := schedules k' in cret (r :: rs))%cprog
  end.

Lemma schedules_run k d l : rep d l -> l <> [] -> 0 <= next_scheduled d -> next_scheduled d + Z.of_nat k < 2 ^ 31 ->
  Z.of_nat (length l) + 1 < 2 ^ 31 ->
  exists d', schedules k d = Ret ((fun i => (next_scheduled d + Z.of_nat i) mod Z.of_nat (length l)) <$> seq 0 k, d') /\ rep d' l.
Proof.
  intros Hr Hl. revert d Hr. induction k as [|k IH]; intros d Hr H0 Hk Hlen; [by exists d|].
  destruct (schedule_run d l Hr Hl) as (d1 & Hs & Hr1 & Hc1); [lia..|].
  destruct (IH d1 Hr1) as (d2 & H2 & Hr2); [lia..|]. exists d2. split; [|done]. cbn [schedules]. unfold cbind. rewrite Hs, H2. cbn [seq fmap list_fmap].
  rewrite Z.add_0_r, <- fmap_S_seq, <- list_fmap_compose. unfold cret. cbn [length]. do 3 f_equal.
  apply list_fmap_ext. intros _ i _. unfold compose. f_equal. lia.
Qed.

(** C33. The scheduler is fair: as many new extents as there are chunks go to
    different chunks, one to each. *)
Theorem schedule_fair d l : rep d l -> l <> [] -> 0 <= next_scheduled d -> next_scheduled d + Z.of_nat (length l) + 1 < 2 ^ 31 ->
  exists rs d', schedules (length l) d = Ret (rs, d') /\ rep d' l /\ rs ≡ₚ (Z.of_nat <$> seq 0 (length l)).
Proof.
  intros Hr Hl H0 Hlen. destruct (schedules_run (length l) d l Hr Hl H0 ltac:(lia) ltac:(lia)) as (d' & Hd & Hr').
  eexists _, d'. split; [exact Hd|]. split; [done|]. set (n := length l) in *. set (c := next_scheduled d) in *.
  assert (Hn : 0 < Z.of_nat n) by (unfold n; destruct l; [done|cbn; lia]).
  apply submseteq_length_Permutation; [|by rewrite !length_fmap, !length_seq].
  apply NoDup_submseteq.
  - apply NoDup_fmap_2_strong; [|apply NoDup_seq]. intros i j Hi Hj He. apply elem_of_seq in Hi, Hj.
    assert (Hd2 : (Z.of_nat i - Z.of_nat j) mod Z.of_nat n = 0).
    { replace (Z.of_nat i - Z.of_nat j) with ((c + Z.of_nat i) - (c + Z.of_nat j)) by lia. rewrite Zminus_mod, He, Z.sub_diag. by apply Z.mod_0_l; lia. }
    apply Z.mod_divide in Hd2 as [q Hq]; [|lia]. assert (q = 0) by nia. lia.
  - intros x Hx. apply list_elem_of_fmap in Hx as (i & -> & Hi). apply list_elem_of_fmap.
    exists (Z.to_nat ((c + Z.of_nat i) mod Z.of_nat n)). pose proof (Z.mod_pos_bound (c + Z.of_nat i) (Z.of_nat n) Hn).
    split; [lia|]. apply elem_of_seq. lia.
Qed.

(** A removal that succeeds leaves a pointer to the freed array: the
    destruction of the domain frees it again. *)
Theorem destroy_after_removal_faults mem p d d1 : num_chunks d = 1 -> sfsd_remove_chunk mem p d = Ret (0, d1) ->
  sfsd_chunk_domain_destroy d1 = Fault UseAfterFree.
Proof.
  intros Hn. unfold sfsd_remove_chunk, cbind at 1, cget. rewrite Hn. cbn [Z.eqb Pos.eqb]. intros Hr. inv_bind Hr.
  destruct (storage d); [| |done]; injection Hr as <-; done.
Qed.

End Chunks.

(** * Examples *)
Module ChunksDemo.
Import Chunks.

(** Two chunks, "/exp/a" and "/exp/b". *)
Definition pad (n : Z) (s : list Z) : list Z := (s ++ InodeStore.zeros (n - size s))%list.
Definition demo_chunk (x : string) : sfsd_storage :=
  mkStorage (pad 256 (bytes "/exp/" ++ bytes x)) (pad 16 (bytes "/tmp/m" ++ bytes x)) 1 100 NFS 0 (mkAddress 1 (pad 40 (bytes "10.0.0.1"))).
Definition demo_chunks : list sfsd_storage := [demo_chunk "a"; demo_chunk "b"].
Definition demo_domain : domain := mkDomain REACHABLE 2 200 (Live demo_chunks) 1.

Lemma demo_domain_rep : rep demo_domain demo_chunks.
Proof. by split. Qed.

(** A lookup, two extents, a third chunk, three extents and a removal. *)
Definition demo_ops : list cop :=
  [MountPath (InodeStore.zeros 4152); Schedule; Schedule; AddChunk (Some (bytes "/tmp/mc")) true true (demo_chunk "c"); Schedule; Schedule; Schedule; RemoveChunk true (demo_chunk "a")].

Lemma schedule_fair_witness : exists rs d', schedules 2 demo_domain = Ret (rs, d') /\ rep d' demo_chunks /\ rs ≡ₚ [0; 1].
Proof. apply (schedule_fair demo_domain demo_chunks demo_domain_rep); vm_compute; (reflexivity || discriminate). Defined.

Lemma destroy_after_removal_faults_witness : exists d1, sfsd_remove_chunk true (Message (demo_chunk "b")) (mkDomain REACHABLE 1 100 (Live [demo_chunk "a"]) 0) = Ret (0, d1) /\
  sfsd_chunk_domain_destroy d1 = Fault UseAfterFree.
Proof.
  eexists. split; [reflexivity|].
  apply (destroy_after_removal_faults true (Message (demo_chunk "b")) (mkDomain REACHABLE 1 100 (Live [demo_chunk "a"]) 0)); reflexivity.
Defined.
End ChunksDemo.
