(* ===== verification/Daemon.v ===== *)
(** The storage daemon: the commands of sfsd/src/sfsd_threads.c and the
    functions of sfsd/src/sfsd_ops.c that execute them.

    An extent is a file on a chunk ([Chunks]); the inode ([InodeStore]) has the
    handle and the checksum of every extent. *)
From Stdlib Require Import ZArith Lia String.
From stdpp Require Import base gmap list numbers.
From S2P Require Import Prelude CString CFormat InodeStore InodeFields FileOps Chunks.
Import InodeStore.

Module Daemon.
Import InodeFields Chunks.

Definition ENOMEM : Z := 12.
Definition ENODATA : Z := 61.
Definition SSTACK_SUCCESS : Z := 100.
Definition SSTACK_ECKSUM : Z := 102.
Definition MAX_EXTENT_SIZE : Z := 65536.
Definition MAX_DATA_STRIPES : Z := 8.
Definition S_IFMT : Z := 61440.
Definition S_IFDIR : Z := 16384.

(** The files of the mounted exports: [open] with O_DIRECT and [pread], [open]
    with O_CREAT, and [open] with [write] at the start of the file. An error is
    [errno]; the answer of a direct read at a length or an offset that the file
    system does not take is one of them. *)
Class Disk (F : Type) := {
  pread : F -> list Z -> Z -> Z -> Z + list Z;
  creat : F -> list Z -> option Z * F;
  pwrite : F -> list Z -> list Z -> (Z + Z) * F
}.

(** The system calls on names: the return value, [errno], and what is filled,
    a [struct stat] or the bytes of a link. *)
Inductive path_call : Type :=
  | PLstat (p : list Z)
  | PAccess (p : list Z) (mode : Z)
  | PReadlink (p : list Z) (len : Z)
  | PMkdir (p : list Z) (mode : Z)
  | PSymlink (p q : list Z)
  | PRemove (p : list Z)
  | PRmdir (p : list Z)
  | PRename (p q : list Z)
  | PLink (p q : list Z).
Class PathCalls (F : Type) := path_sys : F -> path_call -> (Z * Z * FileOps.stat * list Z) * F.

Section Daemon.
Context {D : Type} `{InodeDb D} {F : Type} `{Disk F} `{PathCalls F}.
(** The arguments of [InodeStore]; the checksum of the data, [crc_pcl] of the
    CRC library; the bytes of a locked [pthread_mutex_t], and what [malloc]
    leaves in a handle and in a data buffer. *)
Context (moves : bool) (ptr after : list Z) (crc : list Z -> Z) (locked junk_handle fresh_buf : list Z).

Record dstate : Type := mkD { ds : @db_state D; dom : domain; fs : F }.
Definition on_ds {A} (c : cprog (@db_state D) A) : cprog dstate A := fun s =>
  match c (ds s) with Ret (a, x) => Ret (a, mkD x (dom s) (fs s)) | Fault f => Fault f end.
Definition on_dom {A} (c : cprog domain A) : cprog dstate A := fun s =>
  match c (dom s) with Ret (a, x) => Ret (a, mkD (ds s) x (fs s)) | Fault f => Fault f end.

Definition e_cksum (e : sstack_extent) : Z := le (sub 24 4 (e_raw e)).

(** * Reading *)

Record read_cmd : Type := mkRead { r_inode_no : Z; r_offset : Z; r_ecode : Z; r_handle : list Z }.

(** The answer: [command_ok], and the length and the buffer of the data. *)
Definition read_resp : Type := Z * option (Z * list Z).

Definition match_extent (h1 h2 : list Z) : bool :=
  (h_proto h1 =? h_proto h2) && strn_eq IPV6_ADDR_MAX (h_ip h1) (h_ip h2) && strn_eq PATH_MAX (sub 8 PATH_MAX h1) (sub 8 PATH_MAX h2).

(** The search of [get_extent] with an invalid index, from [i] on with [k]
    extents left. *)
Fixpoint find_extent (k : nat) (i : Z) (ino : sstack_inode) (h : list Z) : cprog dstate (option Z) :=
  match k with
  | O => cret None
  | S k' =>
      (let! e := cexpect OutOfBounds (i_extent ino !! (SIZEOF_EXTENT * i)) in
       let! x := read_ptr (e_path e) SIZEOF_HANDLE in
       if match_extent h x then cret (Some i) else find_extent k' (i + 1) ino h)%cprog
  end.

(** The index of the extent and the path of its file; [None] for -EINVAL. *)
Definition get_extent (ino : sstack_inode) (h : list Z) : cprog dstate (option (Z * list Z)) :=
  (let! i := find_extent (count (i_numextents (i_fixed ino))) 0 ino h in
   match i with
   | None => cret None
   | Some i =>
       let! m := on_dom (get_mount_path (Some h)) in
       match m with
       | None => cret None
       | Some (q, r) =>
           let mounted := (q ++ drop (length r) (h_name h))%list in
           if size mounted <? PATH_MAX then cret (Some (i, mounted)) else cfault OutOfBounds
       end
   end)%cprog.

(** The number of bytes read and the buffer; an error of the system is
    returned as a positive number. *)
Definition read_check_extent (path : list Z) (read_size offset cksum : Z) (buffer : list Z) : cprog dstate (Z * list Z) :=
  (let! s := cget in
   match pread (fs s) path read_size offset with
   | inl e => cret (e, buffer)
   | inr data =>
       let buffer := (data ++ drop (length data) buffer)%list in
       cret (if crc data =? cksum then swrap 32 (size data) else - SSTACK_ECKSUM, buffer)
   end)%cprog.

(** [read_erasure_code]: without memory for a buffer the loop that frees goes
    below the array; the path that is opened is never set, because there is no
    handle to find the mount point with. *)
Definition read_erasure_code (path_mem stripe_mem : bool) : cprog dstate Z :=
  if negb path_mem then cret (- ENOMEM) else if negb stripe_mem then cfault OutOfBounds else cfault Uninit.

(** What can be allocated: the inode, the buffer, and for the erasure code
    the path and the first stripe. *)
Record read_memory : Type := mkReadMem { inode_ok : bool; buffer_ok : bool; path_ok : bool; stripe_ok : bool }.

Definition sstack_read (m : read_memory) (c : read_cmd) : cprog dstate read_resp :=
  (if negb (inode_ok m) then cret (- ENOMEM, None)
   else
     let! r := on_ds (get_inode ptr (r_inode_no c) zero_inode) in
     if negb (r.1 =? 0) then cret (- EINVAL, None)
     else
       let ino := r.2 in
       let! x := get_extent ino (r_handle c) in
       match x with
       | None => cret (- EINVAL, None)
       | Some (i, path) =>
           if negb (r_ecode c =? 0) then
             let! e := read_erasure_code (path_ok m) (stripe_ok m) in
             cret (e, None)
           else if negb (buffer_ok m) then cret (- ENOMEM, None)
           else
             let! e := cexpect OutOfBounds (i_extent ino !! (SIZEOF_EXTENT * i)) in
             let offset := swrap 64 (r_offset c - e_offset e) in
             let! r := read_check_extent path MAX_EXTENT_SIZE offset (e_cksum e) fresh_buf in
             if r.1 <? 0 then cret (- ENODATA, None) else cret (SSTACK_SUCCESS, Some (r.1, r.2))
       end)%cprog.

(** * Writing *)

(** A plugin, when it is loaded: [apply] on a buffer and its size. *)
Definition plugin : Type := option (option (list Z) -> Z -> Z * option (list Z)).

Record write_cmd : Type := mkWrite {
  w_inode_no : Z;
  w_offset : Z;
  w_count : Z;
  w_len : Z;
  w_buf : option (list Z);
  w_plugins : list plugin;
  w_handle : list Z
}.

Fixpoint apply_policies (l : list plugin) (run_buf policy_buf : option (list Z)) (in_size out_size : Z) : Z * option (list Z) :=
  match l with
  | [] => (out_size, policy_buf)
  | None :: l' => apply_policies l' run_buf policy_buf in_size out_size
  | Some apply :: l' =>
      let '(out, buf) := apply run_buf in_size in
      if uwrap 64 out =? 0 then apply_policies l' run_buf buf in_size 0
      else apply_policies l' buf buf (uwrap 64 out) (uwrap 64 out)
  end.

(** The number of bytes written and the checksum; an error of the system is
    returned as a positive number. *)
Definition write_update_extent (path : list Z) (write_size : Z) (buffer : option (list Z)) : cprog dstate (Z * Z) :=
  match buffer with
  | None => cret (0, 0)
  | Some _ =>
      (let! data := read_ptr buffer write_size in
       let! s := cget in
       let '(r, f) := pwrite (fs s) path data in
       cput (mkD (ds s) (dom s) f) ;;;
       cret (match r with
             | inl e => (e, 0)
             | inr n => (swrap 32 n, uwrap 32 (crc (take (Z.to_nat n) data)))
             end))%cprog
  end.

(** [sprintf(extent_name, "%s/%u-XXXXXX", mount_path, time(NULL))]; the second
    one is its [basename]. *)
Definition base_name (time : Z) : list Z := (digits 10 10 (uwrap 32 time) ++ bytes "-XXXXXX")%list.
Definition extent_name (mount : list Z) (time : Z) : list Z := (mount ++ bytes "/" ++ base_name time)%list.

(** The handle of a new extent: [address] is the one of the chunk or of the
    extent before. *)
Definition new_handle (name : list Z) (name_len proto : Z) (address : list Z) : list Z :=
  patch 4108 address (patch 4104 (le_bytes 4 proto) (patch 0 (le_bytes 8 name_len) (patch 8 (name ++ [0]) junk_handle))).
Definition address_bytes (a : sstack_address) : list Z := (le_bytes 4 (addr_protocol a) ++ ip a)%list.
Definition new_extent (offset sz ondisk cksum replicas : Z) (h : list Z) : sstack_extent :=
  mkExtent (le_bytes 8 offset ++ le_bytes 8 sz ++ le_bytes 8 ondisk ++ le_bytes 4 cksum ++ le_bytes 4 replicas ++ ptr)%list (Some h).

(** [for (i = 0; i < inode->i_numextents; i++) size += inode->i_extent[i].e_size;] *)
Fixpoint sum_sizes (k : nat) (i : Z) (exts : gmap Z sstack_extent) (acc : Z) : cprog dstate Z :=
  match k with
  | O => cret acc
  | S k' =>
      (let! e := cexpect OutOfBounds (exts !! (SIZEOF_EXTENT * i)) in
       sum_sizes k' (i + 1) exts (uwrap 64 (acc + e_size e)))%cprog
  end.

(** [pthread_mutex_lock(&inode->i_lock)] on the bytes of the record. *)
Definition lock_inode (f : list Z) : cprog dstate (list Z) :=
  if le (sub 0 4 f) =? 0 then cret (patch 0 locked f) else cfault Deadlock.

(** What can be allocated: the inode, the array of extents, the handle. *)
Record memory : Type := mkMem { inode_mem : bool; extent_mem : bool; handle_mem : bool }.

(** The inode with the new extent, [None] when there is no memory for it. The
    mutex stays locked. *)
Definition add_extent (m : memory) (chunk : nat) (time : Z) (c : write_cmd) (out_size cksum : Z) (ino : sstack_inode)
  : cprog dstate (option sstack_inode) :=
  (let! f := lock_inode (i_fixed ino) in
   let n := i_numextents f in
   let! s := on_dom (load_chunk chunk) in
   let full := (cstr (path s) ++ bytes "/" ++ base_name time)%list in
   if negb (extent_mem m) then cret None
   else if negb (handle_mem m) then cfault NullDeref
   else if PATH_MAX <=? size full then cfault OutOfBounds
   else
     let name_len := size (extent_name (cstr (mount_point s)) time) in
     let! x :=
       if i_size f =? 0 then cret (0, protocol s, address_bytes (address s))
       else
         let! e := cexpect OutOfBounds (i_extent ino !! (SIZEOF_EXTENT * (n - 1))) in
         let! h := read_ptr (e_path e) SIZEOF_HANDLE in
         cret (uwrap 64 (e_offset e + e_size e), h_proto h, sub 4108 44 h) in
     let '(offset, proto, addr) := x in
     let e := new_extent offset (w_len c) out_size cksum 1 (new_handle full name_len proto addr) in
     cret (Some (mkInode (set_numextents (n + 1) f) (i_xattr ino) (i_erasure ino) (<[SIZEOF_EXTENT * n := e]> (i_extent ino)) (i_sfsds ino))))%cprog.

(** The metadata of a write that went to the disk, [w] its length and checksum. *)
Definition store_extent (m : memory) (chunk : nat) (time : Z) (c : write_cmd) (out_size : Z) (w : Z * Z) (ino : sstack_inode)
  : cprog dstate (option Z) :=
  (let ino := with_fixed (set_numreplicas 1 (i_fixed ino)) ino in
   let! ino := add_extent m chunk time c out_size w.2 ino in
   match ino with
   | None => cret None
   | Some ino =>
       let! sz := sum_sizes (count (i_numextents (i_fixed ino))) 0 (i_extent ino) 0 in
       on_ds (put_inode moves (with_fixed (set_size sz (i_fixed ino)) ino) after 1) ;;;
       on_ds (get_inode ptr (w_inode_no c) zero_inode) ;;;
       cret (Some w.1)
   end)%cprog.

(** The answer is [file_wc]; NULL on every error. *)
Definition sstack_write (m : memory) (time : Z) (c : write_cmd) : cprog dstate (option Z) :=
  (if negb (inode_mem m) then cret None
   else
     let! r := on_ds (get_inode ptr (w_inode_no c) zero_inode) in
     if negb (r.1 =? 0) then cret None
     else
       let ino := r.2 in
       if negb (h_name_len (w_handle c) =? 0) then
         (* the search compares an array that nothing set *)
         if i_numextents (i_fixed ino) <=? 0 then cret None else cfault Uninit
       else
         let! k := on_dom sfsd_chunk_schedule_rr in
         if k <? 0 then
           if w_offset c =? 0 then cfault Uninit else cfault OutOfBounds
         else
           let! s := on_dom (load_chunk (Z.to_nat k)) in
           let name := extent_name (cstr (mount_point s)) time in
           let! st := cget in
           let '(err, f) := creat (fs st) name in
           cput (mkD (ds st) (dom st) f) ;;;
           match err with
           | Some _ => cret None
           | None =>
               if negb (w_offset c =? 0) then cfault OutOfBounds (* inode->i_extent[-1] *)
               else
                 let '(out_size, buf) :=
                   match w_plugins c with
                   | [] => (w_len c, w_buf c)
                   | l => apply_policies l None None (w_count c) 0
                   end in
                 let! w := write_update_extent name out_size buf in
                 if w.1 <? 0 then cret None
                 else
                   store_extent m (Z.to_nat k) time c out_size w ino
           end)%cprog.

(** * Erasure code *)

Record esure_cmd : Type := mkEsure { es_inode_no : Z; num_blocks : Z; start_exts : list Z }.

(** What can be allocated: the inode, and for each array of stripes the index
    of the allocation that fails. *)
Record esure_memory : Type := mkEsureMem { es_inode : bool; d_fails : option Z; c_fails : option Z }.

(** The stripes before a failure are freed, and all of them again. *)
Definition stripes_fault (j : Z) : fault := if j =? 0 then Uninit else UseAfterFree.

Fixpoint min_start (k : nat) (i cur : Z) (starts : list Z) : cprog dstate Z :=
  match k with
  | O => cret cur
  | S k' =>
      (let! x := cexpect OutOfBounds (starts !! Z.to_nat i) in
       min_start k' (i + 1) (if x <? cur then x else cur) starts)%cprog
  end.

(** [command_ok]. Every early return frees arrays that nothing set. For an
    extent there is no handle to find the mount point with, and the path that
    is opened is never set. *)
Definition sstack_esure_code (m : esure_memory) (mem : sstack_inode) (c : esure_cmd) : cprog dstate Z :=
  (if negb (es_inode m) then cfault Uninit
   else
     let! r := on_ds (get_inode ptr (es_inode_no c) mem) in
     if negb (r.1 =? 0) then cfault Uninit
     else if num_blocks c =? 0 then cfault Uninit
     else
       let! first := cexpect OutOfBounds (start_exts c !! O) in
       let! s := min_start (count (num_blocks c - 1)) 1 first (start_exts c) in
       let s := s - Z.rem s MAX_DATA_STRIPES in
       match d_fails m, c_fails m with
       | Some j, _ => cfault (stripes_fault j)
       | _, Some j => cfault (stripes_fault j)
       | None, None =>
           let n := i_numextents (i_fixed r.2) in
           if s <? n then
             if s <? 0 then if 0 <? n then cfault NullDeref else cfault OutOfBounds
             else cfault Uninit
           else cret SSTACK_SUCCESS
       end)%cprog.

(** * Names

    The payload of a command on names. The answer of a command lies in the same
    memory: [command_ok] in the first bytes of the handle. *)
Record payload : Type := mkPayload { p_handle : list Z; p_new : list Z; p_mode : Z }.
Definition old_command_ok (p : payload) : Z := swrap 32 (le (sub 0 4 (p_handle p))).

(** [p[i] = 0] in the name of a handle. *)
Definition end_name (i : Z) (h : list Z) : cprog dstate (list Z) :=
  if uwrap 64 i <? PATH_MAX then cret (patch (8 + uwrap 64 i) [0] h) else cfault OutOfBounds.
Definition cut_name (h : list Z) : cprog dstate (list Z) :=
  (let! h := end_name (h_name_len h - 1) h in cret (h_name h))%cprog.
Definition call (c : path_call) : cprog dstate (Z * Z * FileOps.stat * list Z) :=
  (let! s := cget in
   let '(r, f) := path_sys (fs s) c in
   cput (mkD (ds s) (dom s) f) ;;;
   cret r)%cprog.

(** What is in an answer besides [command_ok]. *)
Inductive extra : Type :=
  | Nothing
  | FileWc (n : Z)
  | Data (len : Z) (buf : list Z)
  | Stbuf (st : FileOps.stat)
  | Access (a : Z)
  | RealFile (name_len : Z) (name : list Z).
Definition response : Type := Z * extra.

(** [mem]: whether the answer can be allocated. *)
Definition sstack_getattr (mem : bool) (p : payload) : cprog dstate response :=
  (let! x := cut_name (p_handle p) in
   if negb mem then cret (- ENOMEM, Nothing)
   else
     let! r := call (PLstat x) in
     let '(stat, _, st, _) := r in
     if negb (stat =? 0) then cret (stat, Nothing)
     else
       cret (stat, Stbuf (if Z.land (FileOps.st_mode st) S_IFMT =? S_IFDIR
                          then FileOps.mkStat (FileOps.st_mode st) (FileOps.st_uid st) (FileOps.st_gid st) 1 (FileOps.st_size st)
                                 (FileOps.st_blocks st) (FileOps.st_atime st) (FileOps.st_ctime st) (FileOps.st_mtime st)
                          else st)))%cprog.

Definition sstack_access (mem : bool) (p : payload) : cprog dstate response :=
  (let! x := cut_name (p_handle p) in
   if negb mem then cret (- ENOMEM, Nothing)
   else
     let! r := call (PAccess x (p_mode p)) in
     let '(stat, _, _, _) := r in
     if 0 <=? stat then cret (stat, Access stat) else cret (stat, Nothing))%cprog.

Definition sstack_readlink (mem : bool) (p : payload) : cprog dstate response :=
  (let! x := cut_name (p_handle p) in
   if negb mem then cret (- ENOMEM, Nothing)
   else
     let! r := call (PReadlink x PATH_MAX) in
     let '(stat, _, _, target) := r in
     if 0 <=? stat then cret (stat, RealFile stat target) else cret (stat, Nothing))%cprog.

Definition sstack_mkdir (mem : bool) (p : payload) : cprog dstate response :=
  (let! h := end_name (h_name_len (p_handle p)) (p_handle p) in
   if negb mem then cret (- ENOMEM, Nothing)
   else
     let! r := call (PMkdir (h_name h) (p_mode p)) in
     let '(stat, _, _, _) := r in
     cret (stat, Nothing))%cprog.

(** On success [command_ok] is not set. *)
Definition two_names (c : list Z -> list Z -> path_call) (p : payload) : cprog dstate response :=
  (let! x := cut_name (p_handle p) in
   let! y := cut_name (p_new p) in
   let! r := call (c x y) in
   let '(stat, errno, _, _) := r in
   cret (if negb (stat =? 0) then errno else old_command_ok p, Nothing))%cprog.
Definition sstack_symlink : payload -> cprog dstate response := two_names PSymlink.
Definition sstack_rename : payload -> cprog dstate response := two_names PRename.
Definition sstack_link : payload -> cprog dstate response := two_names PLink.

Definition sstack_remove (p : payload) : cprog dstate response :=
  (let! x := cut_name (p_handle p) in
   let! r := call (PRemove x) in
   let '(stat, _, _, _) := r in
   cret (stat, Nothing))%cprog.

Definition sstack_rmdir (p : payload) : cprog dstate response :=
  (let! x := cut_name (p_handle p) in
   let! r := call (PRmdir x) in
   let '(stat, errno, _, _) := r in
   cret (if negb (stat =? 0) then errno else old_command_ok p, Nothing))%cprog.

(** * Commands *)

(** [NotImplemented]: NFS_SETATTR, NFS_LOOKUP, NFS_MKNOD, NFS_READDIR,
    NFS_READDIRPLUS, NFS_FSSTAT, NFS_FSINFO, NFS_PATHCONF and NFS_COMMIT, which
    answer with the command itself. *)
Inductive command : Type :=
  | AddStorage (tmp : option (list Z)) (mounted mem dup : bool) (s : sfsd_storage)
  | UpdateStorage (s : sfsd_storage)
  | RemoveStorage (mem : bool) (s : sfsd_storage)
  | NfsGetattr (mem : bool) (p : payload)
  | NfsAccess (mem : bool) (p : payload)
  | NfsReadlink (mem : bool) (p : payload)
  | NfsRead (m : read_memory) (c : read_cmd)
  | NfsWrite (m : memory) (time : Z) (c : write_cmd)
  | NfsCreate
  | NfsMkdir (mem : bool) (p : payload)
  | NfsSymlink (p : payload)
  | NfsRemove (p : payload)
  | NfsRmdir (p : payload)
  | NfsRename (p : payload)
  | NfsLink (p : payload)
  | NotImplemented (p : payload)
  | NfsEsureCode (m : esure_memory) (mem : sstack_inode) (c : esure_cmd)
  | Unknown.

(** The answer of a function may be NULL, and the command number and the
    sequence number are stored in it; [sstack_create] always answers NULL, and
    for an unknown command no answer was set. *)
Definition handle_command (c : command) : cprog dstate response :=
  (match c with
   | AddStorage tmp mounted mem dup s =>
       let! p := on_dom (sfsd_add_chunk tmp mounted mem dup s) in
       cret (if p then SSTACK_SUCCESS else - EINVAL, Nothing)
   | UpdateStorage s => let! r := on_dom (sfsd_update_chunk (Message s)) in cret (r, Nothing)
   | RemoveStorage mem s => let! r := on_dom (sfsd_remove_chunk mem (Message s)) in cret (r, Nothing)
   | NfsGetattr mem p => sstack_getattr mem p
   | NfsAccess mem p => sstack_access mem p
   | NfsReadlink mem p => sstack_readlink mem p
   | NfsRead m c =>
       let! r := sstack_read m c in
       cret (r.1, match r.2 with Some (n, buf) => Data n buf | None => Nothing end)
   | NfsWrite m time c =>
       let! r := sstack_write m time c in
       let! wc := cexpect NullDeref r in
       cret (SSTACK_SUCCESS, FileWc wc)
   | NfsMkdir mem p => sstack_mkdir mem p
   | NfsSymlink p => sstack_symlink p
   | NfsRemove p => sstack_remove p
   | NfsRmdir p => sstack_rmdir p
   | NfsRename p => sstack_rename p
   | NfsLink p => sstack_link p
   | NotImplemented p => cret (old_command_ok p, Nothing)
   | NfsEsureCode m mem c => let! r := sstack_esure_code m mem c in cret (r, Nothing)
   | NfsCreate | Unknown => cfault NullDeref
   end)%cprog.

End Daemon.
End Daemon.
