(* ===== verification/DaemonProps.v ===== *)
(** What the storage daemon does with extents: the first write of a file can be
    read back; the second one never returns. *)
From Stdlib Require Import ZArith Lia String.
From stdpp Require Import base gmap list numbers.
From S2P Require Import Prelude CString CFormat InodeStore InodeFields FileOps Chunks Daemon.
Import InodeStore.

Module DaemonProps.
Import InodeFields Chunks Daemon.

(** * The disk at work *)

(** [file] is the content of a file: a new file is created empty, a write
    replaces the bytes at the start, a read inside a file gives its bytes. A
    read goes through O_DIRECT: [direct_ok] says for which lengths and offsets
    the file system lets it. *)
Class DiskUp (F : Type) `{Disk F} (file : F -> list Z -> option (list Z)) (direct_ok : Z -> Z -> Prop) : Prop := {
  creat_up f p : file f p = None -> exists f', creat f p = (None, f') /\ file f' p = Some [];
  pwrite_up f p d x : file f p = Some d -> exists f', pwrite f p x = (inr (size x), f') /\ file f' p = Some (x ++ drop (length x) d)%list;
  pread_up f p n off d : file f p = Some d -> direct_ok n off -> 0 <= n -> 0 <= off -> pread f p n off = inr (take (Z.to_nat n) (drop (Z.to_nat off) d))
}.

(** * Handles *)

Lemma strn_eq_refl n a : strn_eq n a a = true.
Proof. by apply bool_decide_eq_true. Qed.

Lemma starts_app x t : starts x (x ++ t) = true.
Proof. induction x as [|c x IH]; [done|]. cbn. by rewrite Z.eqb_refl, IH. Qed.
Lemma strstr_prefix x t : strstr (x ++ t) x = true.
Proof. pose proof (starts_app x t) as H. by destruct (x ++ t)%list; cbn [strstr]; rewrite H. Qed.

Lemma is_digit_nonzero c : is_digit c = true -> c <> 0.
Proof. by intros H ->. Qed.
Lemma base_name_nonzero t : Forall (fun c => c <> 0) (base_name t).
Proof.
  apply Forall_app. split.
  - eapply Forall_impl; [exact is_digit_nonzero|]. apply digits_decimal. apply uwrap_range. lia.
  - repeat constructor; done.
Qed.
Lemma base_name_size t : 0 <= size (base_name t) <= 17.
Proof. unfold base_name. rewrite size_app. change (size (bytes "-XXXXXX")) with 7. pose proof (digits_length 10 10 (uwrap 32 t)). unfold size. lia. Qed.

Section Handle.
Context (junk_handle name addr : list Z) (name_len proto : Z).
Context (Hj : size junk_handle = SIZEOF_HANDLE) (Hn : Forall (fun c => c <> 0) name) (Hs : size name < PATH_MAX)
  (Hp : 0 <= proto < 2 ^ 32) (Ha : size addr = 44).
Abbreviation h := (new_handle junk_handle name name_len proto addr).
Set Default Proof Using "All".

Lemma patched_sizes : size (patch 8 (name ++ [0]) junk_handle) = 4152 /\
  size (patch 0 (le_bytes 8 name_len) (patch 8 (name ++ [0]) junk_handle)) = 4152 /\
  size (patch 4104 (le_bytes 4 proto) (patch 0 (le_bytes 8 name_len) (patch 8 (name ++ [0]) junk_handle))) = 4152 /\ size h = 4152.
Proof.
  unfold SIZEOF_HANDLE, PATH_MAX in *.
  assert (H1 : size (patch 8 (name ++ [0]) junk_handle) = 4152) by (rewrite patch_size; rewrite ?size_app; change (size [0]) with 1; lia).
  assert (H2 : size (patch 0 (le_bytes 8 name_len) (patch 8 (name ++ [0]) junk_handle)) = 4152) by (rewrite patch_size; rewrite ?le_bytes_size; lia).
  assert (H3 : size (patch 4104 (le_bytes 4 proto) (patch 0 (le_bytes 8 name_len) (patch 8 (name ++ [0]) junk_handle))) = 4152)
    by (rewrite patch_size; rewrite ?le_bytes_size; lia).
  split_and!; try done. unfold new_handle. rewrite patch_size; lia.
Qed.

Lemma handle_name : h_name h = name.
Proof.
  destruct patched_sizes as (H1 & H2 & H3 & _). unfold h_name, new_handle, PATH_MAX, SIZEOF_HANDLE in *.
  rewrite !sub_patch_ne by (rewrite ?le_bytes_size; lia). apply cstr_sub_patch; [lia|lia|done|done].
Qed.
Lemma handle_proto : h_proto h = proto.
Proof.
  destruct patched_sizes as (H1 & H2 & H3 & _). unfold h_proto, new_handle.
  rewrite sub_patch_ne by lia. pose proof (get32_set32 4104 proto _ ltac:(lia) (ltac:(rewrite H2; lia))) as Hg.
  unfold get32, set32 in Hg. rewrite Hg. by apply uwrap_small.
Qed.
Lemma handle_address : sub 4108 44 h = addr.
Proof. destruct patched_sizes as (H1 & H2 & H3 & _). unfold new_handle. rewrite <- Ha. apply patch_at. lia. Qed.
Lemma handle_ip : h_ip h = drop 4 addr.
Proof.
  unfold h_ip, IPV6_ADDR_MAX. change 4112 with (4108 + 4). rewrite <- (sub_sub 4108 44 4 40), handle_address by lia.
  unfold sub. apply take_ge. rewrite length_drop. unfold size in Ha. lia.
Qed.
Lemma handle_addr_protocol : h_addr_protocol h = le (take 4 addr).
Proof.
  pose proof (sub_sub 4108 44 0 4 h ltac:(lia) ltac:(lia) ltac:(lia) ltac:(lia) ltac:(lia)) as E. rewrite handle_address in E. exact (f_equal le (eq_sym E)).
Qed.
End Handle.

(** * The chunk of a new extent *)

(** The handle of the extent that a write to chunk [c] makes. *)
Definition extent_handle (junk_handle : list Z) (time : Z) (c : sfsd_storage) : list Z :=
  new_handle junk_handle (cstr (path c) ++ bytes "/" ++ base_name time) (size (extent_name (cstr (mount_point c)) time))
    (protocol c) (address_bytes (address c)).

Record chunk_ok (c : sfsd_storage) : Prop := {
  chunk_path : size (cstr (path c)) + 18 < PATH_MAX;
  chunk_mount : size (cstr (mount_point c)) <= MAX_MOUNT_POINT_LEN;
  chunk_proto : 0 <= protocol c < 2 ^ 32;
  chunk_addr : 0 <= addr_protocol (address c) < 2 ^ 32;
  chunk_ip : size (ip (address c)) = IPV6_ADDR_MAX
}.

Section Chunk.
Context (junk_handle : list Z) (time : Z) (c : sfsd_storage).
Context (Hj : size junk_handle = SIZEOF_HANDLE) (Hc : chunk_ok c).
Set Default Proof Using "All".
Abbreviation name := (cstr (path c) ++ bytes "/" ++ base_name time)%list.

Lemma full_name_nonzero : Forall (fun x => x <> 0) name.
Proof. apply Forall_app. split; [apply cstr_nonzero|]. apply Forall_app. split; [by repeat constructor|apply base_name_nonzero]. Qed.
Lemma full_name_size : size name < PATH_MAX.
Proof. rewrite !size_app. change (size (bytes "/")) with 1. pose proof (base_name_size time). pose proof (chunk_path _ Hc). lia. Qed.
Lemma address_size : size (address_bytes (address c)) = 44.
Proof. unfold address_bytes. rewrite size_app, le_bytes_size, (chunk_ip _ Hc). done. Qed.
Lemma extent_handle_size : size (extent_handle junk_handle time c) = SIZEOF_HANDLE.
Proof. eapply patched_sizes; [done|apply full_name_nonzero|apply full_name_size|apply chunk_proto, Hc|apply address_size]. Qed.
Lemma extent_handle_name : h_name (extent_handle junk_handle time c) = name.
Proof. apply handle_name; [done|apply full_name_nonzero|apply full_name_size|apply chunk_proto, Hc|apply address_size]. Qed.

Lemma address_parts : le (take 4 (address_bytes (address c))) = addr_protocol (address c) /\ drop 4 (address_bytes (address c)) = ip (address c).
Proof.
  pose proof (chunk_addr _ Hc) as Ha. unfold address_bytes. pose proof (le_bytes_size 4 (addr_protocol (address c))) as Hl. unfold size in Hl.
  rewrite take_app_length', drop_app_length' by lia. split; [|done]. rewrite le_le_bytes. by apply Z.mod_small.
Qed.

Lemma chunk_has_extent : has_extent (extent_handle junk_handle time c) c = true.
Proof.
  unfold has_extent. rewrite extent_handle_name. unfold extent_handle. destruct address_parts as [A1 A2].
  pose proof full_name_nonzero as H1. pose proof full_name_size as H2. pose proof (chunk_proto _ Hc) as H3. pose proof address_size as H4.
  rewrite handle_proto, handle_ip, handle_addr_protocol, A1, A2 by done.
  by rewrite !Z.eqb_refl, strn_eq_refl, strstr_prefix.
Qed.
End Chunk.

Lemma match_extent_refl h : match_extent h h = true.
Proof. unfold match_extent. by rewrite Z.eqb_refl, !strn_eq_refl. Qed.

(** * The inode after the first write *)

(** The fixed fields: the lock stays held. *)
Definition written (locked fixed : list Z) (n : Z) : list Z :=
  set_size n (set_numextents 1 (patch 0 locked (set_numreplicas 1 fixed))).

Section Written.
Context (locked fixed : list Z) (Hl : size locked = 40) (Hf : size fixed = INODE_FIXED).
Set Default Proof Using "All".
Lemma written_size n : size (written locked fixed n) = INODE_FIXED.
Proof. unfold written, set_size, set_numextents, set_numreplicas. eauto 30 with fields. Qed.
Lemma written_numextents n : i_numextents (written locked fixed n) = 1.
Proof. unfold written. field_norm. done. Qed.
Lemma written_i_size n : 0 <= n < 2 ^ 64 -> i_size (written locked fixed n) = n.
Proof. intros. unfold written. field_norm. by apply uwrap_small. Qed.
Lemma written_other o n : 4236 <= o -> o + 4 <= 4248 \/ 4252 <= o -> o + 4 <= INODE_FIXED -> get32 o (written locked fixed n) = get32 o fixed.
Proof. intros. unfold written. field_norm. done. Qed.
Lemma written_num n : i_num (written locked fixed n) = i_num fixed.
Proof. change (get64 4256 (written locked fixed n) = get64 4256 fixed). unfold written. field_norm. done. Qed.
Lemma written_lock n : sub 0 4 (written locked fixed n) = sub 0 4 locked.
Proof.
  assert (H1 : size (set32 4228 1 fixed) = INODE_FIXED) by auto with fields.
  assert (H2 : size (patch 0 locked (set32 4228 1 fixed)) = INODE_FIXED) by (apply sz_patch; unfold INODE_FIXED in *; lia).
  assert (H3 : size (set32 4248 1 (patch 0 locked (set32 4228 1 fixed))) = INODE_FIXED) by auto with fields.
  unfold INODE_FIXED in *. unfold written, set_size, set_numextents, set_numreplicas. rewrite sub_set64_ne, sub_set32_ne by lia.
  pose proof (patch_at 0 locked (set32 4228 1 fixed) ltac:(lia)) as Hp. rewrite Hl in Hp.
  rewrite <- Hp at 2. rewrite sub_sub by lia. done.
Qed.
End Written.

(** * The new extent *)

(** What the first 32 bytes of an extent determine. *)
Lemma same_fixed raw raw' p p' : sub 0 EXTENT_FIXED raw = sub 0 EXTENT_FIXED raw' ->
  e_offset (mkExtent raw p) = e_offset (mkExtent raw' p') /\ e_size (mkExtent raw p) = e_size (mkExtent raw' p') /\
  e_cksum (mkExtent raw p) = e_cksum (mkExtent raw' p').
Proof.
  unfold EXTENT_FIXED. intros He.
  assert (Hs : forall o l, 0 <= o -> 0 <= l -> o + l <= 32 -> sub o l raw = sub o l raw').
  { intros o l Ho Hl Hol. pose proof (f_equal (sub o l) He) as E. rewrite !sub_sub in E by lia. exact E. }
  unfold e_offset, e_size, e_cksum. cbn [e_raw]. rewrite !(Hs 0 8), (Hs 8 8), (Hs 24 4) by lia. done.
Qed.

(** A number at the start of a block. *)
Lemma le_sub_app k n t : le (sub 0 (Z.of_nat k) (le_bytes k n ++ t)) = n mod 2 ^ (8 * Z.of_nat k).
Proof.
  pose proof (le_bytes_size k n) as Hs. rewrite sub_app_l by lia. pose proof (sub_all (le_bytes k n)) as Ha. rewrite Hs in Ha.
  by rewrite Ha, le_le_bytes.
Qed.

Section Extent.
Context (ptr h : list Z) (n cksum : Z).
Context (Hp : size ptr = SIZEOF_PTR) (Hh : size h = SIZEOF_HANDLE) (Hn : 0 <= n < 2 ^ 64) (Hk : 0 <= cksum < 2 ^ 32).
Set Default Proof Using "All".
Abbreviation e := (new_extent ptr 0 n n cksum 1 h).

Lemma new_extent_fields : e_offset e = 0 /\ e_size e = n /\ e_cksum e = cksum /\ e_numreplicas e = 1 /\ size (e_raw e) = SIZEOF_EXTENT.
Proof.
  pose proof (fun k n => le_bytes_size k n) as Hs. unfold SIZEOF_PTR in Hp.
  unfold e_offset, e_size, e_cksum, e_numreplicas, new_extent. cbn [e_raw]. split_and!.
  - exact (le_sub_app 8 0 _).
  - rewrite sub_app_r by (rewrite ?Hs; lia). rewrite !Hs. etransitivity; [exact (le_sub_app 8 n _)|]. by apply Z.mod_small.
  - do 3 rewrite sub_app_r by (rewrite ?Hs; lia). rewrite !Hs. etransitivity; [exact (le_sub_app 4 cksum _)|]. by apply Z.mod_small.
  - do 4 rewrite sub_app_r by (rewrite ?Hs; lia). rewrite !Hs. exact (le_sub_app 4 1 _).
  - rewrite !size_app, !Hs, Hp. done.
Qed.
Lemma new_extent_ok : ext_ok e h.
Proof. destruct new_extent_fields as (_ & _ & _ & H4 & H5). split; [done|done|lia|]. rewrite H4, Hh. done. Qed.
End Extent.

Lemma written_plain locked fixed n x er sf e h : size locked = 40 -> record_ok fixed [] -> ext_ok e h ->
  plain (mkInode (written locked fixed n) x er {[0 := e]} sf) [(e, h)].
Proof.
  intros Hl [H1 H2 H3 _ _ H6 _] He.
  assert (Ho : forall o, 4236 <= o -> o + 4 <= 4248 \/ 4252 <= o -> o + 4 <= INODE_FIXED -> get32 o (written locked fixed n) = get32 o fixed)
    by (intros; by apply written_other).
  split; cbn [i_fixed i_extent].
  - by apply written_size.
  - rewrite <- H2. unfold i_xattrlen. f_equal. apply (Ho 4252); unfold INODE_FIXED; lia.
  - rewrite <- H3. apply (Ho 4240); unfold INODE_FIXED; lia.
  - by apply written_numextents.
  - cbn [exts_at]. split_and!; [apply lookup_singleton_eq|done|done].
  - replace (i_numclients (written locked fixed n)) with (i_numclients fixed); [done|].
    unfold i_numclients. f_equal. symmetry. apply (Ho 4236); unfold INODE_FIXED; lia.
Qed.

(** * Writing and reading *)

Lemma filter_first {A} (P : A -> bool) l k x : l !! k = Some x -> P x = true -> (forall i y, (i < k)%nat -> l !! i = Some y -> P y = false) ->
  head (List.filter P l) = Some x.
Proof.
  revert k. induction l as [|y l IH]; intros k Hk Hx Hf; [done|]. destruct k as [|k]; cbn [List.filter].
  - injection Hk as ->. by rewrite Hx.
  - rewrite (Hf 0%nat y) by (done || lia). apply (IH k Hk Hx). intros i z Hi Hz. apply (Hf (S i)); [lia|done].
Qed.

Section Io.
Context {D : Type} `{InodeDb D} `{!InodeDbLaws D} `{!DbUp D} {F : Type} `{Disk F} `{PathCalls F} (file : F -> list Z -> option (list Z))
  (direct_ok : Z -> Z -> Prop) `{!DiskUp F file direct_ok}.
Context (moves : bool) (ptr after : list Z) (crc : list Z -> Z) (locked junk_handle fresh_buf : list Z).
Context (Hptr : size ptr = SIZEOF_PTR) (Hafter : SIZEOF_PTR <= size after) (Hlocked : size locked = 40) (Hjunk : size junk_handle = SIZEOF_HANDLE).
Abbreviation dstate := (@Daemon.dstate D F).
Abbreviation sstack_write := (sstack_write moves ptr after crc locked junk_handle).
Abbreviation sstack_read := (sstack_read ptr crc fresh_buf).
Definition all_memory : memory := mkMem true true true.
Definition all_read_memory : read_memory := mkReadMem true true true true.

Definition turn (s : dstate) (chunks : list sfsd_storage) : Z := next_scheduled (dom s) mod Z.of_nat (length chunks).

(** The next write of a new extent goes to chunk [c], on which there is no file
    of the new name, for the inode [num] with the fixed fields [fixed]. *)
Record ready (s : dstate) (num time : Z) (fixed : list Z) (l : list (sstack_extent * list Z)) (chunks : list sfsd_storage) (c : sfsd_storage) : Prop := {
  ready_db : exists tail, db_get (db (ds s)) num = Some (fixed ++ body l ++ tail);
  ready_allocs : allocs (ds s) = [];
  ready_record : record_ok fixed l;
  ready_num : i_num fixed = num;
  ready_start : INODE_NUM_START <= num;
  ready_chunks : rep (dom s) chunks;
  ready_turn : 0 <= next_scheduled (dom s) /\ next_scheduled (dom s) + 1 < 2 ^ 31;
  ready_count : Z.of_nat (length chunks) + 1 < 2 ^ 31;
  ready_chunk : chunks !! Z.to_nat (turn s chunks) = Some c;
  ready_fresh : file (fs s) (extent_name (cstr (mount_point c)) time) = None
}.

(** The command that writes [d] as the first extent. *)
Definition first_write (num : Z) (d h : list Z) : write_cmd := mkWrite num 0 (size d) (size d) (Some d) [] h.
Set Default Proof Using "All".

(** A write reaches the metadata. *)
Lemma write_prefix (s : dstate) num time fixed l chunks c d hw :
  ready s num time fixed l chunks c -> h_name_len hw = 0 -> size d <= MAX_EXTENT_SIZE -> 0 <= crc d < 2 ^ 32 ->
  exists ino l' s2, sstack_write all_memory time (first_write num d hw) s
    = store_extent moves ptr after locked junk_handle all_memory (Z.to_nat (turn s chunks)) time (first_write num d hw) (size d) (size d, crc d) ino s2 /\
    ds s2 = ds s /\ rep (dom s2) chunks /\ file (fs s2) (extent_name (cstr (mount_point c)) time) = Some d /\
    next_scheduled (dom s2) = next_scheduled (dom s) + 1 /\
    i_fixed ino = fixed /\ plain ino l' /\ same_extents l (i_extent ino).
Proof.
  intros [[tail Hdb] Hal Hrec Hnum Hst Hrep [Ht0 Ht1] Hcount Hchunk Hfresh] Hw Hd Hcrc.
  destruct (get_plain ptr num zero_inode fixed l tail (ds s) Hrec Hst Hal Hptr Hdb) as (ino & l' & Hget & Hfix & Hplain & _ & _ & Hsame).
  assert (Hne : chunks <> []) by (intros ->; done).
  destruct (schedule_run (dom s) chunks Hrep Hne Ht0 Ht1 Hcount) as (dm & Hsched & Hrep' & Hnext).
  destruct (creat_up (fs s) _ Hfresh) as (f1 & Hcreat & Hfile1).
  destruct (pwrite_up f1 _ [] d Hfile1) as (f2 & Hwrite & Hfile2). rewrite drop_nil, app_nil_r in Hfile2.
  exists ino, l', (mkD (ds s) dm f2). split; [|done].
  unfold Daemon.sstack_write. cbn [all_memory inode_mem negb w_inode_no w_handle w_offset w_plugins w_len w_buf first_write].
  unfold cbind at 1, on_ds. rewrite Hget. cbn [fst snd]. change (negb (0 =? 0)) with false. cbn [negb]. rewrite Hw. cbn [Z.eqb negb].
  assert (Hturn : 0 <= turn s chunks) by (apply Z.mod_pos_bound; destruct chunks; [done|cbn; lia]).
  unfold cbind at 1, on_dom. cbn [dom ds fs]. rewrite Hsched. fold (turn s chunks). rewrite (proj2 (Z.ltb_ge _ 0)) by done.
  unfold cbind at 1. cbn [dom]. rewrite (load_run dm chunks _ c Hrep' Hchunk). cbn [ds fs dom].
  unfold cbind at 1, cget. cbn [fs]. rewrite Hcreat. unfold cbind at 1, cput. cbn [ds dom].
  unfold cbind at 1, write_update_extent. unfold cbind at 1, read_ptr.
  pose proof (size_nonneg d). rewrite read_at_run, sub_all by lia.
  unfold cbind at 1, cget. cbn [fs]. rewrite Hwrite. unfold cbind at 1, cput, cret. cbn [fst snd ds dom].
  unfold MAX_EXTENT_SIZE in Hd. rewrite swrap_small by lia. rewrite (proj2 (Z.ltb_ge _ 0)) by done.
  unfold size at 3. rewrite Nat2Z.id, firstn_all, uwrap_small by lia. done.
Qed.

(** The metadata of the first extent of a file. *)
Lemma add_first (s : dstate) chunks k time c ino d cksum hw num :
  rep (dom s) chunks -> chunks !! k = Some c -> chunk_ok c -> size (i_fixed ino) = INODE_FIXED ->
  le (sub 0 4 (i_fixed ino)) = 0 -> i_numextents (i_fixed ino) = 0 -> i_size (i_fixed ino) = 0 -> i_extent ino = ∅ ->
  add_extent ptr locked junk_handle all_memory k time (first_write num d hw) (size d) cksum ino s
  = Ret (Some (mkInode (set_numextents 1 (patch 0 locked (i_fixed ino))) (i_xattr ino) (i_erasure ino)
      {[0 := new_extent ptr 0 (size d) (size d) cksum 1 (extent_handle junk_handle time c)]} (i_sfsds ino)), s).
Proof.
  intros Hrep Hk Hc Hf Hl Hn Hs He.
  assert (Hn' : i_numextents (patch 0 locked (i_fixed ino)) = 0).
  { transitivity (i_numextents (i_fixed ino)); [|exact Hn]. field_norm. done. }
  assert (Hs' : i_size (patch 0 locked (i_fixed ino)) = 0) by (transitivity (i_size (i_fixed ino)); [field_norm; done|exact Hs]).
  unfold add_extent. unfold cbind at 1, lock_inode. rewrite Hl. cbn [Z.eqb]. unfold cret at 1.
  unfold cbind at 1, on_dom. rewrite (load_run _ _ _ _ Hrep Hk). cbn [ds dom fs all_memory extent_mem handle_mem negb].
  pose proof (full_name_size junk_handle time c Hjunk Hc) as Hsz. rewrite (proj2 (Z.leb_gt _ _) Hsz).
  rewrite Hs'. cbn [Z.eqb]. unfold cbind at 1, cret. cbn [w_len first_write]. rewrite Hn', He. by destruct s.
Qed.

Lemma sum_one e (s : dstate) : sum_sizes 1 0 {[0 := e]} 0 s = Ret (uwrap 64 (e_size e), s).
Proof using Type. done. Qed.

(** Updating a record that is there. *)
Lemma put_update ino l (s : @db_state D) : plain ino l -> INODE_NUM_START <= i_num (i_fixed ino) -> allocs s = [] ->
  is_Some (db_get (db s) (i_num (i_fixed ino))) ->
  exists s' tail, put_inode moves ino after 1 s = Ret (0, s') /\ allocs s' = [] /\
    db_get (db s') (i_num (i_fixed ino)) = Some (i_fixed ino ++ body l ++ tail).
Proof.
  intros Hp Hn Ha Hi. pose proof (plain_clients _ _ Hp). rewrite (put_inode_run moves ino l after 1 s Hp Hn ltac:(lia) Ha ltac:(unfold SIZEOF_PTR in *; lia)). cbn zeta. cbn [Z.eqb].
  pose proof (update_up (db s) (i_num (i_fixed ino)) (i_fixed ino ++ body l ++ sub 0 (SIZEOF_PTR * i_numclients (i_fixed ino)) after) Hi) as Hu.
  destruct (db_update _ _ _) as [r d'] eqn:E. cbn [fst] in Hu. rewrite (proj2 (Z.ltb_lt 0 r) Hu).
  eexists _, _. split; [reflexivity|]. split; [done|]. by eapply db_update_get.
Qed.

(** The first write of a file. *)
Lemma write_first (s : dstate) num time fixed chunks c d hw :
  ready s num time fixed [] chunks c -> chunk_ok c -> i_size fixed = 0 -> le (sub 0 4 fixed) = 0 ->
  h_name_len hw = 0 -> size d <= MAX_EXTENT_SIZE -> 0 <= crc d < 2 ^ 32 ->
  let h := extent_handle junk_handle time c in let e := new_extent ptr 0 (size d) (size d) (crc d) 1 h in
  exists s1, sstack_write all_memory time (first_write num d hw) s = Ret (Some (size d), s1) /\ allocs (ds s1) = [] /\
    (exists tail, db_get (db (ds s1)) num = Some (written locked fixed (size d) ++ body [(e, h)] ++ tail)) /\
    record_ok (written locked fixed (size d)) [(e, h)] /\ rep (dom s1) chunks /\
    next_scheduled (dom s1) = next_scheduled (dom s) + 1 /\ file (fs s1) (extent_name (cstr (mount_point c)) time) = Some d.
Proof.
  intros Hr Hc Hsz Hlk Hw Hd Hcrc h e.
  destruct (write_prefix s num time fixed [] chunks c d hw Hr Hw Hd Hcrc) as (ino & l' & s2 & Hrun & Hds & Hrep & Hfile & Hnext & Hfix & Hplain & Hsame).
  destruct Hr as [[tail Hdb] Hal Hrec Hnum Hst _ _ _ Hchunk _]. pose proof (rec_fixed _ _ Hrec) as Hf.
  pose proof (size_nonneg d) as Hd0. unfold MAX_EXTENT_SIZE in Hd.
  assert (Hh : size h = SIZEOF_HANDLE) by by apply extent_handle_size.
  destruct (new_extent_fields ptr h (size d) (crc d) Hptr Hh ltac:(lia) Hcrc) as (_ & Hes & _ & _ & _). fold e in Hes.
  rewrite Hrun. unfold store_extent. unfold cbind at 1. cbn zeta. cbn [fst snd].
  set (f1 := set_numreplicas 1 fixed).
  assert (Hf1 : size f1 = INODE_FIXED) by (unfold f1, set_numreplicas; auto with fields).
  assert (Hlk1 : le (sub 0 4 f1) = 0).
  { unfold f1, set_numreplicas. unfold INODE_FIXED in *. rewrite sub_set32_ne by lia. done. }
  assert (Hn1 : i_numextents f1 = 0) by (unfold f1; field_norm; exact (rec_extents _ _ Hrec)).
  assert (Hs1 : i_size f1 = 0) by (unfold f1; field_norm; exact Hsz).
  rewrite (add_first s2 chunks _ time c (with_fixed (set_numreplicas 1 (i_fixed ino)) ino) d (crc d) hw num Hrep Hchunk Hc);
    cbn [with_fixed i_fixed i_extent]; rewrite ?Hfix; fold f1; [|done..].
  fold h e. cbn [i_fixed i_extent i_xattr i_erasure i_sfsds fst snd].
  assert (Hn2 : i_numextents (set_numextents 1 (patch 0 locked f1)) = 1) by (field_norm; done). rewrite Hn2.
  change (count 1) with 1%nat. unfold cbind at 1. rewrite sum_one, Hes, uwrap_small by lia.
  unfold with_fixed. cbn [i_xattr i_erasure i_extent i_sfsds].
  change (set_size (size d) (set_numextents 1 (patch 0 locked f1))) with (written locked fixed (size d)).
  set (ino1 := mkInode (written _ _ _) _ _ _ _).
  assert (Hp1 : plain ino1 [(e, h)]) by (apply written_plain; [done|done|by apply new_extent_ok; try lia]).
  assert (Hnum1 : i_num (i_fixed ino1) = num) by (unfold ino1; cbn [i_fixed]; by rewrite written_num).
  destruct (put_update ino1 [(e, h)] (ds s2)) as (ds1 & tail1 & Hput & Hal1 & Hdb1);
    [done|by rewrite Hnum1|by rewrite Hds|rewrite Hnum1, Hds, Hdb; eauto|].
  assert (Hrec1 : record_ok (i_fixed ino1) [(e, h)]) by (by apply plain_record).
  rewrite Hnum1 in Hdb1.
  destruct (get_plain ptr num zero_inode _ _ _ ds1 Hrec1 Hst Hal1 Hptr Hdb1) as (ino2 & l2 & Hget & _).
  exists (mkD ds1 (dom s2) (fs s2)). unfold cbind at 1, on_ds at 1. rewrite Hput. unfold cbind at 1, on_ds. cbn [ds dom fs w_inode_no first_write].
  rewrite Hget. split_and!; [done|done|by exists tail1|done..].
Qed.


Lemma find_one ino raw h (s : dstate) : i_extent ino = {[0 := mkExtent raw (Some h)]} -> size h = SIZEOF_HANDLE ->
  find_extent 1 0 ino h s = Ret (Some 0, s).
Proof using Type.
  intros Hx Hh. cbn [find_extent]. change (SIZEOF_EXTENT * 0) with 0. rewrite Hx, lookup_singleton_eq. cbn [cexpect].
  unfold cbind at 1. unfold cret at 1. unfold cbind at 1. cbn [e_path read_ptr]. pose proof (size_nonneg h).
  rewrite <- Hh, read_at_run, sub_all by lia. by rewrite match_extent_refl.
Qed.

(** Reading the only extent of a file, from any offset on. *)
Lemma read_extent (s : dstate) num time fixed chunks k c d tail o :
  let h := extent_handle junk_handle time c in let e := new_extent ptr 0 (size d) (size d) (crc d) 1 h in
  record_ok fixed [(e, h)] -> INODE_NUM_START <= num -> allocs (ds s) = [] -> db_get (db (ds s)) num = Some (fixed ++ body [(e, h)] ++ tail) ->
  rep (dom s) chunks -> chunks !! k = Some c -> chunk_ok c -> (forall i c', (i < k)%nat -> chunks !! i = Some c' -> has_extent h c' = false) ->
  file (fs s) (extent_name (cstr (mount_point c)) time) = Some d -> size d < 2 ^ 31 -> 0 <= crc d < 2 ^ 32 -> 0 <= o < 2 ^ 63 ->
  direct_ok MAX_EXTENT_SIZE o ->
  let data := take (Z.to_nat MAX_EXTENT_SIZE) (drop (Z.to_nat o) d) in
  sstack_read all_read_memory (mkRead num o 0 h) s
  = Ret (if crc data =? crc d then (SSTACK_SUCCESS, Some (size data, data ++ drop (length data) fresh_buf)) else (- ENODATA, None), s).
Proof.
  intros h e Hrec Hst Hal Hdb Hrep Hk Hc Hfirst Hfile Hd Hcrc Ho Hdirect data. pose proof (size_nonneg d) as Hd0.
  assert (Hh : size h = SIZEOF_HANDLE) by by apply extent_handle_size.
  destruct (new_extent_fields ptr h (size d) (crc d) Hptr Hh ltac:(lia) Hcrc) as (Heo & Hes & Hek & _).
  destruct (get_plain ptr num zero_inode _ _ _ (ds s) Hrec Hst Hal Hptr Hdb) as (ino & l' & Hget & Hfix & _ & _ & _ & raw & Hexs & Hraw).
  destruct (same_fixed raw (e_raw e) (Some h) (Some h) Hraw) as (Eo & _ & Ek). fold e in Heo, Hek.
  change (mkExtent (e_raw e) (Some h)) with e in Eo, Ek. rewrite Heo in Eo. rewrite Hek in Ek.
  assert (Hmount : get_mount_path (Some h) (dom s) = Ret (Some (cstr (mount_point c), cstr (path c)), dom s)).
  { unfold get_mount_path, cbind, cget. destruct Hrep as [Hn Hs]. rewrite Hn, Nat2Z.id, (find_mount_run h (dom s) chunks) by (done || lia).
    rewrite drop_0, (filter_first _ chunks k c); [done|done|by apply chunk_has_extent|done]. }
  assert (Hext : get_extent ino h s = Ret (Some (0, extent_name (cstr (mount_point c)) time), s)).
  { unfold get_extent. rewrite Hfix, (rec_extents _ _ Hrec). change (count (Z.of_nat (length [(e, h)]))) with 1%nat.
    unfold cbind at 1. rewrite (find_one ino raw h s Hexs Hh).
    unfold cbind at 1, on_dom. rewrite Hmount.
    assert (Hm : (cstr (mount_point c) ++ drop (length (cstr (path c))) (h_name h))%list = extent_name (cstr (mount_point c)) time).
    { unfold h. rewrite extent_handle_name, drop_app_length by done. done. }
    rewrite Hm, (proj2 (Z.ltb_lt _ _)); [by destruct s|]. unfold extent_name. rewrite !size_app. change (size (bytes "/")) with 1.
    pose proof (base_name_size time). pose proof (chunk_mount _ Hc). unfold MAX_MOUNT_POINT_LEN, PATH_MAX in *. lia. }
  unfold Daemon.sstack_read. cbn [all_read_memory inode_ok buffer_ok negb r_inode_no r_handle r_ecode r_offset].
  unfold cbind at 1, on_ds. rewrite Hget. cbn [fst snd Z.eqb negb].
  replace (mkD (ds s) (dom s) (fs s)) with s by (by destruct s).
  unfold cbind at 1. rewrite Hext. change (SIZEOF_EXTENT * 0) with 0. rewrite Hexs, lookup_singleton_eq. cbn [cexpect].
  unfold cbind at 1. unfold cret at 1. rewrite Eo, Ek, Z.sub_0_r, swrap_small by lia.
  unfold cbind at 1, read_check_extent. unfold cbind at 1, cget.
  rewrite (pread_up (fs s) _ MAX_EXTENT_SIZE o d Hfile Hdirect) by (unfold MAX_EXTENT_SIZE; lia).
  change (take (Z.to_nat MAX_EXTENT_SIZE) (drop (Z.to_nat o) d)) with data.
  assert (Hdata : 0 <= size data < 2 ^ 31).
  { split; [apply size_nonneg|]. unfold data, size in *. rewrite length_take, length_drop. lia. }
  unfold cret at 1. cbn [fst snd]. destruct (crc data =? crc d); [|done]. rewrite swrap_small by lia. by rewrite (proj2 (Z.ltb_ge _ _)) by lia.
Qed.

(** C13. The first write of a file, of at most 64K and without plugins, on a chunk
    that has no file of the new name: it answers the number of bytes, the inode
    has their number as its size and one extent, and a read of the handle of
    that extent answers the bytes, provided no earlier chunk matches the handle
    and the file system takes a direct read of 64K at offset 0. *)
Theorem write_then_read (s : dstate) num time fixed chunks c d hw :
  ready s num time fixed [] chunks c -> chunk_ok c -> i_size fixed = 0 -> le (sub 0 4 fixed) = 0 ->
  h_name_len hw = 0 -> size d <= MAX_EXTENT_SIZE -> 0 <= crc d < 2 ^ 32 ->
  (forall i c', (i < Z.to_nat (turn s chunks))%nat -> chunks !! i = Some c' -> has_extent (extent_handle junk_handle time c) c' = false) ->
  direct_ok MAX_EXTENT_SIZE 0 ->
  exists s1 ino, sstack_write all_memory time (first_write num d hw) s = Ret (Some (size d), s1) /\
    get_inode ptr num zero_inode (ds s1) = Ret ((0, ino), ds s1) /\ i_size (i_fixed ino) = size d /\ i_numextents (i_fixed ino) = 1 /\
    sstack_read all_read_memory (mkRead num 0 0 (extent_handle junk_handle time c)) s1
    = Ret ((SSTACK_SUCCESS, Some (size d, d ++ drop (length d) fresh_buf)), s1).
Proof.
  intros Hr Hc Hsz Hlk Hw Hd Hcrc Hfirst Hdirect. pose proof (size_nonneg d) as Hd0.
  destruct (write_first s num time fixed chunks c d hw Hr Hc Hsz Hlk Hw Hd Hcrc) as (s1 & Hrun & Hal & (tail & Hdb) & Hrec & Hrep & _ & Hfile).
  destruct Hr as [_ _ Hrec0 _ Hst _ _ _ Hchunk _]. unfold MAX_EXTENT_SIZE in Hd. pose proof (rec_fixed _ _ Hrec0) as Hf.
  destruct (get_plain ptr num zero_inode _ _ _ (ds s1) Hrec Hst Hal Hptr Hdb) as (ino & _ & Hget & Hfix & _).
  exists s1, ino. split_and!; [done|done|rewrite Hfix; apply written_i_size; [done|done|lia]|rewrite Hfix; by apply written_numextents|].
  rewrite (read_extent s1 num time _ chunks _ c d tail 0 Hrec Hst Hal Hdb Hrep Hchunk Hc Hfirst Hfile) by (done || lia).
  change (Z.to_nat 0) with 0%nat. unfold MAX_EXTENT_SIZE. rewrite drop_0, take_ge by (unfold size in *; lia). by rewrite Z.eqb_refl.
Qed.

(** A read of that extent from a later byte compares the checksum of all the
    bytes with the one of the bytes from there on: it is refused. *)
Theorem read_from_middle_refused (s : dstate) num time fixed chunks c d hw o :
  ready s num time fixed [] chunks c -> chunk_ok c -> i_size fixed = 0 -> le (sub 0 4 fixed) = 0 ->
  h_name_len hw = 0 -> size d <= MAX_EXTENT_SIZE -> 0 <= crc d < 2 ^ 32 ->
  (forall i c', (i < Z.to_nat (turn s chunks))%nat -> chunks !! i = Some c' -> has_extent (extent_handle junk_handle time c) c' = false) ->
  0 <= o < 2 ^ 63 -> direct_ok MAX_EXTENT_SIZE o -> crc (drop (Z.to_nat o) d) <> crc d ->
  exists s1, sstack_write all_memory time (first_write num d hw) s = Ret (Some (size d), s1) /\
    sstack_read all_read_memory (mkRead num o 0 (extent_handle junk_handle time c)) s1 = Ret ((- ENODATA, None), s1).
Proof.
  intros Hr Hc Hsz Hlk Hw Hd Hcrc Hfirst Ho Hdirect Hne.
  destruct (write_first s num time fixed chunks c d hw Hr Hc Hsz Hlk Hw Hd Hcrc) as (s1 & Hrun & Hal & (tail & Hdb) & Hrec & Hrep & _ & Hfile).
  destruct Hr as [_ _ Hrec0 _ Hst _ _ _ Hchunk _]. unfold MAX_EXTENT_SIZE in Hd. exists s1. split; [done|].
  rewrite (read_extent s1 num time _ chunks _ c d tail o Hrec Hst Hal Hdb Hrep Hchunk Hc Hfirst Hfile) by (done || lia).
  unfold MAX_EXTENT_SIZE. rewrite take_ge by (unfold size in *; rewrite length_drop; lia). by rewrite (proj2 (Z.eqb_neq _ _) Hne).
Qed.

(** A write for an inode whose record says that its mutex is held: it answers
    NULL, or it does not return. *)
Lemma held_write_fails (s : dstate) num ino m time wc r s' :
  get_inode ptr num zero_inode (ds s) = Ret ((0, ino), ds s) -> size (i_fixed ino) = INODE_FIXED -> le (sub 0 4 (i_fixed ino)) <> 0 ->
  w_inode_no wc = num -> sstack_write m time wc s = Ret (r, s') -> r = None.
Proof using Type.
  intros Hget Hf Hheld Hnum Hr. unfold Daemon.sstack_write in Hr. destruct (inode_mem m); cbn [negb] in Hr; [|by injection Hr as <- _].
  unfold cbind at 1, on_ds at 1 in Hr. rewrite Hnum, Hget in Hr. cbn [fst snd Z.eqb negb] in Hr.
  destruct (h_name_len (w_handle wc) =? 0); cbn [negb] in Hr; [|case_match; [by injection Hr as <- _|done]].
  inv_bind Hr. case_match; [case_match; done|]. inv_bind Hr. inv_bind Hr. destruct (creat _ _) as [[e|] f].
  { inv_bind Hr. by injection Hr as <- _. }
  inv_bind Hr. destruct (w_offset wc =? 0); cbn [negb] in Hr; [|done].
  destruct (match w_plugins wc with [] => _ | _ => _ end) as [out_size buf]. inv_bind Hr. case_match; [by injection Hr as <- _|].
  unfold store_extent, add_extent, lock_inode, with_fixed in Hr. cbn zeta in Hr. unfold cbind at 1 2 in Hr. cbn [i_fixed] in Hr.
  unfold set_numreplicas, INODE_FIXED in *. rewrite sub_set32_ne in Hr by lia. rewrite (proj2 (Z.eqb_neq _ _) Hheld) in Hr. done.
Qed.

(** A new extent at another offset than 0 reads the extent before the first. *)
Lemma inner_write_faults (s : dstate) num ino time wc chunks c :
  get_inode ptr num zero_inode (ds s) = Ret ((0, ino), ds s) -> w_inode_no wc = num -> h_name_len (w_handle wc) = 0 -> w_offset wc <> 0 ->
  rep (dom s) chunks -> chunks !! Z.to_nat (turn s chunks) = Some c -> 0 <= next_scheduled (dom s) -> next_scheduled (dom s) + 1 < 2 ^ 31 ->
  Z.of_nat (length chunks) + 1 < 2 ^ 31 -> file (fs s) (extent_name (cstr (mount_point c)) time) = None ->
  sstack_write all_memory time wc s = Fault OutOfBounds.
Proof.
  intros Hget Hnum Hw Ho Hrep Hchunk Ht0 Ht1 Hcount Hfresh.
  assert (Hne : chunks <> []) by (intros ->; done).
  destruct (schedule_run (dom s) chunks Hrep Hne Ht0 Ht1 Hcount) as (dm & Hsched & Hrep' & _).
  destruct (creat_up (fs s) _ Hfresh) as (f1 & Hcreat & _).
  assert (Hturn : 0 <= turn s chunks) by (apply Z.mod_pos_bound; destruct chunks; [done|cbn; lia]).
  unfold Daemon.sstack_write. cbn [all_memory inode_mem negb]. unfold cbind at 1, on_ds. rewrite Hnum, Hget. cbn [fst snd Z.eqb negb].
  rewrite Hw. cbn [Z.eqb negb]. unfold cbind at 1, on_dom. cbn [dom ds fs]. rewrite Hsched. fold (turn s chunks).
  rewrite (proj2 (Z.ltb_ge _ 0)) by done. unfold cbind at 1. cbn [dom]. rewrite (load_run dm chunks _ c Hrep' Hchunk). cbn [ds fs dom].
  unfold cbind at 1, cget. cbn [fs]. rewrite Hcreat. unfold cbind at 1, cput. by rewrite (proj2 (Z.eqb_neq _ _) Ho).
Qed.

(** C39. The lock of the inode is stored while it is held. After the first write of
    a file no later write of it succeeds: whatever the command, its offset, its
    data, its plugins and the memory, it answers NULL or does not return.
    A write of a new extent on a chunk without a file of the new name does not
    return: at offset 0 (without plugins, of at most 64K) it waits for the
    lock for ever, at another offset it reads the extent before the first. *)
Theorem second_write_hangs (s : dstate) num time fixed chunks c d hw :
  ready s num time fixed [] chunks c -> chunk_ok c -> i_size fixed = 0 -> le (sub 0 4 fixed) = 0 ->
  h_name_len hw = 0 -> size d <= MAX_EXTENT_SIZE -> 0 <= crc d < 2 ^ 32 ->
  le (sub 0 4 locked) <> 0 -> next_scheduled (dom s) + 2 < 2 ^ 31 ->
  exists s1, sstack_write all_memory time (first_write num d hw) s = Ret (Some (size d), s1) /\
    (forall m time2 wc r s2, w_inode_no wc = num -> sstack_write m time2 wc s1 = Ret (r, s2) -> r = None) /\
    forall time2 c2, chunks !! Z.to_nat (turn s1 chunks) = Some c2 -> file (fs s1) (extent_name (cstr (mount_point c2)) time2) = None ->
      (forall d2 hw2, h_name_len hw2 = 0 -> size d2 <= MAX_EXTENT_SIZE -> 0 <= crc d2 < 2 ^ 32 ->
         sstack_write all_memory time2 (first_write num d2 hw2) s1 = Fault Deadlock) /\
      (forall wc, w_inode_no wc = num -> h_name_len (w_handle wc) = 0 -> w_offset wc <> 0 ->
         sstack_write all_memory time2 wc s1 = Fault OutOfBounds).
Proof.
  intros Hr Hc Hsz Hlk Hw Hd Hcrc Hheld Hturn.
  destruct (write_first s num time fixed chunks c d hw Hr Hc Hsz Hlk Hw Hd Hcrc) as (s1 & Hrun & Hal & (tail & Hdb) & Hrec & Hrep & Hnext & _).
  destruct Hr as [_ _ Hrec0 Hnum Hst _ [Ht0 Ht1] Hcount _ _]. pose proof (rec_fixed _ _ Hrec0) as Hf.
  pose proof (written_size locked fixed Hlocked Hf (size d)) as Hws.
  destruct (get_plain ptr num zero_inode _ _ _ (ds s1) Hrec Hst Hal Hptr Hdb) as (ino & _ & Hget & Hfix & _).
  exists s1. split_and!; [done| |].
  - intros m time2 wc r s2 Hn Hr2. eapply held_write_fails; [exact Hget|by rewrite Hfix| |exact Hn|exact Hr2].
    rewrite Hfix, written_lock; done.
  - intros time2 c2 Hc2 Hfresh. split; intros *.
    + intros Hw2 Hd2 Hcrc2.
      assert (Hr2 : ready s1 num time2 (written locked fixed (size d))
        [(new_extent ptr 0 (size d) (size d) (crc d) 1 (extent_handle junk_handle time c), extent_handle junk_handle time c)] chunks c2).
      { split; [by exists tail|done|exact Hrec|by rewrite written_num|done|done|lia|done|done|done]. }
      destruct (write_prefix s1 num time2 _ _ chunks c2 d2 hw2 Hr2 Hw2 Hd2 Hcrc2) as (ino2 & l' & s2 & Hrun2 & _ & _ & _ & _ & Hfix2 & _).
      rewrite Hrun2. unfold store_extent, cbind at 1. cbn zeta. unfold add_extent, cbind at 1, lock_inode, with_fixed. cbn [i_fixed]. rewrite Hfix2.
      unfold set_numreplicas, INODE_FIXED in *. rewrite sub_set32_ne by lia. rewrite written_lock by done. by rewrite (proj2 (Z.eqb_neq _ _) Hheld).
    + intros Hn Hw2 Ho. by eapply inner_write_faults; [exact Hget|done|done|done|exact Hrep|exact Hc2|lia|lia|done|done].
Qed.

(** A write for an inode that the database does not have brings the daemon
    down: the answer is NULL and its header is filled. *)
Theorem unknown_inode_faults (s : dstate) m time c : db_get (db (ds s)) (w_inode_no c) = None ->
  handle_command moves ptr after crc locked junk_handle fresh_buf (NfsWrite m time c) s = Fault NullDeref.
Proof using Type.
  intros Hdb. cbn [handle_command]. unfold cbind at 1, Daemon.sstack_write. destruct (inode_mem m); [|done]. cbn [negb].
  unfold cbind at 1, on_ds, get_inode. destruct (w_inode_no c <? INODE_NUM_START); [done|].
  unfold cbind at 1, cget. rewrite Hdb. done.
Qed.

(** When the file of an extent cannot be read, the read answers success, with
    the error number as the length of the data. *)
Theorem read_error_is_data (s : dstate) m c ino i path e err :
  get_inode ptr (r_inode_no c) zero_inode (ds s) = Ret ((0, ino), ds s) -> get_extent ino (r_handle c) s = Ret (Some (i, path), s) ->
  inode_ok m = true -> buffer_ok m = true -> r_ecode c = 0 -> i_extent ino !! (SIZEOF_EXTENT * i) = Some e ->
  pread (fs s) path MAX_EXTENT_SIZE (swrap 64 (r_offset c - e_offset e)) = inl err -> 0 < err ->
  sstack_read m c s = Ret ((SSTACK_SUCCESS, Some (err, fresh_buf)), s).
Proof using Type.
  intros Hget Hext Hm Hb He Hi Hp Herr. unfold Daemon.sstack_read. rewrite Hm. cbn [negb]. unfold cbind at 1, on_ds. rewrite Hget. cbn [fst snd Z.eqb negb].
  replace (mkD (ds s) (dom s) (fs s)) with s by (by destruct s). unfold cbind at 1. rewrite Hext, He, Hb. cbn [Z.eqb negb].
  rewrite Hi. cbn [cexpect]. unfold cbind at 1. unfold cret at 1. unfold cbind at 1, read_check_extent. unfold cbind at 1, cget. rewrite Hp.
  unfold cret at 1. cbn [fst snd]. by rewrite (proj2 (Z.ltb_ge _ _)) by lia.
Qed.

(** The command for the erasure code comes back only when the inode has no
    extent to encode. *)
Theorem esure_encodes_nothing m mem c (s : dstate) r s' :
  sstack_esure_code ptr m mem c s = Ret (r, s') ->
  r = SSTACK_SUCCESS /\ exists ino s1 start, on_ds (get_inode ptr (es_inode_no c) mem) s = Ret ((0, ino), s1) /\
    min_start (count (num_blocks c - 1)) 1 (hd 0 (start_exts c)) (start_exts c) s1 = Ret (start, s') /\
    i_numextents (i_fixed ino) <= start - Z.rem start MAX_DATA_STRIPES.
Proof using Type.
  unfold sstack_esure_code. destruct (es_inode m); [|done]. cbn [negb]. intros Hr. inv_bind Hr. destruct a as [r0 ino]. cbn [fst snd] in Hr.
  destruct (Z.eqb_spec r0 0) as [->|]; [|done]. cbn [negb] in Hr. destruct (num_blocks c =? 0); [done|].
  destruct (start_exts c) as [|x l]; [done|]. cbn [lookup list_lookup cexpect hd] in *. inv_bind Hr. injection E0 as <- <-. inv_bind Hr.
  destruct (d_fails m); [done|]. destruct (c_fails m); [done|]. destruct (Z.ltb_spec (a - Z.rem a MAX_DATA_STRIPES) (i_numextents (i_fixed ino))) as [Hlt|Hge].
  - repeat case_match; done.
  - injection Hr as <- <-. split; [done|]. eauto 10.
Qed.
End Io.

(** * Commands on names *)

(** A handle with the name [x] and its length. *)
Record named_handle (h x : list Z) : Prop := {
  nh_size : size h = SIZEOF_HANDLE;
  nh_bytes : Forall (fun b => 0 <= b < 256) h;
  nh_name : h_name h = x;
  nh_len : h_name_len h = size x;
  nh_fits : 0 < size x < PATH_MAX
}.

Lemma cstr_take i b : (i < length (cstr b))%nat -> cstr (take i b ++ 0 :: drop (S i) b) = take i (cstr b).
Proof.
  revert i. induction b as [|c b IH]; intros i; cbn [cstr length]; [lia|]. destruct (c =? 0) eqn:Ec; cbn [length]; [lia|].
  intros Hi. destruct i as [|i]; [done|]. cbn. rewrite Ec. f_equal. apply IH. lia.
Qed.

(** A NUL inside an array. *)
Lemma sub_patch_inside off len i f : 0 <= off -> 0 <= i < len -> off + len <= size f ->
  sub off len (patch (off + i) [0] f) = (take (Z.to_nat i) (sub off len f) ++ 0 :: drop (S (Z.to_nat i)) (sub off len f))%list.
Proof.
  intros Ho Hi Hl. unfold sub, patch, size in *. cbn [length].
  replace (Z.to_nat (off + i)) with (Z.to_nat off + Z.to_nat i)%nat by lia. rewrite <- take_take_drop, <- app_assoc.
  rewrite drop_app_length' by (rewrite length_take; lia). cbn [app].
  rewrite take_app_ge by (rewrite length_take, length_drop; lia). rewrite take_take, skipn_firstn_comm, drop_drop.
  rewrite length_take, length_drop. f_equal; [f_equal; lia|].
  replace (Z.to_nat len - Z.to_nat i `min` (length f - Z.to_nat off))%nat with (S (Z.to_nat len - S (Z.to_nat i))) by lia.
  cbn [take]. do 3 f_equal. lia.
Qed.

Lemma cut_run {D F} h x (s : @dstate D F) : named_handle h x -> cut_name h s = Ret (take (length x - 1) x, s).
Proof.
  intros [Hs _ Hx Hn [H0 Hl]]. unfold cut_name, end_name, cbind. rewrite Hn, uwrap_small by (unfold PATH_MAX in *; lia).
  rewrite (proj2 (Z.ltb_lt _ _)) by lia. unfold cret, h_name, SIZEOF_HANDLE, PATH_MAX in *. rewrite sub_patch_inside by lia.
  rewrite cstr_take; unfold h_name, PATH_MAX in Hx; rewrite Hx; unfold size in *; [|lia]. do 3 f_equal. lia.
Qed.

Lemma le_app a b : le (a ++ b) = le a + 2 ^ (8 * Z.of_nat (length a)) * le b.
Proof.
  induction a as [|c a IH]; [cbn [app le length]; rewrite Z.mul_1_l; done|]. cbn [app le length]. rewrite IH.
  replace (8 * Z.of_nat (S (length a))) with (8 + 8 * Z.of_nat (length a)) by lia. rewrite Z.pow_add_r by lia. change (2 ^ 8) with 256. lia.
Qed.
Lemma le_nonneg a : Forall (fun b => 0 <= b < 256) a -> 0 <= le a.
Proof. induction 1; cbn [le]; lia. Qed.

Lemma old_ok_name_len h x q m : named_handle h x -> old_command_ok (mkPayload h q m) = size x.
Proof.
  intros [Hs Hb _ Hn [H0 Hl]]. unfold old_command_ok. cbn [p_handle]. unfold h_name_len in Hn.
  assert (Hsub : sub 0 8 h = (sub 0 4 h ++ sub 4 4 h)%list).
  { unfold sub. change (Z.to_nat 0) with 0%nat. rewrite !drop_0. exact (eq_sym (take_take_drop h 4 4)). }
  assert (H4 : length (sub 0 4 h) = 4%nat) by (unfold sub; rewrite length_take, length_drop; unfold size, SIZEOF_HANDLE in Hs; lia).
  rewrite Hsub, le_app, H4 in Hn. change (2 ^ (8 * Z.of_nat 4)) with 4294967296 in Hn. unfold PATH_MAX in Hl.
  assert (0 <= le (sub 0 4 h) /\ 0 <= le (sub 4 4 h)) as [? ?] by (split; apply le_nonneg; unfold sub; apply Forall_take, Forall_drop, Hb).
  rewrite swrap_small by lia. lia.
Qed.

Section Names.
Context {D : Type} `{InodeDb D} {F : Type} `{Disk F} `{PathCalls F}.
Context (moves : bool) (ptr after : list Z) (crc : list Z -> Z) (locked junk_handle fresh_buf : list Z).
Abbreviation handle_command := (handle_command (D := D) (F := F) moves ptr after crc locked junk_handle fresh_buf).

(** A removal takes the last byte of the name away and removes what has the
    name that is left. *)
Theorem remove_cuts_name (s : @dstate D F) h x q m : named_handle h x ->
  handle_command (NfsRemove (mkPayload h q m)) s
  = let '(stat, _, _, _, f) := path_sys (fs s) (PRemove (take (length x - 1) x)) in Ret ((stat, Nothing), mkD (ds s) (dom s) f).
Proof.
  intros Hh. cbn [Daemon.handle_command]. unfold sstack_remove, cbind at 1. cbn [p_handle]. rewrite (cut_run _ _ _ Hh).
  unfold cbind at 1, call, cbind at 1, cget. destruct (path_sys _ _) as [[[[r e] st] b] f]. done.
Qed.

(** A renaming that succeeds answers with the length of the old name instead of
    a success code. *)
Theorem rename_answers_length (s : @dstate D F) h x h' y m e st b f :
  named_handle h x -> named_handle h' y ->
  path_sys (fs s) (PRename (take (length x - 1) x) (take (length y - 1) y)) = ((0, e, st, b), f) ->
  handle_command (NfsRename (mkPayload h h' m)) s = Ret ((size x, Nothing), mkD (ds s) (dom s) f).
Proof.
  intros Hh Hh' Hp. cbn [Daemon.handle_command]. unfold sstack_rename, two_names, cbind at 1. cbn [p_handle p_new]. rewrite (cut_run _ _ _ Hh).
  unfold cbind at 1. rewrite (cut_run _ _ _ Hh'). unfold cbind at 1, call, cbind at 1, cget. rewrite Hp. cbn.
  by rewrite (old_ok_name_len h x h' m Hh).
Qed.
End Names.

End DaemonProps.

(** * Examples *)
Module DaemonDemo.
Import InodeFields Chunks ChunksDemo Daemon DaemonProps.

(** Files as an association list. *)
Definition files : Type := list (list Z * list Z).
Fixpoint content (f : files) (p : list Z) : option (list Z) :=
  match f with
  | [] => None
  | (q, d) :: f' => if bool_decide (p = q) then Some d else content f' p
  end.
#[local] Instance files_disk : Disk files := {
  pread f p n off := match content f p with None => inl 2 | Some d => if off <? 0 then inl 22 else inr (take (Z.to_nat n) (drop (Z.to_nat off) d)) end;
  creat f p := match content f p with None => (None, (p, []) :: f) | Some _ => (None, f) end;
  pwrite f p x := match content f p with None => (inl 2, f) | Some d => (inr (size x), (p, (x ++ drop (length x) d)%list) :: f) end
}.
Definition any_direct (n off : Z) : Prop := True.
#[local] Instance files_up : DiskUp files content any_direct.
Proof.
  split; cbn.
  - intros f p ->. eexists. split; [reflexivity|]. cbn. by rewrite bool_decide_true.
  - intros f p d x ->. eexists. split; [reflexivity|]. cbn. by rewrite bool_decide_true.
  - intros f p n off d -> _ Hn Ho. by rewrite (proj2 (Z.ltb_ge _ _)) by lia.
Qed.
Definition no_stat : FileOps.stat := FileOps.mkStat 0 0 0 0 0 0 [] [] [].
#[local] Instance files_paths : PathCalls files := fun f c =>
  match c with
  | PRemove p => match content f p with
                 | Some _ => ((0, 0, no_stat, []), List.filter (fun e => negb (bool_decide (e.1 = p))) f)
                 | None => ((-1, 2, no_stat, []), f)
                 end
  | PRename p q => match content f p with
                   | Some d => ((0, 0, no_stat, []), (q, d) :: List.filter (fun e => negb (bool_decide (e.1 = p))) f)
                   | None => ((-1, 2, no_stat, []), f)
                   end
  | _ => ((-1, 2, no_stat, []), f)
  end.

Definition demo_state : @dstate (gmap Z (list Z)) files :=
  mkD (mkDb [] {[7 := demo_fixed 0 0]}) demo_domain [].
Definition demo_sum (d : list Z) : Z := uwrap 32 (foldr Z.add 0 d).
Definition held : list Z := 1 :: zeros 39.
Definition demo_data : list Z := bytes "hello".
Definition b_file : list Z := extent_name (bytes "/tmp/mb") 1400000000.

Lemma demo_chunk_ok : chunk_ok (demo_chunk "b").
Proof. split; vm_compute; split || idtac; (reflexivity || discriminate). Qed.
Lemma demo_ready : ready content demo_state 7 1400000000 (demo_fixed 0 0) [] demo_chunks (demo_chunk "b").
Proof.
  split; [exists []; vm_compute; reflexivity|done| |vm_compute; reflexivity|vm_compute; discriminate|by split|
    by split|done|vm_compute; reflexivity|vm_compute; reflexivity].
  split; [vm_compute; reflexivity..|constructor|vm_compute; split; discriminate|cbn; lia].
Qed.
Lemma demo_first i c' : (i < Z.to_nat (turn demo_state demo_chunks))%nat -> demo_chunks !! i = Some c' ->
  has_extent (extent_handle (zeros 4152) 1400000000 (demo_chunk "b")) c' = false.
Proof.
  change (Z.to_nat (turn demo_state demo_chunks)) with 1%nat. intros Hi. replace i with 0%nat by lia. intros [= <-]. vm_compute. reflexivity.
Qed.

Abbreviation write := (sstack_write false (zeros 8) (zeros 8) demo_sum held (zeros 4152)).
Abbreviation read := (sstack_read (zeros 8) demo_sum (zeros 65536)).
Abbreviation h_b := (extent_handle (zeros 4152) 1400000000 (demo_chunk "b")).

Lemma write_then_read_witness :
  exists s1 ino, write all_memory 1400000000 (first_write 7 demo_data (zeros 4152)) demo_state = Ret (Some (size demo_data), s1) /\
    get_inode (zeros 8) 7 zero_inode (ds s1) = Ret ((0, ino), ds s1) /\ i_size (i_fixed ino) = size demo_data /\ i_numextents (i_fixed ino) = 1 /\
    read all_read_memory (mkRead 7 0 0 h_b) s1 = Ret ((SSTACK_SUCCESS, Some (size demo_data, demo_data ++ drop (length demo_data) (zeros 65536))), s1).
Proof.
  refine (write_then_read content any_direct false (zeros 8) (zeros 8) demo_sum held (zeros 4152) (zeros 65536) _ _ _ _ demo_state 7 1400000000 _ _ _ demo_data
    (zeros 4152) demo_ready demo_chunk_ok _ _ _ _ _ demo_first I); vm_compute; try split; (reflexivity || discriminate).
Defined.

(** Three files are written first in the same second, with two chunks: the
    extents of the first and the third one have the same file. The read of the
    first one fails its checksum. *)
Definition fresh_record (n : Z) : list Z := patch 4256 (le_bytes 8 n) (demo_fixed 0 0).
Definition clash_state : @dstate (gmap Z (list Z)) files :=
  mkD (mkDb [] {[7 := fresh_record 7; 8 := fresh_record 8; 9 := fresh_record 9]}) demo_domain [].
Definition first_of (n : Z) (d : list Z) : cprog (@dstate (gmap Z (list Z)) files) (option Z) :=
  write all_memory 1400000000 (first_write n d (zeros 4152)).
(** The code of the answer to a read of the first file, and its data. *)
Definition read_first : cprog (@dstate (gmap Z (list Z)) files) (Z * option (list Z)) :=
  (let! r := read all_read_memory (mkRead 7 0 0 h_b) in
   cret (r.1, match r.2 with Some (n, b) => Some (take (Z.to_nat n) b) | None => None end))%cprog.
Definition clash : cprog (@dstate (gmap Z (list Z)) files) (list (option Z) * (Z * option (list Z)) * (Z * option (list Z))) :=
  (let! r7 := first_of 7 demo_data in
   let! before := read_first in
   let! r8 := first_of 8 demo_data in
   let! r9 := first_of 9 (bytes "Hello") in
   let! after := read_first in
   cret ([r7; r8; r9], before, after))%cprog.
Theorem same_second_clash :
  match clash clash_state with
  | Ret (r, _) => r = ([Some 5; Some 5; Some 5], (SSTACK_SUCCESS, Some demo_data), (- ENODATA, None))
  | Fault _ => False
  end.
Proof. vm_compute. reflexivity. Qed.

Lemma read_from_middle_refused_witness :
  exists s1, write all_memory 1400000000 (first_write 7 demo_data (zeros 4152)) demo_state = Ret (Some (size demo_data), s1) /\
    read all_read_memory (mkRead 7 2 0 h_b) s1 = Ret ((- ENODATA, None), s1).
Proof.
  refine (read_from_middle_refused content any_direct false (zeros 8) (zeros 8) demo_sum held (zeros 4152) (zeros 65536) _ _ _ _ demo_state 7 1400000000 _ _ _ demo_data
    (zeros 4152) 2 demo_ready demo_chunk_ok _ _ _ _ _ demo_first _ I _); vm_compute; try split; (reflexivity || discriminate).
Defined.

Lemma second_write_hangs_witness :
  exists s1, write all_memory 1400000000 (first_write 7 demo_data (zeros 4152)) demo_state = Ret (Some (size demo_data), s1) /\
    write all_memory 1400000001 (first_write 7 demo_data (zeros 4152)) s1 = Fault Deadlock /\
    write all_memory 1400000001 (mkWrite 7 3 5 5 (Some demo_data) [] (zeros 4152)) s1 = Fault OutOfBounds.
Proof.
  destruct (second_write_hangs content any_direct false (zeros 8) (zeros 8) demo_sum held (zeros 4152) (zeros 65536) ltac:(reflexivity) ltac:(vm_compute; discriminate)
    ltac:(reflexivity) ltac:(vm_compute; reflexivity) demo_state 7 1400000000 _ _ _ demo_data (zeros 4152) demo_ready demo_chunk_ok
    ltac:(vm_compute; reflexivity) ltac:(vm_compute; reflexivity) ltac:(vm_compute; reflexivity) ltac:(vm_compute; discriminate)
    ltac:(vm_compute; split; (reflexivity || discriminate)) ltac:(vm_compute; discriminate) ltac:(reflexivity)) as (s1 & Hrun & _ & Hhang).
  exists s1. split; [exact Hrun|].
  assert (E : match write all_memory 1400000000 (first_write 7 demo_data (zeros 4152)) demo_state with
              | Ret (_, x) => (next_scheduled (dom x), content (fs x) (extent_name (bytes "/tmp/ma") 1400000001))
              | _ => (0, None)
              end = (2, None)) by (vm_compute; reflexivity).
  rewrite Hrun in E. injection E as Hn Hfile.
  destruct (Hhang 1400000001 (demo_chunk "a")) as [H1 H2]; [unfold turn; rewrite Hn; reflexivity|exact Hfile|].
  split; [apply H1|apply H2]; vm_compute; try split; (reflexivity || discriminate).
Defined.

Lemma unknown_inode_faults_witness :
  handle_command false (zeros 8) (zeros 8) demo_sum held (zeros 4152) (zeros 65536) (NfsWrite all_memory 1400000000 (first_write 8 demo_data (zeros 4152))) demo_state
  = Fault NullDeref.
Proof. apply (unknown_inode_faults false (zeros 8) (zeros 8) demo_sum held (zeros 4152) (zeros 65536)). vm_compute. reflexivity. Defined.

(** The extent of inode 7 is there, its file is not. *)
Definition lost_inode : sstack_inode := mkInode (demo_fixed 1 0) None ∅ {[0 := new_extent (zeros 8) 0 5 5 0 1 h_b]} (Some []).
Definition lost_state : @dstate (gmap Z (list Z)) files :=
  mkD (mkDb [] {[7 := demo_fixed 1 0 ++ body [(new_extent (zeros 8) 0 5 5 0 1 h_b, h_b)] ++ zeros 8]}) demo_domain [].
Lemma read_error_is_data_witness :
  read all_read_memory (mkRead 7 0 0 h_b) lost_state = Ret ((SSTACK_SUCCESS, Some (2, zeros 65536)), lost_state).
Proof.
  apply (read_error_is_data (zeros 8) demo_sum (zeros 65536) lost_state all_read_memory (mkRead 7 0 0 h_b) lost_inode 0 b_file (new_extent (zeros 8) 0 5 5 0 1 h_b) 2);
    vm_compute; reflexivity.
Defined.

Definition empty_esure : esure_cmd := mkEsure 7 1 [0].
Lemma esure_encodes_nothing_witness : exists s', sstack_esure_code (zeros 8) (mkEsureMem true None None) zero_inode empty_esure demo_state = Ret (SSTACK_SUCCESS, s') /\
  exists ino s1 start, on_ds (get_inode (zeros 8) 7 zero_inode) demo_state = Ret ((0, ino), s1) /\
    min_start 0 1 0 [0] s1 = Ret (start, s') /\ i_numextents (i_fixed ino) <= start - Z.rem start MAX_DATA_STRIPES.
Proof.
  assert (E : exists s', sstack_esure_code (zeros 8) (mkEsureMem true None None) zero_inode empty_esure demo_state = Ret (SSTACK_SUCCESS, s'))
    by (eexists; vm_compute; reflexivity).
  destruct E as [s' E]. exists s'. split; [exact E|]. exact (proj2 (esure_encodes_nothing (zeros 8) (mkEsureMem true None None) zero_inode empty_esure demo_state _ _ E)).
Defined.

(** Handles with the names "/tmp/mb/x1" and "/tmp/mb/y1". *)
Definition name_handle (s : string) : list Z := (le_bytes 8 (size (bytes s)) ++ pad 4096 (bytes s) ++ zeros 48)%list.
Definition named_state : @dstate (gmap Z (list Z)) files := mkD (mkDb [] ∅) demo_domain [(bytes "/tmp/mb/x", [1]); (bytes "/tmp/mb/x1", [2])].
Lemma check_bytes l : forallb (fun b => (0 <=? b) && (b <? 256)) l = true -> Forall (fun b => 0 <= b < 256) l.
Proof.
  induction l as [|b l IH]; [constructor|]. cbn [forallb]. intros Hl. apply andb_prop in Hl as [Hb Hl]. apply andb_prop in Hb as [H1 H2].
  constructor; [lia|by apply IH].
Qed.
Lemma demo_named s : s = "/tmp/mb/x1"%string \/ s = "/tmp/mb/y1"%string -> named_handle (name_handle s) (bytes s).
Proof.
  intros [->| ->]; (split; [vm_compute; reflexivity|apply check_bytes; vm_compute; reflexivity|vm_compute; reflexivity|vm_compute; reflexivity|by vm_compute]).
Qed.

Abbreviation handle := (handle_command false (zeros 8) (zeros 8) demo_sum held (zeros 4152) (zeros 65536)).

Lemma remove_cuts_name_witness :
  handle (NfsRemove (mkPayload (name_handle "/tmp/mb/x1") [] 0)) named_state
  = Ret ((0, Nothing), mkD (mkDb [] ∅) demo_domain [(bytes "/tmp/mb/x1", [2])]).
Proof.
  rewrite (remove_cuts_name false (zeros 8) (zeros 8) demo_sum held (zeros 4152) (zeros 65536) named_state _ (bytes "/tmp/mb/x1") [] 0 (demo_named _ (or_introl eq_refl))).
  vm_compute. reflexivity.
Defined.

Lemma rename_answers_length_witness :
  handle (NfsRename (mkPayload (name_handle "/tmp/mb/x1") (name_handle "/tmp/mb/y1") 0)) named_state
  = Ret ((10, Nothing), mkD (mkDb [] ∅) demo_domain [(bytes "/tmp/mb/y", [1]); (bytes "/tmp/mb/x1", [2])]).
Proof.
  apply (rename_answers_length false (zeros 8) (zeros 8) demo_sum held (zeros 4152) (zeros 65536) named_state _ (bytes "/tmp/mb/x1") _ (bytes "/tmp/mb/y1") 0 0 no_stat []
    _ (demo_named _ (or_introl eq_refl)) (demo_named _ (or_intror eq_refl))).
  vm_compute. reflexivity.
Defined.
End DaemonDemo.
